(** * templUI client-side runtime: step sequencer, date pipeline, selection control

    A shallow embedding of three scripts of the repository,
      - internal/components/stepper/stepper.js
          (modules [Stepper] and [StepperButtons]),
      - the date picker script
          (modules [DatePicker] and [DatePickerInit]),
      - internal/components/selectbox/selectbox.js
          (modules [SelectBox] and [SelectKeys]),
    together with the properties their specification states about them and
    further properties of the code.

    Conventions.  A JavaScript number that the scripts only ever obtain from
    [parseInt] or from a list length is an integer or NaN ([JS.num]).  A
    string is the sequence of its code units, and a character of the model is
    one code unit below 256 (U+0000 to U+00FF); white space and letter case
    are those of Unicode on these code units.  DOM
    nodes are records holding the attributes and children the scripts read or
    write; a missing node or attribute is [None].  Code that can throw returns
    in an error monad that keeps the mutations made before the throw. *)

From Stdlib Require Import Ascii String ZArith Lia DecimalString.
From Stdlib Require DecimalPos.
From stdpp Require Import gmap strings list.

Local Open Scope string_scope.
Local Open Scope Z_scope.

(** ** The fragment of JavaScript the scripts rely on *)
Module JS.

(** Numbers as produced by [parseInt], [length] and integer arithmetic. *)
Inductive num := NaN | Num (z : Z).

Global Instance num_eq_dec : EqDecision num.
Proof. solve_decision. Defined.

(** [a < b], [a > b], [a === b]: every comparison with NaN is false. *)
Definition lt (a b : num) : bool :=
  match a, b with Num x, Num y => x <? y | _, _ => false end.
Definition gt (a b : num) : bool := lt b a.
Definition strict_eq (a b : num) : bool :=
  match a, b with Num x, Num y => x =? y | _, _ => false end.

(** [a || d] on numbers: NaN and 0 are falsy. *)
Definition or_else (a d : num) : num :=
  match a with NaN => d | Num 0 => d | Num _ => a end.

Definition add (a b : num) : num :=
  match a, b with Num x, Num y => Num (x + y) | _, _ => NaN end.
Definition sub (a b : num) : num :=
  match a, b with Num x, Num y => Num (x - y) | _, _ => NaN end.

(** [String(z)] for an integer. *)
Definition string_of_Z (z : Z) : string := NilZero.string_of_int (Z.to_int z).

Definition toString (a : num) : string :=
  match a with NaN => "NaN" | Num z => string_of_Z z end.

(** [s.padStart(n, "0")]. *)
Definition padStart (n : nat) (s : string) : string :=
  String.concat "" (replicate (n - String.length s) "0") ++ s.

(** What a [throw] carries, as far as the scripts can raise one. *)
Inductive Exn := TypeError | RangeError | SyntaxError.

(** Outcome of an expression that may throw. *)
Definition Res (A : Type) : Type := A + Exn.
Definition try_catch {A} (body : Res A) (handler : Exn → Res A) : Res A :=
  match body with inl a => inl a | inr e => handler e end.

(** *** parseInt *)

(** The white space and line terminators of the language among the code
    units below 256: TAB, LF, VT, FF, CR, SPACE and NO-BREAK SPACE (U+00A0).
    [parseInt] skips them and [trim] strips them. *)
Definition is_space (c : ascii) : bool :=
  let n := N_of_ascii c in
  ((9 <=? n) && (n <=? 13))%N || (n =? 32)%N || (n =? 160)%N.

(** Value of a character as a digit, in any radix up to 36. *)
Definition digit_value (c : ascii) : option Z :=
  let n := Z.of_N (N_of_ascii c) in
  if (48 <=? n) && (n <=? 57) then Some (n - 48)
  else if (97 <=? n) && (n <=? 122) then Some (n - 87)
  else if (65 <=? n) && (n <=? 90) then Some (n - 55)
  else None.

Definition radix_digit (R : Z) (c : ascii) : option Z :=
  match digit_value c with
  | Some d => if d <? R then Some d else None
  | None => None
  end.

Fixpoint skip_spaces (s : string) : string :=
  match s with
  | String c r => if is_space c then skip_spaces r else s
  | EmptyString => s
  end.

(** Longest prefix of radix-[R] digits, accumulated from the left;
    [None] when that prefix is empty. *)
Fixpoint digits_prefix (R : Z) (acc : option Z) (s : string) : option Z :=
  match s with
  | String c r =>
      match radix_digit R c with
      | Some d => digits_prefix R (Some (default 0 acc * R + d)) r
      | None => acc
      end
  | EmptyString => acc
  end.

Definition strip_hex_prefix (s : string) : option string :=
  match s with
  | String "0" (String "x" r) => Some r
  | String "0" (String "X" r) => Some r
  | _ => None
  end.

(** [parseInt(s, radix)]; [radix = 0] stands for an omitted radix. *)
Definition parseInt (radix : Z) (s : string) : num :=
  let S0 := skip_spaces s in
  let '(sign, S1) :=
    match S0 with
    | String "-" r => (-1, r)
    | String "+" r => (1, r)
    | _ => (1, S0)
    end in
  if negb (radix =? 0) && ((radix <? 2) || (36 <? radix)) then NaN
  else
    let '(R, S2) :=
      if (radix =? 0) || (radix =? 16) then
        match strip_hex_prefix S1 with
        | Some r => (16, r)
        | None => (if radix =? 0 then 10 else radix, S1)
        end
      else (radix, S1) in
    match digits_prefix R None S2 with
    | Some m => Num (sign * m)
    | None => NaN
    end.

(** [parseInt(x)] where [x] is a dataset entry: a missing attribute reads
    as [undefined], whose string form has no digits. *)
Definition parseInt_attr (radix : Z) (a : option string) : num :=
  match a with Some s => parseInt radix s | None => NaN end.

(** [classList.remove] and [classList.add]. *)
Definition class_remove (names cl : list string) : list string :=
  filter (fun c => c ∉ names) cl.
Definition class_add (names cl : list string) : list string :=
  foldl (fun (acc : list string) c => if decide (c ∈ acc) then acc else (acc ++ [c])%list)
    cl names.
Definition class_contains (c : string) (cl : list string) : bool :=
  bool_decide (c ∈ cl).

(** A value can stand between the double quotes of a CSS string as it is
    when it has no double quote, no backslash, no line break and no NUL. *)
Definition selector_plain (val : string) : bool :=
  negb (existsb (fun c => bool_decide
                            (c ∈ [ascii_of_nat 34; "\"; "010"; "012"; "013"; "000"]%char))
          (list_ascii_of_string val)).

End JS.

(** ** Step sequencer (internal/components/stepper/stepper.js) *)
Module Stepper.

(** *** DOM of one [data-stepper] container *)

Record Svg := { svg_class : string; svg_display : string }.
Record Span := { span_class : string; span_display : string; span_text : string }.

(** A [data-step-trigger] element with the first [svg] and [span] below it. *)
Record Trigger := {
  classList : list string;
  aria_current : option string;
  svg : option Svg;
  span : option Span
}.

(** A [data-step] element: its two dataset entries, its trigger and the
    class list of its connector bar, when present. *)
Record Step := {
  data_step_number : option string;
  data_status : option string;
  trigger : option Trigger;
  connector : option (list string)
}.

(** A [data-step-content] panel. *)
Record StepContent := {
  content_step_number : option string;
  content_display : string
}.

Record Container := {
  data_initialized : bool;
  data_stepper_id : option string;
  data_current_step : option string;
  c_steps : list Step;
  c_contents : list StepContent
}.

(** [stepper:change], with its [detail]. *)
Inductive Event := stepper_change (currentStep : JS.num) (stepperId : string).

(** A container on which [initStepper] ran to the end: the variables of
    the closure ([stepperId], [steps], [stepContents], [currentStep]), the
    one dataset entry the closure writes on the container, and the events
    dispatched on the container so far.  The marker of such a container is
    set; nothing in the script removes it. *)
Record Stepper := {
  stepperId : string;
  steps : list Step;
  stepContents : list StepContent;
  currentStep : JS.num;
  dataset_currentStep : option string;
  dispatched : list Event
}.

Definition tone_classes : list string :=
  ["bg-primary"; "bg-muted"; "bg-destructive"; "text-primary-foreground";
   "text-muted-foreground"; "text-destructive-foreground"].

(** The nested conditional on [w-8] / [w-12] that sizes a created node. *)
Definition by_size (cl : list string) (small large normal : string) : string :=
  if JS.class_contains "w-8" cl then small
  else if JS.class_contains "w-12" cl then large
  else normal.

(** *** updateStepStates *)

Definition status_of (stepNumber currentStep : JS.num) : string :=
  if JS.lt stepNumber currentStep then "completed"
  else if JS.strict_eq stepNumber currentStep then "active"
  else "incomplete".

Definition update_trigger (status : string) (stepNumber : JS.num) (t : Trigger)
  : Trigger :=
  let cl := JS.class_remove tone_classes (classList t) in
  let cl :=
    if String.eqb status "active" || String.eqb status "completed"
    then JS.class_add ["bg-primary"; "text-primary-foreground"] cl
    else if String.eqb status "error"
    then JS.class_add ["bg-destructive"; "text-destructive-foreground"] cl
    else JS.class_add ["bg-muted"; "text-muted-foreground"] cl in
  let aria := if String.eqb status "active" then "step" else "false" in
  if String.eqb status "completed" then
    {| classList := cl;
       aria_current := Some aria;
       svg := Some match svg t with
                   | None => {| svg_class := by_size cl "w-4 h-4" "w-6 h-6" "w-5 h-5";
                                svg_display := "" |}
                   | Some g => {| svg_class := svg_class g; svg_display := "block" |}
                   end;
       span := (fun p => {| span_class := span_class p; span_display := "none";
                            span_text := span_text p |}) <$> span t |}
  else
    {| classList := cl;
       aria_current := Some aria;
       svg := (fun g => {| svg_class := svg_class g; svg_display := "none" |}) <$> svg t;
       span := Some match span t with
                    | Some p => {| span_class := span_class p; span_display := "block";
                                   span_text := JS.toString stepNumber |}
                    | None => {| span_class := by_size cl "text-xs" "text-lg" "text-sm";
                                 span_display := "";
                                 span_text := JS.toString stepNumber |}
                    end |}.

Definition update_connector (status : string) (cl : list string) : list string :=
  JS.class_add [if String.eqb status "completed" then "bg-primary" else "bg-muted"]
    (JS.class_remove ["bg-primary"; "bg-muted"] cl).

(** Body of the first loop of [updateStepStates]. *)
Definition update_step (currentStep : JS.num) (step : Step) : Step :=
  let stepNumber := JS.parseInt_attr 0 (data_step_number step) in
  let status := status_of stepNumber currentStep in
  {| data_step_number := data_step_number step;
     data_status := Some status;
     trigger := update_trigger status stepNumber <$> trigger step;
     connector := update_connector status <$> connector step |}.

(** Body of the second loop. *)
Definition update_content (currentStep : JS.num) (content : StepContent)
  : StepContent :=
  let contentNumber := JS.parseInt_attr 0 (content_step_number content) in
  {| content_step_number := content_step_number content;
     content_display :=
       if JS.strict_eq contentNumber currentStep then "block" else "none" |}.

Definition updateStepStates (s : Stepper) : Stepper :=
  {| stepperId := stepperId s;
     steps := update_step (currentStep s) <$> steps s;
     stepContents := update_content (currentStep s) <$> stepContents s;
     currentStep := currentStep s;
     dataset_currentStep := Some (JS.toString (currentStep s));
     dispatched := dispatched s ++ [stepper_change (currentStep s) (stepperId s)] |}.

(** *** Navigation *)

(** [steps.length]. *)
Definition steps_length (s : Stepper) : JS.num := JS.Num (Z.of_nat (length (steps s))).

Definition set_currentStep (n : JS.num) (s : Stepper) : Stepper :=
  {| stepperId := stepperId s; steps := steps s; stepContents := stepContents s;
     currentStep := n; dataset_currentStep := dataset_currentStep s;
     dispatched := dispatched s |}.

(** [goToStep(stepNumber)].  The argument is given after the [parseInt] of
    the first line, which maps an integer to itself. *)
Definition goToStep (stepNumber : JS.num) (s : Stepper) : Stepper :=
  if JS.lt stepNumber (JS.Num 1) || JS.gt stepNumber (steps_length s) then s
  else updateStepStates (set_currentStep stepNumber s).

Definition nextStep (s : Stepper) : Stepper :=
  if JS.lt (currentStep s) (steps_length s)
  then goToStep (JS.add (currentStep s) (JS.Num 1)) s
  else s.

Definition prevStep (s : Stepper) : Stepper :=
  if JS.gt (currentStep s) (JS.Num 1)
  then goToStep (JS.sub (currentStep s) (JS.Num 1)) s
  else s.

(** The click listener of the trigger of the step at index [i]. *)
Definition trigger_click (i : nat) (s : Stepper) : Stepper :=
  match steps s !! i with
  | Some step =>
      match trigger step with
      | Some _ => goToStep (JS.parseInt_attr 0 (data_step_number step)) s
      | None => s
      end
  | None => s
  end.

(** The [keydown] listener, for a key pressed on a step trigger. *)
Definition keydown (key : string) (s : Stepper) : Stepper :=
  if String.eqb key "ArrowRight" || String.eqb key "ArrowDown" then nextStep s
  else if String.eqb key "ArrowLeft" || String.eqb key "ArrowUp" then prevStep s
  else if String.eqb key "Home" then goToStep (JS.Num 1) s
  else if String.eqb key "End" then goToStep (steps_length s) s
  else s.

(** The [stepper:navigate] listener. *)
Definition navigate (step : JS.num) (s : Stepper) : Stepper := goToStep step s.

(** *** initStepper and init *)

(** A [data-stepper] element of the page: one that no closure is attached
    to, or one with its closure. *)
Inductive Element := Inert (c : Container) | Live (s : Stepper).

Definition marked (e : Element) : bool :=
  match e with Inert c => data_initialized c | Live _ => true end.

Definition mark (c : Container) : Container :=
  {| data_initialized := true; data_stepper_id := data_stepper_id c;
     data_current_step := data_current_step c; c_steps := c_steps c;
     c_contents := c_contents c |}.

Section Selectors.

(** What [container.querySelectorAll] does with the two selectors
    [[data-step][data-stepper-id="${stepperId}"]] and
    [[data-step-content][data-stepper-id="${stepperId}"]] when the id is not
    plain: the selector engine of the host decides (it may reject the
    selector with a [SyntaxError], or find some elements).  The functions
    are modelled for every behaviour of it.  For a plain id the two lists
    are those of the container. *)
Variable query_steps_escaped : Container → string → JS.Res (list Step).
Variable query_contents_escaped : Container → string → JS.Res (list StepContent).

Definition query_steps (c : Container) (id : string) : JS.Res (list Step) :=
  if JS.selector_plain id then inl (c_steps c) else query_steps_escaped c id.
Definition query_contents (c : Container) (id : string) : JS.Res (list StepContent) :=
  if JS.selector_plain id then inl (c_contents c) else query_contents_escaped c id.

(** [initStepper(container)]: whether it returned or threw, and the element
    it leaves.  The marker is set before anything else is looked at, so it
    stays when a selector is rejected. *)
Definition initStepper (e : Element) : JS.Res unit * Element :=
  match e with
  | Live _ => (inl tt, e)
  | Inert c =>
      if data_initialized c then (inl tt, e)
      else
        match data_stepper_id c with
        | None | Some "" => (inl tt, Inert (mark c))
        | Some id =>
            match query_steps c id with
            | inr ex => (inr ex, Inert (mark c))
            | inl found_steps =>
                match query_contents c id with
                | inr ex => (inr ex, Inert (mark c))
                | inl found_contents =>
                    (inl tt,
                     Live (updateStepStates
                             {| stepperId := id;
                                steps := found_steps;
                                stepContents := found_contents;
                                currentStep :=
                                  JS.or_else (JS.parseInt_attr 0 (data_current_step c))
                                    (JS.Num 1);
                                dataset_currentStep := data_current_step c;
                                dispatched := [] |}))
                end
            end
        end
  end.

(** [init(root)] for [root = document]: the page is the list of its
    [data-stepper] elements, in document order.  The loop visits the
    elements that have no marker; an exception of [initStepper] ends it, and
    the elements after the one that failed are left as they are. *)
Fixpoint init (page : list Element) : JS.Res unit * list Element :=
  match page with
  | [] => (inl tt, [])
  | e :: rest =>
      if marked e then
        let '(r, rest') := init rest in (r, e :: rest')
      else
        match initStepper e with
        | (inl _, e') => let '(r, rest') := init rest in (r, e' :: rest')
        | (inr ex, e') => (inr ex, e' :: rest)
        end
  end.

(** [init(root)] for [root] the [data-stepper] element at index [i] (no
    stepper is nested in another). *)
Definition init_at (i : nat) (page : list Element) : JS.Res unit * list Element :=
  match page !! i with
  | Some e => let '(r, e') := initStepper e in (r, <[i := e']> page)
  | None => (inl tt, page)
  end.

End Selectors.

(** Number of closures on the page: one per construction that ran through. *)
Definition is_live (e : Element) : bool :=
  match e with Live _ => true | Inert _ => false end.
Definition live_count (page : list Element) : nat :=
  length (filter (fun e => Is_true (is_live e)) page).

End Stepper.

(** ** Date picker: parsing and formatting *)
Module DatePicker.

(** *** The Date object, after ECMA-262 (Time Values and Time Range)

    A Date holds a time value: milliseconds since the epoch in UTC, or NaN
    for an invalid date ([None]). *)
Definition Date := option Z.

Definition msPerDay : Z := 86400000.
Definition msPerHour : Z := 3600000.
Definition msPerMinute : Z := 60000.
Definition msPerSecond : Z := 1000.

Definition Day (t : Z) : Z := t / msPerDay.
Definition TimeWithinDay (t : Z) : Z := t mod msPerDay.

Definition is_leap (y : Z) : bool :=
  ((y mod 4 =? 0) && negb (y mod 100 =? 0)) || (y mod 400 =? 0).
Definition DaysInYear (y : Z) : Z := if is_leap y then 366 else 365.

Definition DayFromYear (y : Z) : Z :=
  365 * (y - 1970) + (y - 1969) / 4 - (y - 1901) / 100 + (y - 1601) / 400.

(** The largest [y] with [DayFromYear y ≤ d] (lemma [YearFromDay_spec]),
    found next to its estimate by the mean length of a year. *)
Definition YearFromDay (d : Z) : Z :=
  let y := 1970 + (400 * d) / 146097 in
  if DayFromYear (y + 1) <=? d then y + 1
  else if DayFromYear y <=? d then y
  else y - 1.

Definition YearFromTime (t : Z) : Z := YearFromDay (Day t).
Definition DayWithinYear (t : Z) : Z := Day t - DayFromYear (YearFromTime t).
Definition InLeapYear (t : Z) : Z := if is_leap (YearFromTime t) then 1 else 0.

(** Day within the year on which month [m] (0 to 11) starts; [L] is 1 in
    a leap year. *)
Definition month_start (L m : Z) : Z :=
  match m with
  | 0 => 0 | 1 => 31 | 2 => 59 + L | 3 => 90 + L | 4 => 120 + L
  | 5 => 151 + L | 6 => 181 + L | 7 => 212 + L | 8 => 243 + L
  | 9 => 273 + L | 10 => 304 + L | _ => 334 + L
  end.

Definition month_of_day (L d : Z) : Z :=
  if d <? 31 then 0 else if d <? 59 + L then 1 else if d <? 90 + L then 2
  else if d <? 120 + L then 3 else if d <? 151 + L then 4
  else if d <? 181 + L then 5 else if d <? 212 + L then 6
  else if d <? 243 + L then 7 else if d <? 273 + L then 8
  else if d <? 304 + L then 9 else if d <? 334 + L then 10 else 11.

Definition MonthFromTime (t : Z) : Z := month_of_day (InLeapYear t) (DayWithinYear t).
Definition DateFromTime (t : Z) : Z :=
  DayWithinYear t - month_start (InLeapYear t) (MonthFromTime t) + 1.

Definition HourFromTime (t : Z) : Z := (t / msPerHour) mod 24.
Definition MinFromTime (t : Z) : Z := (t / msPerMinute) mod 60.
Definition SecFromTime (t : Z) : Z := (t / msPerSecond) mod 60.
Definition msFromTime (t : Z) : Z := t mod msPerSecond.

Definition MakeTime (hour min sec ms : Z) : Z :=
  hour * msPerHour + min * msPerMinute + sec * msPerSecond + ms.

(** The day number of the first of month [month] of [year], plus
    [date - 1]; [month] may lie outside 0 to 11. *)
Definition MakeDay (year month date : Z) : Z :=
  let ym := year + month / 12 in
  let mn := month mod 12 in
  DayFromYear ym + month_start (if is_leap ym then 1 else 0) mn + date - 1.

Definition MakeDate (day time : Z) : Z := day * msPerDay + time.

Definition TimeClip (t : Z) : Date :=
  if 8640000000000000 <? Z.abs t then None else Some t.

(** [new Date(Date.UTC(year, month, day, hour, minute, second))] for
    integer arguments: a year from 0 to 99 stands for 1900 + year. *)
Definition full_year (year : Z) : Z :=
  if (0 <=? year) && (year <=? 99) then 1900 + year else year.

Definition Date_UTC (year month day hour minute second : Z) : Date :=
  let yr := full_year year in
  TimeClip (MakeDate (MakeDay yr month day) (MakeTime hour minute second 0)).

Definition getUTCFullYear (d : Date) : JS.num :=
  match d with Some t => JS.Num (YearFromTime t) | None => JS.NaN end.
Definition getUTCMonth (d : Date) : JS.num :=
  match d with Some t => JS.Num (MonthFromTime t) | None => JS.NaN end.
Definition getUTCDate (d : Date) : JS.num :=
  match d with Some t => JS.Num (DateFromTime t) | None => JS.NaN end.

(** [date.toISOString()]: a RangeError on an invalid date; the year has
    four digits from 0 to 9999 and a sign and six digits otherwise. *)
Definition iso_year (y : Z) : string :=
  if (0 <=? y) && (y <=? 9999) then JS.padStart 4 (JS.string_of_Z y)
  else (if y <? 0 then "-" else "+") ++ JS.padStart 6 (JS.string_of_Z (Z.abs y)).

Definition two (z : Z) : string := JS.padStart 2 (JS.string_of_Z z).

Definition toISOString (d : Date) : JS.Res string :=
  match d with
  | None => inr JS.RangeError
  | Some t =>
      inl (iso_year (YearFromTime t) ++ "-" ++ two (MonthFromTime t + 1) ++ "-"
           ++ two (DateFromTime t) ++ "T" ++ two (HourFromTime t) ++ ":"
           ++ two (MinFromTime t) ++ ":" ++ two (SecFromTime t) ++ "."
           ++ JS.padStart 3 (JS.string_of_Z (msFromTime t)) ++ "Z")
  end.

(** *** The two regular expressions *)

Definition is_digit (c : ascii) : bool :=
  let n := N_of_ascii c in ((48 <=? n) && (n <=? 57))%N.

(** [\d{n}] at the head of [s]: the digits and what follows them. *)
Fixpoint digits (n : nat) (s : string) : option (string * string) :=
  match n with
  | O => Some ("", s)
  | S n' =>
      match s with
      | String c r =>
          if is_digit c then
            '(d, rest) ← digits n' r; Some (String c d, rest)
          else None
      | EmptyString => None
      end
  end.

(** One character out of [cs] at the head of [s]. *)
Definition one_of (cs : list ascii) (s : string) : option string :=
  match s with
  | String c r => if bool_decide (c ∈ cs) then Some r else None
  | EmptyString => None
  end.

(** [(\d{4})-(\d{2})-(\d{2})] at the head of [s]. *)
Definition match_date (s : string) : option (string * string * string * string) :=
  '(y, s) ← digits 4 s;
  s ← one_of ["-"%char] s;
  '(m, s) ← digits 2 s;
  s ← one_of ["-"%char] s;
  '(d, s) ← digits 2 s;
  Some (y, m, d, s).

(** [/^(\d{4})-(\d{2})-(\d{2})$/]: groups 1 to 3. *)
Definition exec_date (s : string) : option (string * string * string) :=
  '(y, m, d, rest) ← match_date s;
  if String.eqb rest "" then Some (y, m, d) else None.

(** [[T ](\d{2}):(\d{2})(?::(\d{2}))?] at the head of [s]: groups 4 to 6
    and what follows the match.  The inner option is greedy. *)
Definition match_time (s : string)
  : option (string * string * option string * string) :=
  s ← one_of ["T"%char; " "%char] s;
  '(h, s) ← digits 2 s;
  s ← one_of [":"%char] s;
  '(mi, s) ← digits 2 s;
  match one_of [":"%char] s ≫= digits 2 with
  | Some (sec, rest) => Some (h, mi, Some sec, rest)
  | None => Some (h, mi, None, s)
  end.

(** The groups of [/^(\d{4})-(\d{2})-(\d{2})(?:[T ](\d{2}):(\d{2})(?::(\d{2}))?)?/]. *)
Record DateTimeGroups := {
  g_year : string; g_month : string; g_day : string;
  g_hour : option string; g_minute : option string; g_second : option string
}.

(** The match of that expression on [s]: the groups, and the rest of [s]
    after the match (there is no end anchor). *)
Definition exec_datetime (s : string) : option (DateTimeGroups * string) :=
  '(y, m, d, rest) ← match_date s;
  match match_time rest with
  | Some (h, mi, sec, rest') =>
      Some ({| g_year := y; g_month := m; g_day := d;
               g_hour := Some h; g_minute := Some mi; g_second := sec |}, rest')
  | None =>
      Some ({| g_year := y; g_month := m; g_day := d;
               g_hour := None; g_minute := None; g_second := None |}, rest)
  end.

(** *** parseISODate, parseISODateTime *)

(** The comparison that ends both parsers. *)
Definition reads_back (date : Date) (year month day : JS.num) : bool :=
  JS.strict_eq (getUTCFullYear date) year
  && JS.strict_eq (getUTCMonth date) month
  && JS.strict_eq (getUTCDate date) day.

(** [Date.UTC] on the results of [parseInt]: NaN in any argument gives an
    invalid date. *)
Definition Date_UTC_num (year month day hour minute second : JS.num) : Date :=
  match year, month, day, hour, minute, second with
  | JS.Num y, JS.Num m, JS.Num d, JS.Num h, JS.Num mi, JS.Num s =>
      Date_UTC y m d h mi s
  | _, _, _, _, _, _ => None
  end.

(** [parseISODate(isoString)] on a string; [None] is [null]. *)
Definition parseISODate (isoString : string) : option Date :=
  if String.eqb isoString "" then None
  else
    match exec_date isoString with
    | None => None
    | Some (p1, p2, p3) =>
        let year := JS.parseInt 10 p1 in
        let month := JS.sub (JS.parseInt 10 p2) (JS.Num 1) in
        let day := JS.parseInt 10 p3 in
        let date := Date_UTC_num year month day (JS.Num 0) (JS.Num 0) (JS.Num 0) in
        if reads_back date year month day then Some date else None
    end.

(** [parts[i] ? parseInt(parts[i], 10) : 0]: an unmatched group is
    [undefined], the empty string is falsy. *)
Definition group_or_zero (g : option string) : JS.num :=
  match g with
  | None | Some "" => JS.Num 0
  | Some p => JS.parseInt 10 p
  end.

(** [parseISODateTime(isoString)] on a string. *)
Definition parseISODateTime (isoString : string) : option Date :=
  if String.eqb isoString "" then None
  else
    match exec_datetime isoString with
    | None => None
    | Some (parts, _) =>
        let year := JS.parseInt 10 (g_year parts) in
        let month := JS.sub (JS.parseInt 10 (g_month parts)) (JS.Num 1) in
        let day := JS.parseInt 10 (g_day parts) in
        let hour := group_or_zero (g_hour parts) in
        let minute := group_or_zero (g_minute parts) in
        let second := group_or_zero (g_second parts) in
        let date := Date_UTC_num year month day hour minute second in
        if reads_back date year month day then Some date else None
    end.

(** *** formatDateWithIntl, formatDateTimeWithIntl *)

(** The options object handed to [Intl.DateTimeFormat]. *)
Record IntlOptions := {
  timeZone : string;
  dateStyle : string;
  hour : option string;
  minute : option string;
  second : option string;
  hour12 : option bool
}.

(** What the formatters do besides returning: they construct a formatter
    and format with it, and they log. *)
Inductive Effect :=
| intl_format (localeTag : string) (options : IntlOptions)
| console_error (message : string).

(** A computation that performs effects and returns or throws. *)
Definition Eff (A : Type) : Type := list Effect * JS.Res A.

Definition ret {A} (a : A) : Eff A := ([], inl a).
Definition bind {A B} (k : A → Eff B) (m : Eff A) : Eff B :=
  match m with
  | (l, inl a) => let '(l', r) := k a in ((l ++ l')%list, r)
  | (l, inr e) => (l, inr e)
  end.
Global Instance Eff_ret : MRet Eff := @ret.
Global Instance Eff_bind : MBind Eff := @bind.
(** [try { m } catch (e) { h e }]. *)
Definition catch {A} (m : Eff A) (h : JS.Exn → Eff A) : Eff A :=
  match m with
  | (l, inl a) => (l, inl a)
  | (l, inr e) => let '(l', r) := h e in ((l ++ l')%list, r)
  end.
Definition lift {A} (r : JS.Res A) : Eff A := ([], r).
Definition log_error (message : string) : Eff unit := ([console_error message], inl tt).

Definition style_of (format : string) : string :=
  if String.eqb format "locale-short" then "short"
  else if String.eqb format "locale-long" then "long"
  else if String.eqb format "locale-full" then "full"
  else "medium".

(** The manual composition at the end of [formatDateWithIntl]. *)
Definition manual_ymd (t : Z) : string :=
  let year := YearFromTime t in
  let month := JS.padStart 2 (JS.string_of_Z (MonthFromTime t + 1)) in
  let day := JS.padStart 2 (JS.string_of_Z (DateFromTime t)) in
  JS.string_of_Z year ++ "-" ++ month ++ "-" ++ day.

(** The options each formatter builds before its first attempt. *)
Definition date_options (format : string) : IntlOptions :=
  {| timeZone := "UTC"; dateStyle := style_of format; hour := None;
     minute := None; second := None; hour12 := None |}.

Definition datetime_options (format : string) (withTime withSeconds with24Hours : bool)
  : IntlOptions :=
  if withTime then
    {| timeZone := "UTC"; dateStyle := style_of format;
       hour := Some "2-digit"; minute := Some "2-digit";
       second := if withSeconds then Some "2-digit" else None;
       hour12 := Some (negb with24Hours) |}
  else date_options format.

Definition fallbackOptions : IntlOptions :=
  {| timeZone := "UTC"; dateStyle := "medium"; hour := None; minute := None;
     second := None; hour12 := None |}.

Section Formatting.

(** The host's locale facility: [new Intl.DateTimeFormat(localeTag,
    options).format(date)] on a valid date returns a string or throws.  It is
    not part of the repository; the formatters are modelled for every
    behaviour it may have. *)
Variable Intl : string → IntlOptions → Z → JS.Res string.

Definition intl (localeTag : string) (options : IntlOptions) (t : Z) : Eff string :=
  ([intl_format localeTag options], Intl localeTag options t).

(** [formatDateWithIntl(date, format, localeTag)]; the date is [null]
    ([None]), invalid ([Some None]) or valid. *)
Definition formatDateWithIntl (date : option Date) (format localeTag : string)
  : Eff string :=
  match date with
  | None | Some None => ret ""
  | Some (Some t) =>
      let options := date_options format in
      catch (intl localeTag options t)
        (fun e =>
           log_error ("Error formatting date with Intl (locale: " ++ localeTag
                      ++ ", format: " ++ format ++ ", timezone: UTC):") ;;
           catch (intl localeTag fallbackOptions t)
             (fun fallbackError =>
                log_error ("Error formatting date with fallback Intl (locale: "
                           ++ localeTag ++ ", timezone: UTC):") ;;
                ret (manual_ymd t)))
  end.

(** [formatDateTimeWithIntl(date, format, localeTag, withTime, withSeconds,
    with24Hours)]. *)
Definition formatDateTimeWithIntl (date : option Date) (format localeTag : string)
    (withTime withSeconds with24Hours : bool) : Eff string :=
  match date with
  | None | Some None => ret ""
  | Some (Some t) =>
      let options := datetime_options format withTime withSeconds with24Hours in
      catch (intl localeTag options t)
        (fun e => lift (toISOString (Some t)))
  end.

End Formatting.

End DatePicker.

(** ** Selection control (internal/components/selectbox/selectbox.js) *)
Module SelectBox.

(** *** Strings and sets of the script *)

(** [String.prototype.replace(pattern, replacement)] for a string pattern and
    a replacement without [$]: the first occurrence only. *)
Fixpoint replace_first (pattern replacement s : string) : string :=
  if String.prefix pattern s
  then replacement ++ String.substring (String.length pattern)
                        (String.length s - String.length pattern) s
  else match s with
       | String c r => String c (replace_first pattern replacement r)
       | EmptyString => s
       end.

(** [toLowerCase]: the upper-case letters among the code units below 256
    are A to Z (U+0041 to U+005A) and U+00C0 to U+00DE without the
    multiplication sign U+00D7; the lower-case letter of each is 32 further. *)
Definition lower_char (c : ascii) : ascii :=
  let n := N_of_ascii c in
  if ((65 <=? n) && (n <=? 90) || (192 <=? n) && (n <=? 214)
      || (216 <=? n) && (n <=? 222))%N
  then ascii_of_N (n + 32) else c.
Fixpoint toLowerCase (s : string) : string :=
  match s with
  | String c r => String (lower_char c) (toLowerCase r)
  | EmptyString => s
  end.

(** [trim]: the white space and the line terminators are stripped at both
    ends. *)
Fixpoint rev_string (acc s : string) : string :=
  match s with String c r => rev_string (String c acc) r | EmptyString => acc end.
Definition trim (s : string) : string :=
  rev_string "" (JS.skip_spaces (rev_string "" (JS.skip_spaces s))).

(** [s.includes(t)]. *)
Fixpoint includes (t s : string) : bool :=
  String.prefix t s ||
  match s with String _ r => includes t r | EmptyString => false end.

(** A JavaScript [Set] of attribute values: the elements in insertion
    order, each once.  A value is a string or [null] ([None]). *)
Definition ValueSet := list (option string).

Definition set_has (v : option string) (s : ValueSet) : bool := bool_decide (v ∈ s).
Definition set_add (v : option string) (s : ValueSet) : ValueSet :=
  if set_has v s then s else (s ++ [v])%list.
Definition set_delete (v : option string) (s : ValueSet) : ValueSet :=
  filter (fun x => x ≠ v) s.

(** [values.join(',')]: [null] joins as the empty string. *)
Definition join_values (s : ValueSet) : string :=
  String.concat "," (default "" <$> s).

(** [classList.replace(old, new)]. *)
Definition class_replace (old new : string) (cl : list string) : list string :=
  if bool_decide (old ∈ cl) then
    (fix go (seen : bool) (l : list string) : list string :=
       match l with
       | [] => []
       | c :: r =>
           if bool_decide (c = old) || bool_decide (c = new)
           then if seen then go seen r else new :: go true r
           else c :: go seen r
       end) false cl
  else cl.

(** *** DOM of one select container *)

(** A [.select-item] element: the attributes the script reads or writes,
    the text of its [.select-item-text] child and the class list of its
    [.select-check] child, when it has them. *)
Record Item := {
  data_value : option string;
  item_text : option string;
  data_disabled : option string;
  data_selected : option string;
  item_classes : list string;
  check : option (list string);
  item_display : string
}.

(** What the [.select-value] element shows: a text, or the pills that
    [renderPills] put there, by their labels. *)
Inductive Shown := Text (s : string) | Pills (labels : list string).

Record ValueEl := {
  data_placeholder : option string;
  shown : Shown;
  value_classes : list string
}.

(** The [button.select-trigger] element with the children the script looks
    up below it. *)
Record Trigger := {
  data_content_id : option string;
  valueEl : option ValueEl;
  hiddenInput : option string;
  data_multiple : option string;
  data_show_pills : option string;
  data_selected_count_text : option string;
  trigger_show_reset : bool;
  chevron : bool;
  disabled : bool
}.

(** The floating content: its items in document order, and the value of its
    search field when it has one. *)
Record Content := {
  items : list Item;
  search : option string
}.

(** A [.select-container] element.  [content] is the element the id in
    [data-content-id] of its trigger resolves to, if there is one; no two
    containers share it. *)
Record Element := {
  data_initialized : bool;
  el_show_reset : bool;
  el_classes : list string;
  trigger : option Trigger;
  content : option Content
}.

(** [textContent] of the value element. *)
Definition text_of (s : Shown) : string :=
  match s with
  | Text t => t
  | Pills labels => String.concat "" ((fun l => l ++ "×") <$> labels)
  end.

(** *** The instance *)

(** The nodes managed listeners sit on. *)
Inductive Target := on_trigger | on_content | on_search | on_reset_button.

Global Instance Target_eq_dec : EqDecision Target.
Proof. solve_decision. Defined.

(** A [SelectBox] object.  The four [bound_] fields tell whether the field
    of that name holds a node; the nodes are those of the element. *)
Record Instance := {
  element : nat;
  multiple : bool;
  showPills : bool;
  searchable : bool;
  closeOnSelect : bool;
  selectedCountText : string;
  isSelecting : bool;
  selectedValues : ValueSet;
  listeners : list (Target * string);
  bound_triggerButton : bool;
  bound_content : bool;
  bound_valueEl : bool;
  bound_hiddenInput : bool;
  placeholder : option string;
  itemClickHandler : bool;
  externalResetHandler : bool;
  document_listeners : list string;
  resetContainer : option string
}.

(** What [getValue] returns. *)
Inductive GetValue :=
| Values (vs : list (option string))
| Single (v : option string).

(** Callbacks handed to [setTimeout]. *)
Inductive Timer :=
| seed_search (key : string)
| focus_trigger
| clear_isSelecting
| check_overflow (count : nat).

(** What the script does to the world around the instance. *)
Inductive Effect :=
| console_error (message : string)
| selectbox_init
| selectbox_change (value : GetValue) (previousValue : list (option string))
    (item : option nat)
| selectbox_reset (previousValue : list (option string))
| selectbox_destroy
| hidden_change
| search_input
| content_click
| closePopover
| setTimeout (callback : Timer) (delay : Z).

(** An instance at work: the object, its element, whether the page defines
    [window.closePopover], and the effects so far. *)
Record Local := {
  inst : Instance;
  el : Element;
  has_closePopover : bool;
  out : list Effect
}.

(** A method body: it returns or throws, and leaves a state either way. *)
Definition L (A : Type) : Type := Local → JS.Res A * Local.

Definition ret {A} (a : A) : L A := fun l => (inl a, l).
Definition bind {A B} (k : A → L B) (m : L A) : L B :=
  fun l => match m l with
           | (inl a, l') => k a l'
           | (inr e, l') => (inr e, l')
           end.
Global Instance L_ret : MRet L := @ret.
Global Instance L_bind : MBind L := @bind.

Definition throw {A} (e : JS.Exn) : L A := fun l => (inr e, l).
Definition get : L Local := fun l => (inl l, l).
Definition put (l : Local) : L unit := fun _ => (inl tt, l).
Definition emit (e : Effect) : L unit :=
  fun l => (inl tt, {| inst := inst l; el := el l;
                       has_closePopover := has_closePopover l;
                       out := (out l ++ [e])%list |}).
Definition modify_inst (f : Instance → Instance) : L unit :=
  fun l => (inl tt, {| inst := f (inst l); el := el l;
                       has_closePopover := has_closePopover l; out := out l |}).
Definition modify_el (f : Element → Element) : L unit :=
  fun l => (inl tt, {| inst := inst l; el := f (el l);
                       has_closePopover := has_closePopover l; out := out l |}).

(** [xs.forEach(f)]. *)
Fixpoint forEach {A} (f : A → L unit) (xs : list A) : L unit :=
  match xs with
  | [] => ret tt
  | x :: r => f x ;; forEach f r
  end.

(** [when c m]: [if (c) { m }]. *)
Definition when (c : bool) (m : L unit) : L unit := if c then m else ret tt.

(** *** Field updates *)

Definition set_data_selected (v : string) (it : Item) : Item :=
  {| data_value := data_value it; item_text := item_text it;
     data_disabled := data_disabled it; data_selected := Some v;
     item_classes := item_classes it; check := check it;
     item_display := item_display it |}.
Definition set_item_look (cl : list string) (ck : option (list string)) (it : Item)
  : Item :=
  {| data_value := data_value it; item_text := item_text it;
     data_disabled := data_disabled it; data_selected := data_selected it;
     item_classes := cl; check := ck; item_display := item_display it |}.
Definition set_item_display (d : string) (it : Item) : Item :=
  {| data_value := data_value it; item_text := item_text it;
     data_disabled := data_disabled it; data_selected := data_selected it;
     item_classes := item_classes it; check := check it; item_display := d |}.

Definition set_data_placeholder (p : string) (v : ValueEl) : ValueEl :=
  {| data_placeholder := Some p; shown := shown v; value_classes := value_classes v |}.
Definition set_shown (s : Shown) (v : ValueEl) : ValueEl :=
  {| data_placeholder := data_placeholder v; shown := s;
     value_classes := value_classes v |}.
Definition set_value_classes (cl : list string) (v : ValueEl) : ValueEl :=
  {| data_placeholder := data_placeholder v; shown := shown v; value_classes := cl |}.

Definition set_valueEl (v : ValueEl) (t : Trigger) : Trigger :=
  {| data_content_id := data_content_id t; valueEl := Some v;
     hiddenInput := hiddenInput t; data_multiple := data_multiple t;
     data_show_pills := data_show_pills t;
     data_selected_count_text := data_selected_count_text t;
     trigger_show_reset := trigger_show_reset t; chevron := chevron t;
     disabled := disabled t |}.
Definition set_hiddenInput (v : string) (t : Trigger) : Trigger :=
  {| data_content_id := data_content_id t; valueEl := valueEl t;
     hiddenInput := Some v; data_multiple := data_multiple t;
     data_show_pills := data_show_pills t;
     data_selected_count_text := data_selected_count_text t;
     trigger_show_reset := trigger_show_reset t; chevron := chevron t;
     disabled := disabled t |}.
Definition set_disabled (d : bool) (t : Trigger) : Trigger :=
  {| data_content_id := data_content_id t; valueEl := valueEl t;
     hiddenInput := hiddenInput t; data_multiple := data_multiple t;
     data_show_pills := data_show_pills t;
     data_selected_count_text := data_selected_count_text t;
     trigger_show_reset := trigger_show_reset t; chevron := chevron t;
     disabled := d |}.

Definition set_items (its : list Item) (c : Content) : Content :=
  {| items := its; search := search c |}.
Definition set_search (v : string) (c : Content) : Content :=
  {| items := items c; search := Some v |}.

Definition set_data_initialized (b : bool) (e : Element) : Element :=
  {| data_initialized := b; el_show_reset := el_show_reset e;
     el_classes := el_classes e; trigger := trigger e; content := content e |}.
Definition set_el_classes (cl : list string) (e : Element) : Element :=
  {| data_initialized := data_initialized e; el_show_reset := el_show_reset e;
     el_classes := cl; trigger := trigger e; content := content e |}.
Definition set_trigger (t : Trigger) (e : Element) : Element :=
  {| data_initialized := data_initialized e; el_show_reset := el_show_reset e;
     el_classes := el_classes e; trigger := Some t; content := content e |}.
Definition set_content (c : Content) (e : Element) : Element :=
  {| data_initialized := data_initialized e; el_show_reset := el_show_reset e;
     el_classes := el_classes e; trigger := trigger e; content := Some c |}.

(** [this.state] and the other fields that change after construction. *)
Definition set_state (selecting : bool) (values : ValueSet) (i : Instance) : Instance :=
  {| element := element i; multiple := multiple i; showPills := showPills i;
     searchable := searchable i; closeOnSelect := closeOnSelect i;
     selectedCountText := selectedCountText i;
     isSelecting := selecting; selectedValues := values;
     listeners := listeners i; bound_triggerButton := bound_triggerButton i;
     bound_content := bound_content i; bound_valueEl := bound_valueEl i;
     bound_hiddenInput := bound_hiddenInput i; placeholder := placeholder i;
     itemClickHandler := itemClickHandler i;
     externalResetHandler := externalResetHandler i;
     document_listeners := document_listeners i;
     resetContainer := resetContainer i |}.
Definition set_isSelecting (b : bool) (i : Instance) : Instance :=
  set_state b (selectedValues i) i.
Definition set_selectedValues (s : ValueSet) (i : Instance) : Instance :=
  set_state (isSelecting i) s i.

Definition set_options (m p : bool) (text : string) (i : Instance) : Instance :=
  {| element := element i; multiple := m; showPills := p;
     searchable := searchable i; closeOnSelect := closeOnSelect i;
     selectedCountText := text;
     isSelecting := isSelecting i; selectedValues := selectedValues i;
     listeners := listeners i; bound_triggerButton := bound_triggerButton i;
     bound_content := bound_content i; bound_valueEl := bound_valueEl i;
     bound_hiddenInput := bound_hiddenInput i; placeholder := placeholder i;
     itemClickHandler := itemClickHandler i;
     externalResetHandler := externalResetHandler i;
     document_listeners := document_listeners i;
     resetContainer := resetContainer i |}.

Definition set_bound (t c v h : bool) (i : Instance) : Instance :=
  {| element := element i; multiple := multiple i; showPills := showPills i;
     searchable := searchable i; closeOnSelect := closeOnSelect i;
     selectedCountText := selectedCountText i;
     isSelecting := isSelecting i; selectedValues := selectedValues i;
     listeners := listeners i; bound_triggerButton := t;
     bound_content := c; bound_valueEl := v;
     bound_hiddenInput := h; placeholder := placeholder i;
     itemClickHandler := itemClickHandler i;
     externalResetHandler := externalResetHandler i;
     document_listeners := document_listeners i;
     resetContainer := resetContainer i |}.

Definition set_placeholder (p : string) (i : Instance) : Instance :=
  {| element := element i; multiple := multiple i; showPills := showPills i;
     searchable := searchable i; closeOnSelect := closeOnSelect i;
     selectedCountText := selectedCountText i;
     isSelecting := isSelecting i; selectedValues := selectedValues i;
     listeners := listeners i; bound_triggerButton := bound_triggerButton i;
     bound_content := bound_content i; bound_valueEl := bound_valueEl i;
     bound_hiddenInput := bound_hiddenInput i; placeholder := Some p;
     itemClickHandler := itemClickHandler i;
     externalResetHandler := externalResetHandler i;
     document_listeners := document_listeners i;
     resetContainer := resetContainer i |}.

(** The listener table, the two document-level handlers and the listeners
    attached to the document. *)
Definition set_handlers (ls : list (Target * string)) (click reset : bool)
    (doc : list string) (i : Instance) : Instance :=
  {| element := element i; multiple := multiple i; showPills := showPills i;
     searchable := searchable i; closeOnSelect := closeOnSelect i;
     selectedCountText := selectedCountText i;
     isSelecting := isSelecting i; selectedValues := selectedValues i;
     listeners := ls; bound_triggerButton := bound_triggerButton i;
     bound_content := bound_content i; bound_valueEl := bound_valueEl i;
     bound_hiddenInput := bound_hiddenInput i; placeholder := placeholder i;
     itemClickHandler := click; externalResetHandler := reset;
     document_listeners := doc;
     resetContainer := resetContainer i |}.

Definition set_resetContainer (d : string) (i : Instance) : Instance :=
  {| element := element i; multiple := multiple i; showPills := showPills i;
     searchable := searchable i; closeOnSelect := closeOnSelect i;
     selectedCountText := selectedCountText i;
     isSelecting := isSelecting i; selectedValues := selectedValues i;
     listeners := listeners i; bound_triggerButton := bound_triggerButton i;
     bound_content := bound_content i; bound_valueEl := bound_valueEl i;
     bound_hiddenInput := bound_hiddenInput i; placeholder := placeholder i;
     itemClickHandler := itemClickHandler i;
     externalResetHandler := externalResetHandler i;
     document_listeners := document_listeners i;
     resetContainer := Some d |}.

(** *** Reaching the nodes through the fields of the instance

    A field that holds no node makes the property access on it throw. *)

Definition the_trigger : L Trigger :=
  l ← get;
  match bound_triggerButton (inst l), trigger (el l) with
  | true, Some t => ret t
  | _, _ => throw JS.TypeError
  end.

Definition the_content : L Content :=
  l ← get;
  match bound_content (inst l), content (el l) with
  | true, Some c => ret c
  | _, _ => throw JS.TypeError
  end.

Definition the_valueEl : L ValueEl :=
  l ← get;
  match bound_valueEl (inst l), trigger (el l) ≫= valueEl with
  | true, Some v => ret v
  | _, _ => throw JS.TypeError
  end.

Definition the_hiddenInput : L string :=
  l ← get;
  match bound_hiddenInput (inst l), trigger (el l) ≫= hiddenInput with
  | true, Some v => ret v
  | _, _ => throw JS.TypeError
  end.

Definition write_content (c : Content) : L unit := modify_el (set_content c).
Definition write_valueEl (v : ValueEl) : L unit :=
  modify_el (fun e => match trigger e with
                      | Some t => set_trigger (set_valueEl v t) e
                      | None => e
                      end).
Definition write_hiddenInput (v : string) : L unit :=
  modify_el (fun e => match trigger e with
                      | Some t => set_trigger (set_hiddenInput v t) e
                      | None => e
                      end).

(** An item handed to a method is a node of the page, named by its position
    among the items of the content. *)
Definition the_item (i : nat) : L Item :=
  l ← get;
  match content (el l) ≫= (fun c => items c !! i) with
  | Some it => ret it
  | None => throw JS.TypeError
  end.
Definition write_item (i : nat) (f : Item → Item) : L unit :=
  modify_el (fun e => match content e with
                      | Some c => set_content (set_items (alter f i (items c)) c) e
                      | None => e
                      end).

(** *** Presentation of items and of the summary *)

Definition accent : list string := ["bg-accent"; "text-accent-foreground"].

(** [updateItemVisual(item, selected)]. *)
Definition updateItemVisual (selected : bool) (it : Item) : Item :=
  if selected then
    set_item_look (JS.class_add accent (item_classes it))
      (class_replace "opacity-0" "opacity-100" <$> check it) it
  else
    set_item_look (JS.class_remove accent (item_classes it))
      (class_replace "opacity-100" "opacity-0" <$> check it) it.

(** [setAttribute('data-selected', ...)] followed by [updateItemVisual]. *)
Definition mark_selected (it : Item) : Item :=
  updateItemVisual true (set_data_selected "true" it).
Definition mark_unselected (it : Item) : Item :=
  updateItemVisual false (set_data_selected "false" it).

(** The items [.select-item[data-selected="true"]] of the content. *)
Definition selected_items (c : Content) : list Item :=
  filter (fun it => data_selected it = Some "true") (items c).

Definition updateResetButtonVisibility : L unit :=
  l ← get;
  match resetContainer (inst l) with
  | Some _ =>
      let hasSelection := (0 <? length (selectedValues (inst l)))%nat in
      modify_inst (set_resetContainer (if hasSelection then "" else "none"))
  | None => ret tt
  end.

(** [this.options.selectedCountText.replace('{n}', n)]. *)
Definition count_text (i : Instance) (n : nat) : string :=
  replace_first "{n}" (JS.string_of_Z (Z.of_nat n)) (selectedCountText i).

(** The loop of [renderPills]: an item without a [.select-item-text] child
    makes it throw. *)
Fixpoint pill_labels (its : list Item) : L (list string) :=
  match its with
  | [] => ret []
  | it :: r =>
      match item_text it with
      | Some t => rest ← pill_labels r; ret (t :: rest)
      | None => throw JS.TypeError
      end
  end.

Definition renderPills (selectedItems : list Item) : L unit :=
  v ← the_valueEl;
  write_valueEl (set_shown (Text "") v) ;;
  labels ← pill_labels selectedItems;
  v ← the_valueEl;
  write_valueEl (set_shown (Pills labels) v) ;;
  emit (setTimeout (check_overflow (length selectedItems)) 0).

Definition muted : list string := ["text-muted-foreground"].

Definition updateDisplay : L unit :=
  c ← the_content;
  let selectedItems := selected_items c in
  l ← get;
  match selectedItems with
  | [] =>
      v ← the_valueEl;
      write_valueEl
        (set_value_classes (JS.class_add muted (value_classes v))
           (set_shown (Text (default "" (placeholder (inst l)))) v))
  | selectedItem :: _ =>
      v ← the_valueEl;
      write_valueEl (set_value_classes (JS.class_remove muted (value_classes v)) v) ;;
      if multiple (inst l) then
        if showPills (inst l) then renderPills selectedItems
        else
          v ← the_valueEl;
          write_valueEl (set_shown (Text (count_text (inst l) (length selectedItems))) v)
      else
        match item_text selectedItem with
        | Some t => v ← the_valueEl; write_valueEl (set_shown (Text t) v)
        | None => ret tt
        end
  end.

Definition updateHiddenInput : L unit :=
  l ← get;
  let values := selectedValues (inst l) in
  oldValue ← the_hiddenInput;
  let newValue := join_values values in
  write_hiddenInput newValue ;;
  when (negb (String.eqb oldValue newValue)) (emit hidden_change).

(** *** Public methods *)

Definition getValue_of (i : Instance) : GetValue :=
  if multiple i then Values (selectedValues i)
  else Single match selectedValues i with
              | v :: _ => v
              | [] => None
              end.

Definition getValue : L GetValue := l ← get; ret (getValue_of (inst l)).

(** [selectItem(item)], for the item at position [i]. *)
Definition selectItem (i : nat) : L unit :=
  l ← get;
  if isSelecting (inst l) then ret tt
  else
    modify_inst (set_isSelecting true) ;;
    item ← the_item i;
    let value := data_value item in
    let previousValues := selectedValues (inst l) in
    (if multiple (inst l) then
       if set_has value previousValues then
         modify_inst (set_selectedValues (set_delete value previousValues)) ;;
         write_item i mark_unselected
       else
         modify_inst (set_selectedValues (set_add value previousValues)) ;;
         write_item i mark_selected
     else
       c ← the_content;
       write_content (set_items (mark_unselected <$> items c) c) ;;
       modify_inst (set_selectedValues (set_add value [])) ;;
       write_item i mark_selected ;;
       when (closeOnSelect (inst l) && has_closePopover l)
         (emit closePopover ;; emit (setTimeout focus_trigger 50))) ;;
    updateDisplay ;;
    updateHiddenInput ;;
    updateResetButtonVisibility ;;
    v ← getValue;
    emit (selectbox_change v previousValues (Some i)) ;;
    emit (setTimeout clear_isSelecting 100).

(** A value handed to [setValue]: strings, and the two values the method
    tests for. *)
Inductive JsValue := Null | Undefined | Str (s : string).

(** The argument of [setValue]: one value, or an array of values. *)
Inductive SetValueArg := Scalar (v : JsValue) | Array (vs : list JsValue).

(** A value can stand between the double quotes of a CSS string as it is
    when it has no double quote, no backslash and no line break. *)
Definition double_quote : ascii := ascii_of_nat 34.
Definition css_plain (val : string) : bool :=
  negb (existsb (fun c => bool_decide
                            (c ∈ [double_quote; "\"; "010"; "012"; "013"; "000"]%char))
          (list_ascii_of_string val)).

Section Selectors.

(** What [content.querySelector] does with the selector
    [.select-item[data-value="${val}"]] when [val] is not plain: the selector
    engine of the host decides (it may find an item, find none, or reject
    the selector).  The methods are modelled for every behaviour of it. *)
Variable query_escaped : list Item → string → JS.Res (option nat).

(** [this.content.querySelector(`.select-item[data-value="${val}"]`)]: the
    position of the first item whose [data-value] is [val]. *)
Definition query_item (its : list Item) (val : string) : JS.Res (option nat) :=
  if css_plain val
  then inl (fst <$> list_find (fun it => data_value it = Some val) its)
  else query_escaped its val.

Definition setValue_one (val : JsValue) : L unit :=
  match val with
  | Null | Undefined => ret tt
  | Str s =>
      c ← the_content;
      match query_item (items c) s with
      | inr e => throw e
      | inl None => ret tt
      | inl (Some i) =>
          l ← get;
          modify_inst (set_selectedValues (set_add (Some s) (selectedValues (inst l)))) ;;
          write_item i mark_selected
      end
  end.

Definition setValue (value : SetValueArg) : L unit :=
  l ← get;
  let previousValues := selectedValues (inst l) in
  modify_inst (set_selectedValues []) ;;
  c ← the_content;
  write_content (set_items (mark_unselected <$> items c) c) ;;
  let values := match value with Array vs => vs | Scalar v => [v] end in
  forEach setValue_one values ;;
  updateDisplay ;;
  updateHiddenInput ;;
  updateResetButtonVisibility ;;
  v ← getValue;
  emit (selectbox_change v previousValues None).

End Selectors.

(** The listener of [input] on the search field. *)
Definition search_visible (searchTerm : string) (it : Item) : bool :=
  let itemText := toLowerCase (default "" (item_text it)) in
  let itemValue := toLowerCase (default "" (data_value it)) in
  String.eqb searchTerm "" || includes searchTerm itemText
  || includes searchTerm itemValue.

Definition on_search_input : L unit :=
  c ← the_content;
  match search c with
  | Some v =>
      let searchTerm := trim (toLowerCase v) in
      write_content
        (set_items ((fun it => set_item_display
                                 (if search_visible searchTerm it then "" else "none") it)
                      <$> items c) c)
  | None => ret tt
  end.

(** The part of [reset] that empties the search field; the [input] event
    it dispatches runs the listener above while that listener is attached. *)
Definition clear_search : L unit :=
  c ← the_content;
  match search c with
  | Some _ =>
      write_content (set_search "" c) ;;
      emit search_input ;;
      l ← get;
      when (bool_decide ((on_search, "input") ∈ listeners (inst l))) on_search_input
  | None => ret tt
  end.

Definition reset : L unit :=
  l ← get;
  let previousValues := selectedValues (inst l) in
  modify_inst (set_selectedValues []) ;;
  c ← the_content;
  write_content (set_items (mark_unselected <$> items c) c) ;;
  v ← the_valueEl;
  write_valueEl
    (set_value_classes (JS.class_add muted (value_classes v))
       (set_shown (Text (default "" (placeholder (inst l)))) v)) ;;
  _ ← the_hiddenInput;
  write_hiddenInput "" ;;
  emit hidden_change ;;
  updateResetButtonVisibility ;;
  clear_search ;;
  emit (selectbox_reset previousValues).

Definition enable : L unit :=
  t ← the_trigger;
  modify_el (set_trigger (set_disabled false t)) ;;
  modify_el (fun e => set_el_classes (JS.class_remove ["opacity-50"] (el_classes e)) e).

Definition disable : L unit :=
  t ← the_trigger;
  modify_el (set_trigger (set_disabled true t)) ;;
  modify_el (fun e => set_el_classes (JS.class_add ["opacity-50"] (el_classes e)) e).

(** *** Construction *)

(** [initializeSelection()]: a pre-selected item counts when its value is
    a non-empty string. *)
Definition initializeSelection : L unit :=
  c ← the_content;
  let selectedItems := selected_items c in
  forEach (fun it =>
             match data_value it with
             | Some (String _ _ as value) =>
                 l ← get;
                 modify_inst (set_selectedValues
                                (set_add (Some value) (selectedValues (inst l))))
             | _ => ret tt
             end) selectedItems ;;
  when (0 <? length selectedItems)%nat (updateDisplay ;; updateHiddenInput).

(** The helper [addEventListener(element, event, handler)]: one more entry
    in [this.listeners]. *)
Definition addEventListener (target : Target) (event : string) : L unit :=
  modify_inst (fun i => set_handlers (listeners i ++ [(target, event)])
                          (itemClickHandler i) (externalResetHandler i)
                          (document_listeners i) i).

(** [document.addEventListener('click', handler)] for one of the two
    handlers the instance keeps in a field of its own. *)
Definition listen_on_document (name : string) : L unit :=
  modify_inst (fun i => set_handlers (listeners i)
                          (itemClickHandler i || String.eqb name "itemClick")
                          (externalResetHandler i || String.eqb name "externalReset")
                          (document_listeners i ++ [name]) i).

Definition setupEventHandlers : L unit :=
  addEventListener on_trigger "keydown" ;;
  c ← the_content;
  when (bool_decide (is_Some (search c))) (addEventListener on_search "input") ;;
  addEventListener on_content "keydown" ;;
  listen_on_document "itemClick" ;;
  addEventListener on_content "mouseover" ;;
  addEventListener on_content "mouseleave".

Definition addInternalResetButton : L unit :=
  _ ← the_trigger;
  addEventListener on_reset_button "click" ;;
  modify_inst (set_resetContainer "none") ;;
  updateResetButtonVisibility.

Definition setupResetFunctionality : L unit :=
  l ← get;
  t ← the_trigger;
  when (el_show_reset (el l) || trigger_show_reset t) addInternalResetButton ;;
  listen_on_document "externalReset".

(** A string of the dataset that is neither missing nor empty. *)
Definition truthy (a : option string) : bool :=
  match a with Some (String _ _) => true | _ => false end.

(** The part of [init()] after both checks. *)
Definition init_ready (t : Trigger) : L unit :=
  v ← the_valueEl;
  let p := if truthy (data_placeholder v) then default "" (data_placeholder v)
           else text_of (shown v) in
  modify_inst (set_placeholder p) ;;
  write_valueEl (set_data_placeholder p v) ;;
  modify_inst (fun i => set_options
                          (bool_decide (data_multiple t = Some "true"))
                          (bool_decide (data_show_pills t = Some "true"))
                          (if truthy (data_selected_count_text t)
                           then default "" (data_selected_count_text t)
                           else selectedCountText i) i) ;;
  initializeSelection ;;
  setupEventHandlers ;;
  setupResetFunctionality ;;
  emit selectbox_init.

(** [init()], the method the constructor ends with. *)
Definition init : L unit :=
  modify_el (set_data_initialized true) ;;
  l ← get;
  match trigger (el l) with
  | None =>
      modify_inst (fun i => set_bound false (bound_content i) (bound_valueEl i)
                              (bound_hiddenInput i) i) ;;
      emit (console_error "SelectBox: Trigger button not found")
  | Some t =>
      let has_content := truthy (data_content_id t)
                         && bool_decide (is_Some (content (el l))) in
      let has_valueEl := bool_decide (is_Some (valueEl t)) in
      let has_hidden := bool_decide (is_Some (hiddenInput t)) in
      modify_inst (set_bound true has_content has_valueEl has_hidden) ;;
      if negb has_content || negb has_valueEl || negb has_hidden
      then emit (console_error "SelectBox: Missing required elements")
      else init_ready t
  end.

(** *** Listeners and timers *)

(** [handleItemClick], for a click inside the content on the item at [i]. *)
Definition handleItemClick (i : nat) : L unit :=
  _ ← the_content;
  item ← the_item i;
  when (negb (bool_decide (data_disabled item = Some "true"))) (selectItem i).

(** The close button of the pill of the item at [i]. *)
Definition pill_close_click (i : nat) : L unit := selectItem i.

(** The click listener of the internal reset button. *)
Definition reset_button_click : L unit := reset.

(** [externalResetHandler], for a click on a [data-selectbox-reset] element
    whose selector does or does not designate this container. *)
Definition externalReset_click (designates : bool) : L unit :=
  when designates reset.

(** The [keydown] listener of the trigger. *)
Definition trigger_keydown (key : string) : L unit :=
  when ((String.length key =? 1)%nat || String.eqb key "Backspace"
        || String.eqb key "Delete")
    (emit content_click ;; emit (setTimeout (seed_search key) 0)).

(** [handleContentKeydown] on Enter, with the focused item if any. *)
Definition content_keydown_Enter (focused : option nat) : L unit :=
  match focused with Some i => selectItem i | None => ret tt end.

(** A click somewhere in the document, seen by the listeners the instance
    has on the document at that time. *)
Definition document_click_on_item (i : nat) : L unit :=
  l ← get;
  when (bool_decide ("itemClick" ∈ document_listeners (inst l))) (handleItemClick i).

(** A timer fires.  [overflows] tells the layout for [check_overflow]. *)
Definition fire (overflows : bool) (t : Timer) : L unit :=
  match t with
  | clear_isSelecting => modify_inst (set_isSelecting false)
  | focus_trigger => _ ← the_trigger; ret tt
  | seed_search key =>
      c ← the_content;
      match search c with
      | Some _ =>
          when (negb (String.eqb key "Backspace") && negb (String.eqb key "Delete"))
            (write_content (set_search key c))
      | None => ret tt
      end
  | check_overflow n =>
      when overflows
        (l ← get; v ← the_valueEl;
         write_valueEl (set_shown (Text (count_text (inst l) n)) v))
  end.

(** *** The page, the registry and the public interface *)

(** The page: its [.select-container] elements in document order (an
    element is named by its position), the [instances] WeakMap from elements
    to objects, the objects ever constructed (an object is named by its
    position), whether [window.closePopover] exists, and the effects so far,
    each with the element it concerns. *)
Record World := {
  page : list Element;
  instances : gmap nat nat;
  heap : list Instance;
  window_closePopover : bool;
  log : list (nat * Effect)
}.

Definition W (A : Type) : Type := World → JS.Res A * World.

Definition W_ret {A} (a : A) : W A := fun w => (inl a, w).
Definition W_bind {A B} (k : A → W B) (m : W A) : W B :=
  fun w => match m w with
           | (inl a, w') => k a w'
           | (inr e, w') => (inr e, w')
           end.
Global Instance W_mret : MRet W := @W_ret.
Global Instance W_mbind : MBind W := @W_bind.

Definition W_throw {A} (e : JS.Exn) : W A := fun w => (inr e, w).

(** A method call [object.m(...)] on the object named [this]. *)
Definition invoke {A} (this : nat) (m : L A) : W A :=
  fun w =>
    match heap w !! this with
    | None => (inr JS.TypeError, w)
    | Some i =>
        match page w !! element i with
        | None => (inr JS.TypeError, w)
        | Some e =>
            let '(r, l) := m {| inst := i; el := e;
                                has_closePopover := window_closePopover w;
                                out := [] |} in
            (r, {| page := <[element i := el l]> (page w);
                   instances := instances w;
                   heap := <[this := inst l]> (heap w);
                   window_closePopover := window_closePopover w;
                   log := (log w ++ ((fun x => (element i, x)) <$> out l))%list |})
        end
    end.

(** The object [new SelectBox(element)] starts from. *)
Definition fresh (e : nat) : Instance :=
  {| element := e; multiple := false; showPills := false; searchable := true;
     closeOnSelect := true; selectedCountText := "{n} items selected";
     isSelecting := false; selectedValues := [];
     listeners := []; bound_triggerButton := false; bound_content := false;
     bound_valueEl := false; bound_hiddenInput := false; placeholder := None;
     itemClickHandler := false; externalResetHandler := false;
     document_listeners := []; resetContainer := None |}.

(** [new SelectBox(element)]: the new object, after its [init()]. *)
Definition new_SelectBox (e : nat) : W nat :=
  fun w =>
    let this := length (heap w) in
    let w1 := {| page := page w; instances := instances w;
                 heap := (heap w ++ [fresh e])%list;
                 window_closePopover := window_closePopover w; log := log w |} in
    match invoke this init w1 with
    | (inl _, w2) => (inl this, w2)
    | (inr ex, w2) => (inr ex, w2)
    end.

Definition register (e this : nat) : W unit :=
  fun w => (inl tt, {| page := page w; instances := <[e := this]> (instances w);
                       heap := heap w; window_closePopover := window_closePopover w;
                       log := log w |}).

Definition unregister (e : nat) : W unit :=
  fun w => (inl tt, {| page := page w; instances := delete e (instances w);
                       heap := heap w; window_closePopover := window_closePopover w;
                       log := log w |}).

Definition dispatch (e : nat) (x : Effect) : W unit :=
  fun w => (inl tt, {| page := page w; instances := instances w;
                       heap := heap w; window_closePopover := window_closePopover w;
                       log := (log w ++ [(e, x)])%list |}).

(** [templUI.selectbox.init(selector)], on the elements the selector
    designates: the body of its [forEach]. *)
Definition init_element (e : nat) : W unit :=
  fun w =>
    match instances w !! e with
    | Some _ => (inl tt, w)
    | None => (this ← new_SelectBox e; register e this) w
    end.

Fixpoint init_elements (elements : list nat) : W unit :=
  match elements with
  | [] => mret tt
  | e :: r => init_element e ;; init_elements r
  end.

(** [templUI.selectbox.init()]: the default selector designates every
    container of the page. *)
Definition init_page : W unit :=
  fun w => init_elements (seq 0 (length (page w))) w.

(** [templUI.selectbox.getInstance(selector)], where the selector
    designates [target] ([None]: it designates nothing). *)
Definition getInstance (target : option nat) : W (option nat) :=
  fun w => (inl (target ≫= fun e => instances w !! e), w).

(** Reading a field of the object [this]. *)
Definition read {A} (this : nat) (k : Instance → W A) : W A :=
  fun w =>
    match heap w !! this with
    | Some i => k i w
    | None => (inr JS.TypeError, w)
    end.

(** The method [destroy()] of the object [this]. *)
Definition destroy (this : nat) : W unit :=
  invoke this
    (modify_inst (fun i =>
       set_handlers [] (itemClickHandler i) (externalResetHandler i)
         (filter (fun name =>
                    ¬ (name = "itemClick" ∧ itemClickHandler i = true)
                    ∧ ¬ (name = "externalReset" ∧ externalResetHandler i = true))
            (document_listeners i)) i) ;;
     modify_el (set_data_initialized false)) ;;
  read this (fun i =>
    unregister (element i) ;;
    dispatch (element i) selectbox_destroy).

(** [templUI.selectbox.destroy(selector)].  Without a selector the code
    calls [instances.forEach], which a WeakMap does not have. *)
Definition destroy_selector (selector : option (option nat)) : W unit :=
  match selector with
  | Some target =>
      instance ← getInstance target;
      match instance with
      | Some this => destroy this
      | None => mret tt
      end
  | None => W_throw JS.TypeError
  end.

(** The convenience methods: [instance?.m()]. *)
Definition proxy {A} (target : option nat) (m : L A) : W (option A) :=
  instance ← getInstance target;
  match instance with
  | Some this => a ← invoke this m; mret (Some a)
  | None => mret None
  end.

End SelectBox.

(** ** Step sequencer: the navigation buttons (stepper.js, the click
    listener on the document) *)
Module StepperButtons.
Import Stepper.

(** [a >= b] and [a <= b]: false on NaN. *)
Definition ge (a b : JS.num) : bool :=
  match a, b with JS.Num x, JS.Num y => y <=? x | _, _ => false end.
Definition le (a b : JS.num) : bool := ge b a.

(** A number in a condition: NaN and 0 are falsy. *)
Definition truthy_num (a : JS.num) : bool :=
  match a with JS.NaN | JS.Num 0 => false | JS.Num _ => true end.

(** The closest ancestor of the click target that carries one of the three
    button attributes: the value of that attribute ([""] when it has none),
    its [data-stepper-goto-step] attribute, and its closest [data-stepper]
    ancestor, by position on the page. *)
Record Button := {
  stepper_attr : string;
  data_stepper_goto_step : option string;
  closest_stepper : option nat
}.

(** A click, as the listener sees it: the buttons [e.target.closest] finds
    for each of the three attributes. *)
Record Click := {
  nextButton : option Button;
  prevButton : option Button;
  gotoButton : option Button
}.

Section Document.

(** [document.getElementById], as far as it finds a [data-stepper]
    container (an element of another kind has no listener of this script,
    and an event dispatched on it changes no sequencer), and the number of
    [data-step] elements below the container at a position.  The script
    changes neither. *)
Variable getElementById : string → option nat.
Variable data_step_count : nat → nat.

(** [stepperId ? document.getElementById(stepperId) : button.closest("[data-stepper]")]. *)
Definition stepper_of (b : Button) : option nat :=
  match stepper_attr b with
  | EmptyString => closest_stepper b
  | id => getElementById id
  end.

(** [stepper.dataset.currentStep]. *)
Definition dataset_currentStep_of (e : Element) : option string :=
  match e with
  | Inert c => data_current_step c
  | Live s => dataset_currentStep s
  end.

(** [stepper && stepper.hasAttribute("data-initialized")]. *)
Definition initialized_stepper (b : Button) (page : list Element)
  : option (nat * Element) :=
  i ← stepper_of b;
  e ← page !! i;
  if marked e then Some (i, e) else None.

(** [stepper.dispatchEvent(new CustomEvent("stepper:navigate", ...))]: the
    listener of the closure runs, when the container has a closure. *)
Definition dispatch_navigate (i : nat) (step : JS.num) (page : list Element)
  : list Element :=
  alter (fun e => match e with
                  | Live s => Live (navigate step s)
                  | Inert _ => e
                  end) i page.

(** [parseInt(stepper.dataset.currentStep) || 1]. *)
Definition read_currentStep (e : Element) : JS.num :=
  JS.or_else (JS.parseInt_attr 0 (dataset_currentStep_of e)) (JS.Num 1).

(** [stepper.querySelectorAll("[data-step]").length]. *)
Definition steps_length_at (i : nat) : JS.num := JS.Num (Z.of_nat (data_step_count i)).

Definition next_button_click (b : Button) (page : list Element) : list Element :=
  match initialized_stepper b page with
  | Some (i, e) =>
      let currentStep := read_currentStep e in
      if JS.lt currentStep (steps_length_at i)
      then dispatch_navigate i (JS.add currentStep (JS.Num 1)) page
      else page
  | None => page
  end.

Definition prev_button_click (b : Button) (page : list Element) : list Element :=
  match initialized_stepper b page with
  | Some (i, e) =>
      let currentStep := read_currentStep e in
      if JS.gt currentStep (JS.Num 1)
      then dispatch_navigate i (JS.sub currentStep (JS.Num 1)) page
      else page
  | None => page
  end.

Definition goto_button_click (b : Button) (page : list Element) : list Element :=
  let targetStep := JS.parseInt_attr 0 (data_stepper_goto_step b) in
  match initialized_stepper b page with
  | Some (i, e) =>
      if truthy_num targetStep
      then if ge targetStep (JS.Num 1) && le targetStep (steps_length_at i)
           then dispatch_navigate i targetStep page
           else page
      else page
  | None => page
  end.

(** The listener: the three buttons in turn, each on the page the one
    before left. *)
Definition document_click (c : Click) (page : list Element) : list Element :=
  let page := match nextButton c with
              | Some b => next_button_click b page
              | None => page
              end in
  let page := match prevButton c with
              | Some b => prev_button_click b page
              | None => page
              end in
  match gotoButton c with
  | Some b => goto_button_click b page
  | None => page
  end.

End Document.

End StepperButtons.

(** ** Date picker: the trigger button and its closure (initDatePicker) *)
Module DatePickerInit.
Import DatePicker.

(** *** DOM of one date picker *)

(** The [data-datepicker-display] element of the button. *)
Record DisplaySpan := { textContent : string; classList : list string }.

(** The trigger button: the attributes the script reads or writes, its
    display element when it has one, and the two properties the script
    stores on it. *)
Record TriggerButton := {
  data_initialized : bool;
  aria_controls : option string;
  displaySpan : option DisplaySpan;
  data_display_format : option string;
  data_locale_tag : option string;
  data_placeholder : option string;
  data_with_time : option string;
  data_with_seconds : option string;
  data_with_24_hours : option string;
  datePickerInitialized : bool;
  datePickerCleanup : bool
}.

(** The element the id in [aria-controls] designates: whether it holds a
    [data-calendar-container], and the value of the
    [data-calendar-hidden-input] inside its [data-calendar-wrapper]
    ([None]: no wrapper; [Some None]: a wrapper without that input). *)
Record Popover := {
  calendar_container : bool;
  calendar_wrapper : option (option string)
}.

(** What the lookups of [initDatePicker] find around a button: whether an
    element has the id of the calendar instance, the value of the element
    with the id of its hidden input, and the popover content. *)
Record Surroundings := {
  calendarInstance : bool;
  calendarHiddenInput : option string;
  popoverContent : option Popover
}.

(** The two nodes that can serve as the calendar. *)
Inductive CalendarNode := calendar_by_id | calendar_in_popover.

Global Instance CalendarNode_eq_dec : EqDecision CalendarNode.
Proof. solve_decision. Defined.

(** The closure of a date picker: the calendar its listener sits on and its
    configuration.  Its display element is the one of the button. *)
Record Picker := {
  calendar : CalendarNode;
  displayFormat : string;
  localeTag : string;
  placeholder : string;
  withTime : bool;
  withSeconds : bool;
  with24Hours : bool
}.

(** What the script does besides writing to the button. *)
Inductive Action :=
| formatting (e : Effect)
| init_error
| click_popoverTrigger
| click_triggerButton.

(** A button, the closure listening for it if there is one, and the actions
    so far. *)
Record State := {
  triggerButton : TriggerButton;
  picker : option Picker;
  out : list Action
}.

(** The time fields next to a button that shows a time, by their values,
    as they are when a date is selected. *)
Record TimeFields := {
  hourInput : option string;
  minInput : option string;
  secInput : option string;
  ampmSel : option string
}.

Definition muted : list string := ["text-muted-foreground"].

(** [a || d] on strings of the dataset. *)
Definition or_default (a : option string) (d : string) : string :=
  match a with
  | Some (String c r) => String c r
  | _ => d
  end.

(** *** Field updates *)

Definition set_displaySpan (s : DisplaySpan) (b : TriggerButton) : TriggerButton :=
  {| data_initialized := data_initialized b; aria_controls := aria_controls b;
     displaySpan := Some s; data_display_format := data_display_format b;
     data_locale_tag := data_locale_tag b; data_placeholder := data_placeholder b;
     data_with_time := data_with_time b; data_with_seconds := data_with_seconds b;
     data_with_24_hours := data_with_24_hours b;
     datePickerInitialized := datePickerInitialized b;
     datePickerCleanup := datePickerCleanup b |}.

Definition mark (b : TriggerButton) : TriggerButton :=
  {| data_initialized := true; aria_controls := aria_controls b;
     displaySpan := displaySpan b; data_display_format := data_display_format b;
     data_locale_tag := data_locale_tag b; data_placeholder := data_placeholder b;
     data_with_time := data_with_time b; data_with_seconds := data_with_seconds b;
     data_with_24_hours := data_with_24_hours b;
     datePickerInitialized := datePickerInitialized b;
     datePickerCleanup := datePickerCleanup b |}.

(** The end of [initDatePicker]: the two properties, and the
    [data-with-time] attribute set or removed. *)
Definition finish (withTime : bool) (b : TriggerButton) : TriggerButton :=
  {| data_initialized := data_initialized b; aria_controls := aria_controls b;
     displaySpan := displaySpan b; data_display_format := data_display_format b;
     data_locale_tag := data_locale_tag b; data_placeholder := data_placeholder b;
     data_with_time := if withTime then Some "true" else None;
     data_with_seconds := data_with_seconds b;
     data_with_24_hours := data_with_24_hours b;
     datePickerInitialized := true;
     datePickerCleanup := true |}.

(** *** Date.prototype.setUTCHours, after ECMA-262 *)

(** [date.setUTCHours(hour, minute, second)]: the day and the milliseconds
    stay; NaN in an argument makes the date invalid. *)
Definition setUTCHours (hour minute second : JS.num) (d : Date) : Date :=
  match d, hour, minute, second with
  | Some t, JS.Num h, JS.Num m, JS.Num s =>
      TimeClip (MakeDate (Day t) (MakeTime h m s (msFromTime t)))
  | _, _, _, _ => None
  end.

(** *** The time of day read from the fields *)

(** [field ? parseInt(field.value, 10) : d]. *)
Definition read_field (field : option string) (d : JS.num) : JS.num :=
  match field with
  | Some value => JS.parseInt 10 value
  | None => d
  end.

(** The hour [onCalendarSelect] passes to [setUTCHours]. *)
Definition selected_hour (with24Hours : bool) (f : TimeFields) : JS.num :=
  let hour := read_field (hourInput f) (if with24Hours then JS.Num 0 else JS.Num 12) in
  match negb with24Hours, ampmSel f with
  | true, Some value =>
      let hour := if String.eqb value "PM" && JS.lt hour (JS.Num 12)
                  then JS.add hour (JS.Num 12) else hour in
      if String.eqb value "AM" && JS.strict_eq hour (JS.Num 12) then JS.Num 0 else hour
  | _, _ => hour
  end.

Section Closure.

(** The locale facility of the host, as for the formatters. *)
Variable Intl : string → IntlOptions → Z → JS.Res string.

Definition format (p : Picker) (d : Date) : Eff string :=
  formatDateTimeWithIntl Intl (Some d) (displayFormat p) (localeTag p)
    (withTime p) (withSeconds p) (with24Hours p).

Definition log (actions : list Action) (st : State) : State :=
  {| triggerButton := triggerButton st; picker := picker st;
     out := (out st ++ actions)%list |}.

Definition write_span (s : DisplaySpan) (st : State) : State :=
  {| triggerButton := set_displaySpan s (triggerButton st); picker := picker st;
     out := out st |}.

(** [displaySpan.textContent = placeholder; classList.add(...)]. *)
Definition show_placeholder (p : Picker) (span : DisplaySpan) : DisplaySpan :=
  {| textContent := placeholder p; classList := JS.class_add muted (classList span) |}.

(** [displaySpan.textContent = text; classList.remove(...)]. *)
Definition show_text (text : string) (span : DisplaySpan) : DisplaySpan :=
  {| textContent := text; classList := JS.class_remove muted (classList span) |}.

(** [updateDisplay()], for the value of the hidden input the closure
    holds.  It returns or throws; the state is as it was left. *)
Definition updateDisplay (p : Picker) (hiddenValue : string) (span : DisplaySpan)
    (st : State) : JS.Res unit * State :=
  if String.eqb hiddenValue "" then (inl tt, write_span (show_placeholder p span) st)
  else
    match parseISODateTime hiddenValue with
    | Some initialDate =>
        match format p initialDate with
        | (effects, inl correctlyFormatted) =>
            let st := log (formatting <$> effects) st in
            if negb (String.eqb (SelectBox.trim (textContent span)) correctlyFormatted)
            then (inl tt, write_span (show_text correctlyFormatted span) st)
            else (inl tt, st)
        | (effects, inr e) => (inr e, log (formatting <$> effects) st)
        end
    | None => (inl tt, write_span (show_placeholder p span) st)
    end.

(** [onCalendarSelect(event)]: [date] is [event.detail.date] when that is a
    Date object; [hasPopoverTrigger] tells whether the closest
    [data-popover] of the button has a [data-popover-trigger] element.  The
    Date object of the event is changed in place, so the function returns
    it with the state. *)
Definition onCalendarSelect (p : Picker) (date : option Date) (fields : TimeFields)
    (hasPopoverTrigger : bool) (st : State) : JS.Res unit * option Date * State :=
  match date with
  | None => (inl tt, date, st)
  | Some selectedDate =>
      let selectedDate :=
        if withTime p then
          setUTCHours (selected_hour (with24Hours p) fields)
            (read_field (minInput fields) (JS.Num 0))
            (read_field (secInput fields) (JS.Num 0)) selectedDate
        else selectedDate in
      match format p selectedDate with
      | (effects, inl displayFormattedValue) =>
          let st := log (formatting <$> effects) st in
          match displaySpan (triggerButton st) with
          | Some span =>
              let st := write_span (show_text displayFormattedValue span) st in
              (inl tt, Some selectedDate,
               log [if hasPopoverTrigger then click_popoverTrigger
                    else click_triggerButton] st)
          | None => (inr JS.TypeError, Some selectedDate, st)
          end
      | (effects, inr e) => (inr e, Some selectedDate, log (formatting <$> effects) st)
      end
  end.

(** The [calendar-date-selected] event on a calendar node: the listener of
    the closure runs when it sits on that node. *)
Definition calendar_date_selected (node : CalendarNode) (date : option Date)
    (fields : TimeFields) (hasPopoverTrigger : bool) (st : State)
  : JS.Res unit * option Date * State :=
  match picker st with
  | Some p =>
      if bool_decide (calendar p = node)
      then onCalendarSelect p date fields hasPopoverTrigger st
      else (inl tt, date, st)
  | None => (inl tt, date, st)
  end.

(** The calendar and the value of the hidden input [initDatePicker] ends
    up with, after the lookups by id and the fallback through the popover
    content. *)
Definition find_calendar (sur : Surroundings) (b : TriggerButton)
  : option CalendarNode * option string :=
  let calendarInstance := if calendarInstance sur then Some calendar_by_id else None in
  let calendarHiddenInput := calendarHiddenInput sur in
  if bool_decide (is_Some calendarInstance) && bool_decide (is_Some calendarHiddenInput)
  then (calendarInstance, calendarHiddenInput)
  else
    let popoverContent :=
      match aria_controls b with
      | Some (String _ _) => popoverContent sur
      | _ => None
      end in
    match popoverContent with
    | Some content =>
        (match calendarInstance with
         | Some c => Some c
         | None => if calendar_container content then Some calendar_in_popover else None
         end,
         match calendarHiddenInput with
         | Some v => Some v
         | None => mjoin (calendar_wrapper content)
         end)
    | None => (calendarInstance, calendarHiddenInput)
    end.

(** [initDatePicker(triggerButton)]. *)
Definition initDatePicker (sur : Surroundings) (st : State) : JS.Res unit * State :=
  let b := triggerButton st in
  if data_initialized b then (inl tt, st)
  else
    let st := {| triggerButton := mark b; picker := picker st; out := out st |} in
    match displaySpan b, find_calendar sur b with
    | Some span, (Some calendar, Some hiddenValue) =>
        let withTime := bool_decide (data_with_time b = Some "true") in
        let p := {| calendar := calendar;
                    displayFormat := or_default (data_display_format b) "locale-medium";
                    localeTag := or_default (data_locale_tag b) "en-US";
                    placeholder := or_default (data_placeholder b) "Select a date";
                    withTime := withTime;
                    withSeconds := bool_decide (data_with_seconds b = Some "true");
                    with24Hours :=
                      negb (bool_decide (data_with_24_hours b = Some "false")) |} in
        let st := {| triggerButton := triggerButton st; picker := Some p;
                     out := out st |} in
        match updateDisplay p hiddenValue span st with
        | (inl _, st) =>
            (inl tt, {| triggerButton := finish withTime (triggerButton st);
                        picker := picker st; out := out st |})
        | (inr e, st) => (inr e, st)
        end
    | _, _ => (inl tt, log [init_error] st)
    end.

(** The cleanup function stored on the button: the listener leaves the
    calendar. *)
Definition datePickerCleanup_call (st : State) : State :=
  if datePickerCleanup (triggerButton st)
  then {| triggerButton := triggerButton st; picker := None; out := out st |}
  else st.

End Closure.

End DatePickerInit.

(** ** Selection control: the listeners of the content
    (internal/components/selectbox/selectbox.js) *)
Module SelectKeys.
Import SelectBox.

(** *** Hover *)

Definition hover_classes : list string := ["bg-accent"; "text-accent-foreground"; "bg-muted"].

Definition set_item_classes (cl : list string) (it : Item) : Item :=
  set_item_look cl (check it) it.

(** [highlightItem(item)], for the item at position [i]. *)
Definition highlightItem (i : nat) : L unit :=
  c ← the_content;
  write_content
    (set_items
       (imap (fun k el =>
                if decide (k = i) then el
                else set_item_classes (JS.class_remove hover_classes (item_classes el)) el)
          (items c)) c) ;;
  item ← the_item i;
  when (negb (bool_decide (data_selected item = Some "true")))
    (write_item i (fun it => set_item_classes (JS.class_add accent (item_classes it)) it)).

Definition resetItemStyles : L unit :=
  c ← the_content;
  write_content
    (set_items
       ((fun item =>
           if bool_decide (data_selected item = Some "true")
           then set_item_classes
                  (JS.class_remove ["bg-muted"] (JS.class_add accent (item_classes item)))
                  item
           else set_item_classes (JS.class_remove hover_classes (item_classes item)) item)
          <$> items c) c).

(** The [mouseover] listener of the content, for a pointer over the item at
    position [i], or over no item. *)
Definition content_mouseover (target : option nat) : L unit :=
  match target with
  | Some i =>
      item ← the_item i;
      when (negb (bool_decide (data_disabled item = Some "true"))) (highlightItem i)
  | None => ret tt
  end.

(** The [mouseleave] listener of the content. *)
Definition content_mouseleave : L unit := resetItemStyles.

(** *** Keyboard *)

(** Where the focus of the document is: on the item at a position, on the
    search field of the content, or on some other node. *)
Inductive Focus := focus_item (i : nat) | focus_search | focus_elsewhere.

(** The positions of the items whose [style.display] is not [none], from
    position [k] on. *)
Fixpoint visible_from (k : nat) (its : list Item) : list nat :=
  match its with
  | [] => []
  | it :: r =>
      if String.eqb (item_display it) "none" then visible_from (S k) r
      else k :: visible_from (S k) r
  end.

Definition visibleItems (c : Content) : list nat := visible_from 0 (items c).

(** [Array.prototype.indexOf]. *)
Fixpoint indexOf (x : nat) (xs : list nat) : Z :=
  match xs with
  | [] => -1
  | y :: r =>
      if decide (y = x) then 0
      else let k := indexOf x r in if k <? 0 then -1 else k + 1
  end.

(** [this.content.querySelector('.select-item:focus')]. *)
Definition focused_item (c : Content) (focus : Focus) : option nat :=
  match focus with
  | focus_item i => if decide (i < length (items c))%nat then Some i else None
  | _ => None
  end.

(** [handleContentKeydown(e)]: the focus it leaves.  The remainder of
    JavaScript has the sign of the dividend. *)
Definition handleContentKeydown (key : string) (focus : Focus) : L Focus :=
  if String.eqb key "ArrowDown" || String.eqb key "ArrowUp" then
    c ← the_content;
    let visible := visibleItems c in
    if (length visible =? 0)%nat then ret focus
    else
      let n := Z.of_nat (length visible) in
      let nextIndex :=
        match focused_item c focus with
        | Some i =>
            let currentIndex := indexOf i visible in
            if String.eqb key "ArrowDown" then Z.rem (currentIndex + 1) n
            else Z.rem (currentIndex - 1 + n) n
        | None => 0
        end in
      match (if nextIndex <? 0 then None else visible !! Z.to_nat nextIndex) with
      | Some j => ret (focus_item j)
      | None => throw JS.TypeError
      end
  else if String.eqb key "Enter" then
    c ← the_content;
    match focused_item c focus with
    | Some i => selectItem i ;; ret focus
    | None => ret focus
    end
  else if String.eqb key "Escape" then
    c ← the_content;
    match focused_item c focus, search c with
    | Some _, Some _ => ret focus_search
    | _, _ =>
        match focus, search c with
        | focus_search, Some _ =>
            l ← get;
            when (has_closePopover l)
              (emit closePopover ;; emit (setTimeout focus_trigger 50)) ;;
            ret focus
        | _, _ => ret focus
        end
    end
  else ret focus.

(** *** A click, as the document sees it *)

(** The click handler that the object [this] put on the document, for a
    click on the item at position [n] of the content of element [e]: it
    returns at once when the click is not within the content of its own
    element.  What a listener throws does not reach the other listeners. *)
Definition object_click (e n this : nat) : W unit :=
  fun w =>
    match heap w !! this with
    | Some i =>
        if decide (element i = e)
        then (inl tt, snd (invoke this (document_click_on_item n) w))
        else (inl tt, w)
    | None => (inl tt, w)
    end.

Fixpoint click_objects (e n : nat) (objects : list nat) : W unit :=
  match objects with
  | [] => W_ret tt
  | this :: rest => fun w => click_objects e n rest (snd (object_click e n this w))
  end.

(** A click on the item at position [n] of the content of element [e]: the
    document runs the click handlers attached to it, one per object that
    attached one, in the order of construction of the objects. *)
Definition document_click (e n : nat) : W unit :=
  fun w => click_objects e n (seq 0 (length (heap w))) w.

End SelectKeys.

(** * Notions used to state the properties *)

(** ** Step sequencer *)
Section StepperNotions.
Import Stepper.

(** The number a step carries, as [updateStepStates] reads it. *)
Definition step_number (st : Step) : JS.num :=
  JS.parseInt_attr 0 (data_step_number st).

(** A sequencer with three steps at step 1, for the examples. *)
Definition three_steps : Stepper.Stepper :=
  let step n st :=
    {| Stepper.data_step_number := Some n; Stepper.data_status := Some st;
       Stepper.trigger := None; Stepper.connector := None |} in
  {| Stepper.stepperId := "wizard";
     Stepper.steps := [step "1" "active"; step "2" "incomplete"; step "3" "incomplete"];
     Stepper.stepContents := [];
     Stepper.currentStep := JS.Num 1;
     Stepper.dataset_currentStep := Some "1";
     Stepper.dispatched := [] |}.

End StepperNotions.

(** ** Date picker *)
Section DateNotions.
Import DatePicker.

(** The calendar date of a time value, with the month counted from 1. *)
Definition civil (t : Z) : Z * Z * Z :=
  (YearFromTime t, MonthFromTime t + 1, DateFromTime t).

(** The length of month [m] (1 to 12); [L] is 1 in a leap year. *)
Definition month_length (L m : Z) : Z :=
  match m with 2 => 28 + L | 4 | 6 | 9 | 11 => 30 | _ => 31 end.

Definition days_in_month (y m : Z) : Z :=
  month_length (if is_leap y then 1 else 0) m.

(** The value of a captured group of digits. *)
Definition number (p : string) : Z :=
  match JS.parseInt 10 p with JS.Num z => z | JS.NaN => 0 end.

(** The value [group_or_zero] gives an optional group. *)
Definition group_number (g : option string) : Z :=
  match g with Some p => number p | None => 0 end.

(** A group of [n] digits: its value and its range. *)
Definition is_group (n : nat) (p : string) : Prop :=
  JS.parseInt 10 p = JS.Num (number p) ∧ 0 ≤ number p < 10 ^ Z.of_nat n
  ∧ (∃ c p', p = String c p') ∧ ∀ r, digits n (p ++ r) = Some (p, r).

(** The optional seconds after [hh:mm], as the expression tries them. *)
Definition seconds_follow (s : string) : option (string * string) :=
  one_of [":"%char] s ≫= digits 2.

(** Whether text [t], put after a complete match with groups [g], would
    extend that match: a time after a date alone, seconds after [hh:mm]. *)
Definition extends_match (g : DateTimeGroups) (t : string) : bool :=
  match g_hour g, g_second g with
  | None, _ => bool_decide (is_Some (match_time t))
  | Some _, None => bool_decide (is_Some (seconds_follow t))
  | Some _, Some _ => false
  end.

(** The time of day the groups of a match denote, in milliseconds; no
    component is checked against its range. *)
Definition time_of_day (g : DateTimeGroups) : Z :=
  MakeTime (group_number (g_hour g))
    (group_number (g_minute g)) (group_number (g_second g)) 0.

(** The date part of a match, as a string of its own. *)
Definition date_part (g : DateTimeGroups) : string :=
  g_year g ++ "-" ++ g_month g ++ "-" ++ g_day g.

(** A formatter of valid dates, over the locale facility it is given. *)
Definition Formatter : Type :=
  (string → IntlOptions → Z → JS.Res string) → Z → string → string → Eff string.

Definition date_formatter : Formatter :=
  fun Intl t format localeTag => formatDateWithIntl Intl (Some (Some t)) format localeTag.

Definition datetime_formatter (withTime withSeconds with24Hours : bool) : Formatter :=
  fun Intl t format localeTag =>
    formatDateTimeWithIntl Intl (Some (Some t)) format localeTag
      withTime withSeconds with24Hours.

(** The fallback chain in the words of the specification: when the locale
    facility fails on the configuration [first format] asked for, the
    formatter returns what the facility gives on the fixed medium-style UTC
    configuration, and when that fails too, the manually composed date. *)
Definition two_level_fallback (first : string → IntlOptions) (F : Formatter) : Prop :=
  ∀ Intl t format localeTag,
    snd (F Intl t format localeTag) =
      inl match Intl localeTag (first format) t with
          | inl s => s
          | inr _ => match Intl localeTag fallbackOptions t with
                     | inl s => s
                     | inr _ => manual_ymd t
                     end
          end.

(** A locale facility that is unusable: every call throws. *)
Definition unusable_Intl : string → IntlOptions → Z → JS.Res string :=
  fun _ _ _ => inr JS.RangeError.

(** A locale facility that knows the medium style only. *)
Definition medium_only_Intl : string → IntlOptions → Z → JS.Res string :=
  fun _ options _ =>
    if String.eqb (dateStyle options) "medium" && bool_decide (hour options = None)
    then inl "Jun 15, 2023" else inr JS.RangeError.

End DateNotions.

(** ** Selection control *)
Section SelectNotions.
Import SelectBox.

(** An option as the renderer emits it: a value, a label, not selected. *)
Definition option_item (value label : string) : Item :=
  {| data_value := Some value; item_text := Some label; data_disabled := None;
     data_selected := Some "false"; item_classes := [];
     check := Some ["opacity-0"]; item_display := "" |}.

(** A complete select container with the options a, b and c, none selected,
    in single or multiple mode, with or without pills. *)
Definition abc_container (multi pills : bool) : Element :=
  {| data_initialized := false; el_show_reset := true; el_classes := [];
     trigger :=
       Some {| data_content_id := Some "select-content";
               valueEl := Some {| data_placeholder := None; shown := Text "Choose";
                                  value_classes := muted |};
               hiddenInput := Some "";
               data_multiple := Some (if multi then "true" else "false");
               data_show_pills := Some (if pills then "true" else "false");
               data_selected_count_text := None;
               trigger_show_reset := false; chevron := true; disabled := false |};
     content :=
       Some {| items := [option_item "a" "Alpha"; option_item "b" "Beta";
                         option_item "c" "Gamma"];
               search := Some "" |} |}.

(** A container that matches the discovery selector and has no trigger
    button. *)
Definition bare_container : Element :=
  {| data_initialized := false; el_show_reset := false; el_classes := [];
     trigger := None; content := None |}.

(** A page before any script ran. *)
Definition page_of (elements : list Element) : World :=
  {| page := elements; instances := ∅; heap := [];
     window_closePopover := true; log := [] |}.

(** The world a call leaves, and whether the call returned. *)
Definition after {A} (m : W A) (w : World) : World := snd (m w).
Definition returns {A} (m : W A) (w : World) : Prop := ∃ a, fst (m w) = inl a.

(** A selector engine that rejects every selector it is asked about. *)
Definition strict_engine : list Item → string → JS.Res (option nat) :=
  fun _ _ => inr JS.SyntaxError.

(** The [selectbox:destroy] events dispatched on element [e] so far. *)
Definition is_destroy (x : Effect) : bool :=
  match x with selectbox_destroy => true | _ => false end.
Definition destroy_events (e : nat) (w : World) : nat :=
  length (filter (fun x => fst x = e ∧ is_destroy (snd x) = true) (log w)).

(** The element has the four nodes [init()] requires. *)
Definition complete (e : Element) : bool :=
  match trigger e with
  | None => false
  | Some t =>
      truthy (data_content_id t) && bool_decide (is_Some (content e))
      && bool_decide (is_Some (valueEl t)) && bool_decide (is_Some (hiddenInput t))
  end.

(** The diagnostic [init()] logs for an element that is not complete. *)
Definition diagnostic (e : Element) : string :=
  match trigger e with
  | None => "SelectBox: Trigger button not found"
  | Some _ => "SelectBox: Missing required elements"
  end.

(** The object [init()] leaves when it gives up on element [e] at position
    [n]: the fresh object with whatever nodes it found. *)
Definition inert (n : nat) (e : Element) : Instance :=
  match trigger e with
  | None => fresh n
  | Some t =>
      set_bound true
        (truthy (data_content_id t) && bool_decide (is_Some (content e)))
        (bool_decide (is_Some (valueEl t))) (bool_decide (is_Some (hiddenInput t)))
        (fresh n)
  end.

(** A complete container whose markup carries the initialized marker. *)
Definition marked_container : Element := set_data_initialized true (abc_container false false).

(** The object [this] of a page, at work on its element. *)
Definition local_of (w : World) (this : nat) : option Local :=
  i ← heap w !! this;
  e ← page w !! element i;
  Some {| inst := i; el := e; has_closePopover := window_closePopover w; out := [] |}.

(** The instance of the container [abc_container multi pills], alone on its
    page, after [templUI.selectbox.init()]. *)
Definition abc_local (multi pills : bool) : Local :=
  default {| inst := fresh 0; el := abc_container multi pills;
             has_closePopover := true; out := [] |}
    (local_of (after init_page (page_of [abc_container multi pills])) 0).

(** The instance went through its whole [init()]: its four node fields hold
    the nodes of its element. *)
Definition constructed (l : Local) : Prop :=
  bound_triggerButton (inst l) = true ∧ bound_content (inst l) = true
  ∧ bound_valueEl (inst l) = true ∧ bound_hiddenInput (inst l) = true
  ∧ ∃ t c v h, trigger (el l) = Some t ∧ content (el l) = Some c
               ∧ valueEl t = Some v ∧ hiddenInput t = Some h.

(** When the instance renders pills, every option has its label element. *)
Definition labelled (l : Local) : Prop :=
  multiple (inst l) && showPills (inst l) = true →
  ∀ c it, content (el l) = Some c → it ∈ items c → is_Some (item_text it).

(** [s] is the value of an option of the control, and needs no escaping
    between the quotes of the selector [setValue] builds. *)
Definition carried (l : Local) (s : string) : Prop :=
  css_plain s = true
  ∧ ∃ c, content (el l) = Some c ∧ Some s ∈ (data_value <$> items c).

(** The values an argument of [setValue] stands for. *)
Definition values_of (v : SetValueArg) : list JsValue :=
  match v with Scalar x => [x] | Array xs => xs end.

(** The set after the values [ss] were added in turn. *)
Definition add_all (ss : list string) (acc : ValueSet) : ValueSet :=
  foldl (fun acc s => set_add (Some s) acc) acc ss.

(** The value of the hidden input, and the changes dispatched on it. *)
Definition hidden_value (l : Local) : option string := trigger (el l) ≫= hiddenInput.
Definition is_hidden_change (x : Effect) : bool :=
  match x with hidden_change => true | _ => false end.
Definition hidden_changes (l : Local) : nat :=
  length (filter (fun x => is_hidden_change x = true) (out l)).

(** A relation between the state before and the state after that a method
    body maintains, whether it returns or throws. *)
Definition maintains {A} (R : Local → Local → Prop) (m : L A) : Prop :=
  ∀ l, R l (snd (m l)).

(** The selection and the mode stay as they are. *)
Definition same_selection (l l' : Local) : Prop :=
  selectedValues (inst l') = selectedValues (inst l)
  ∧ multiple (inst l') = multiple (inst l).

End SelectNotions.

(** ** Step sequencer: navigation *)
Section StepperMoves.
Import Stepper.

Definition step_count (s : Stepper) : Z := Z.of_nat (length (steps s)).

(** The current step is one of the steps. *)
Definition in_range (s : Stepper) : Prop :=
  ∃ c, currentStep s = JS.Num c ∧ 1 ≤ c ≤ step_count s.

(** [s'] is [s] after it went to a step it has. *)
Definition moved_to (s s' : Stepper) : Prop :=
  ∃ k, 1 ≤ k ≤ step_count s
       ∧ s' = updateStepStates (set_currentStep (JS.Num k) s).

(** [s] is as a run of [updateStepStates] left it; every closure is, from
    the end of [initStepper] on. *)
Definition rendered (s : Stepper) : Prop := ∃ s0, s = updateStepStates s0.

(** A number that arithmetic by one step keeps exact: NaN, or an integer
    below 2^53 in magnitude. *)
Definition safe_number (a : JS.num) : Prop :=
  match a with JS.NaN => True | JS.Num z => - 2 ^ 53 < z < 2 ^ 53 end.

(** The ways to navigate with a number or a key. *)
Inductive Move := Go (n : Z) | Next | Prev | Key (key : string).

Definition move (m : Move) : Stepper → Stepper :=
  match m with
  | Go n => goToStep (JS.Num n)
  | Next => nextStep
  | Prev => prevStep
  | Key key => keydown key
  end.

(** A move whose number, if it has one, is an integer that [parseInt] maps
    to itself: one below 10^21 in magnitude, where the string of a number is
    its digits. *)
Definition plain_move (m : Move) : Prop :=
  match m with Go n => - 10 ^ 21 < n < 10 ^ 21 | _ => True end.

(** The number a content panel carries. *)
Definition content_number (c : StepContent) : JS.num :=
  JS.parseInt_attr 0 (content_step_number c).

(** What a step shows of its status: the status, the classes and the
    [aria-current] of its trigger, the classes of its connector. *)
Definition step_look (st : Step)
  : option string * option (list string * option string) * option (list string) :=
  (data_status st, (fun t => (classList t, aria_current t)) <$> trigger st,
   connector st).

(** The tone of a trigger: the two classes of its colour. *)
Definition primary_tone : list string := ["bg-primary"; "text-primary-foreground"].
Definition muted_tone : list string := ["bg-muted"; "text-muted-foreground"].
Definition destructive_tone : list string :=
  ["bg-destructive"; "text-destructive-foreground"].

(** The tone [update_trigger] adds for a status. *)
Definition tone_of (status : string) : list string :=
  if String.eqb status "active" || String.eqb status "completed" then primary_tone
  else if String.eqb status "error" then destructive_tone
  else muted_tone.


(** A sequencer with three steps, each with a trigger, a connector and a
    panel, as the markup has it before the script runs. *)
Definition wizard_container : Container :=
  let step n :=
    {| data_step_number := Some n; data_status := None;
       trigger := Some {| classList := ["w-8"; "bg-muted"]; aria_current := None;
                          svg := None; span := None |};
       connector := Some ["h-px"; "bg-muted"] |} in
  let panel n := {| content_step_number := Some n; content_display := "" |} in
  {| data_initialized := false; data_stepper_id := Some "wizard";
     data_current_step := None;
     c_steps := [step "1"; step "2"; step "3"];
     c_contents := [panel "1"; panel "2"; panel "3"] |}.

(** A selector engine that rejects every selector it is asked about. *)
Definition strict_steps : Container → string → JS.Res (list Step) :=
  fun _ _ => inr JS.SyntaxError.
Definition strict_contents : Container → string → JS.Res (list StepContent) :=
  fun _ _ => inr JS.SyntaxError.

(** Its closure, after [initStepper]. *)
Definition wizard : Stepper :=
  match snd (initStepper strict_steps strict_contents (Inert wizard_container)) with
  | Live s => s
  | Inert _ => three_steps
  end.

(** A container whose id cannot stand in a selector as it is. *)
Definition quoted_container : Container :=
  {| data_initialized := false;
     data_stepper_id := Some (String (ascii_of_nat 34) "wizard");
     data_current_step := None; c_steps := []; c_contents := [] |}.

(** A rendered sequencer whose second step has a trigger and no
    [data-step-number]. *)
Definition unnumbered : Stepper :=
  let step n :=
    {| data_step_number := n; data_status := None;
       trigger := Some {| classList := []; aria_current := None;
                          svg := None; span := None |};
       connector := None |} in
  updateStepStates
    {| stepperId := "wizard";
       steps := [step (Some "1"); step None];
       stepContents := [{| content_step_number := Some "1"; content_display := "" |}];
       currentStep := JS.Num 1; dataset_currentStep := None; dispatched := [] |}.


End StepperMoves.

(** ** Date picker: the dates the parsers accept *)
Section CalendarNotions.
Import DatePicker.

(** A date of the calendar from year 100 on: the month from 1 to 12, the
    day from 1 to the length of that month in that year. *)
Definition calendar_date (Y M D : Z) : Prop :=
  100 ≤ Y ∧ 1 ≤ M ≤ 12 ∧ 1 ≤ D ≤ days_in_month Y M.

(** The time value of a date of the calendar at a time of day. *)
Definition instant (Y M D time : Z) : Z := MakeDate (MakeDay Y (M - 1) D) time.

(** The three numbers the date groups of a match denote. *)
Definition date_of (g : DateTimeGroups) : Z * Z * Z :=
  (number (g_year g), number (g_month g), number (g_day g)).

(** The groups of the ISO form of an instant. *)
Definition iso_groups (t : Z) : DateTimeGroups :=
  {| g_year := iso_year (YearFromTime t); g_month := two (MonthFromTime t + 1);
     g_day := two (DateFromTime t); g_hour := Some (two (HourFromTime t));
     g_minute := Some (two (MinFromTime t)); g_second := Some (two (SecFromTime t)) |}.

End CalendarNotions.

(** ** Date picker: digits *)
Section DigitNotions.
Import DatePicker.

(** The integers from [a] on, [n] of them. *)
Definition integers (a : Z) (n : nat) : list Z := (fun i => a + Z.of_nat i) <$> seq 0 n.

Definition digit_chars : list ascii :=
  ["0"; "1"; "2"; "3"; "4"; "5"; "6"; "7"; "8"; "9"]%char.

(** A locale facility that fails on every call with the tag [tag] for the
    time value [t]. *)
Definition fails_for (Intl : string → IntlOptions → Z → JS.Res string)
    (tag : string) (t : Z) : Prop :=
  ∀ options, ∃ e, Intl tag options t = inr e.

End DigitNotions.

(** ** Date picker: the trigger button *)
Section PickerNotions.
Import DatePicker DatePickerInit.

(** The hour of the 24-hour clock for an hour of the 12-hour clock. *)
Definition hour_of_12 (h : Z) (pm : bool) : Z := h mod 12 + (if pm then 12 else 0).

(** A time value far enough from the end of the range of time values for
    any time of its day to be a time value as well. *)
Definition day_in_range (t : Z) : Prop :=
  -8640000000000000 ≤ t ≤ 8640000000000000 - msPerDay.

(** The text and the classes of the display element of a button. *)
Definition display_text (st : State) : option string :=
  textContent <$> displaySpan (triggerButton st).
Definition display_classes (st : State) : option (list string) :=
  classList <$> displaySpan (triggerButton st).

(** What the closure shows for a valid date: the text of the locale
    facility, or the ISO form when the facility fails. *)
Definition shown_for (Intl : string → IntlOptions → Z → JS.Res string) (p : Picker)
    (t : Z) : string :=
  match Intl (localeTag p)
          (datetime_options (displayFormat p) (withTime p) (withSeconds p)
             (with24Hours p)) t with
  | inl s => s
  | inr _ => match toISOString (Some t) with inl s => s | inr _ => "" end
  end.

(** What the closure shows for a Date object, valid or not. *)
Definition shown_date (Intl : string → IntlOptions → Z → JS.Res string) (p : Picker)
    (d : Date) : string :=
  match d with Some t => shown_for Intl p t | None => "" end.

(** A button as the markup has it, with a display element that shows a
    text. *)
Definition plain_button (text : string) (with_time with_24 : option string)
  : TriggerButton :=
  {| data_initialized := false; aria_controls := Some "popover-1";
     displaySpan := Some {| textContent := text; classList := [] |};
     data_display_format := None; data_locale_tag := None;
     data_placeholder := None; data_with_time := with_time;
     data_with_seconds := None; data_with_24_hours := with_24;
     datePickerInitialized := false; datePickerCleanup := false |}.

(** A calendar instance and its hidden input, both found by id. *)
Definition by_id (value : string) : Surroundings :=
  {| calendarInstance := true; calendarHiddenInput := Some value;
     popoverContent := None |}.

Definition before_init (b : TriggerButton) : State :=
  {| triggerButton := b; picker := None; out := [] |}.

(** A picker with a time of day on the 12-hour clock. *)
Definition clock_picker : Picker :=
  {| calendar := calendar_by_id; displayFormat := "locale-medium";
     localeTag := "en-US"; placeholder := "Select a date"; withTime := true;
     withSeconds := true; with24Hours := false |}.

Definition fields_of (hour minute second ampm : string) : TimeFields :=
  {| hourInput := Some hour; minInput := Some minute; secInput := Some second;
     ampmSel := Some ampm |}.

End PickerNotions.

(** ** Selection control: selecting an option *)
Section SelectMoreNotions.
Import SelectBox.

(** The set after [selectItem] on an option with value [v]: toggled in
    multiple mode, replaced in single mode. *)
Definition selection_after (multi : bool) (v : option string) (prev : ValueSet)
  : ValueSet :=
  if multi then if set_has v prev then set_delete v prev else set_add v prev
  else set_add v [].

(** The options after [selectItem] on the option at position [n]. *)
Definition items_after (multi : bool) (v : option string) (prev : ValueSet) (n : nat)
    (its : list Item) : list Item :=
  if multi then alter (if set_has v prev then mark_unselected else mark_selected) n its
  else alter mark_selected n (mark_unselected <$> its).

(** What [selectItem] does to the popover in single mode, when the page
    defines [window.closePopover]. *)
Definition closing (multi : bool) (i : Instance) (cp : bool) : list Effect :=
  if multi then []
  else if closeOnSelect i && cp then [closePopover; setTimeout focus_trigger 50]
       else [].

(** The timer [renderPills] sets to check for overflow. *)
Definition is_overflow_check (x : Effect) : Prop :=
  ∃ k, x = setTimeout (check_overflow k) 0.

(** What the summary shows, and its classes. *)
Definition summary (l : Local) : option Shown := shown <$> (trigger (el l) ≫= valueEl).
Definition summary_classes (l : Local) : option (list string) :=
  value_classes <$> (trigger (el l) ≫= valueEl).

(** The options of the control. *)
Definition options_of (l : Local) : list Item :=
  match content (el l) with Some c => items c | None => [] end.

(** The option at position [n] is marked as selected. *)
Definition marked_selected (l : Local) (n : nat) : Prop :=
  ∃ it, options_of l !! n = Some it ∧ data_selected it = Some "true".

(** When the instance renders pills, every option marked as selected has
    its label element. *)
Definition selected_labelled (i : Instance) (c : Content) : Prop :=
  multiple i && showPills i = true →
  ∀ it, it ∈ selected_items c → is_Some (item_text it).

(** What [updateDisplay] leaves in the summary [v'], for the summary [v]
    it found: the placeholder and the muted class when no option is marked
    as selected; otherwise no muted class and, in multiple mode, the pills
    of the marked options or their count, in single mode the label of the
    first marked option, when it has one. *)
Definition shows (i : Instance) (c : Content) (v v' : ValueEl) : Prop :=
  data_placeholder v' = data_placeholder v
  ∧ match selected_items c with
    | [] => shown v' = Text (default "" (placeholder i))
            ∧ "text-muted-foreground" ∈ value_classes v'
    | first :: rest =>
        ("text-muted-foreground" ∉ value_classes v')
        ∧ (if multiple i then
             if showPills i
             then (∃ labels, shown v' = Pills labels
                             ∧ Some <$> labels = item_text <$> (first :: rest))
             else shown v' = Text (count_text i (S (length rest)))
           else shown v' = match item_text first with
                           | Some t => Text t
                           | None => shown v
                           end)
    end.

(** The instance after the timer that ends a selection fired. *)
Definition settled (l : Local) : Local := snd (fire false clear_isSelecting l).




(** The text in the search field of the control, when it has one. *)
Definition search_field (l : Local) : option string := content (el l) ≫= search.

(** An option without a [.select-item-text] child. *)
Definition icon_item (value : string) : Item :=
  {| data_value := Some value; item_text := None; data_disabled := None;
     data_selected := Some "false"; item_classes := [];
     check := Some ["opacity-0"]; item_display := "" |}.

(** The instance of a multiple-selection container with pills, one
    labelled option and one without a label, alone on its page, after
    [templUI.selectbox.init()]. *)
Definition icon_container : Element :=
  set_content {| items := [option_item "a" "Alpha"; icon_item "x"]; search := None |}
    (abc_container true true).
Definition icon_local : Local :=
  default {| inst := fresh 0; el := icon_container;
             has_closePopover := true; out := [] |}
    (local_of (after init_page (page_of [icon_container])) 0).

End SelectMoreNotions.

(** ** Selection control: hover and keyboard *)
Section SelectKeysNotions.
Import SelectBox SelectKeys.

(** The option at position [i] is displayed. *)
Definition visible (l : Local) (i : nat) : Prop :=
  ∃ it, options_of l !! i = Some it ∧ item_display it ≠ "none".

(** The option carries the two accent classes. *)
Definition accented (it : Item) : Prop :=
  "bg-accent" ∈ item_classes it ∧ "text-accent-foreground" ∈ item_classes it.

(** The option carries none of the classes of the hover. *)
Definition plain_look (it : Item) : Prop :=
  ∀ c, c ∈ hover_classes → c ∉ item_classes it.

(** The index [handleContentKeydown] computes for an arrow key. *)
Definition next_index (key : string) (c : Content) (focus : Focus) : Z :=
  let n := Z.of_nat (length (visibleItems c)) in
  match focused_item c focus with
  | Some i =>
      let currentIndex := indexOf i (visibleItems c) in
      if String.eqb key "ArrowDown" then Z.rem (currentIndex + 1) n
      else Z.rem (currentIndex - 1 + n) n
  | None => 0
  end.

(** An arrow key of the list. *)
Definition arrow_key (key : string) : Prop := key = "ArrowDown" ∨ key = "ArrowUp".

(** The instance of the container [abc_container] with its second option
    hidden by a search. *)
Definition filtered_local : Local :=
  snd (write_item 1 (set_item_display "none") (abc_local false false)).

(** The instance of the container [abc_container] with two options, the
    first labelled with the word for school in French, its first letter
    being U+00C9, and that letter typed into the search field after a
    space. *)
Definition ecole_local : Local :=
  snd (write_content
         {| items := [option_item "fr" (String "201"%char "cole");
                      option_item "b" "Beta"];
            search := Some (String " "%char (String "201"%char "")) |}
         (abc_local false false)).

End SelectKeysNotions.

(** * Properties *)

(** ** parseInt on a few inputs *)
Example parseInt_examples :
  JS.parseInt 0 "3" = JS.Num 3 ∧ JS.parseInt 0 " -12px" = JS.Num (-12) ∧
  JS.parseInt 0 "0x1f" = JS.Num 31 ∧ JS.parseInt 10 "0x1f" = JS.Num 0 ∧
  JS.parseInt 10 "06" = JS.Num 6 ∧ JS.parseInt 0 "abc" = JS.NaN ∧
  JS.parseInt 0 "" = JS.NaN.
Proof. repeat split; reflexivity. Qed.

Example padStart_examples :
  JS.padStart 2 "7" = "07" ∧ JS.padStart 2 "12" = "12" ∧ JS.padStart 3 "5" = "005" ∧
  JS.padStart 2 "123" = "123".
Proof. repeat split; reflexivity. Qed.

(** ** Step sequencer *)
Section StepperFacts.
Import Stepper.

Lemma status_of_cases (k n : Z) :
  status_of (JS.Num k) (JS.Num n) =
    if k <? n then "completed" else if k =? n then "active" else "incomplete".
Proof. reflexivity. Qed.

Lemma goToStep_in_range (s : Stepper) (n : Z) :
  1 ≤ n ≤ Z.of_nat (length (steps s)) →
  goToStep (JS.Num n) s = updateStepStates (set_currentStep (JS.Num n) s).
Proof.
  intros [Hlo Hhi]. unfold goToStep, steps_length, JS.gt, JS.lt.
  destruct (Z.ltb_spec n 1); [lia|].
  destruct (Z.ltb_spec (Z.of_nat (length (steps s))) n); [lia|]. reflexivity.
Qed.

Lemma goToStep_below (s : Stepper) (n : Z) : n < 1 → goToStep (JS.Num n) s = s.
Proof.
  intros Hn. unfold goToStep, JS.lt.
  destruct (Z.ltb_spec n 1); [reflexivity | lia].
Qed.

Lemma goToStep_above (s : Stepper) (n : Z) :
  Z.of_nat (length (steps s)) < n → goToStep (JS.Num n) s = s.
Proof.
  intros Hn. unfold goToStep, steps_length, JS.gt, JS.lt.
  destruct (Z.ltb_spec (Z.of_nat (length (steps s))) n); [|lia].
  rewrite orb_true_r. reflexivity.
Qed.

(** What [updateStepStates] leaves in the step at index [i]. *)
Lemma updateStepStates_step (s : Stepper) (i : nat) (st : Step) :
  steps (updateStepStates s) !! i = Some st →
  ∃ st0, steps s !! i = Some st0 ∧ st = update_step (currentStep s) st0.
Proof.
  cbn. rewrite list_lookup_fmap. destruct (steps s !! i) as [st0|]; cbn; [|done].
  intros [= <-]. eauto.
Qed.

End StepperFacts.

(** C4.  In a sequencer with [N] steps, [goToStep(0)] and [goToStep(N+1)]
    change nothing, neither the current step nor any status nor anything else
    of the sequencer; [prevStep()] at step 1 and [nextStep()] at step [N]
    change nothing; and for [1 ≤ n ≤ N], after [goToStep(n)] the current step
    is [n], the steps are the same elements carrying the same numbers, every
    step numbered [n] has status [active], every step with a smaller number
    has status [completed] and every step with a larger number has status
    [incomplete]. *)
Theorem stepper_step_bounds (s : Stepper.Stepper) :
  let N := Z.of_nat (length (Stepper.steps s)) in
  Stepper.goToStep (JS.Num 0) s = s ∧
  Stepper.goToStep (JS.Num (N + 1)) s = s ∧
  (Stepper.currentStep s = JS.Num 1 → Stepper.prevStep s = s) ∧
  (Stepper.currentStep s = JS.Num N → Stepper.nextStep s = s) ∧
  ∀ n : Z, 1 ≤ n ≤ N →
    let s' := Stepper.goToStep (JS.Num n) s in
    Stepper.currentStep s' = JS.Num n ∧
    length (Stepper.steps s') = length (Stepper.steps s) ∧
    ∀ (i : nat) (st : Stepper.Step), Stepper.steps s' !! i = Some st →
      (∃ st0, Stepper.steps s !! i = Some st0 ∧ step_number st = step_number st0) ∧
      ∀ k : Z, step_number st = JS.Num k →
        (k = n → Stepper.data_status st = Some "active") ∧
        (k < n → Stepper.data_status st = Some "completed") ∧
        (n < k → Stepper.data_status st = Some "incomplete").
Proof.
  intros N. split; [apply goToStep_below; lia|].
  split; [apply goToStep_above; subst N; lia|].
  split.
  { intros Hc. unfold Stepper.prevStep. rewrite Hc. reflexivity. }
  split.
  { intros Hc. unfold Stepper.nextStep, Stepper.steps_length. rewrite Hc.
    fold N. unfold JS.lt. rewrite Z.ltb_irrefl. reflexivity. }
  intros n Hn s'. subst s'. rewrite goToStep_in_range by exact Hn.
  split; [reflexivity|]. split; [cbn; apply length_fmap|].
  intros i st Hst. apply updateStepStates_step in Hst as (st0 & Hst0 & ->).
  split; [eauto|].
  unfold step_number. cbn. intros k Hk. rewrite Hk, status_of_cases.
  destruct (Z.ltb_spec k n), (Z.eqb_spec k n); repeat split; intros; (reflexivity || lia).
Qed.

Lemma stepper_step_bounds_witness :
  1 ≤ 2 ≤ 3 ∧
  Stepper.data_status <$> Stepper.steps (Stepper.goToStep (JS.Num 2) three_steps)
  = [Some "completed"; Some "active"; Some "incomplete"] ∧
  ∀ (i : nat) (st : Stepper.Step),
    Stepper.steps (Stepper.goToStep (JS.Num 2) three_steps) !! i = Some st →
    ∀ k : Z, step_number st = JS.Num k →
      (k = 2 → Stepper.data_status st = Some "active") ∧
      (k < 2 → Stepper.data_status st = Some "completed") ∧
      (2 < k → Stepper.data_status st = Some "incomplete").
Proof.
  split; [lia|]. split; [reflexivity|].
  destruct (stepper_step_bounds three_steps) as (_ & _ & _ & _ & Hgo).
  destruct (Hgo 2 ltac:(cbn; lia)) as (_ & _ & Hsteps).
  intros i st Hst. exact (proj2 (Hsteps i st Hst)).
Defined.

(** ** Step sequencer: discovery *)
Section StepperDiscovery.
Import Stepper.

Variable qs : Container → string → JS.Res (list Step).
Variable qc : Container → string → JS.Res (list StepContent).

Lemma initStepper_marks (e : Element) : marked (snd (initStepper qs qc e)) = true.
Proof.
  destruct e as [c|s]; [|reflexivity]. cbn.
  destruct (data_initialized c) eqn:Hc; [exact Hc|].
  destruct (data_stepper_id c) as [[|a id]|]; try reflexivity.
  destruct (query_steps qs c _); [|reflexivity].
  destruct (query_contents qc c _); reflexivity.
Qed.

Lemma initStepper_marked (e : Element) :
  marked e = true → initStepper qs qc e = (inl tt, e).
Proof.
  destruct e as [c|s]; [|reflexivity]. cbn. intros ->. reflexivity.
Qed.

(** A plain id is looked up in the container: nothing is thrown. *)
Lemma initStepper_plain (e : Element) :
  (∀ c id, e = Inert c → data_stepper_id c = Some id → JS.selector_plain id = true) →
  fst (initStepper qs qc e) = inl tt.
Proof.
  intros Hplain. destruct e as [c|s]; [|reflexivity]. cbn.
  destruct (data_initialized c); [reflexivity|].
  destruct (data_stepper_id c) as [[|a id]|] eqn:Hid; try reflexivity.
  unfold query_steps, query_contents. rewrite (Hplain c _ eq_refl Hid). reflexivity.
Qed.

Lemma init_cons (e : Element) (rest : list Element) :
  init qs qc (e :: rest)
  = if marked e then (fst (init qs qc rest), e :: snd (init qs qc rest))
    else match initStepper qs qc e with
         | (inl _, e') => (fst (init qs qc rest), e' :: snd (init qs qc rest))
         | (inr ex, e') => (inr ex, e' :: rest)
         end.
Proof.
  cbn [init]. destruct (marked e).
  - destruct (init qs qc rest); reflexivity.
  - destruct (initStepper qs qc e) as [[[]|ex] e']; [|reflexivity].
    destruct (init qs qc rest); reflexivity.
Qed.

(** The discovery pass leaves a marked element as it is. *)
Lemma init_skips_marked (page : list Element) :
  ∀ i e, page !! i = Some e → marked e = true → snd (init qs qc page) !! i = Some e.
Proof.
  induction page as [|e0 rest IH]; intros i e Hi He; [discriminate Hi|].
  rewrite init_cons. destruct i as [|i]; cbn in Hi.
  - injection Hi as ->. rewrite He. reflexivity.
  - destruct (marked e0); [exact (IH i e Hi He)|].
    destruct (initStepper qs qc e0) as [[[]|ex] e']; cbn; [exact (IH i e Hi He) | exact Hi].
Qed.

(** When [init] returns, every element is marked. *)
Lemma init_returns_marked (page : list Element) :
  fst (init qs qc page) = inl tt →
  ∀ i e, snd (init qs qc page) !! i = Some e → marked e = true.
Proof.
  induction page as [|e0 rest IH]; intros Hret i e Hi; [discriminate Hi|].
  rewrite init_cons in Hret, Hi. destruct (marked e0) eqn:He0.
  - cbn in Hret, Hi. destruct i as [|i]; cbn in Hi; [congruence | exact (IH Hret i e Hi)].
  - pose proof (initStepper_marks e0) as Hm.
    destruct (initStepper qs qc e0) as [[[]|ex] e']; cbn in Hret, Hi, Hm; [|discriminate].
    destruct i as [|i]; cbn in Hi; [congruence | exact (IH Hret i e Hi)].
Qed.

(** [init] on a page whose elements are all marked returns and changes
    nothing. *)
Lemma init_all_marked (page : list Element) :
  (∀ i e, page !! i = Some e → marked e = true) → init qs qc page = (inl tt, page).
Proof.
  induction page as [|e0 rest IH]; intros Hall; [reflexivity|].
  rewrite init_cons, (Hall 0%nat e0 eq_refl).
  rewrite IH by (intros i e Hi; exact (Hall (S i) e Hi)). reflexivity.
Qed.

Lemma init_twice (page : list Element) :
  fst (init qs qc page) = inl tt →
  init qs qc (snd (init qs qc page)) = (inl tt, snd (init qs qc page)).
Proof. intros Hret. apply init_all_marked, init_returns_marked, Hret. Qed.

(** With plain ids [init] returns. *)
Lemma init_plain (page : list Element) :
  (∀ c id, Inert c ∈ page → data_stepper_id c = Some id → JS.selector_plain id = true) →
  fst (init qs qc page) = inl tt.
Proof.
  induction page as [|e0 rest IH]; intros Hplain; [reflexivity|].
  assert (Hrest : fst (init qs qc rest) = inl tt).
  { apply IH. intros c id Hin. apply Hplain. right. exact Hin. }
  rewrite init_cons. destruct (marked e0); [exact Hrest|].
  pose proof (initStepper_plain e0) as Hp.
  destruct (initStepper qs qc e0) as [[[]|ex] e']; [exact Hrest|].
  cbn in Hp. rewrite Hp; [reflexivity|].
  intros c id -> Hid. apply (Hplain c id); [left | exact Hid].
Qed.

(** When [init] throws, it was [initStepper] on an element without a marker:
    the elements before it are marked, the element has the marker and no
    closure, and the elements after it are as they were. *)
Lemma init_throws (page : list Element) (ex : JS.Exn) :
  fst (init qs qc page) = inr ex →
  ∃ i c, page !! i = Some (Inert c) ∧ data_initialized c = false
         ∧ initStepper qs qc (Inert c) = (inr ex, Inert (mark c))
         ∧ snd (init qs qc page) !! i = Some (Inert (mark c))
         ∧ (∀ j e, (j < i)%nat → snd (init qs qc page) !! j = Some e → marked e = true)
         ∧ (∀ j, (i < j)%nat → snd (init qs qc page) !! j = page !! j).
Proof.
  induction page as [|e0 rest IH]; intros Hthrow; [discriminate Hthrow|].
  rewrite init_cons in Hthrow |- *.
  assert (Hrec : fst (init qs qc rest) = inr ex →
                 ∀ e', marked e' = true →
                 ∃ i c, (e0 :: rest) !! i = Some (Inert c) ∧ data_initialized c = false
                   ∧ initStepper qs qc (Inert c) = (inr ex, Inert (mark c))
                   ∧ (e' :: snd (init qs qc rest)) !! i = Some (Inert (mark c))
                   ∧ (∀ j e, (j < i)%nat → (e' :: snd (init qs qc rest)) !! j = Some e →
                             marked e = true)
                   ∧ (∀ j, (i < j)%nat →
                           (e' :: snd (init qs qc rest)) !! j = (e0 :: rest) !! j)).
  { intros Hr e' He'. destruct (IH Hr) as (i & c & Hi & Hc & Hrun & Hat & Hbefore & Hafter).
    exists (S i), c. split; [exact Hi|]. split; [exact Hc|]. split; [exact Hrun|].
    split; [exact Hat|]. split.
    - intros [|j] e Hj He; cbn in He; [congruence | apply (Hbefore j e); [lia | exact He]].
    - intros [|j] Hj; [lia|]. cbn. apply Hafter. lia. }
  destruct (marked e0) eqn:He0; [exact (Hrec Hthrow e0 He0)|].
  pose proof (initStepper_marks e0) as Hm.
  destruct (initStepper qs qc e0) as [[[]|ex'] e'] eqn:Hrun; cbn in Hthrow, Hm |- *;
    [exact (Hrec Hthrow e' Hm)|].
  injection Hthrow as ->.
  destruct e0 as [c|s]; [|discriminate Hrun]. cbn in He0.
  assert (He' : e' = Inert (mark c)).
  { cbn in Hrun. rewrite He0 in Hrun.
    destruct (data_stepper_id c) as [[|a id]|]; try discriminate Hrun.
    destruct (query_steps qs c _); [|congruence].
    destruct (query_contents qc c _); [discriminate Hrun | congruence]. }
  subst e'. exists 0%nat, c. split; [reflexivity|]. split; [exact He0|].
  split; [exact Hrun|]. split; [reflexivity|].
  split; [intros j e Hj; lia|]. intros [|j] Hj; [lia | reflexivity].
Qed.

End StepperDiscovery.

(** ** Date picker: the calendar of ECMA-262 *)
Section Calendar.
Import DatePicker.

(** [YearFromDay] meets its definition in ECMA-262: the year of a day is
    the largest year that starts on or before it. *)
Lemma YearFromDay_spec (d : Z) :
  DayFromYear (YearFromDay d) ≤ d < DayFromYear (YearFromDay d + 1).
Proof.
  unfold YearFromDay. set (y := 1970 + 400 * d / 146097).
  assert (Hlo : DayFromYear (y - 1) ≤ d).
  { subst y. unfold DayFromYear. Z.div_mod_to_equations; lia. }
  assert (Hhi : d < DayFromYear (y + 2)).
  { subst y. unfold DayFromYear. Z.div_mod_to_equations; lia. }
  destruct (Z.leb_spec (DayFromYear (y + 1)) d).
  - split; [lia|]. replace (y + 1 + 1) with (y + 2) by lia. lia.
  - destruct (Z.leb_spec (DayFromYear y) d); [lia|].
    replace (y - 1 + 1) with y by lia. lia.
Qed.

Lemma DayFromYear_mono (y y' : Z) : y ≤ y' → DayFromYear y ≤ DayFromYear y'.
Proof. intros H. unfold DayFromYear. Z.div_mod_to_equations; lia. Qed.

Lemma DayFromYear_succ (y : Z) : DayFromYear (y + 1) = DayFromYear y + DaysInYear y.
Proof.
  unfold DayFromYear, DaysInYear, is_leap.
  destruct (Z.eqb_spec (y mod 4) 0), (Z.eqb_spec (y mod 100) 0),
    (Z.eqb_spec (y mod 400) 0); cbn; Z.div_mod_to_equations; lia.
Qed.

Lemma YearFromDay_unique (d y : Z) :
  DayFromYear y ≤ d < DayFromYear (y + 1) → YearFromDay d = y.
Proof.
  intros Hy. pose proof (YearFromDay_spec d) as Hs.
  destruct (Z.lt_trichotomy (YearFromDay d) y) as [Hlt | [Heq | Hgt]]; [|done|].
  - pose proof (DayFromYear_mono (YearFromDay d + 1) y). lia.
  - pose proof (DayFromYear_mono (y + 1) (YearFromDay d)). lia.
Qed.

(** Every component the getters return depends on the time value through
    its day only. *)
Lemma Day_MakeDate (day time : Z) :
  0 ≤ time < msPerDay → Day (MakeDate day time) = day.
Proof.
  intros H. unfold Day, MakeDate, msPerDay in *. Z.div_mod_to_equations; lia.
Qed.

Lemma civil_same_day (t t' : Z) : Day t = Day t' → civil t = civil t'.
Proof.
  intros H. unfold civil, DateFromTime, MonthFromTime, InLeapYear, DayWithinYear,
    YearFromTime. rewrite H. reflexivity.
Qed.

Ltac split_ltb :=
  repeat match goal with
         | |- context [?a <? ?b] => destruct (Z.ltb_spec a b); try lia
         end.

(** The two month tables agree on every day of a year. *)
Lemma month_tables (L m d : Z) :
  L = 0 ∨ L = 1 → 1 ≤ m ≤ 12 → 1 ≤ d ≤ month_length L m →
  0 ≤ month_start L (m - 1) + d - 1 < 365 + L
  ∧ month_of_day L (month_start L (m - 1) + d - 1) = m - 1.
Proof.
  intros HL Hm Hd.
  assert (m = 1 ∨ m = 2 ∨ m = 3 ∨ m = 4 ∨ m = 5 ∨ m = 6 ∨ m = 7 ∨ m = 8 ∨ m = 9
          ∨ m = 10 ∨ m = 11 ∨ m = 12) as Hcases by lia.
  destruct HL as [-> | ->];
    destruct Hcases as [-> | [-> | [-> | [-> | [-> | [-> | [-> | [-> | [-> | [-> | [-> | ->]]]]]]]]]]];
    cbn in Hd;
    change (1 - 1) with 0; change (2 - 1) with 1; change (3 - 1) with 2;
    change (4 - 1) with 3; change (5 - 1) with 4; change (6 - 1) with 5;
    change (7 - 1) with 6; change (8 - 1) with 7; change (9 - 1) with 8;
    change (10 - 1) with 9; change (11 - 1) with 10; change (12 - 1) with 11;
    cbn [month_start]; unfold month_of_day; (split; [lia|]); split_ltb; reflexivity.
Qed.

(** The getters invert [MakeDay] on the days of the calendar. *)
Lemma civil_MakeDay (y m d : Z) :
  1 ≤ m ≤ 12 → 1 ≤ d ≤ days_in_month y m →
  civil (MakeDate (MakeDay y (m - 1) d) 0) = (y, m, d).
Proof.
  intros Hm Hd. unfold days_in_month in Hd.
  assert (Hday : Day (MakeDate (MakeDay y (m - 1) d) 0) = MakeDay y (m - 1) d).
  { apply Day_MakeDate. unfold msPerDay. lia. }
  unfold civil, DateFromTime, MonthFromTime, InLeapYear, DayWithinYear, YearFromTime.
  rewrite Hday. unfold MakeDay.
  replace ((m - 1) / 12) with 0 by (Z.div_mod_to_equations; lia).
  replace ((m - 1) mod 12) with (m - 1) by (Z.div_mod_to_equations; lia).
  replace (y + 0) with y by lia.
  pose proof (DayFromYear_succ y) as Hsucc. unfold DaysInYear in Hsucc.
  set (L := if is_leap y then 1 else 0) in *.
  assert (HL : L = 0 ∨ L = 1) by (unfold L; destruct (is_leap y); lia).
  destruct (month_tables L m d HL Hm Hd) as [Hk Hmonth].
  assert (Hy : YearFromDay (DayFromYear y + month_start L (m - 1) + d - 1) = y).
  { apply YearFromDay_unique. unfold L in *. destruct (is_leap y); lia. }
  rewrite Hy. fold L.
  replace (DayFromYear y + month_start L (m - 1) + d - 1 - DayFromYear y)
    with (month_start L (m - 1) + d - 1) by lia.
  rewrite Hmonth. f_equal; [f_equal|]; lia.
Qed.

End Calendar.

(** ** Date picker: the regular expressions and parseInt on their groups *)
Section Groups.
Import DatePicker.

Lemma is_digit_inv (c : ascii) :
  is_digit c = true →
  ∃ k, 0 ≤ k ≤ 9 ∧ JS.radix_digit 10 c = Some k ∧ JS.is_space c = false
       ∧ c ∈ ["0"; "1"; "2"; "3"; "4"; "5"; "6"; "7"; "8"; "9"]%char.
Proof.
  destruct c as [[] [] [] [] [] [] [] []]; intros H; vm_compute in H;
    try discriminate H;
    match goal with
    | |- ∃ k, _ ∧ JS.radix_digit 10 ?c = _ ∧ _ =>
        let v := eval vm_compute in (JS.radix_digit 10 c) in
        match v with
        | Some ?k => exists k; split; [lia|]; split; [reflexivity|];
                     split; [reflexivity|]; set_solver
        end
    end.
Qed.

(** [parseInt(p, 10)] on a string that starts with a digit reads the
    digits, with neither white space nor sign in front. *)
Lemma parseInt_digit_first (c : ascii) (r : string) :
  is_digit c = true →
  JS.parseInt 10 (String c r) =
    match JS.digits_prefix 10 None (String c r) with
    | Some m => JS.Num m
    | None => JS.NaN
    end.
Proof.
  intros H. destruct (is_digit_inv c H) as (k & _ & _ & _ & Hc).
  assert (Hmul : ∀ o : option Z,
             match o with Some m => JS.Num (1 * m) | None => JS.NaN end
             = match o with Some m => JS.Num m | None => JS.NaN end).
  { intros [m|]; [f_equal; lia | reflexivity]. }
  repeat (apply elem_of_cons in Hc as [-> | Hc]; [exact (Hmul _)|]).
  inversion Hc.
Qed.

(** The digits of a group, read in base ten from an accumulator. *)
Lemma digits_prefix_group (n : nat) :
  ∀ (s d r : string) (acc : Z),
    0 ≤ acc → digits n s = Some (d, r) →
    ∃ z, JS.digits_prefix 10 (Some acc) d = Some z
         ∧ acc * 10 ^ Z.of_nat n ≤ z < (acc + 1) * 10 ^ Z.of_nat n.
Proof.
  induction n as [|n IH]; intros s d r acc Hacc Hd.
  - cbn in Hd. injection Hd as <- <-. exists acc. split; [reflexivity | lia].
  - cbn [digits] in Hd. destruct s as [|c s]; [discriminate|].
    destruct (is_digit c) eqn:Hc; [|discriminate].
    destruct (digits n s) as [[d' r']|] eqn:Hd'; [|discriminate].
    cbn in Hd. injection Hd as <- <-.
    destruct (is_digit_inv c Hc) as (k & Hk & Hrd & _).
    cbn [JS.digits_prefix]. rewrite Hrd. cbn [default].
    destruct (IH s d' r' (acc * 10 + k) ltac:(lia) Hd') as (z & Hz & Hb).
    exists z. split; [exact Hz|].
    rewrite Nat2Z.inj_succ, Z.pow_succ_r by lia. nia.
Qed.

Lemma number_group (n : nat) (s d r : string) :
  digits (S n) s = Some (d, r) →
  JS.parseInt 10 d = JS.Num (number d) ∧ 0 ≤ number d < 10 ^ Z.of_nat (S n).
Proof.
  intros Hd. cbn [digits] in Hd. destruct s as [|c s]; [discriminate|].
  destruct (is_digit c) eqn:Hc; [|discriminate].
  destruct (digits n s) as [[d' r']|] eqn:Hd'; [|discriminate].
  cbn in Hd. injection Hd as <- <-.
  destruct (is_digit_inv c Hc) as (k & Hk & Hrd & _).
  unfold number. rewrite parseInt_digit_first by exact Hc.
  cbn [JS.digits_prefix]. rewrite Hrd. cbn [default].
  destruct (digits_prefix_group n s d' r' (0 * 10 + k) ltac:(lia) Hd') as (z & -> & Hb).
  split; [reflexivity|].
  rewrite Nat2Z.inj_succ, Z.pow_succ_r by lia. nia.
Qed.

(** A group of digits is not the empty string. *)
Lemma group_nonempty (n : nat) (s d r : string) :
  digits (S n) s = Some (d, r) → ∃ c d', d = String c d'.
Proof.
  cbn [digits]. destruct s as [|c s]; [discriminate|].
  destruct (is_digit c); [|discriminate].
  destruct (digits n s) as [[d' r']|]; [|discriminate].
  cbn. intros [= <- <-]. eauto.
Qed.

Lemma group_or_zero_number (n : nat) (s d r : string) :
  digits (S n) s = Some (d, r) →
  group_or_zero (Some d) = JS.Num (number d).
Proof.
  intros Hd. destruct (group_nonempty n s d r Hd) as (c & d' & ->).
  cbn [group_or_zero]. exact (proj1 (number_group n s _ r Hd)).
Qed.

(** What a match consumes: the input is the matched text followed by the
    rest, and the same text matches in front of any other rest. *)
Lemma digits_app (n : nat) :
  ∀ s d r, digits n s = Some (d, r) →
           s = d ++ r ∧ ∀ r', digits n (d ++ r') = Some (d, r').
Proof.
  induction n as [|n IH]; intros s d r Hd.
  - cbn in Hd. injection Hd as <- <-. split; reflexivity.
  - cbn [digits] in Hd. destruct s as [|c s]; [discriminate|].
    destruct (is_digit c) eqn:Hc; [|discriminate].
    destruct (digits n s) as [[d' r0]|] eqn:Hd'; [|discriminate].
    cbn in Hd. injection Hd as <- <-.
    destruct (IH s d' r0 Hd') as [-> Happ].
    split; [reflexivity|]. intros r'. change (String c d' ++ r') with (String c (d' ++ r')).
    cbn [digits]. rewrite Hc, Happ. reflexivity.
Qed.

Lemma one_of_inv (cs : list ascii) (s r : string) :
  one_of cs s = Some r → ∃ c, c ∈ cs ∧ s = String c r.
Proof.
  destruct s as [|c s]; [discriminate|]. cbn.
  case_bool_decide; [|discriminate]. intros [= <-]. eauto.
Qed.

Lemma one_of_head (cs : list ascii) (c : ascii) (r : string) :
  c ∈ cs → one_of cs (String c r) = Some r.
Proof. intros H. cbn. rewrite bool_decide_eq_true_2; done. Qed.

End Groups.

(** ** Date picker: the two parsers *)
Section Parsers.
Import DatePicker.

Lemma digits_is_group (n : nat) (s d r : string) :
  digits (S n) s = Some (d, r) → is_group (S n) d ∧ s = d ++ r.
Proof.
  intros Hd. destruct (number_group n s d r Hd) as [Hp Hb].
  destruct (digits_app (S n) s d r Hd) as [Hs Happ].
  split; [|exact Hs]. split; [exact Hp|]. split; [exact Hb|].
  split; [exact (group_nonempty n s d r Hd) | exact Happ].
Qed.

Lemma group_or_zero_group (n : nat) (p : string) :
  is_group n p → group_or_zero (Some p) = JS.Num (number p).
Proof. intros (Hp & _ & (c & p' & ->) & _). exact Hp. Qed.

Lemma match_date_inv (s y m d rest : string) :
  match_date s = Some (y, m, d, rest) →
  is_group 4 y ∧ is_group 2 m ∧ is_group 2 d
  ∧ s = y ++ "-" ++ m ++ "-" ++ d ++ rest.
Proof.
  unfold match_date. intros H.
  destruct (digits 4 s) as [[y' s1]|] eqn:Hy; [|discriminate]. cbn [mbind option_bind] in H.
  destruct (one_of ["-"%char] s1) as [s2|] eqn:H1; [|discriminate]. cbn [mbind option_bind] in H.
  destruct (digits 2 s2) as [[m' s3]|] eqn:Hm; [|discriminate]. cbn [mbind option_bind] in H.
  destruct (one_of ["-"%char] s3) as [s4|] eqn:H2; [|discriminate]. cbn [mbind option_bind] in H.
  destruct (digits 2 s4) as [[d' s5]|] eqn:Hd; [|discriminate]. cbn [mbind option_bind] in H.
  injection H as <- <- <- <-.
  apply digits_is_group in Hy as [Gy ->], Hm as [Gm ->], Hd as [Gd ->].
  apply one_of_inv in H1 as (c1 & Hc1 & ->), H2 as (c2 & Hc2 & ->).
  apply list_elem_of_singleton in Hc1 as ->, Hc2 as ->.
  split; [exact Gy|]. split; [exact Gm|]. split; [exact Gd|]. reflexivity.
Qed.

Lemma match_date_groups (y m d rest : string) :
  is_group 4 y → is_group 2 m → is_group 2 d →
  match_date (y ++ "-" ++ m ++ "-" ++ d ++ rest) = Some (y, m, d, rest).
Proof.
  intros (_ & _ & _ & Hy) (_ & _ & _ & Hm) (_ & _ & _ & Hd).
  unfold match_date. rewrite Hy. cbn [mbind option_bind].
  change ("-" ++ m ++ "-" ++ d ++ rest) with (String "-" (m ++ String "-" (d ++ rest))).
  rewrite one_of_head by constructor. cbn [mbind option_bind]. rewrite Hm.
  cbn [mbind option_bind]. rewrite one_of_head by constructor.
  cbn [mbind option_bind]. rewrite Hd. reflexivity.
Qed.

Lemma match_time_inv (s h mi rest : string) (sec : option string) :
  match_time s = Some (h, mi, sec, rest) →
  is_group 2 h ∧ is_group 2 mi
  ∧ match sec with Some p => is_group 2 p | None => True end.
Proof.
  unfold match_time. intros H.
  destruct (one_of ["T"%char; " "%char] s) as [s1|]; [|discriminate]. cbn [mbind option_bind] in H.
  destruct (digits 2 s1) as [[h' s2]|] eqn:Hh; [|discriminate]. cbn [mbind option_bind] in H.
  destruct (one_of [":"%char] s2) as [s3|]; [|discriminate]. cbn [mbind option_bind] in H.
  destruct (digits 2 s3) as [[mi' s4]|] eqn:Hmi; [|discriminate]. cbn [mbind option_bind] in H.
  apply digits_is_group in Hh as [Gh _], Hmi as [Gmi _].
  destruct (one_of [":"%char] s4) as [s5|]; cbn [mbind option_bind] in H.
  - destruct (digits 2 s5) as [[sec' s6]|] eqn:Hsec.
    + injection H as <- <- <- <-. apply digits_is_group in Hsec as [Gsec _]. done.
    + injection H as <- <- <- <-. done.
  - injection H as <- <- <- <-. done.
Qed.

Lemma month_start_bounds (L m : Z) : 0 ≤ L ≤ 1 → 0 ≤ month_start L m ≤ 335.
Proof. intros HL. unfold month_start. repeat case_match; lia. Qed.

(** The arguments the parsers pass to [Date.UTC] stay far inside the
    range of time values. *)
Lemma Date_UTC_groups (Y M D h mi sec : Z) :
  0 ≤ Y < 10 ^ 4 → 0 ≤ M < 10 ^ 2 → 0 ≤ D < 10 ^ 2 →
  0 ≤ h < 10 ^ 2 → 0 ≤ mi < 10 ^ 2 → 0 ≤ sec < 10 ^ 2 →
  ∃ t, Date_UTC Y (M - 1) D h mi sec = Some t.
Proof.
  intros HY HM HD Hh Hmi Hsec. unfold Date_UTC, TimeClip.
  set (yr := full_year Y).
  assert (Hyr : 0 ≤ yr < 10 ^ 4) by (unfold yr, full_year; case_match; lia).
  set (t := MakeDate _ _).
  assert (Ht : Z.abs t ≤ 8640000000000000).
  { subst t. unfold MakeDate, MakeDay, MakeTime, msPerDay, msPerHour, msPerMinute,
      msPerSecond.
    pose proof (month_start_bounds (if is_leap (yr + (M - 1) / 12) then 1 else 0)
                  ((M - 1) mod 12) ltac:(case_match; lia)) as Hms.
    set (ms := month_start _ _) in *. clearbody ms.
    assert (-1 ≤ (M - 1) / 12 ≤ 8) by (Z.div_mod_to_equations; lia).
    set (q := (M - 1) / 12) in *. clearbody q.
    unfold DayFromYear. change (10 ^ 4) with 10000 in *. change (10 ^ 2) with 100 in *.
    Z.div_mod_to_equations. lia. }
  destruct (Z.ltb_spec 8640000000000000 (Z.abs t)); [lia | eauto].
Qed.

Lemma Date_UTC_Some (Y M D h mi sec t : Z) :
  Date_UTC Y M D h mi sec = Some t →
  t = MakeDate (MakeDay (full_year Y) M D) (MakeTime h mi sec 0).
Proof.
  unfold Date_UTC, TimeClip. cbv zeta.
  destruct (_ <? _); [discriminate|]. intros [= <-]. reflexivity.
Qed.

Lemma full_year_late (Y : Z) : 100 ≤ Y → full_year Y = Y.
Proof.
  intros H. unfold full_year.
  destruct (Z.leb_spec 0 Y), (Z.leb_spec Y 99); try reflexivity; lia.
Qed.

Lemma MakeTime_zero : MakeTime 0 0 0 0 = 0.
Proof. reflexivity. Qed.

Lemma reads_back_civil (t Y M D : Z) :
  reads_back (Some t) (JS.Num Y) (JS.Num (M - 1)) (JS.Num D)
  = bool_decide (civil t = (Y, M, D)).
Proof.
  unfold reads_back, civil. cbn.
  destruct (Z.eqb_spec (YearFromTime t) Y), (Z.eqb_spec (MonthFromTime t) (M - 1)),
    (Z.eqb_spec (DateFromTime t) D); cbn; symmetry;
    (apply bool_decide_eq_true_2 || apply bool_decide_eq_false_2);
    try congruence; try (f_equal; [f_equal|]; lia); intros [= ? ? ?]; lia.
Qed.

Lemma exec_date_inv (s y m d : string) :
  exec_date s = Some (y, m, d) → match_date s = Some (y, m, d, "").
Proof.
  unfold exec_date. destruct (match_date s) as [[[[y' m'] d'] rest]|]; [|discriminate].
  cbn. destruct (String.eqb_spec rest ""); [|discriminate]. congruence.
Qed.

Lemma match_date_nonempty (s y m d rest : string) :
  match_date s = Some (y, m, d, rest) → String.eqb s "" = false.
Proof. destruct s; [discriminate | reflexivity]. Qed.

(** [parseISODate] on every string of its shape. *)
Lemma parseISODate_shape (s y m d : string) :
  exec_date s = Some (y, m, d) →
  ∃ t, Date_UTC (number y) (number m - 1) (number d) 0 0 0 = Some t
       ∧ parseISODate s =
           if decide (civil t = (number y, number m, number d))
           then Some (Some t) else None.
Proof.
  intros Hex. pose proof (exec_date_inv _ _ _ _ Hex) as Hm.
  destruct (match_date_inv _ _ _ _ _ Hm) as ((Py & By & _) & (Pm & Bm & _) & (Pd & Bd & _) & _).
  destruct (Date_UTC_groups (number y) (number m) (number d) 0 0 0) as [t Ht];
    [lia..|].
  exists t. split; [exact Ht|].
  unfold parseISODate. rewrite (match_date_nonempty _ _ _ _ _ Hm), Hex, Py, Pm, Pd.
  cbn [JS.sub Date_UTC_num]. rewrite Ht, reads_back_civil.
  destruct (decide (civil t = _)) as [e|n];
    [rewrite bool_decide_eq_true_2 by exact e | rewrite bool_decide_eq_false_2 by exact n];
    reflexivity.
Qed.

Lemma exec_datetime_inv (s : string) (g : DateTimeGroups) (rest : string) :
  exec_datetime s = Some (g, rest) →
  is_group 4 (g_year g) ∧ is_group 2 (g_month g) ∧ is_group 2 (g_day g)
  ∧ match g_hour g with Some p => is_group 2 p | None => True end
  ∧ match g_minute g with Some p => is_group 2 p | None => True end
  ∧ match g_second g with Some p => is_group 2 p | None => True end
  ∧ String.eqb s "" = false.
Proof.
  unfold exec_datetime. intros H.
  destruct (match_date s) as [[[[y m] d] r1]|] eqn:Hm; [|discriminate]. cbn in H.
  destruct (match_date_inv _ _ _ _ _ Hm) as (Gy & Gm & Gd & _).
  pose proof (match_date_nonempty _ _ _ _ _ Hm) as Hne.
  destruct (match_time r1) as [[[[h mi] sec] r2]|] eqn:Ht.
  - injection H as <- <-. cbn.
    destruct (match_time_inv _ _ _ _ _ Ht) as (Gh & Gmi & Gsec). done.
  - injection H as <- <-. cbn. done.
Qed.

Lemma group_or_zero_optional (g : option string) :
  match g with Some p => is_group 2 p | None => True end →
  group_or_zero g = JS.Num (group_number g) ∧ 0 ≤ group_number g < 10 ^ 2.
Proof.
  destruct g as [p|]; [|cbn; split; [reflexivity | lia]].
  intros G. split; [exact (group_or_zero_group 2 p G) | exact (proj1 (proj2 G))].
Qed.

(** [parseISODateTime] on every string that starts with its shape. *)
Lemma parseISODateTime_shape (s : string) (g : DateTimeGroups) (rest : string) :
  exec_datetime s = Some (g, rest) →
  ∃ t, Date_UTC (number (g_year g)) (number (g_month g) - 1) (number (g_day g))
         (group_number (g_hour g)) (group_number (g_minute g))
         (group_number (g_second g)) = Some t
       ∧ parseISODateTime s =
           if decide (civil t = (number (g_year g), number (g_month g), number (g_day g)))
           then Some (Some t) else None.
Proof.
  intros Hex.
  destruct (exec_datetime_inv _ _ _ Hex)
    as ((Py & By & _) & (Pm & Bm & _) & (Pd & Bd & _) & Gh & Gmi & Gsec & Hne).
  apply group_or_zero_optional in Gh as [Ph Bh], Gmi as [Pmi Bmi], Gsec as [Psec Bsec].
  destruct (Date_UTC_groups (number (g_year g)) (number (g_month g)) (number (g_day g))
              (group_number (g_hour g)) (group_number (g_minute g))
              (group_number (g_second g))) as [t Ht]; [lia..|].
  exists t. split; [exact Ht|].
  unfold parseISODateTime. rewrite Hne, Hex, Py, Pm, Pd, Ph, Pmi, Psec.
  cbn [JS.sub Date_UTC_num]. rewrite Ht, reads_back_civil.
  destruct (decide (civil t = _)) as [e|n];
    [rewrite bool_decide_eq_true_2 by exact e | rewrite bool_decide_eq_false_2 by exact n];
    reflexivity.
Qed.

End Parsers.

(** ** Strings: append *)

Lemma string_app_cons (x : ascii) (a b : string) : String x a ++ b = String x (a ++ b).
Proof. reflexivity. Qed.

Lemma string_app_nil_l (b : string) : "" ++ b = b.
Proof. reflexivity. Qed.

Lemma string_app_assoc (a b c : string) : (a ++ b) ++ c = a ++ (b ++ c).
Proof.
  induction a as [|x a IH]; [reflexivity|].
  rewrite !string_app_cons, IH. reflexivity.
Qed.

Lemma string_app_nil_r (a : string) : a ++ "" = a.
Proof.
  induction a as [|x a IH]; [reflexivity|]. rewrite string_app_cons, IH. reflexivity.
Qed.

(** Appends nested to the right, with literal characters in front. *)
Ltac norm_app :=
  repeat (rewrite ?string_app_assoc, ?string_app_cons, ?string_app_nil_l,
            ?string_app_nil_r).

(** ** Date picker: what follows the match, and the time of day *)
Section Trailing.
Import DatePicker.

Lemma seconds_follow_inv (s p rest : string) :
  seconds_follow s = Some (p, rest) → is_group 2 p ∧ s = ":" ++ p ++ rest.
Proof.
  unfold seconds_follow. intros H.
  destruct (one_of [":"%char] s) as [s1|] eqn:H1; [|discriminate].
  cbn [mbind option_bind] in H. apply digits_is_group in H as [G ->].
  apply one_of_inv in H1 as (c & Hc & ->). apply list_elem_of_singleton in Hc as ->.
  done.
Qed.

Lemma seconds_follow_group (p rest : string) :
  is_group 2 p → seconds_follow (":" ++ p ++ rest) = Some (p, rest).
Proof.
  intros (_ & _ & _ & Hp). unfold seconds_follow.
  change (":" ++ p ++ rest) with (String ":" (p ++ rest)).
  rewrite one_of_head by constructor. cbn [mbind option_bind]. apply Hp.
Qed.

Lemma match_time_unfold (c : ascii) (h mi rest : string) :
  c ∈ ["T"; " "]%char → is_group 2 h → is_group 2 mi →
  match_time (String c (h ++ ":" ++ mi ++ rest)) =
    match seconds_follow rest with
    | Some (sec, rest') => Some (h, mi, Some sec, rest')
    | None => Some (h, mi, None, rest)
    end.
Proof.
  intros Hc (_ & _ & _ & Hh) (_ & _ & _ & Hmi). unfold match_time.
  rewrite one_of_head by exact Hc. cbn [mbind option_bind]. rewrite Hh.
  cbn [mbind option_bind].
  change (":" ++ mi ++ rest) with (String ":" (mi ++ rest)).
  rewrite one_of_head by constructor. cbn [mbind option_bind]. rewrite Hmi.
  cbn [mbind option_bind]. reflexivity.
Qed.

Lemma match_time_shape (s h mi rest : string) (sec : option string) :
  match_time s = Some (h, mi, sec, rest) →
  ∃ c rest0, c ∈ ["T"; " "]%char ∧ is_group 2 h ∧ is_group 2 mi
    ∧ s = String c (h ++ ":" ++ mi ++ rest0)
    ∧ match sec with
      | Some p => seconds_follow rest0 = Some (p, rest)
      | None => seconds_follow rest0 = None ∧ rest = rest0
      end.
Proof.
  unfold match_time. intros H.
  destruct (one_of ["T"%char; " "%char] s) as [s1|] eqn:H0; [|discriminate].
  cbn [mbind option_bind] in H.
  destruct (digits 2 s1) as [[h' s2]|] eqn:Hh; [|discriminate].
  cbn [mbind option_bind] in H.
  destruct (one_of [":"%char] s2) as [s3|] eqn:H1; [|discriminate].
  cbn [mbind option_bind] in H.
  destruct (digits 2 s3) as [[mi' s4]|] eqn:Hmi; [|discriminate].
  cbn [mbind option_bind] in H.
  apply digits_is_group in Hh as [Gh ->], Hmi as [Gmi ->].
  apply one_of_inv in H0 as (c & Hc & ->), H1 as (c1 & Hc1 & ->).
  apply list_elem_of_singleton in Hc1 as ->.
  fold (seconds_follow s4) in H.
  destruct (seconds_follow s4) as [[p r]|] eqn:Hs.
  - injection H as <- <- <- <-. exists c, s4. done.
  - injection H as <- <- <- <-. exists c, s4. done.
Qed.

(** Two inputs with the same groups parse alike. *)
Lemma parseISODateTime_groups (s s' : string) (g : DateTimeGroups) (r r' : string) :
  exec_datetime s = Some (g, r) → exec_datetime s' = Some (g, r') →
  parseISODateTime s = parseISODateTime s'.
Proof.
  intros H H'. unfold parseISODateTime.
  rewrite (proj2 (proj2 (proj2 (proj2 (proj2 (proj2 (exec_datetime_inv _ _ _ H))))))).
  rewrite (proj2 (proj2 (proj2 (proj2 (proj2 (proj2 (exec_datetime_inv _ _ _ H'))))))).
  rewrite H, H'. reflexivity.
Qed.

(** The match is a prefix of the input; that prefix alone has the same
    groups. *)
Lemma exec_datetime_prefix (s : string) (g : DateTimeGroups) (rest : string) :
  exec_datetime s = Some (g, rest) →
  ∃ p, s = p ++ rest ∧ exec_datetime p = Some (g, "").
Proof.
  unfold exec_datetime. intros H.
  destruct (match_date s) as [[[[y m] d] r1]|] eqn:Hm; [|discriminate].
  cbn [mbind option_bind] in H.
  destruct (match_date_inv _ _ _ _ _ Hm) as (Gy & Gm & Gd & ->).
  destruct (match_time r1) as [[[[h mi] sec] r2]|] eqn:Ht.
  - injection H as <- <-.
    destruct (match_time_shape _ _ _ _ _ Ht) as (c & r0 & Hc & Gh & Gmi & -> & Hsec).
    destruct sec as [p|].
    + apply seconds_follow_inv in Hsec as [Gp ->].
      exists (y ++ "-" ++ m ++ "-" ++ d ++ String c (h ++ ":" ++ mi ++ ":" ++ p ++ "")).
      split.
      { norm_app. reflexivity. }
      rewrite match_date_groups by assumption. cbn [mbind option_bind].
      rewrite match_time_unfold by assumption.
      rewrite seconds_follow_group by assumption. reflexivity.
    + destruct Hsec as [Hnone <-].
      exists (y ++ "-" ++ m ++ "-" ++ d ++ String c (h ++ ":" ++ mi ++ "")).
      split.
      { norm_app. reflexivity. }
      rewrite match_date_groups by assumption. cbn [mbind option_bind].
      rewrite match_time_unfold by assumption. reflexivity.
  - injection H as <- <-.
    exists (y ++ "-" ++ m ++ "-" ++ d ++ "").
    split.
    { norm_app. reflexivity. }
    rewrite match_date_groups by assumption. reflexivity.
Qed.

(** Text after a complete match leaves the groups as they are, unless it
    extends the match. *)
Lemma exec_datetime_app (p : string) (g : DateTimeGroups) (t : string) :
  exec_datetime p = Some (g, "") → extends_match g t = false →
  exec_datetime (p ++ t) = Some (g, t).
Proof.
  unfold exec_datetime. intros H Hext.
  destruct (match_date p) as [[[[y m] d] r1]|] eqn:Hm; [|discriminate].
  cbn [mbind option_bind] in H.
  destruct (match_date_inv _ _ _ _ _ Hm) as (Gy & Gm & Gd & ->).
  replace ((y ++ "-" ++ m ++ "-" ++ d ++ r1) ++ t)
    with (y ++ "-" ++ m ++ "-" ++ d ++ (r1 ++ t)).
  2:{ norm_app. reflexivity. }
  rewrite match_date_groups by assumption. cbn [mbind option_bind].
  destruct (match_time r1) as [[[[h mi] sec] r2]|] eqn:Ht.
  - injection H as <- ->.
    destruct (match_time_shape _ _ _ _ _ Ht) as (c & r0 & Hc & Gh & Gmi & -> & Hsec).
    unfold extends_match in Hext. cbn in Hext.
    destruct sec as [q|].
    + apply seconds_follow_inv in Hsec as [Gq ->].
      replace (String c (h ++ ":" ++ mi ++ ":" ++ q ++ "") ++ t)
        with (String c (h ++ ":" ++ mi ++ ":" ++ q ++ t)).
      2:{ norm_app. reflexivity. }
      rewrite match_time_unfold by assumption.
      rewrite seconds_follow_group by assumption. reflexivity.
    + destruct Hsec as [_ <-].
      replace (String c (h ++ ":" ++ mi ++ "") ++ t)
        with (String c (h ++ ":" ++ mi ++ t)).
      2:{ norm_app. reflexivity. }
      rewrite match_time_unfold by assumption.
      apply bool_decide_eq_false_1 in Hext.
      destruct (seconds_follow t) as [[q r]|]; [|reflexivity].
      exfalso. apply Hext. eauto.
  - injection H as <- ->. unfold extends_match in Hext. cbn in Hext.
    apply bool_decide_eq_false_1 in Hext. rewrite string_app_nil_l.
    destruct (match_time t) as [[[[h mi] sec] r2]|]; [|reflexivity].
    exfalso. apply Hext. eauto.
Qed.

End Trailing.

(** ** Date picker: the parsers against their contract *)

(** C5.  On every string of the date shape, [parseISODate] rebuilds the UTC
    instant of the three components and returns the absent result when the
    calendar date of that instant is not the date written, and the instant
    when it is; [parseISODateTime] does the same on every string that starts
    with the date or date-time shape.  Both return the absent result on
    2023-02-30 and on 2023-13-01, and on 2023-06-15 the instant of that day at
    midnight UTC. *)
Theorem date_parsers_round_trip_contract :
  (∀ s y m d : string,
     DatePicker.exec_date s = Some (y, m, d) →
     ∃ t, DatePicker.Date_UTC (number y) (number m - 1) (number d) 0 0 0 = Some t
          ∧ (civil t ≠ (number y, number m, number d) →
             DatePicker.parseISODate s = None)
          ∧ (civil t = (number y, number m, number d) →
             DatePicker.parseISODate s = Some (Some t)))
  ∧ (∀ (s : string) (g : DatePicker.DateTimeGroups) (rest : string),
       DatePicker.exec_datetime s = Some (g, rest) →
       let Y := number (DatePicker.g_year g) in
       let M := number (DatePicker.g_month g) in
       let D := number (DatePicker.g_day g) in
       ∃ t, DatePicker.Date_UTC Y (M - 1) D
              (group_number (DatePicker.g_hour g))
              (group_number (DatePicker.g_minute g))
              (group_number (DatePicker.g_second g)) = Some t
            ∧ (civil t ≠ (Y, M, D) → DatePicker.parseISODateTime s = None)
            ∧ (civil t = (Y, M, D) → DatePicker.parseISODateTime s = Some (Some t)))
  ∧ DatePicker.parseISODate "2023-02-30" = None
  ∧ DatePicker.parseISODate "2023-13-01" = None
  ∧ DatePicker.parseISODate "2023-06-15" = Some (Some 1686787200000)
  ∧ DatePicker.parseISODateTime "2023-02-30" = None
  ∧ DatePicker.parseISODateTime "2023-13-01" = None
  ∧ DatePicker.parseISODateTime "2023-06-15" = Some (Some 1686787200000)
  ∧ civil 1686787200000 = (2023, 6, 15)
  ∧ DatePicker.TimeWithinDay 1686787200000 = 0.
Proof.
  split.
  { intros s y m d Hex. destruct (parseISODate_shape s y m d Hex) as (t & Ht & Hp).
    exists t. split; [exact Ht|]. rewrite Hp.
    split; intros Hc; [rewrite decide_False by exact Hc | rewrite decide_True by exact Hc];
      reflexivity. }
  split.
  { intros s g rest Hex Y M D.
    destruct (parseISODateTime_shape s g rest Hex) as (t & Ht & Hp).
    exists t. split; [exact Ht|]. rewrite Hp. fold Y M D.
    split; intros Hc; [rewrite decide_False by exact Hc | rewrite decide_True by exact Hc];
      reflexivity. }
  repeat split; vm_compute; reflexivity.
Qed.

Lemma date_parsers_round_trip_contract_witness :
  DatePicker.exec_date "2023-02-30" = Some ("2023", "02", "30")
  ∧ ∃ t, DatePicker.Date_UTC 2023 (2 - 1) 30 0 0 0 = Some t
         ∧ (civil t ≠ (2023, 2, 30) → DatePicker.parseISODate "2023-02-30" = None)
         ∧ (civil t = (2023, 2, 30) → DatePicker.parseISODate "2023-02-30" = Some (Some t)).
Proof.
  split; [reflexivity|].
  exact (proj1 date_parsers_round_trip_contract "2023-02-30" "2023" "02" "30" eq_refl).
Defined.

(** The dates [parseISODate] accepts are the dates of the calendar from
    year 100 on: the month from 1 to 12, the day from 1 to the length of
    that month in that year.  (A year below 100 is read by [Date.UTC] as a
    year of the twentieth century and so never reads back.) *)
Lemma parseISODate_accepts_calendar_dates (s y m d : string) :
  DatePicker.exec_date s = Some (y, m, d) →
  100 ≤ number y → 1 ≤ number m ≤ 12 →
  1 ≤ number d ≤ days_in_month (number y) (number m) →
  DatePicker.parseISODate s
  = Some (Some (DatePicker.MakeDate
                  (DatePicker.MakeDay (number y) (number m - 1) (number d)) 0)).
Proof.
  intros Hex Hy Hm Hd. destruct (parseISODate_shape s y m d Hex) as (t & Ht & ->).
  apply Date_UTC_Some in Ht. rewrite full_year_late, MakeTime_zero in Ht by exact Hy.
  subst t. rewrite decide_True by (apply civil_MakeDay; assumption). reflexivity.
Qed.

(** A time of day below 24 hours leaves the instant on the day of the date
    part, whatever its hours, minutes and seconds are. *)
Lemma parseISODateTime_time_unchecked (s : string) (g : DatePicker.DateTimeGroups)
    (rest : string) (t0 : Z) :
  DatePicker.exec_datetime s = Some (g, rest) →
  DatePicker.parseISODateTime (date_part g) = Some (Some t0) →
  time_of_day g < DatePicker.msPerDay →
  DatePicker.parseISODateTime s = Some (Some (t0 + time_of_day g)).
Proof.
  intros Hex Hdate Htime.
  destruct (exec_datetime_inv _ _ _ Hex) as (Gy & Gm & Gd & Gh & Gmi & Gsec & _).
  apply group_or_zero_optional in Gh as [_ Bh], Gmi as [_ Bmi], Gsec as [_ Bsec].
  assert (Hex0 : DatePicker.exec_datetime (date_part g)
                 = Some ({| DatePicker.g_year := DatePicker.g_year g;
                            DatePicker.g_month := DatePicker.g_month g;
                            DatePicker.g_day := DatePicker.g_day g;
                            DatePicker.g_hour := None; DatePicker.g_minute := None;
                            DatePicker.g_second := None |}, "")).
  { unfold DatePicker.exec_datetime, date_part.
    rewrite <- (string_app_nil_r (DatePicker.g_day g)) at 1.
    rewrite match_date_groups by assumption. reflexivity. }
  destruct (parseISODateTime_shape _ _ _ Hex0) as (t0' & Ht0 & Hp0).
  destruct (parseISODateTime_shape _ _ _ Hex) as (t & Ht & Hp).
  cbn [DatePicker.g_year DatePicker.g_month DatePicker.g_day DatePicker.g_hour
         DatePicker.g_minute DatePicker.g_second group_number] in Ht0, Hp0.
  rewrite Hdate in Hp0.
  destruct (decide (civil t0' = _)) as [Hciv|]; [|discriminate].
  injection Hp0 as ->.
  apply Date_UTC_Some in Ht0, Ht. rewrite MakeTime_zero in Ht0.
  fold (time_of_day g) in Ht.
  set (day := DatePicker.MakeDay _ _ _) in *. subst.
  assert (Hpos : 0 ≤ time_of_day g).
  { unfold time_of_day, DatePicker.MakeTime, DatePicker.msPerHour,
      DatePicker.msPerMinute, DatePicker.msPerSecond. lia. }
  assert (Hday0 : 0 ≤ 0 < DatePicker.msPerDay) by (split; [lia | reflexivity]).
  rewrite Hp, decide_True.
  - do 2 f_equal. unfold DatePicker.MakeDate. lia.
  - rewrite <- Hciv. apply civil_same_day.
    rewrite (Day_MakeDate day 0 Hday0), (Day_MakeDate day _ (conj Hpos Htime)).
    reflexivity.
Qed.

(** C10.  [parseISODateTime] checks the date and nothing else.  What follows
    the match of its pattern is ignored: the result on an input is the result
    on the matched prefix, and text put after a complete match changes
    nothing unless it extends the match.  The time of day is not checked:
    whenever the date part is a date of the calendar and hours, minutes and
    seconds add up to less than a day, the input is accepted and denotes the
    date's midnight plus that time, as for 2023-01-15T00:99, which gives
    01:39 of that day; only a time that leaves the day is rejected, by the
    check on the date. *)
Theorem datetime_parser_checks_only_the_date :
  (∀ (s : string) (g : DatePicker.DateTimeGroups) (rest : string),
     DatePicker.exec_datetime s = Some (g, rest) →
     ∃ p, s = p ++ rest ∧ DatePicker.exec_datetime p = Some (g, "")
          ∧ DatePicker.parseISODateTime s = DatePicker.parseISODateTime p)
  ∧ (∀ (p : string) (g : DatePicker.DateTimeGroups) (t : string),
       DatePicker.exec_datetime p = Some (g, "") → extends_match g t = false →
       DatePicker.parseISODateTime (p ++ t) = DatePicker.parseISODateTime p)
  ∧ (∀ (s : string) (g : DatePicker.DateTimeGroups) (rest : string) (t0 : Z),
       DatePicker.exec_datetime s = Some (g, rest) →
       DatePicker.parseISODateTime (date_part g) = Some (Some t0) →
       time_of_day g < DatePicker.msPerDay →
       DatePicker.parseISODateTime s = Some (Some (t0 + time_of_day g)))
  ∧ DatePicker.parseISODateTime "2023-01-15T00:99" = Some (Some 1673746740000)
  ∧ DatePicker.toISOString (Some 1673746740000) = inl "2023-01-15T01:39:00.000Z"
  ∧ DatePicker.parseISODateTime "2023-01-15T23:00:99" = Some (Some 1673823699000)
  ∧ DatePicker.parseISODateTime "2023-01-15T24:00" = None
  ∧ DatePicker.parseISODateTime "2023-06-15T10:30:00.250+02:00"
    = DatePicker.parseISODateTime "2023-06-15T10:30:00"
  ∧ DatePicker.parseISODateTime "2023-06-15 is a Thursday"
    = DatePicker.parseISODateTime "2023-06-15".
Proof.
  split.
  { intros s g rest Hex. destruct (exec_datetime_prefix s g rest Hex) as (p & Hs & Hp).
    exists p. split; [exact Hs|]. split; [exact Hp|].
    exact (parseISODateTime_groups s p g rest "" Hex Hp). }
  split.
  { intros p g t Hex Hext.
    exact (parseISODateTime_groups (p ++ t) p g t ""
             (exec_datetime_app p g t Hex Hext) Hex). }
  split; [exact parseISODateTime_time_unchecked|].
  repeat split; vm_compute; reflexivity.
Qed.

Lemma datetime_parser_checks_only_the_date_witness :
  DatePicker.exec_datetime "2023-01-15T00:99 (sic)"
  = Some ({| DatePicker.g_year := "2023"; DatePicker.g_month := "01";
             DatePicker.g_day := "15"; DatePicker.g_hour := Some "00";
             DatePicker.g_minute := Some "99"; DatePicker.g_second := None |},
          " (sic)")
  ∧ DatePicker.parseISODateTime "2023-01-15" = Some (Some 1673740800000)
  ∧ 5940000 < DatePicker.msPerDay
  ∧ DatePicker.parseISODateTime "2023-01-15T00:99 (sic)"
    = Some (Some (1673740800000 + 5940000)).
Proof.
  split; [reflexivity|]. split; [reflexivity|]. split; [reflexivity|].
  exact (proj1 (proj2 (proj2 datetime_parser_checks_only_the_date))
           "2023-01-15T00:99 (sic)" _ " (sic)" 1673740800000
           eq_refl eq_refl eq_refl).
Defined.

(** ** Date picker: formatting when the locale facility fails *)
Section FormattingFacts.
Import DatePicker.

Lemma toISOString_valid (t : Z) : ∃ s, toISOString (Some t) = inl s.
Proof. cbn. eauto. Qed.

Lemma formatDateWithIntl_result (Intl : string → IntlOptions → Z → JS.Res string)
    (t : Z) (format localeTag : string) :
  snd (formatDateWithIntl Intl (Some (Some t)) format localeTag) =
    inl match Intl localeTag (date_options format) t with
        | inl s => s
        | inr _ => match Intl localeTag fallbackOptions t with
                   | inl s => s
                   | inr _ => manual_ymd t
                   end
        end.
Proof.
  unfold formatDateWithIntl, catch, intl.
  destruct (Intl localeTag (date_options format) t) as [s|e]; [reflexivity|].
  cbn. destruct (Intl localeTag fallbackOptions t) as [s|e']; reflexivity.
Qed.

Lemma formatDateTimeWithIntl_result (Intl : string → IntlOptions → Z → JS.Res string)
    (t : Z) (format localeTag : string) (withTime withSeconds with24Hours : bool) :
  formatDateTimeWithIntl Intl (Some (Some t)) format localeTag
    withTime withSeconds with24Hours =
    ([intl_format localeTag (datetime_options format withTime withSeconds with24Hours)],
     match Intl localeTag (datetime_options format withTime withSeconds with24Hours) t with
     | inl s => inl s
     | inr _ => toISOString (Some t)
     end).
Proof.
  unfold formatDateTimeWithIntl, catch, intl.
  destruct (Intl localeTag _ t) as [s|e]; reflexivity.
Qed.

End FormattingFacts.

(** C7, as the code has it.  Neither formatter lets a failure of the locale
    facility reach its caller, for any date (absent, invalid or valid), any
    configuration and any behaviour of the facility.  The date-only formatter
    absorbs the failure in two levels: it tries the facility again on the
    fixed medium-style UTC configuration and, when that fails too, composes
    year-MM-DD by hand.  The date-time formatter calls the facility once and,
    when that call fails, returns the ISO 8601 instant of the date
    ([toISOString]), with no second attempt. *)
Theorem formatting_failure_is_absorbed :
  (∀ Intl date format localeTag,
     ∃ s, snd (DatePicker.formatDateWithIntl Intl date format localeTag) = inl s)
  ∧ (∀ Intl date format localeTag withTime withSeconds with24Hours,
       ∃ s, snd (DatePicker.formatDateTimeWithIntl Intl date format localeTag
                   withTime withSeconds with24Hours) = inl s)
  ∧ two_level_fallback DatePicker.date_options date_formatter
  ∧ (∀ Intl t format localeTag withTime withSeconds with24Hours,
       let options :=
         DatePicker.datetime_options format withTime withSeconds with24Hours in
       DatePicker.formatDateTimeWithIntl Intl (Some (Some t)) format localeTag
         withTime withSeconds with24Hours =
         ([DatePicker.intl_format localeTag options],
          match Intl localeTag options t with
          | inl s => inl s
          | inr _ => DatePicker.toISOString (Some t)
          end))
  ∧ snd (date_formatter unusable_Intl 1686787200000 "locale-long" "en-US")
    = inl "2023-06-15"
  ∧ snd (date_formatter medium_only_Intl 1686787200000 "locale-long" "en-US")
    = inl "Jun 15, 2023".
Proof.
  split.
  { intros Intl [[t|]|] format localeTag; [|cbn; eauto..].
    rewrite formatDateWithIntl_result. eauto. }
  split.
  { intros Intl [[t|]|] format localeTag wt ws w24; [|cbn; eauto..].
    rewrite formatDateTimeWithIntl_result. cbn [snd].
    destruct (Intl localeTag _ t); [eauto | apply toISOString_valid]. }
  split; [exact formatDateWithIntl_result|].
  split; [intros; apply formatDateTimeWithIntl_result|].
  split; vm_compute; reflexivity.
Qed.

(** C7 as stated fails on the date-time path: with a locale facility that
    knows the medium style only, the date-time formatter asked for the long
    style does not retry and returns the ISO instant; with an unusable
    facility it returns the ISO instant, not the date composed by hand. *)
Lemma datetime_formatter_has_one_level :
  ¬ two_level_fallback (fun format => DatePicker.datetime_options format false false true)
      (datetime_formatter false false true)
  ∧ datetime_formatter false false true medium_only_Intl 1686787200000
      "locale-long" "en-US"
    = ([DatePicker.intl_format "en-US"
          (DatePicker.datetime_options "locale-long" false false true)],
       inl "2023-06-15T00:00:00.000Z")
  ∧ snd (datetime_formatter false false true unusable_Intl 1686787200000
           "locale-long" "en-US")
    = inl "2023-06-15T00:00:00.000Z".
Proof.
  split; [|split; vm_compute; reflexivity].
  intros H.
  specialize (H medium_only_Intl 1686787200000 "locale-long" "en-US").
  vm_compute in H. discriminate H.
Qed.

(** ** Selection control: construction and destruction *)
Section SelectWorld.
Import SelectBox.

Lemma invoke_unfold {A} (this : nat) (m : L A) (w : World) (i : Instance) (e : Element) :
  heap w !! this = Some i → page w !! element i = Some e →
  invoke this m w =
    let l := {| inst := i; el := e; has_closePopover := window_closePopover w;
                out := [] |} in
    (fst (m l),
     {| page := <[element i := el (snd (m l))]> (page w);
        instances := instances w;
        heap := <[this := inst (snd (m l))]> (heap w);
        window_closePopover := window_closePopover w;
        log := (log w ++ ((fun x => (element i, x)) <$> out (snd (m l))))%list |}).
Proof.
  intros Hh Hp. unfold invoke. rewrite Hh, Hp. cbn zeta.
  destruct (m _) as [r l]. reflexivity.
Qed.

(** [destroy()] on any object of the page returns, clears the marker and
    the registry entry of its element, and dispatches one event. *)
Lemma destroy_spec (this : nat) (w : World) (i : Instance) (e : Element) :
  heap w !! this = Some i → page w !! element i = Some e →
  ∃ w' i', destroy this w = (inl tt, w')
    ∧ log w' = (log w ++ [(element i, selectbox_destroy)])%list
    ∧ instances w' = delete (element i) (instances w)
    ∧ page w' = <[element i := set_data_initialized false e]> (page w)
    ∧ heap w' = <[this := i']> (heap w)
    ∧ element i' = element i ∧ listeners i' = [].
Proof.
  intros Hh Hp. unfold destroy.
  unfold mbind at 1. unfold W_mbind, W_bind.
  rewrite (invoke_unfold _ _ _ _ _ Hh Hp). cbn.
  unfold read. cbn. rewrite list_lookup_insert_eq by (eapply lookup_lt_Some; eassumption).
  cbn. eexists _, _. split; [reflexivity|]. cbn.
  rewrite app_nil_r. repeat split; reflexivity.
Qed.

Lemma W_bind_unfold {A B} (m : W A) (k : A → W B) (w : World) :
  (m ≫= k) w = match m w with
               | (inl a, w') => k a w'
               | (inr e, w') => (inr e, w')
               end.
Proof. reflexivity. Qed.

(** A method call changes neither the registry nor the number of objects. *)
Lemma invoke_frame {A} (this : nat) (m : L A) (w w' : World) (r : JS.Res A) :
  invoke this m w = (r, w') →
  instances w' = instances w ∧ length (heap w') = length (heap w)
  ∧ length (page w') = length (page w).
Proof.
  unfold invoke. destruct (heap w !! this) as [i|]; [|intros [= <- <-]; done].
  destruct (page w !! element i) as [e|]; [|intros [= <- <-]; done].
  destruct (m _) as [r0 l]. intros [= <- <-]. cbn.
  rewrite !length_insert. done.
Qed.

(** The discovery pass leaves a registered element alone. *)
Lemma init_element_registered (e this : nat) (w : World) :
  instances w !! e = Some this → init_element e w = (inl tt, w).
Proof. intros H. unfold init_element. rewrite H. reflexivity. Qed.

(** A construction that returns registers its element with a new object. *)
Lemma init_element_returns (e : nat) (w w' : World) :
  init_element e w = (inl tt, w') →
  is_Some (instances w' !! e)
  ∧ (∀ e', e' ≠ e → instances w' !! e' = instances w !! e')
  ∧ (∀ e', is_Some (instances w !! e') → is_Some (instances w' !! e'))
  ∧ length (heap w') =
      (length (heap w) + match instances w !! e with Some _ => 0 | None => 1 end)%nat.
Proof.
  unfold init_element. destruct (instances w !! e) as [this|] eqn:Hreg.
  - intros [= <-]. rewrite Hreg. repeat split; eauto.
  - rewrite W_bind_unfold. unfold new_SelectBox.
    destruct (invoke _ init _) as [[[]|ex] w2] eqn:Hinv; [|discriminate].
    unfold register. intros [= <-]. cbn.
    apply invoke_frame in Hinv as (Hi & Hh & _). cbn in Hi, Hh.
    rewrite Hi, Hh, length_app. cbn.
    split; [rewrite lookup_insert_eq; eauto|].
    split; [intros e' Hne; rewrite lookup_insert_ne by done; reflexivity|].
    split; [|lia].
    intros e' Hsome. destruct (decide (e = e')) as [->|Hne].
    + rewrite lookup_insert_eq. eauto.
    + rewrite lookup_insert_ne by done. exact Hsome.
Qed.

Lemma filter_agree {A} (P Q : A → Prop) `{∀ x, Decision (P x)} `{∀ x, Decision (Q x)}
    (l : list A) :
  (∀ x, x ∈ l → P x ↔ Q x) → filter P l = filter Q l.
Proof.
  induction l as [|x l IH]; intros Hl; [reflexivity|].
  rewrite !filter_cons, IH by (intros y Hy; apply Hl; right; exact Hy).
  destruct (decide (P x)) as [p|np], (decide (Q x)) as [q|nq]; try reflexivity;
    exfalso; [apply nq | apply np]; apply (Hl x); (left || assumption).
Qed.

Lemma init_elements_cons (e : nat) (r : list nat) (w : World) :
  init_elements (e :: r) w =
    match init_element e w with
    | (inl _, w') => init_elements r w'
    | (inr ex, w') => (inr ex, w')
    end.
Proof. reflexivity. Qed.

Lemma init_elements_returns (els : list nat) :
  ∀ w w', init_elements els w = (inl tt, w') →
    (∀ e, e ∈ els → is_Some (instances w' !! e))
    ∧ (∀ e, is_Some (instances w !! e) → is_Some (instances w' !! e))
    ∧ (∀ e, e ∉ els → instances w' !! e = instances w !! e)
    ∧ (NoDup els →
       length (heap w') =
         (length (heap w)
          + length (filter (fun e => instances w !! e = None) els))%nat).
Proof.
  induction els as [|e r IH]; intros w w' H.
  - injection H as <-. split; [intros e He; inversion He|].
    split; [done|]. split; [done|]. intros _. cbn. lia.
  - rewrite init_elements_cons in H.
    destruct (init_element e w) as [[[]|ex] w1] eqn:He; [|discriminate].
    apply init_element_returns in He as (Hreg & Hother & Hmono & Hlen).
    destruct (IH w1 w' H) as (Hall & Hmono' & Hout & Hlen').
    split; [|split; [|split]].
    + intros e' [->|Hin]%elem_of_cons; [apply Hmono', Hreg | apply Hall, Hin].
    + intros e' Hs. apply Hmono', Hmono, Hs.
    + intros e' Hnot. apply not_elem_of_cons in Hnot as [Hne Hnot].
      rewrite Hout by exact Hnot. apply Hother. exact Hne.
    + intros [Hnotin Hnd]%NoDup_cons. rewrite (Hlen' Hnd), Hlen.
      rewrite filter_cons.
      assert (Hsame : filter (fun e0 => instances w1 !! e0 = None) r
                      = filter (fun e0 => instances w !! e0 = None) r).
      { apply filter_agree. intros e' Hin.
        rewrite Hother; [done|]. intros ->. contradiction. }
      rewrite Hsame. destruct (instances w !! e); cbn.
      * rewrite decide_False by done. lia.
      * rewrite decide_True by done. cbn. lia.
Qed.

Lemma init_elements_all_registered (els : list nat) :
  ∀ w, (∀ e, e ∈ els → is_Some (instances w !! e)) →
       init_elements els w = (inl tt, w).
Proof.
  induction els as [|e r IH]; intros w Hall; [reflexivity|].
  rewrite init_elements_cons.
  destruct (Hall e ltac:(left)) as [this Hthis].
  rewrite (init_element_registered e this w Hthis).
  apply IH. intros e' Hin. apply Hall. right. exact Hin.
Qed.

End SelectWorld.

(** ** Selection control: what construction does with an incomplete element *)
Section Construction.
Import SelectBox.

Lemma init_incomplete (n : nat) (e : Element) (cp : bool) :
  complete e = false →
  init {| inst := fresh n; el := e; has_closePopover := cp; out := [] |}
  = (inl tt, {| inst := inert n e; el := set_data_initialized true e;
                has_closePopover := cp;
                out := [console_error (diagnostic e)] |}).
Proof.
  unfold complete, inert, diagnostic, init. intros Hc.
  destruct e as [mk sr cl [t|] c]; cbn in *; [|reflexivity].
  unfold mbind, L_bind, bind, modify_el, modify_inst, get, emit. cbn.
  destruct (truthy (data_content_id t) && bool_decide (is_Some c)
            && bool_decide (is_Some (valueEl t))
            && bool_decide (is_Some (hiddenInput t))) eqn:Hall; [discriminate|].
  destruct (truthy (data_content_id t) && bool_decide (is_Some c)) eqn:H1,
    (bool_decide (is_Some (valueEl t))) eqn:H2,
    (bool_decide (is_Some (hiddenInput t))) eqn:H3;
    cbn in Hall |- *; try discriminate; reflexivity.
Qed.

(** What [init_element] does with an unregistered element that lacks a
    required node. *)
Lemma init_element_incomplete (w : World) (e : nat) (el0 : Element) :
  page w !! e = Some el0 → instances w !! e = None → complete el0 = false →
  init_element e w =
    (inl tt,
     {| page := <[e := set_data_initialized true el0]> (page w);
        instances := <[e := length (heap w)]> (instances w);
        heap := (heap w ++ [inert e el0])%list;
        window_closePopover := window_closePopover w;
        log := (log w ++ [(e, console_error (diagnostic el0))])%list |}).
Proof.
  intros Hp Hreg Hc. unfold init_element. rewrite Hreg, W_bind_unfold.
  unfold new_SelectBox.
  erewrite invoke_unfold; cycle 1.
  { cbn. rewrite lookup_app_r by lia. rewrite Nat.sub_diag. reflexivity. }
  { cbn. exact Hp. }
  cbn [window_closePopover]. rewrite (init_incomplete e el0 _ Hc). cbn.
  unfold register. cbn. do 2 f_equal.
  rewrite insert_app_r_alt by lia. rewrite Nat.sub_diag. reflexivity.
Qed.

End Construction.

(** C2, as the code has it.  When an element designated by the discovery
    selector is not yet registered and lacks a required node (the trigger
    button, the content, the value element or the hidden input), its
    construction logs one diagnostic, dispatches nothing, raises nothing and
    leaves every other element as it was, and the scan goes on with the
    elements that follow.  The element is marked as initialized all the
    same, and the object built for it, which has no listener and an empty
    selection, is registered for it. *)
Theorem incomplete_element_is_marked_and_registered
    (w : SelectBox.World) (e : nat) (el0 : SelectBox.Element) (rest : list nat) :
  SelectBox.page w !! e = Some el0 →
  SelectBox.instances w !! e = None →
  complete el0 = false →
  ∃ w', SelectBox.init_element e w = (inl tt, w')
    ∧ SelectBox.init_elements (e :: rest) w = SelectBox.init_elements rest w'
    ∧ SelectBox.log w' = (SelectBox.log w ++ [(e, SelectBox.console_error (diagnostic el0))])%list
    ∧ SelectBox.page w' = <[e := SelectBox.set_data_initialized true el0]> (SelectBox.page w)
    ∧ SelectBox.data_initialized <$> SelectBox.page w' !! e = Some true
    ∧ SelectBox.instances w' !! e = Some (length (SelectBox.heap w))
    ∧ (∀ e', e' ≠ e → SelectBox.instances w' !! e' = SelectBox.instances w !! e')
    ∧ SelectBox.heap w' !! length (SelectBox.heap w) = Some (inert e el0)
    ∧ SelectBox.listeners (inert e el0) = []
    ∧ SelectBox.document_listeners (inert e el0) = []
    ∧ SelectBox.selectedValues (inert e el0) = [].
Proof.
  intros Hp Hreg Hc. eexists. split; [apply init_element_incomplete; eassumption|].
  split.
  { rewrite init_elements_cons, (init_element_incomplete w e el0 Hp Hreg Hc).
    reflexivity. }
  cbn. split; [reflexivity|]. split; [reflexivity|].
  split.
  { rewrite list_lookup_insert_eq by (eapply lookup_lt_Some; eassumption). reflexivity. }
  split; [apply lookup_insert_eq|].
  split; [intros e' Hne; apply lookup_insert_ne; congruence|].
  split; [rewrite lookup_app_r by lia; rewrite Nat.sub_diag; reflexivity|].
  unfold inert. destruct (SelectBox.trigger el0); repeat split; reflexivity.
Qed.

Lemma incomplete_element_is_marked_and_registered_witness :
  SelectBox.page (page_of [bare_container; abc_container false false]) !! 0%nat
  = Some bare_container
  ∧ SelectBox.instances (page_of [bare_container; abc_container false false]) !! 0%nat
    = (None : option nat)
  ∧ complete bare_container = false
  ∧ ∃ w', SelectBox.init_element 0 (page_of [bare_container; abc_container false false])
          = (inl tt, w')
      ∧ SelectBox.data_initialized <$> SelectBox.page w' !! 0%nat = Some true
      ∧ SelectBox.instances w' !! 0%nat = Some 0%nat.
Proof.
  split; [reflexivity|]. split; [reflexivity|]. split; [reflexivity|].
  destruct (incomplete_element_is_marked_and_registered
              (page_of [bare_container; abc_container false false]) 0 bare_container [1%nat]
              eq_refl eq_refl eq_refl)
    as (w' & H1 & _ & _ & _ & H5 & H6 & _).
  exists w'. split; [exact H1|]. split; [exact H5 | exact H6].
Defined.

(** C2 as stated fails: on a page whose first container has no trigger
    button and whose second is complete, the scan constructs the second, and
    the first ends up marked and registered. *)
Lemma aborted_construction_leaves_marker_and_instance :
  let w := after SelectBox.init_page (page_of [bare_container; abc_container false false]) in
  fst (SelectBox.init_page (page_of [bare_container; abc_container false false])) = inl tt
  ∧ SelectBox.log w
    = [(0%nat, SelectBox.console_error "SelectBox: Trigger button not found");
       (1%nat, SelectBox.selectbox_init)]
  ∧ SelectBox.data_initialized <$> SelectBox.page w !! 0%nat = Some true
  ∧ SelectBox.instances w !! 0%nat = Some 0%nat
  ∧ ¬ (SelectBox.data_initialized <$> SelectBox.page w !! 0%nat = Some false
       ∧ SelectBox.instances w !! 0%nat = None).
Proof.
  cbv zeta. split; [vm_compute; reflexivity|]. split; [vm_compute; reflexivity|].
  split; [vm_compute; reflexivity|]. split; [vm_compute; reflexivity|].
  intros [H _]. vm_compute in H. discriminate H.
Qed.

(** ** Selection control: destroying an instance twice *)
Section Destruction.
Import SelectBox.

Lemma destroy_events_app (e : nat) (w : World) (l' : list (nat * Effect)) (w' : World) :
  log w' = (log w ++ l')%list →
  destroy_events e w' =
    (destroy_events e w
     + length (filter (fun x => fst x = e ∧ is_destroy (snd x) = true) l'))%nat.
Proof. intros H. unfold destroy_events. rewrite H, filter_app, length_app. done. Qed.

Lemma destroy_selector_unregistered (e : nat) (w : World) :
  instances w !! e = None → destroy_selector (Some (Some e)) w = (inl tt, w).
Proof.
  intros H. unfold destroy_selector. rewrite W_bind_unfold. unfold getInstance.
  cbn. rewrite H. reflexivity.
Qed.

End Destruction.

(** C1, as the code has it.  Calling the method [destroy()] of an instance
    never raises, the first time or again, and every call dispatches one
    [selectbox:destroy] on the element of the instance, so that two calls
    dispatch two.  The first call evicts the element from the registry;
    from then on [templUI.selectbox.destroy] given that element finds no
    instance, changes nothing and dispatches nothing. *)
Theorem destroy_again_dispatches_again
    (w : SelectBox.World) (this : nat) (i : SelectBox.Instance)
    (e : SelectBox.Element) :
  SelectBox.heap w !! this = Some i →
  SelectBox.page w !! SelectBox.element i = Some e →
  ∃ w1 w2,
    SelectBox.destroy this w = (inl tt, w1)
    ∧ SelectBox.destroy this w1 = (inl tt, w2)
    ∧ destroy_events (SelectBox.element i) w1
      = S (destroy_events (SelectBox.element i) w)
    ∧ destroy_events (SelectBox.element i) w2
      = S (S (destroy_events (SelectBox.element i) w))
    ∧ SelectBox.instances w1 !! SelectBox.element i = None
    ∧ SelectBox.data_initialized <$> SelectBox.page w1 !! SelectBox.element i
      = Some false
    ∧ SelectBox.destroy_selector (Some (Some (SelectBox.element i))) w1 = (inl tt, w1).
Proof.
  intros Hh Hp.
  destruct (destroy_spec this w i e Hh Hp)
    as (w1 & i1 & Hd1 & Hlog1 & Hreg1 & Hpage1 & Hheap1 & Hel1 & _).
  assert (Hh1 : SelectBox.heap w1 !! this = Some i1).
  { rewrite Hheap1. apply list_lookup_insert_eq. eapply lookup_lt_Some; eassumption. }
  assert (Hp1 : SelectBox.page w1 !! SelectBox.element i1
                = Some (SelectBox.set_data_initialized false e)).
  { rewrite Hpage1, Hel1. apply list_lookup_insert_eq.
    eapply lookup_lt_Some; eassumption. }
  destruct (destroy_spec this w1 i1 _ Hh1 Hp1)
    as (w2 & i2 & Hd2 & Hlog2 & _).
  exists w1, w2. split; [exact Hd1|]. split; [exact Hd2|].
  assert (Hone : ∀ n, length (filter (fun x : nat * SelectBox.Effect =>
                                      fst x = n ∧ is_destroy (snd x) = true)
                                [(n, SelectBox.selectbox_destroy)]) = 1%nat).
  { intros n. rewrite filter_cons_True by done. reflexivity. }
  split.
  { rewrite (destroy_events_app _ w _ w1 Hlog1), Hone. lia. }
  split.
  { rewrite Hel1 in Hlog2.
    rewrite (destroy_events_app _ w1 _ w2 Hlog2), Hone.
    rewrite (destroy_events_app _ w _ w1 Hlog1), Hone. lia. }
  assert (Hnone : SelectBox.instances w1 !! SelectBox.element i = None).
  { rewrite Hreg1. apply lookup_delete_eq. }
  split; [exact Hnone|].
  split.
  { rewrite Hel1 in Hp1. rewrite Hp1. reflexivity. }
  apply destroy_selector_unregistered. exact Hnone.
Qed.

Lemma destroy_again_dispatches_again_witness :
  ∃ i e,
    SelectBox.heap (after SelectBox.init_page (page_of [abc_container false false]))
      !! 0%nat = Some i
    ∧ SelectBox.page (after SelectBox.init_page (page_of [abc_container false false]))
        !! SelectBox.element i = Some e
    ∧ ∃ w1 w2,
        SelectBox.destroy 0 (after SelectBox.init_page (page_of [abc_container false false]))
        = (inl tt, w1)
        ∧ SelectBox.destroy 0 w1 = (inl tt, w2)
        ∧ destroy_events 0 w1 = 1%nat
        ∧ destroy_events 0 w2 = 2%nat.
Proof.
  set (w := after SelectBox.init_page (page_of [abc_container false false])).
  destruct (SelectBox.heap w !! 0%nat) as [i|] eqn:Hi;
    [|vm_compute in Hi; discriminate Hi].
  assert (Hel : SelectBox.element i = 0%nat).
  { vm_compute in Hi. injection Hi as <-. reflexivity. }
  destruct (SelectBox.page w !! SelectBox.element i) as [e|] eqn:He;
    [|rewrite Hel in He; vm_compute in He; discriminate He].
  exists i, e. split; [reflexivity|]. split; [exact He|].
  destruct (destroy_again_dispatches_again w 0 i e Hi He)
    as (w1 & w2 & H1 & H2 & H3 & H4 & _).
  exists w1, w2. split; [exact H1|]. split; [exact H2|].
  rewrite Hel in H3, H4. split; [exact H3 | exact H4].
Defined.

(** C1 as stated fails: on a page with one select container, initialized,
    the method [destroy()] of its instance called twice returns twice and
    dispatches [selectbox:destroy] twice. *)
Lemma second_destroy_dispatches_a_second_event :
  let w0 := after SelectBox.init_page (page_of [abc_container false false]) in
  let w1 := after (SelectBox.destroy 0) w0 in
  let w2 := after (SelectBox.destroy 0) w1 in
  fst (SelectBox.destroy 0 w0) = inl tt
  ∧ fst (SelectBox.destroy 0 w1) = inl tt
  ∧ destroy_events 0 w1 = 1%nat
  ∧ destroy_events 0 w2 = 2%nat
  ∧ SelectBox.log w2
    = [(0%nat, SelectBox.selectbox_init); (0%nat, SelectBox.selectbox_destroy);
       (0%nat, SelectBox.selectbox_destroy)].
Proof. cbv zeta. repeat split; vm_compute; reflexivity. Qed.

(** ** Discovery is idempotent *)

(** A container whose id holds a double quote, before a plain one, with an
    engine that rejects the selector: [init] throws after it marked the
    first container, the second is left as it was, and the next [init]
    constructs it. *)
Lemma rejected_selector_aborts_init :
  let page := [Stepper.Inert quoted_container; Stepper.Inert wizard_container] in
  let page' := [Stepper.Inert (Stepper.mark quoted_container);
                Stepper.Inert wizard_container] in
  Stepper.init strict_steps strict_contents page = (inr JS.SyntaxError, page')
  ∧ Stepper.init strict_steps strict_contents page'
    = (inl tt, [Stepper.Inert (Stepper.mark quoted_container); Stepper.Live wizard]).
Proof. cbv zeta. split; vm_compute; reflexivity. Qed.

(** C9, as the code has it.  Step sequencer, for every behaviour of the
    selector engine on the ids that cannot stand in a selector as they are:
    the discovery pass leaves every marked element as it is; when [init]
    returns, every element is marked and a second [init] returns and changes
    nothing on the page, constructing nothing; [init] returns whenever the
    ids of the unmarked containers are plain; and when it throws, it was
    [initStepper] on an unmarked container, which keeps the marker it got
    and has no closure, while the elements after it are left as they were
    (so that a second [init] goes on with them).  Selection control: when
    [init] on a list of designated elements returns, each of them has an
    instance in the registry, one object was constructed for each designated
    element that had none, and a second [init] on the same elements returns
    and changes nothing, constructing no object and dispatching no event.
    The discovery pass of the selection control skips the elements that are
    registered; it does not look at the marker. *)
Theorem init_is_idempotent :
  (∀ (qs : Stepper.Container → string → JS.Res (list Stepper.Step))
     (qc : Stepper.Container → string → JS.Res (list Stepper.StepContent))
     (page : list Stepper.Element),
     (∀ (i : nat) (e : Stepper.Element),
        page !! i = Some e → Stepper.marked e = true →
        snd (Stepper.init qs qc page) !! i = Some e)
     ∧ (fst (Stepper.init qs qc page) = inl tt →
        Stepper.init qs qc (snd (Stepper.init qs qc page))
        = (inl tt, snd (Stepper.init qs qc page))
        ∧ Stepper.live_count (snd (Stepper.init qs qc (snd (Stepper.init qs qc page))))
          = Stepper.live_count (snd (Stepper.init qs qc page))
        ∧ (∀ (i : nat) (e : Stepper.Element),
             snd (Stepper.init qs qc page) !! i = Some e → Stepper.marked e = true))
     ∧ ((∀ c id, Stepper.Inert c ∈ page → Stepper.data_stepper_id c = Some id →
                 JS.selector_plain id = true) →
        fst (Stepper.init qs qc page) = inl tt)
     ∧ (∀ ex, fst (Stepper.init qs qc page) = inr ex →
          ∃ i c, page !! i = Some (Stepper.Inert c)
                 ∧ Stepper.data_initialized c = false
                 ∧ Stepper.initStepper qs qc (Stepper.Inert c)
                   = (inr ex, Stepper.Inert (Stepper.mark c))
                 ∧ snd (Stepper.init qs qc page) !! i
                   = Some (Stepper.Inert (Stepper.mark c))
                 ∧ (∀ j e, (j < i)%nat → snd (Stepper.init qs qc page) !! j = Some e →
                           Stepper.marked e = true)
                 ∧ (∀ j, (i < j)%nat → snd (Stepper.init qs qc page) !! j = page !! j)))
  ∧ (∀ (elements : list nat) (w w' : SelectBox.World),
       SelectBox.init_elements elements w = (inl tt, w') →
       SelectBox.init_elements elements w' = (inl tt, w')
       ∧ (∀ e, e ∈ elements → is_Some (SelectBox.instances w' !! e))
       ∧ (∀ e, e ∉ elements → SelectBox.instances w' !! e = SelectBox.instances w !! e)
       ∧ (NoDup elements →
          length (SelectBox.heap w')
          = (length (SelectBox.heap w)
             + length (filter (fun e => SelectBox.instances w !! e = None) elements))%nat))
  ∧ (∀ (e this : nat) (w : SelectBox.World),
       SelectBox.instances w !! e = Some this →
       SelectBox.init_element e w = (inl tt, w)).
Proof.
  split.
  { intros qs qc page. split; [apply init_skips_marked|].
    split; [|split; [apply init_plain | apply init_throws]].
    intros Hret. pose proof (init_twice qs qc page Hret) as Htwice.
    split; [exact Htwice|]. split; [rewrite Htwice; reflexivity|].
    apply init_returns_marked, Hret. }
  split; [|exact init_element_registered].
  intros elements w w' H.
  destruct (init_elements_returns elements w w' H) as (Hall & _ & Hout & Hlen).
  split; [apply init_elements_all_registered; exact Hall|].
  split; [exact Hall|]. split; [exact Hout | exact Hlen].
Qed.

Lemma init_is_idempotent_witness :
  (∃ w',
     SelectBox.init_elements [0; 1]%nat
       (page_of [abc_container false false; abc_container true true]) = (inl tt, w')
     ∧ SelectBox.init_elements [0; 1]%nat w' = (inl tt, w')
     ∧ is_Some (SelectBox.instances w' !! 0%nat)
     ∧ is_Some (SelectBox.instances w' !! 1%nat)
     ∧ length (SelectBox.heap w') = 2%nat)
  ∧ Stepper.init strict_steps strict_contents
      [Stepper.Live wizard; Stepper.Live wizard]
    = (inl tt, [Stepper.Live wizard; Stepper.Live wizard])
  ∧ Stepper.init strict_steps strict_contents
      (snd (Stepper.init strict_steps strict_contents
              [Stepper.Inert wizard_container; Stepper.Inert wizard_container]))
    = (inl tt, [Stepper.Live wizard; Stepper.Live wizard]).
Proof.
  split.
  { destruct (SelectBox.init_elements [0; 1]%nat
                (page_of [abc_container false false; abc_container true true]))
      as [[[]|ex] w'] eqn:H; [|vm_compute in H; discriminate H].
    exists w'. split; [reflexivity|].
    destruct (proj1 (proj2 init_is_idempotent) _ _ _ H) as (H1 & H2 & _ & H4).
    split; [exact H1|].
    split; [apply H2; left|]. split; [apply H2; right; left|].
    rewrite H4 by (apply (bool_decide_unpack _); vm_compute; exact I). reflexivity. }
  pose proof (proj1 init_is_idempotent strict_steps strict_contents
                [Stepper.Inert wizard_container; Stepper.Inert wizard_container])
    as (_ & Hret & _).
  destruct (Hret eq_refl) as (Htwice & _).
  assert (Hpage : snd (Stepper.init strict_steps strict_contents
                         [Stepper.Inert wizard_container; Stepper.Inert wizard_container])
                  = [Stepper.Live wizard; Stepper.Live wizard])
    by (vm_compute; reflexivity).
  rewrite Hpage in Htwice. split; exact Htwice.
Defined.

(** C9 as stated fails in its last clause for the selection control: a
    complete container that carries the marker and is not registered is not
    skipped; [init] constructs an instance for it. *)
Lemma marked_select_container_is_constructed :
  SelectBox.data_initialized marked_container = true
  ∧ SelectBox.init_page (page_of [marked_container])
    ≠ (inl tt, page_of [marked_container])
  ∧ length (SelectBox.heap (after SelectBox.init_page (page_of [marked_container])))
    = 1%nat
  ∧ SelectBox.instances (after SelectBox.init_page (page_of [marked_container])) !! 0%nat
    = Some 0%nat
  ∧ SelectBox.log (after SelectBox.init_page (page_of [marked_container]))
    = [(0%nat, SelectBox.selectbox_init)].
Proof.
  split; [reflexivity|]. split.
  { intros H. apply (f_equal (fun r => length (SelectBox.heap (snd r)))) in H.
    vm_compute in H. discriminate H. }
  repeat split; vm_compute; reflexivity.
Qed.

(** ** Selection control: reasoning about method bodies *)
Section MethodBodies.
Import SelectBox.

Lemma L_bind_unfold {A B} (m : L A) (k : A → L B) (l : Local) :
  (m ≫= k) l = match m l with
               | (inl a, l') => k a l'
               | (inr e, l') => (inr e, l')
               end.
Proof. reflexivity. Qed.

Section Maintains.
Context (R : Local → Local → Prop) `{!Reflexive R} `{!Transitive R}.

Lemma maintains_ret {A} (a : A) : maintains R (mret a : L A).
Proof. intros l. reflexivity. Qed.

Lemma maintains_ret' {A} (a : A) : maintains R (ret a).
Proof. intros l. reflexivity. Qed.

Lemma maintains_throw {A} (e : JS.Exn) : maintains R (throw e : L A).
Proof. intros l. reflexivity. Qed.

Lemma maintains_get : maintains R get.
Proof. intros l. reflexivity. Qed.

Lemma maintains_bind {A B} (m : L A) (k : A → L B) :
  maintains R m → (∀ a, maintains R (k a)) → maintains R (m ≫= k).
Proof.
  intros Hm Hk l. rewrite L_bind_unfold. specialize (Hm l).
  destruct (m l) as [[a|e] l1]; cbn in *; [|exact Hm].
  etransitivity; [exact Hm | apply Hk].
Qed.

Lemma maintains_when (c : bool) (m : L unit) : maintains R m → maintains R (when c m).
Proof. intros Hm. destruct c; [exact Hm | apply maintains_ret']. Qed.

Lemma maintains_forEach {A} (f : A → L unit) (xs : list A) :
  (∀ x, maintains R (f x)) → maintains R (forEach f xs).
Proof.
  intros Hf. induction xs as [|x xs IH]; [apply maintains_ret'|].
  cbn [forEach]. apply maintains_bind; [apply Hf | intros _; exact IH].
Qed.

Lemma maintains_modify_el (f : Element → Element) :
  (∀ l, R l {| inst := inst l; el := f (el l);
               has_closePopover := has_closePopover l; out := out l |}) →
  maintains R (modify_el f).
Proof. intros H l. apply H. Qed.

Lemma maintains_modify_inst (f : Instance → Instance) :
  (∀ l, R l {| inst := f (inst l); el := el l;
               has_closePopover := has_closePopover l; out := out l |}) →
  maintains R (modify_inst f).
Proof. intros H l. apply H. Qed.

Lemma maintains_emit (x : Effect) :
  (∀ l, R l {| inst := inst l; el := el l;
               has_closePopover := has_closePopover l;
               out := (out l ++ [x])%list |}) →
  maintains R (emit x).
Proof. intros H l. apply H. Qed.

End Maintains.

(** Walks through a method body, leaving the writes it meets. *)
Ltac walk :=
  repeat match goal with
         | |- Reflexive _ => tc_solve
         | |- Transitive _ => tc_solve
         | |- maintains _ (_ ≫= _) => apply maintains_bind; [..|intros ?]
         | |- maintains _ (mret _) => apply maintains_ret
         | |- maintains _ (ret _) => apply maintains_ret'
         | |- maintains _ (throw _) => apply maintains_throw
         | |- maintains _ get => apply maintains_get
         | |- maintains _ (when _ _) => apply maintains_when
         | |- maintains _ (forEach _ _) => apply maintains_forEach; [..|intros ?]
         | |- maintains _ (match ?x with _ => _ end) => destruct x
         | |- maintains _ (let _ := _ in _) => cbv zeta
         end.

Global Instance same_selection_refl : Reflexive same_selection.
Proof. intros l. split; reflexivity. Qed.
Global Instance same_selection_trans : Transitive same_selection.
Proof. intros a b c [H1 H2] [H3 H4]. split; congruence. Qed.

Lemma selection_the_content : maintains same_selection the_content.
Proof. unfold the_content. walk. Qed.
Lemma selection_the_valueEl : maintains same_selection the_valueEl.
Proof. unfold the_valueEl. walk. Qed.
Lemma selection_the_hiddenInput : maintains same_selection the_hiddenInput.
Proof. unfold the_hiddenInput. walk. Qed.
Lemma selection_the_trigger : maintains same_selection the_trigger.
Proof. unfold the_trigger. walk. Qed.
Lemma selection_modify_el (f : Element → Element) :
  maintains same_selection (modify_el f).
Proof. apply maintains_modify_el. intros l. split; reflexivity. Qed.
Lemma selection_emit (x : Effect) : maintains same_selection (emit x).
Proof. apply maintains_emit. intros l. split; reflexivity. Qed.
Lemma selection_set_resetContainer (d : string) :
  maintains same_selection (modify_inst (set_resetContainer d)).
Proof. apply maintains_modify_inst. intros l. split; reflexivity. Qed.

Lemma selection_pill_labels (its : list Item) : maintains same_selection (pill_labels its).
Proof.
  induction its as [|it r IH]; cbn [pill_labels]; walk. exact IH.
Qed.

Create HintDb selection discriminated.
#[local] Hint Resolve selection_the_content selection_the_valueEl
  selection_the_hiddenInput selection_the_trigger selection_modify_el
  selection_emit selection_set_resetContainer selection_pill_labels : selection.

Lemma selection_write_valueEl (v : ValueEl) : maintains same_selection (write_valueEl v).
Proof. apply selection_modify_el. Qed.
Lemma selection_write_content (c : Content) : maintains same_selection (write_content c).
Proof. apply selection_modify_el. Qed.
Lemma selection_write_hiddenInput (v : string) :
  maintains same_selection (write_hiddenInput v).
Proof. apply selection_modify_el. Qed.
Lemma selection_write_item (i : nat) (f : Item → Item) :
  maintains same_selection (write_item i f).
Proof. apply selection_modify_el. Qed.

#[local] Hint Resolve selection_write_valueEl selection_write_content
  selection_write_hiddenInput selection_write_item : selection.

Lemma selection_renderPills (its : list Item) : maintains same_selection (renderPills its).
Proof. unfold renderPills. walk; auto with selection. Qed.

Lemma selection_updateDisplay : maintains same_selection updateDisplay.
Proof.
  unfold updateDisplay. walk; auto using selection_renderPills with selection.
Qed.

Lemma selection_updateHiddenInput : maintains same_selection updateHiddenInput.
Proof. unfold updateHiddenInput. walk; auto with selection. Qed.

Lemma selection_updateResetButtonVisibility :
  maintains same_selection updateResetButtonVisibility.
Proof. unfold updateResetButtonVisibility. walk; auto with selection. Qed.

Lemma selection_getValue : maintains same_selection getValue.
Proof. unfold getValue. walk. Qed.

#[local] Hint Resolve selection_updateDisplay selection_updateHiddenInput
  selection_updateResetButtonVisibility selection_getValue : selection.

(** The part of [setValue] and [selectItem] after the selection is set. *)
Lemma selection_refresh (previous : list (option string)) (item : option nat) :
  maintains same_selection
    (updateDisplay ;; updateHiddenInput ;; updateResetButtonVisibility ;;
     v ← getValue; emit (selectbox_change v previous item)).
Proof. walk; auto with selection. Qed.

(** *** setValue *)

Lemma elem_of_set_add (x v : option string) (s : ValueSet) :
  x ∈ set_add v s ↔ x ∈ s ∨ x = v.
Proof.
  unfold set_add, set_has. case_bool_decide as Hv.
  - split; [auto | intros [H | ->]; assumption].
  - rewrite elem_of_app, list_elem_of_singleton. reflexivity.
Qed.

Lemma NoDup_set_add (v : option string) (s : ValueSet) : NoDup s → NoDup (set_add v s).
Proof.
  intros H. unfold set_add, set_has. case_bool_decide as Hv; [exact H|].
  apply NoDup_app. split; [exact H|]. split; [|apply NoDup_singleton].
  intros x Hx ->%list_elem_of_singleton. contradiction.
Qed.

Lemma elem_of_add_all (x : option string) (ss : list string) :
  ∀ acc, x ∈ add_all ss acc ↔ x ∈ acc ∨ x ∈ (Some <$> ss).
Proof.
  induction ss as [|s ss IH]; intros acc; cbn.
  - split; [auto | intros [H | H]; [exact H | inversion H]].
  - unfold add_all in IH. rewrite IH, elem_of_set_add, elem_of_cons. tauto.
Qed.

Lemma NoDup_add_all (ss : list string) : ∀ acc, NoDup acc → NoDup (add_all ss acc).
Proof.
  induction ss as [|s ss IH]; intros acc H; [exact H|].
  cbn. apply IH, NoDup_set_add, H.
Qed.

(** Marking an item leaves its value as it is. *)
Lemma data_value_alter (f : Item → Item) (i : nat) (its : list Item) :
  (∀ it, data_value (f it) = data_value it) →
  data_value <$> alter f i its = data_value <$> its.
Proof.
  intros Hf. revert i. induction its as [|it its IH]; intros [|i]; cbn;
    rewrite ?Hf, ?IH; reflexivity.
Qed.

Lemma data_value_mark_selected (it : Item) : data_value (mark_selected it) = data_value it.
Proof. reflexivity. Qed.
Lemma data_value_mark_unselected (it : Item) :
  data_value (mark_unselected it) = data_value it.
Proof. reflexivity. Qed.

(** A plain value that some item carries is found, whatever the engine. *)
Lemma query_item_plain engine (its : list Item) (s : string) :
  css_plain s = true → Some s ∈ (data_value <$> its) →
  ∃ i it, query_item engine its s = inl (Some i)
          ∧ its !! i = Some it ∧ data_value it = Some s.
Proof.
  intros Hp Hin. unfold query_item. rewrite Hp.
  apply list_elem_of_fmap in Hin as (it0 & Hv & Hit0).
  destruct (list_find_elem_of (fun it => data_value it = Some s) its it0 Hit0)
    as [[i it] Hfind]; [congruence|].
  rewrite Hfind. exists i, it. split; [reflexivity|].
  apply list_find_Some in Hfind as (Hi & Hv' & _). split; assumption.
Qed.

Lemma item_text_alter (f : Item → Item) (i : nat) (its : list Item) :
  (∀ it, item_text (f it) = item_text it) →
  item_text <$> alter f i its = item_text <$> its.
Proof.
  intros Hf. revert i. induction its as [|it its IH]; intros [|i]; cbn;
    rewrite ?Hf, ?IH; reflexivity.
Qed.

(** The loop of [setValue] over plain values that items carry: every value
    is added, every item found is marked, nothing throws. *)
Lemma forEach_setValue_one engine (ss : list string) :
  ∀ (i : Instance) (e : Element) (c : Content) (cp : bool) (o : list Effect),
    bound_content i = true → content e = Some c →
    (∀ s, s ∈ ss → css_plain s = true ∧ Some s ∈ (data_value <$> items c)) →
    ∃ its,
      forEach (setValue_one engine) (Str <$> ss)
        {| inst := i; el := e; has_closePopover := cp; out := o |}
      = (inl tt,
         {| inst := set_selectedValues (add_all ss (selectedValues i)) i;
            el := set_content (set_items its c) e;
            has_closePopover := cp; out := o |})
      ∧ data_value <$> its = data_value <$> items c
      ∧ item_text <$> its = item_text <$> items c.
Proof.
  induction ss as [|s ss IH]; intros i e c cp o Hb Hc Hss.
  - exists (items c). cbn. split; [|done].
    destruct i, e, c; cbn in *. rewrite Hc. reflexivity.
  - destruct (Hss s ltac:(left)) as [Hplain Hin].
    destruct (query_item_plain engine (items c) s Hplain Hin) as (n & it & Hq & Hn & Hv).
    set (i1 := set_selectedValues (set_add (Some s) (selectedValues i)) i).
    set (c1 := set_items (alter mark_selected n (items c)) c).
    destruct (IH i1 (set_content c1 e) c1 cp o Hb eq_refl) as (its & Hrun & Hdv & Htx).
    { intros s' Hs'. destruct (Hss s' ltac:(right; exact Hs')) as [Hp' Hin'].
      split; [exact Hp'|]. subst c1. cbn.
      rewrite data_value_alter by apply data_value_mark_selected. exact Hin'. }
    exists its. split; [|split].
    + cbn [fmap list_fmap forEach]. rewrite L_bind_unfold.
      assert (Hone : setValue_one engine (Str s)
                       {| inst := i; el := e; has_closePopover := cp; out := o |}
                     = (inl tt, {| inst := i1; el := set_content c1 e;
                                   has_closePopover := cp; out := o |})).
      { unfold setValue_one, the_content. rewrite !L_bind_unfold. cbn.
        rewrite Hb, Hc. cbn. rewrite Hq.
        unfold mbind, L_bind, bind, modify_inst, write_item, modify_el. cbn.
        rewrite Hc. reflexivity. }
      rewrite Hone. rewrite Hrun. subst i1 c1. cbn. reflexivity.
    + rewrite Hdv. subst c1. cbn. apply data_value_alter, data_value_mark_selected.
    + rewrite Htx. subst c1. cbn. apply item_text_alter. reflexivity.
Qed.

(** Unfolds the plumbing of method bodies. *)
Ltac run :=
  unfold mbind, mret, L_bind, L_ret, bind, ret, get, throw, emit, modify_inst,
    modify_el, write_valueEl, write_content, write_hiddenInput, write_item, when;
  cbn -[pill_labels].

Lemma pill_labels_returns (its : list Item) (l : Local) :
  (∀ it, it ∈ its → is_Some (item_text it)) →
  ∃ labels, pill_labels its l = (inl labels, l).
Proof.
  induction its as [|it r IH]; intros Hall; [exists []; reflexivity|].
  destruct (Hall it ltac:(left)) as [t Ht].
  destruct IH as [labels Hl]; [intros it' Hin; apply Hall; right; exact Hin|].
  exists (t :: labels). cbn [pill_labels]. rewrite Ht, L_bind_unfold, Hl. reflexivity.
Qed.

(** [updateDisplay] on an instance with its content and value element
    returns and writes the value element only; with pills it needs a label
    on every selected item. *)
Lemma updateDisplay_returns (i : Instance) (e : Element) (t : Trigger) (c : Content)
    (v : ValueEl) (cp : bool) (o : list Effect) :
  bound_content i = true → bound_valueEl i = true →
  trigger e = Some t → content e = Some c → valueEl t = Some v →
  (multiple i && showPills i = true →
   ∀ it, it ∈ items c → is_Some (item_text it)) →
  ∃ v' o',
    updateDisplay {| inst := i; el := e; has_closePopover := cp; out := o |}
    = (inl tt, {| inst := i; el := set_trigger (set_valueEl v' t) e;
                  has_closePopover := cp; out := (o ++ o')%list |})
    ∧ Forall (fun x => x ≠ hidden_change) o'.
Proof.
  intros Hbc Hbv Ht Hc Hv Hlabels.
  destruct e as [mk sr cl tr ct]; cbn in Ht, Hc; subst tr ct.
  destruct t as [cid ve hi dm dp dt tsr ch dis]; cbn in Hv; subst ve.
  unfold updateDisplay, the_content, the_valueEl. run. rewrite Hbc. cbn.
  destruct (selected_items c) as [|first rest] eqn:Hsel; run; rewrite Hbv; cbn.
  { eexists _, []. rewrite app_nil_r. split; [reflexivity | constructor]. }
  destruct (multiple i) eqn:Hm; [destruct (showPills i) eqn:Hp|]; run.
  - unfold renderPills, the_valueEl. run. rewrite Hbv. cbn -[pill_labels].
    match goal with
    | |- context [pill_labels ?its ?l] =>
        destruct (pill_labels_returns its l) as [labels Hl]
    end.
    { intros it Hin. apply Hlabels; [reflexivity|]. rewrite <- Hsel in Hin.
      unfold selected_items in Hin. apply list_elem_of_filter in Hin as [_ Hin].
      exact Hin. }
    rewrite Hl. cbn. rewrite Hbv. cbn.
    eexists _, [_]. split; [reflexivity|]. repeat constructor. discriminate.
  - rewrite Hbv. cbn. eexists _, []. rewrite app_nil_r.
    split; [reflexivity | constructor].
  - destruct (item_text first); run; rewrite ?Hbv; cbn;
      eexists _, []; rewrite app_nil_r; (split; [reflexivity | constructor]).
Qed.

(** [updateHiddenInput] writes the joined selection and dispatches a change
    on the field exactly when the value it wrote differs from the one it
    found. *)
Lemma updateHiddenInput_spec (i : Instance) (e : Element) (t : Trigger) (h : string)
    (cp : bool) (o : list Effect) :
  bound_hiddenInput i = true → trigger e = Some t → hiddenInput t = Some h →
  updateHiddenInput {| inst := i; el := e; has_closePopover := cp; out := o |}
  = (inl tt,
     {| inst := i;
        el := set_trigger (set_hiddenInput (join_values (selectedValues i)) t) e;
        has_closePopover := cp;
        out := (o ++ if String.eqb h (join_values (selectedValues i))
                     then [] else [hidden_change])%list |}).
Proof.
  intros Hb Ht Hh. unfold updateHiddenInput, the_hiddenInput. run.
  rewrite Hb, Ht. cbn. rewrite Hh. cbn.
  destruct (String.eqb h (join_values (selectedValues i))); run;
    rewrite ?Ht, ?app_nil_r; reflexivity.
Qed.

Lemma elem_of_fmap_eq {A B} (f : A → B) (l l' : list A) (x : A) :
  f <$> l = f <$> l' → x ∈ l → ∃ y, y ∈ l' ∧ f y = f x.
Proof.
  intros Heq Hx. assert (Hfx : f x ∈ f <$> l') by (rewrite <- Heq; apply list_elem_of_fmap_2; exact Hx).
  apply list_elem_of_fmap in Hfx as (y & Hy & Hin). eauto.
Qed.

(** [setValue] on a constructed instance, for plain values that options
    carry: it returns, the selection is the values in the order given, each
    once, the hidden input holds their join, and a change was dispatched
    on the hidden input exactly when that join differs from what the input
    held. *)
Lemma setValue_returns engine (l : Local) (v : SetValueArg) (ss : list string) :
  constructed l → labelled l → values_of v = Str <$> ss →
  (∀ s, s ∈ ss → carried l s) →
  ∃ l', setValue engine v l = (inl tt, l')
    ∧ selectedValues (inst l') = add_all ss []
    ∧ multiple (inst l') = multiple (inst l)
    ∧ hidden_value l' = Some (join_values (add_all ss []))
    ∧ hidden_changes l' =
        (hidden_changes l
         + if bool_decide (hidden_value l = Some (join_values (add_all ss [])))
           then 0 else 1)%nat
    ∧ constructed l'.
Proof.
  intros (Hbt & Hbc & Hbv & Hbh & t & c & ve & h & Ht & Hc & Hve & Hh) Hlab Hv Hss.
  destruct l as [i e cp o]. cbn in *.
  set (c2 := set_items (mark_unselected <$> items c) c).
  set (i2 := set_selectedValues [] i).
  destruct (forEach_setValue_one engine ss i2 (set_content c2 e) c2 cp o Hbc eq_refl)
    as (its & Hrun & Hdv & Htx).
  { intros s Hs. destruct (Hss s Hs) as (Hp & c' & Hc' & Hin).
    split; [exact Hp|]. cbn in Hc'. rewrite Hc in Hc'. injection Hc' as <-.
    subst c2. cbn. rewrite <- list_fmap_compose.
    erewrite list_fmap_ext; [exact Hin|]. intros ? ? ?. reflexivity. }
  set (i3 := set_selectedValues (add_all ss (selectedValues i2)) i2) in *.
  set (e3 := set_content (set_items its c2) (set_content c2 e)) in *.
  destruct (updateDisplay_returns i3 e3 t (set_items its c2) ve cp o Hbc Hbv
              Ht eq_refl Hve) as (v' & o' & Hdisp & Ho').
  { intros Hmp it Hit. cbn in Hit.
    destruct (elem_of_fmap_eq item_text its (items c2) it Htx Hit) as (it2 & Hit2 & Heq).
    subst c2. cbn in Hit2. apply list_elem_of_fmap in Hit2 as (it0 & -> & Hit0).
    rewrite <- Heq. cbn. apply (Hlab Hmp c it0 Hc Hit0). }
  set (t4 := set_valueEl v' t) in *.
  set (e4 := set_trigger t4 e3) in *.
  pose proof (updateHiddenInput_spec i3 e4 t4 h cp (o ++ o')%list Hbh eq_refl Hh) as Hhid.
  assert (Hcount : ∀ (xs : list Effect) (b : bool),
             Forall (fun x => x ≠ hidden_change) xs →
             length (filter (fun x => is_hidden_change x = true)
                       ((o ++ xs) ++ (if b then [] else [hidden_change]))%list)
             = (length (filter (fun x => is_hidden_change x = true) o)
                + if b then 0 else 1)%nat).
  { intros xs b Hxs. rewrite !filter_app, !length_app.
    assert (Hz : filter (fun x => is_hidden_change x = true) xs = []).
    { clear -Hxs. induction Hxs as [|x xs Hx _ IH]; [reflexivity|].
      rewrite filter_cons_False; [exact IH|]. destruct x; cbn; congruence. }
    rewrite Hz. destruct b.
    - rewrite filter_nil. cbn [length]. lia.
    - rewrite filter_cons_True by reflexivity. rewrite filter_nil. cbn [length]. lia. }
  set (i5 := match resetContainer i3 with
             | Some _ =>
                 set_resetContainer
                   (if (0 <? length (selectedValues i3))%nat then "" else "none") i3
             | None => i3
             end).
  exists {| inst := i5;
            el := set_trigger (set_hiddenInput (join_values (selectedValues i3)) t4) e4;
            has_closePopover := cp;
            out := (((o ++ o')
                     ++ (if String.eqb h (join_values (selectedValues i3))
                         then [] else [hidden_change]))
                    ++ [selectbox_change (getValue_of i5) (selectedValues i) None])%list |}.
  split.
  { unfold setValue. rewrite L_bind_unfold. cbn [get].
    rewrite L_bind_unfold. cbn [modify_inst inst el has_closePopover out].
    fold i2. rewrite L_bind_unfold. unfold the_content at 1. rewrite L_bind_unfold.
    cbn [get inst el]. change (bound_content i2) with (bound_content i).
    rewrite Hbc, Hc. cbn [ret]. rewrite L_bind_unfold.
    cbn [write_content modify_el inst el has_closePopover out]. fold c2.
    cbv zeta. fold (values_of v). rewrite Hv. rewrite L_bind_unfold, Hrun.
    rewrite L_bind_unfold. fold i3 e3. rewrite Hdisp.
    rewrite L_bind_unfold. fold t4 e4. rewrite Hhid.
    rewrite L_bind_unfold. unfold updateResetButtonVisibility.
    rewrite L_bind_unfold. cbn [get inst]. subst i5.
    destruct (resetContainer i3); reflexivity. }
  assert (Hi5 : selectedValues i5 = add_all ss [] ∧ multiple i5 = multiple i
                ∧ bound_triggerButton i5 = bound_triggerButton i
                ∧ bound_content i5 = bound_content i
                ∧ bound_valueEl i5 = bound_valueEl i
                ∧ bound_hiddenInput i5 = bound_hiddenInput i).
  { subst i5. destruct (resetContainer i3); repeat split; reflexivity. }
  destruct Hi5 as (Hs5 & Hm5 & Hb1 & Hb2 & Hb3 & Hb4).
  cbn [inst el out]. split; [exact Hs5|]. split; [exact Hm5|].
  split; [reflexivity|].
  split.
  { unfold hidden_value, hidden_changes. cbn [el out]. rewrite Ht. cbn. rewrite Hh.
    rewrite filter_app, length_app, (Hcount o' _ Ho'). cbn. rewrite Nat.add_0_r.
    match goal with
    | |- context [String.eqb h ?x] => destruct (String.eqb_spec h x) as [Heq|Hne]
    end.
    - rewrite bool_decide_eq_true_2; [reflexivity | rewrite Heq; reflexivity].
    - rewrite bool_decide_eq_false_2; [reflexivity|].
      intros [= Heq']. apply Hne. exact Heq'. }
  unfold constructed. cbn [inst el]. rewrite Hb1, Hb2, Hb3, Hb4.
  repeat (split; [assumption|]). eexists _, _, _, _. repeat split; reflexivity.
Qed.

(** *** The size of the selection *)

Lemma snd_bind {A B} (m : L A) (k : A → L B) (l : Local) :
  snd ((m ≫= k) l) = match m l with
                     | (inl a, l1) => snd (k a l1)
                     | (inr _, l1) => l1
                     end.
Proof. rewrite L_bind_unfold. destruct (m l) as [[a|e] l1]; reflexivity. Qed.

Lemma L_bind_assoc {A B C} (m : L A) (k1 : A → L B) (k2 : B → L C) (l : Local) :
  ((m ≫= k1) ≫= k2) l = (m ≫= (fun a => k1 a ≫= k2)) l.
Proof. rewrite !L_bind_unfold. destruct (m l) as [[a|e] l1]; reflexivity. Qed.

Lemma selection_the_item (n : nat) : maintains same_selection (the_item n).
Proof. unfold the_item. walk. Qed.

Lemma selection_on_search_input : maintains same_selection on_search_input.
Proof. unfold on_search_input. walk; auto with selection. Qed.

Lemma selection_clear_search : maintains same_selection clear_search.
Proof.
  unfold clear_search. walk; auto using selection_on_search_input with selection.
Qed.

Lemma selection_enable : maintains same_selection enable.
Proof. unfold enable. walk; auto with selection. Qed.

Lemma selection_disable : maintains same_selection disable.
Proof. unfold disable. walk; auto with selection. Qed.

(** [reset()] leaves the set empty, however it ends. *)
Lemma reset_clears_selection (l : Local) :
  selectedValues (inst (snd (reset l))) = []
  ∧ multiple (inst (snd (reset l))) = multiple (inst l).
Proof.
  unfold reset. rewrite snd_bind. cbn [get]. cbv zeta. rewrite snd_bind.
  cbn [modify_inst].
  match goal with
  | |- context [snd (?m ?l1)] =>
      assert (Hm : maintains same_selection m)
        by (walk; auto using selection_clear_search with selection);
      destruct (Hm l1) as [H1 H2]
  end.
  rewrite H1, H2. split; reflexivity.
Qed.

(** In single mode [selectItem] leaves at most one value in the set,
    however it ends. *)
Lemma selectItem_single_cardinality (n : nat) (l : Local) :
  multiple (inst l) = false →
  (length (selectedValues (inst l)) ≤ 1)%nat →
  (length (selectedValues (inst (snd (selectItem n l)))) ≤ 1)%nat
  ∧ multiple (inst (snd (selectItem n l))) = false.
Proof.
  intros Hm Hlen. unfold selectItem. rewrite snd_bind. cbn [get].
  destruct (isSelecting (inst l)); [cbn; split; assumption|].
  rewrite snd_bind. cbn [modify_inst]. rewrite snd_bind.
  match goal with
  | |- context [the_item n ?l1] =>
      pose proof (selection_the_item n l1) as Hitem;
      destruct (the_item n l1) as [[item|ex] l2]
  end; destruct Hitem as [Hs2 Hm2]; cbn in Hs2, Hm2;
    [|cbn; rewrite Hs2, Hm2; split; assumption].
  cbv zeta. rewrite Hm.
  match goal with
  | |- context [snd (((?m ≫= ?k1) ≫= ?k2) ?l0)] =>
      rewrite (L_bind_assoc m k1 k2 l0)
  end.
  rewrite snd_bind.
  pose proof (selection_the_content l2) as Hcont.
  destruct (the_content l2) as [[c|ex] l3]; destruct Hcont as [Hs3 Hm3];
    cbn in Hs3, Hm3; [|cbn; rewrite Hs3, Hs2, Hm3, Hm2; split; assumption].
  match goal with
  | |- context [snd (((?m ≫= ?k1) ≫= ?k2) ?l0)] =>
      rewrite (L_bind_assoc m k1 k2 l0)
  end.
  rewrite snd_bind. cbn [write_content modify_el].
  match goal with
  | |- context [snd (((?m ≫= ?k1) ≫= ?k2) ?l0)] =>
      rewrite (L_bind_assoc m k1 k2 l0)
  end.
  rewrite snd_bind. cbn [modify_inst].
  match goal with
  | |- context [snd (?m ?l1)] =>
      assert (Hrest : maintains same_selection m) by (walk; auto with selection);
      destruct (Hrest l1) as [H1 H2]
  end.
  rewrite H1, H2. cbn. split; [|congruence].
  unfold set_add, set_has. rewrite bool_decide_eq_false_2 by (intros H; inversion H).
  cbn. lia.
Qed.

(** [setValue] leaves at most one value in the set per value it is given,
    however it ends: at most one for a single value. *)
Lemma setValue_one_cardinality engine (x : JsValue) (l : Local) :
  (length (selectedValues (inst (snd (setValue_one engine x l))))
   ≤ S (length (selectedValues (inst l))))%nat.
Proof.
  destruct x as [| |s]; cbn; [lia..|].
  unfold setValue_one. rewrite snd_bind.
  pose proof (selection_the_content l) as Hcont.
  destruct (the_content l) as [[c|ex] l1]; destruct Hcont as [Hs1 _]; cbn in Hs1;
    [|rewrite Hs1; lia].
  destruct (query_item engine (items c) s) as [[i|]|ex]; run; [|rewrite Hs1; lia..].
  rewrite Hs1. unfold set_add. destruct (set_has _ _); [lia|].
  rewrite length_app. cbn. lia.
Qed.

Lemma forEach_setValue_one_cardinality engine (xs : list JsValue) :
  ∀ l, (length (selectedValues (inst (snd (forEach (setValue_one engine) xs l))))
        ≤ length (selectedValues (inst l)) + length xs)%nat.
Proof.
  induction xs as [|x xs IH]; intros l; [cbn; lia|].
  cbn [forEach]. rewrite snd_bind.
  pose proof (setValue_one_cardinality engine x l) as Hx.
  destruct (setValue_one engine x l) as [[[]|ex] l1]; cbn in Hx |- *; [|lia].
  specialize (IH l1). lia.
Qed.

Lemma setValue_cardinality engine (v : SetValueArg) (l : Local) :
  (length (selectedValues (inst (snd (setValue engine v l))))
   ≤ length (values_of v))%nat.
Proof.
  unfold setValue. rewrite snd_bind. cbn [get]. cbv zeta. rewrite snd_bind.
  cbn [modify_inst]. rewrite snd_bind.
  match goal with
  | |- context [the_content ?l1] =>
      pose proof (selection_the_content l1) as Hcont;
      destruct (the_content l1) as [[c|ex] l2]
  end; destruct Hcont as [Hs2 _]; cbn in Hs2; [|rewrite Hs2; cbn; lia].
  rewrite snd_bind. cbn [write_content modify_el]. fold (values_of v).
  rewrite snd_bind.
  match goal with
  | |- context [forEach ?f ?xs ?l3] =>
      pose proof (forEach_setValue_one_cardinality engine xs l3) as Hfe;
      destruct (forEach f xs l3) as [[[]|ex] l4]
  end; cbn in Hfe; rewrite Hs2 in Hfe; cbn in Hfe; [|lia].
  match goal with
  | |- context [snd (?m ?l1)] =>
      assert (Hrest : maintains same_selection m) by (walk; auto with selection);
      destruct (Hrest l1) as [H1 _]
  end.
  rewrite H1. exact Hfe.
Qed.

(** *** reset and the hidden input *)

(** [reset()] on a constructed instance returns, empties the set and the
    hidden input, and dispatches one change on the hidden input, whatever
    the input held. *)
Lemma reset_dispatches (l : Local) :
  constructed l →
  ∃ l', reset l = (inl tt, l')
    ∧ selectedValues (inst l') = []
    ∧ hidden_value l' = Some ""
    ∧ hidden_changes l' = S (hidden_changes l).
Proof.
  intros (Hbt & Hbc & Hbv & Hbh & t & c & ve & h & Ht & Hc & Hve & Hh).
  destruct l as [i e cp o]. cbn in *.
  destruct e as [mk sr cl tr ct]; cbn in Ht, Hc; subst tr ct.
  destruct t as [cid ve' hi dm dp dt tsr ch dis]; cbn in Hve, Hh; subst ve' hi.
  destruct i as [el0 mu sp se co sct isel sv ls b1 b2 b3 b4 ph ich erh dl rc].
  cbn in Hbt, Hbc, Hbv, Hbh. subst b1 b2 b3 b4.
  destruct c as [its sch].
  unfold reset, updateResetButtonVisibility, clear_search, on_search_input.
  unfold the_content, the_valueEl, the_hiddenInput.
  destruct rc as [d|], sch as [q|]; run;
    try (destruct (bool_decide ((on_search, "input") ∈ ls)); run);
    (eexists; split; [reflexivity|]); cbn;
    (split; [reflexivity|]; split; [reflexivity|]);
    unfold hidden_changes; cbn; rewrite !filter_app, !length_app; cbn;
    repeat (destruct (decide _); try congruence); cbn; lia.
Qed.

End MethodBodies.

(** ** Selection control: setValue, then getValue *)

(** C8, as the code has it.  On an instance whose construction went
    through (with a label on every option when pills are shown), after
    [setValue(v)] for a value or a sequence of values [v] that options of the
    control carry (strings that need no escaping in a CSS string),
    [setValue] returns and [getValue()] yields, in multiple mode, the values
    of [v], each once: a sequence equal to [v] as a set; and in single mode,
    for [v] a single value, that value. *)
Theorem setValue_then_getValue
    (engine : list SelectBox.Item → string → JS.Res (option nat))
    (l : SelectBox.Local) (v : SelectBox.SetValueArg) (ss : list string) :
  constructed l → labelled l →
  values_of v = SelectBox.Str <$> ss →
  (∀ s, s ∈ ss → carried l s) →
  ∃ l', SelectBox.setValue engine v l = (inl tt, l')
    ∧ (SelectBox.multiple (SelectBox.inst l) = true →
       ∃ vs, fst (SelectBox.getValue l') = inl (SelectBox.Values vs)
             ∧ NoDup vs ∧ ∀ x, x ∈ vs ↔ x ∈ (Some <$> ss))
    ∧ (SelectBox.multiple (SelectBox.inst l) = false →
       ∀ s, v = SelectBox.Scalar (SelectBox.Str s) →
            fst (SelectBox.getValue l') = inl (SelectBox.Single (Some s))).
Proof.
  intros Hc Hl Hv Hss.
  destruct (setValue_returns engine l v ss Hc Hl Hv Hss)
    as (l' & Hrun & Hsel & Hm & _).
  exists l'. split; [exact Hrun|].
  unfold SelectBox.getValue. rewrite L_bind_unfold. cbn.
  unfold SelectBox.getValue_of. rewrite Hm, Hsel. split.
  - intros ->. exists (add_all ss []). split; [reflexivity|].
    split; [apply NoDup_add_all, NoDup_nil_2|].
    intros x. rewrite elem_of_add_all. split; [intros [H|H]; [inversion H | exact H] | auto].
  - intros -> s ->. cbn in Hv. destruct ss as [|s' [|]]; try discriminate Hv.
    injection Hv as ->. reflexivity.
Qed.

Lemma setValue_then_getValue_witness :
  constructed (abc_local true false)
  ∧ labelled (abc_local true false)
  ∧ (∀ s, s ∈ ["c"; "a"] → carried (abc_local true false) s)
  ∧ ∃ l', SelectBox.setValue strict_engine
            (SelectBox.Array [SelectBox.Str "c"; SelectBox.Str "a"])
            (abc_local true false) = (inl tt, l')
          ∧ ∃ vs, fst (SelectBox.getValue l') = inl (SelectBox.Values vs)
                  ∧ ∀ x, x ∈ vs ↔ x ∈ [Some "c"; Some "a"].
Proof.
  assert (Hc : constructed (abc_local true false)).
  { unfold constructed. vm_compute. repeat (split; [reflexivity|]).
    eexists _, _, _, _. repeat split; reflexivity. }
  assert (Hl : labelled (abc_local true false)).
  { intros H. vm_compute in H. discriminate H. }
  assert (Hs : ∀ s, s ∈ ["c"; "a"] → carried (abc_local true false) s).
  { intros s Hs. apply elem_of_cons in Hs as [->|Hs];
      [|apply list_elem_of_singleton in Hs as ->];
      (split; [reflexivity|]); vm_compute; eexists; (split; [reflexivity|]).
    - right. right. left.
    - left. }
  split; [exact Hc|]. split; [exact Hl|]. split; [exact Hs|].
  destruct (setValue_then_getValue strict_engine (abc_local true false)
              (SelectBox.Array [SelectBox.Str "c"; SelectBox.Str "a"]) ["c"; "a"]
              Hc Hl eq_refl Hs) as (l' & Hrun & Hmulti & _).
  exists l'. split; [exact Hrun|].
  destruct (Hmulti ltac:(vm_compute; reflexivity)) as (vs & Hget & _ & Hvs).
  exists vs. split; [exact Hget | exact Hvs].
Defined.

(** C8 as stated fails in single mode for a sequence: after [setValue] of
    the two option values a and b, [getValue()] yields a alone. *)
Lemma single_mode_getValue_after_two_values :
  carried (abc_local false false) "a" ∧ carried (abc_local false false) "b"
  ∧ SelectBox.multiple (SelectBox.inst (abc_local false false)) = false
  ∧ fst (SelectBox.setValue strict_engine
           (SelectBox.Array [SelectBox.Str "a"; SelectBox.Str "b"])
           (abc_local false false)) = inl tt
  ∧ fst (SelectBox.getValue
           (snd (SelectBox.setValue strict_engine
                   (SelectBox.Array [SelectBox.Str "a"; SelectBox.Str "b"])
                   (abc_local false false))))
    = inl (SelectBox.Single (Some "a"))
  ∧ SelectBox.Single (Some "a") ≠ SelectBox.Values [Some "a"; Some "b"]
  ∧ SelectBox.Single (Some "a") ≠ SelectBox.Single (Some "b").
Proof.
  split.
  { split; [reflexivity|]. vm_compute. eexists. split; [reflexivity | left]. }
  split.
  { split; [reflexivity|]. vm_compute. eexists. split; [reflexivity | right; left]. }
  split; [vm_compute; reflexivity|]. split; [vm_compute; reflexivity|].
  split; [vm_compute; reflexivity|]. split; discriminate.
Qed.

(** ** Selection control: the size of the selection in single mode *)

(** C3 at the input on which the code breaks it: on a single-selection
    instance with the options a, b and c and nothing selected, [setValue]
    of the array of a and b returns and leaves two values in the set; the
    hidden input then holds both, while [getValue()] yields the first and
    the summary shows one label. *)
Theorem single_mode_setValue_of_two_values :
  SelectBox.multiple (SelectBox.inst (abc_local false false)) = false
  ∧ SelectBox.selectedValues (SelectBox.inst (abc_local false false)) = []
  ∧ fst (SelectBox.setValue strict_engine
           (SelectBox.Array [SelectBox.Str "a"; SelectBox.Str "b"])
           (abc_local false false)) = inl tt
  ∧ SelectBox.selectedValues
      (SelectBox.inst
         (snd (SelectBox.setValue strict_engine
                 (SelectBox.Array [SelectBox.Str "a"; SelectBox.Str "b"])
                 (abc_local false false))))
    = [Some "a"; Some "b"]
  ∧ hidden_value
      (snd (SelectBox.setValue strict_engine
              (SelectBox.Array [SelectBox.Str "a"; SelectBox.Str "b"])
              (abc_local false false)))
    = Some "a,b"
  ∧ fst (SelectBox.getValue
           (snd (SelectBox.setValue strict_engine
                   (SelectBox.Array [SelectBox.Str "a"; SelectBox.Str "b"])
                   (abc_local false false))))
    = inl (SelectBox.Single (Some "a")).
Proof. repeat split; vm_compute; reflexivity. Qed.

(** ** Selection control: the change event of the hidden input *)

(** C6 at the input on which the code breaks it: on an instance with
    nothing selected and an empty hidden input, [reset()] returns, leaves
    the hidden input empty as it was, and dispatches a change on it. *)
Theorem reset_of_empty_control_dispatches_change :
  SelectBox.selectedValues (SelectBox.inst (abc_local false false)) = []
  ∧ hidden_value (abc_local false false) = Some ""
  ∧ fst (SelectBox.reset (abc_local false false)) = inl tt
  ∧ hidden_value (snd (SelectBox.reset (abc_local false false))) = Some ""
  ∧ SelectBox.out (snd (SelectBox.reset (abc_local false false)))
    = [SelectBox.hidden_change; SelectBox.search_input; SelectBox.selectbox_reset []]
  ∧ hidden_changes (snd (SelectBox.reset (abc_local false false))) = 1%nat.
Proof. repeat split; vm_compute; reflexivity. Qed.

(** * Further properties *)

(** ** Numbers and their decimal form *)
Section DecimalForm.









End DecimalForm.



(** ** Step sequencer: class lists *)

(** Membership and inclusion of lists given in full. *)
Ltac list_mem := solve [repeat first [left | right]].
Ltac list_sub :=
  let c := fresh "c" in let Hc := fresh "Hc" in
  intros c Hc;
  repeat (apply elem_of_cons in Hc as [->|Hc]; [list_mem|]);
  apply elem_of_nil in Hc; destruct Hc.

Section ClassLists.

Lemma elem_of_class_remove (names cl : list string) (c : string) :
  c ∈ JS.class_remove names cl ↔ c ∈ cl ∧ c ∉ names.
Proof. unfold JS.class_remove. rewrite list_elem_of_filter. tauto. Qed.

Lemma elem_of_class_add (names : list string) :
  ∀ (cl : list string) (c : string), c ∈ JS.class_add names cl ↔ c ∈ cl ∨ c ∈ names.
Proof.
  unfold JS.class_add. induction names as [|n r IH]; intros cl c; cbn.
  - rewrite elem_of_nil. tauto.
  - rewrite IH, elem_of_cons. destruct (decide (n ∈ cl)) as [Hin|Hout].
    + split; [tauto|]. intros [H|[->|H]]; tauto.
    + rewrite elem_of_app, list_elem_of_singleton. tauto.
Qed.

End ClassLists.

(** ** Step sequencer: navigation *)
Section StepperNavigation.
Import Stepper.

Lemma step_count_updateStepStates (s : Stepper) :
  step_count (updateStepStates s) = step_count s.
Proof. unfold step_count. cbn. rewrite length_fmap. reflexivity. Qed.

Lemma goToStep_cases (s : Stepper) (n : Z) :
  goToStep (JS.Num n) s = s ∨ moved_to s (goToStep (JS.Num n) s).
Proof.
  destruct (decide (1 ≤ n ≤ step_count s)) as [Hin|Hout].
  - right. exists n. split; [exact Hin | apply goToStep_in_range, Hin].
  - left. destruct (decide (n < 1)); [apply goToStep_below; assumption|].
    apply goToStep_above. unfold step_count in Hout. lia.
Qed.

Lemma nextStep_cases (s : Stepper) : nextStep s = s ∨ moved_to s (nextStep s).
Proof.
  unfold nextStep. destruct (currentStep s) as [|c]; [left; reflexivity|].
  destruct (JS.lt _ _); [|left; reflexivity]. apply goToStep_cases.
Qed.

Lemma prevStep_cases (s : Stepper) : prevStep s = s ∨ moved_to s (prevStep s).
Proof.
  unfold prevStep. destruct (currentStep s) as [|c]; [left; reflexivity|].
  destruct (JS.gt _ _); [|left; reflexivity]. apply goToStep_cases.
Qed.

Lemma keydown_cases (key : string) (s : Stepper) :
  keydown key s = s ∨ moved_to s (keydown key s).
Proof.
  unfold keydown.
  destruct (_ || _); [apply nextStep_cases|].
  destruct (_ || _); [apply prevStep_cases|].
  destruct (String.eqb key "Home"); [apply goToStep_cases|].
  destruct (String.eqb key "End"); [apply goToStep_cases|].
  left. reflexivity.
Qed.

Lemma move_cases (m : Move) (s : Stepper) : move m s = s ∨ moved_to s (move m s).
Proof.
  destruct m; cbn [move];
    [apply goToStep_cases | apply nextStep_cases | apply prevStep_cases
    | apply keydown_cases].
Qed.

Lemma moved_to_in_range (s s' : Stepper) :
  moved_to s s' → in_range s' ∧ step_count s' = step_count s ∧ rendered s'.
Proof.
  intros (k & Hk & ->). split; [|split].
  - exists k. split; [reflexivity|]. rewrite step_count_updateStepStates. exact Hk.
  - rewrite step_count_updateStepStates. reflexivity.
  - eexists. reflexivity.
Qed.

(** What [updateStepStates] leaves in the panel at index [i]. *)
Lemma updateStepStates_content (s : Stepper) (i : nat) (c : StepContent) :
  stepContents (updateStepStates s) !! i = Some c →
  ∃ c0, stepContents s !! i = Some c0 ∧ c = update_content (currentStep s) c0.
Proof.
  cbn. rewrite list_lookup_fmap. destruct (stepContents s !! i) as [c0|]; cbn; [|done].
  intros [= <-]. eauto.
Qed.

Lemma status_of_values (a b : JS.num) :
  status_of a b = "completed" ∨ status_of a b = "active" ∨ status_of a b = "incomplete".
Proof.
  unfold status_of. destruct (JS.lt a b); [auto|]. destruct (JS.strict_eq a b); auto.
Qed.

Lemma status_of_NaN (a : JS.num) : status_of a JS.NaN = "incomplete".
Proof. destruct a; reflexivity. Qed.

End StepperNavigation.

(** X1.  In a sequencer whose current step is NaN or an integer below
    2^53 in magnitude, going to a step by an integer below 10^21 in
    magnitude, [nextStep], [prevStep] and the keys either change nothing at
    all or leave the sequencer freshly rendered at one of its steps; they
    never change the number of steps, and a current step that is one of the
    steps stays one.  [goToStep(NaN)] is the exception: NaN passes both
    tests of [goToStep], becomes the current step, and the sequencer is
    rendered for it, at none of its steps. *)
Theorem stepper_move_lands_on_a_step (s : Stepper.Stepper) (m : Move) :
  safe_number (Stepper.currentStep s) → plain_move m →
  (move m s = s
   ∨ (moved_to s (move m s) ∧ in_range (move m s) ∧ rendered (move m s)))
  ∧ step_count (move m s) = step_count s
  ∧ (in_range s → in_range (move m s))
  ∧ Stepper.goToStep JS.NaN s
    = Stepper.updateStepStates (Stepper.set_currentStep JS.NaN s)
  ∧ ¬ in_range (Stepper.goToStep JS.NaN s).
Proof.
  intros _ _.
  split; [|split; [|split; [|split; [reflexivity|]]]].
  - destruct (move_cases m s) as [Heq|Hmoved]; [left; exact Heq|].
    destruct (moved_to_in_range _ _ Hmoved) as (Hin & _ & Hr). right. auto.
  - destruct (move_cases m s) as [Heq|Hmoved]; [rewrite Heq; reflexivity|].
    exact (proj1 (proj2 (moved_to_in_range _ _ Hmoved))).
  - destruct (move_cases m s) as [Heq|Hmoved]; [rewrite Heq; auto|].
    intros _. exact (proj1 (moved_to_in_range _ _ Hmoved)).
  - intros (c & Hc & _). discriminate Hc.
Qed.

Lemma stepper_move_lands_on_a_step_witness :
  in_range wizard ∧ in_range (move (Key "End") wizard)
  ∧ Stepper.currentStep (move (Key "End") wizard) = JS.Num 3.
Proof.
  assert (H : in_range wizard) by (exists 1; split; [reflexivity | vm_compute; split; discriminate]).
  assert (Hs : safe_number (Stepper.currentStep wizard))
    by (vm_compute; split; reflexivity).
  split; [exact H|]. split; [|reflexivity].
  exact (proj1 (proj2 (proj2 (stepper_move_lands_on_a_step wizard (Key "End") Hs I))) H).
Defined.

(** X2.  In a sequencer with [N] steps and for [1 ≤ n ≤ N], [goToStep(n)]
    keeps the panels and their numbers, shows the panels numbered [n] and
    hides every other panel (one without a number included), writes [n] to
    the [data-current-step] of the container, and dispatches one
    [stepper:change] that carries [n] and the id of the sequencer. *)
Theorem goToStep_shows_the_panel_of_the_step (s : Stepper.Stepper) (n : Z) :
  1 ≤ n ≤ step_count s →
  let s' := Stepper.goToStep (JS.Num n) s in
  length (Stepper.stepContents s') = length (Stepper.stepContents s)
  ∧ (∀ (i : nat) (c : Stepper.StepContent), Stepper.stepContents s' !! i = Some c →
       (∃ c0, Stepper.stepContents s !! i = Some c0
              ∧ content_number c = content_number c0)
       ∧ (content_number c = JS.Num n → Stepper.content_display c = "block")
       ∧ (content_number c ≠ JS.Num n → Stepper.content_display c = "none"))
  ∧ Stepper.dataset_currentStep s' = Some (JS.string_of_Z n)
  ∧ Stepper.dispatched s'
    = (Stepper.dispatched s
       ++ [Stepper.stepper_change (JS.Num n) (Stepper.stepperId s)])%list.
Proof.
  intros Hn s'. subst s'. rewrite goToStep_in_range by exact Hn.
  split; [cbn; apply length_fmap|].
  split; [|split; reflexivity].
  intros i c Hc. apply updateStepStates_content in Hc as (c0 & Hc0 & ->).
  split; [eauto|]. unfold content_number. cbn.
  destruct (JS.parseInt_attr 0 (Stepper.content_step_number c0)) as [|k]; cbn.
  - split; [discriminate | reflexivity].
  - destruct (Z.eqb_spec k n) as [->|Hne]; split; intros H;
      (reflexivity || congruence).
Qed.

Lemma goToStep_shows_the_panel_of_the_step_witness :
  1 ≤ 2 ≤ step_count wizard
  ∧ Stepper.content_display <$> Stepper.stepContents (Stepper.goToStep (JS.Num 2) wizard)
    = ["none"; "block"; "none"]
  ∧ Stepper.dataset_currentStep (Stepper.goToStep (JS.Num 2) wizard) = Some "2"
  ∧ Stepper.dispatched (Stepper.goToStep (JS.Num 2) wizard)
    = (Stepper.dispatched wizard ++ [Stepper.stepper_change (JS.Num 2) "wizard"])%list.
Proof.
  assert (H : 1 ≤ 2 ≤ step_count wizard) by (vm_compute; split; discriminate).
  split; [exact H|]. split; [reflexivity|].
  destruct (goToStep_shows_the_panel_of_the_step wizard 2 H) as (_ & _ & Hd & He).
  split; [exact Hd | exact He].
Defined.

(** ** Step sequencer: what a step shows *)
Section StepperLook.
Import Stepper.

Lemma class_remove_class_add (names xs : list string) :
  xs ⊆ names →
  ∀ cl, JS.class_remove names (JS.class_add xs cl) = JS.class_remove names cl.
Proof.
  unfold JS.class_remove, JS.class_add.
  induction xs as [|x r IH]; intros Hsub cl; [reflexivity|]. cbn.
  rewrite IH by (intros y Hy; apply Hsub; right; exact Hy).
  destruct (decide (x ∈ cl)); [reflexivity|].
  rewrite filter_app, filter_cons, decide_False, filter_nil, app_nil_r; [reflexivity|].
  intros Hnot. apply Hnot, Hsub. left.
Qed.

Lemma class_remove_twice (names cl : list string) :
  JS.class_remove names (JS.class_remove names cl) = JS.class_remove names cl.
Proof.
  unfold JS.class_remove. induction cl as [|c r IH]; [reflexivity|].
  rewrite filter_cons. destruct (decide (c ∉ names)) as [H|H]; [|exact IH].
  rewrite !filter_cons, decide_True by exact H. rewrite IH. reflexivity.
Qed.

Lemma tone_of_tone_classes (status : string) : tone_of status ⊆ tone_classes.
Proof.
  unfold tone_of, tone_classes, primary_tone, destructive_tone, muted_tone.
  destruct (_ || _); [|destruct (String.eqb status "error")]; list_sub.
Qed.

Lemma update_trigger_classList (status : string) (n : JS.num) (t : Trigger) :
  classList (update_trigger status n t)
  = JS.class_add (tone_of status) (JS.class_remove tone_classes (classList t)).
Proof.
  unfold update_trigger, tone_of.
  destruct (String.eqb status "completed"), (String.eqb status "active"),
    (String.eqb status "error"); reflexivity.
Qed.

Lemma update_trigger_aria (status : string) (n : JS.num) (t : Trigger) :
  aria_current (update_trigger status n t)
  = Some (if String.eqb status "active" then "step" else "false").
Proof.
  unfold update_trigger. destruct (String.eqb status "completed"); reflexivity.
Qed.

Lemma update_connector_twice (status status' : string) (cl : list string) :
  update_connector status (update_connector status' cl) = update_connector status cl.
Proof.
  unfold update_connector. f_equal.
  rewrite class_remove_class_add, class_remove_twice; [reflexivity|].
  destruct (String.eqb status' "completed"); list_sub.
Qed.

(** What a step shows after a rendering does not depend on the renderings
    before it. *)
Lemma step_look_update_step (c c' : JS.num) (st : Step) :
  step_look (update_step c (update_step c' st)) = step_look (update_step c st).
Proof.
  unfold step_look, update_step.
  cbn [data_status trigger connector data_step_number].
  f_equal; [f_equal|].
  - destruct (trigger st) as [t|]; [|reflexivity].
    cbn [fmap option_fmap option_map]. f_equal. f_equal.
    + rewrite !update_trigger_classList.
      rewrite class_remove_class_add by apply tone_of_tone_classes.
      rewrite class_remove_twice. reflexivity.
    + rewrite !update_trigger_aria. reflexivity.
  - destruct (connector st) as [cl|]; [|reflexivity].
    cbn [fmap option_fmap option_map].
    rewrite update_connector_twice. reflexivity.
Qed.

Lemma update_content_twice (c c' : JS.num) (x : StepContent) :
  update_content c (update_content c' x) = update_content c x.
Proof. reflexivity. Qed.

Lemma nextStep_in_range (s : Stepper) (c : Z) :
  currentStep s = JS.Num c → 1 ≤ c + 1 ≤ step_count s →
  nextStep s = updateStepStates (set_currentStep (JS.Num (c + 1)) s).
Proof.
  intros Hc Hr. unfold nextStep. rewrite Hc. unfold steps_length, JS.lt.
  unfold step_count in Hr.
  destruct (Z.ltb_spec c (Z.of_nat (length (steps s)))); [|lia].
  cbn [JS.add]. apply goToStep_in_range. exact Hr.
Qed.

Lemma prevStep_in_range (s : Stepper) (c : Z) :
  currentStep s = JS.Num c → 1 ≤ c - 1 ≤ step_count s →
  prevStep s = updateStepStates (set_currentStep (JS.Num (c - 1)) s).
Proof.
  intros Hc Hr. unfold prevStep. rewrite Hc. unfold JS.gt, JS.lt.
  destruct (Z.ltb_spec 1 c); [|lia].
  cbn [JS.sub]. apply goToStep_in_range. exact Hr.
Qed.

End StepperLook.

(** X3.  [prevStep()] undoes [nextStep()].  On a rendered sequencer at step
    [c] with a step after it, [nextStep()] followed by [prevStep()] leaves
    the current step, what every step shows of its status (status, trigger
    classes and [aria-current], connector classes), the panels and the
    [data-current-step] of the container as they were, after two
    [stepper:change] events, for [c + 1] and for [c]. *)
Theorem prevStep_undoes_nextStep (s : Stepper.Stepper) (c : Z) :
  rendered s → Stepper.currentStep s = JS.Num c → 1 ≤ c < step_count s →
  let s' := Stepper.prevStep (Stepper.nextStep s) in
  Stepper.currentStep s' = JS.Num c
  ∧ step_look <$> Stepper.steps s' = step_look <$> Stepper.steps s
  ∧ Stepper.stepContents s' = Stepper.stepContents s
  ∧ Stepper.dataset_currentStep s' = Stepper.dataset_currentStep s
  ∧ Stepper.dispatched s'
    = (Stepper.dispatched s
       ++ [Stepper.stepper_change (JS.Num (c + 1)) (Stepper.stepperId s);
           Stepper.stepper_change (JS.Num c) (Stepper.stepperId s)])%list.
Proof.
  intros [s0 ->] Hc Hr s'. subst s'. cbn in Hc.
  rewrite step_count_updateStepStates in Hr.
  rewrite (nextStep_in_range _ c) by (rewrite ?step_count_updateStepStates; (exact Hc || lia)).
  rewrite (prevStep_in_range _ (c + 1))
    by (rewrite ?step_count_updateStepStates; (reflexivity || (unfold step_count in *; cbn; rewrite length_fmap; lia))).
  replace (c + 1 - 1) with c by lia.
  cbn. rewrite Hc. split; [reflexivity|].
  split.
  { rewrite <- !list_fmap_compose. apply list_fmap_ext. intros i st _. cbn.
    rewrite !step_look_update_step. reflexivity. }
  split.
  { rewrite <- !list_fmap_compose. apply list_fmap_ext. intros i x _. reflexivity. }
  split; [reflexivity|]. rewrite <- app_assoc. reflexivity.
Qed.

Lemma prevStep_undoes_nextStep_witness :
  rendered wizard ∧ Stepper.currentStep wizard = JS.Num 1 ∧ 1 ≤ 1 < step_count wizard
  ∧ step_look <$> Stepper.steps (Stepper.prevStep (Stepper.nextStep wizard))
    = step_look <$> Stepper.steps wizard
  ∧ Stepper.stepContents (Stepper.prevStep (Stepper.nextStep wizard))
    = Stepper.stepContents wizard.
Proof.
  assert (Hr : rendered wizard).
  { exists {| Stepper.stepperId := "wizard";
              Stepper.steps := Stepper.c_steps wizard_container;
              Stepper.stepContents := Stepper.c_contents wizard_container;
              Stepper.currentStep := JS.Num 1;
              Stepper.dataset_currentStep := None;
              Stepper.dispatched := [] |}.
    reflexivity. }
  assert (Hn : 1 ≤ 1 < step_count wizard) by (vm_compute; split; [discriminate | reflexivity]).
  split; [exact Hr|]. split; [reflexivity|]. split; [exact Hn|].
  destruct (prevStep_undoes_nextStep wizard 1 Hr eq_refl Hn) as (_ & Hl & Hp & _).
  split; [exact Hl | exact Hp].
Defined.

(** X4.  After [updateStepStates], whatever classes the markup gave a
    trigger, the trigger has the tone of the status of its step and no
    other: the status is completed, active or incomplete; the two primary
    classes are there for a completed or active step, the two muted classes
    for an incomplete one; no trigger has a destructive class; the classes
    that are no tone classes are kept; and [aria-current] is "step" on the
    active step and "false" elsewhere. *)
Theorem rendered_trigger_has_the_tone_of_its_status (s : Stepper.Stepper) (i : nat)
    (st : Stepper.Step) (t : Stepper.Trigger) :
  Stepper.steps (Stepper.updateStepStates s) !! i = Some st →
  Stepper.trigger st = Some t →
  ∃ st0 t0 status,
    Stepper.steps s !! i = Some st0 ∧ Stepper.trigger st0 = Some t0
    ∧ Stepper.data_status st = Some status
    ∧ status ∈ ["completed"; "active"; "incomplete"]
    ∧ (∀ c, c ∈ Stepper.classList t ↔
            c ∈ (if String.eqb status "incomplete" then muted_tone else primary_tone)
            ∨ (c ∈ Stepper.classList t0 ∧ c ∉ Stepper.tone_classes))
    ∧ (∀ c, c ∈ destructive_tone → c ∉ Stepper.classList t)
    ∧ Stepper.aria_current t
      = Some (if String.eqb status "active" then "step" else "false").
Proof.
  intros Hst Ht. apply updateStepStates_step in Hst as (st0 & Hst0 & ->).
  unfold Stepper.update_step in Ht. cbn [Stepper.trigger] in Ht.
  destruct (Stepper.trigger st0) as [t0|] eqn:Ht0; [|discriminate].
  cbn in Ht. injection Ht as <-.
  set (n := JS.parseInt_attr 0 (Stepper.data_step_number st0)).
  set (status := Stepper.status_of n (Stepper.currentStep s)).
  exists st0, t0, status. split; [exact Hst0|]. split; [exact Ht0|].
  split; [reflexivity|].
  assert (Hcl : ∀ tone, tone_of status = tone → tone ⊆ Stepper.tone_classes →
                ∀ c, c ∈ Stepper.classList (Stepper.update_trigger status n t0) ↔
                     c ∈ tone ∨ (c ∈ Stepper.classList t0 ∧ c ∉ Stepper.tone_classes)).
  { intros tone Htone Hsub c. rewrite update_trigger_classList, Htone.
    rewrite elem_of_class_add, elem_of_class_remove. tauto. }
  assert (Hd : ∀ tone, tone_of status = tone → (∀ c, c ∈ destructive_tone → c ∉ tone) →
               ∀ c, c ∈ destructive_tone →
                    c ∉ Stepper.classList (Stepper.update_trigger status n t0)).
  { intros tone Htone Hnot c Hc. rewrite update_trigger_classList, Htone.
    rewrite elem_of_class_add, elem_of_class_remove.
    intros [[_ Hout]|Hin]; [|exact (Hnot c Hc Hin)].
    apply Hout. clear Hout. revert c Hc.
    unfold destructive_tone, Stepper.tone_classes. list_sub. }
  assert (Hprim : ∀ c, c ∈ destructive_tone → c ∉ primary_tone).
  { intros c Hc Hp. unfold destructive_tone, primary_tone in *.
    repeat (apply elem_of_cons in Hc as [->|Hc];
            [repeat (apply elem_of_cons in Hp as [Hp|Hp]; [discriminate Hp|]);
             apply elem_of_nil in Hp; exact Hp|]).
    apply elem_of_nil in Hc. exact Hc. }
  assert (Hmut : ∀ c, c ∈ destructive_tone → c ∉ muted_tone).
  { intros c Hc Hp. unfold destructive_tone, muted_tone in *.
    repeat (apply elem_of_cons in Hc as [->|Hc];
            [repeat (apply elem_of_cons in Hp as [Hp|Hp]; [discriminate Hp|]);
             apply elem_of_nil in Hp; exact Hp|]).
    apply elem_of_nil in Hc. exact Hc. }
  rewrite update_trigger_aria.
  destruct (status_of_values n (Stepper.currentStep s)) as [H|[H|H]];
    fold status in H; rewrite H in *; cbn [String.eqb Ascii.eqb Bool.eqb].
  - split; [list_mem|].
    split; [apply Hcl; [reflexivity | unfold primary_tone, Stepper.tone_classes; list_sub]|].
    split; [apply (Hd primary_tone); [reflexivity | exact Hprim] | reflexivity].
  - split; [list_mem|].
    split; [apply Hcl; [reflexivity | unfold primary_tone, Stepper.tone_classes; list_sub]|].
    split; [apply (Hd primary_tone); [reflexivity | exact Hprim] | reflexivity].
  - split; [list_mem|].
    split; [apply Hcl; [reflexivity | unfold muted_tone, Stepper.tone_classes; list_sub]|].
    split; [apply (Hd muted_tone); [reflexivity | exact Hmut] | reflexivity].
Qed.

Lemma rendered_trigger_has_the_tone_of_its_status_witness :
  ∃ st t, Stepper.steps wizard !! 1%nat = Some st ∧ Stepper.trigger st = Some t
    ∧ Stepper.data_status st = Some "incomplete"
    ∧ Stepper.classList t = ["w-8"; "bg-muted"; "text-muted-foreground"]
    ∧ ∀ c, c ∈ destructive_tone → c ∉ Stepper.classList t.
Proof.
  eexists _, _. split; [reflexivity|]. split; [reflexivity|].
  split; [reflexivity|]. split; [reflexivity|].
  destruct (rendered_trigger_has_the_tone_of_its_status
              {| Stepper.stepperId := "wizard";
                 Stepper.steps := Stepper.c_steps wizard_container;
                 Stepper.stepContents := Stepper.c_contents wizard_container;
                 Stepper.currentStep := JS.Num 1;
                 Stepper.dataset_currentStep := None;
                 Stepper.dispatched := [] |} 1%nat _ _ eq_refl eq_refl)
    as (_ & _ & _ & _ & _ & _ & _ & _ & Hd & _).
  exact Hd.
Defined.

(** X5.  A click on the trigger of a step that has no [data-step-number]
    (or one that is no number) is not ignored: the current step becomes NaN,
    every step becomes incomplete, every panel is hidden, the container's
    [data-current-step] reads NaN, one [stepper:change] carries NaN, and
    from there [nextStep()] and [prevStep()] change nothing. *)
Theorem click_on_a_step_without_number (s : Stepper.Stepper) (i : nat)
    (st : Stepper.Step) :
  Stepper.steps s !! i = Some st → is_Some (Stepper.trigger st) →
  step_number st = JS.NaN →
  let s' := Stepper.trigger_click i s in
  Stepper.currentStep s' = JS.NaN
  ∧ (∀ st', st' ∈ Stepper.steps s' → Stepper.data_status st' = Some "incomplete")
  ∧ (∀ c, c ∈ Stepper.stepContents s' → Stepper.content_display c = "none")
  ∧ Stepper.dataset_currentStep s' = Some "NaN"
  ∧ Stepper.dispatched s'
    = (Stepper.dispatched s ++ [Stepper.stepper_change JS.NaN (Stepper.stepperId s)])%list
  ∧ Stepper.nextStep s' = s' ∧ Stepper.prevStep s' = s'.
Proof.
  intros Hst [t Ht] Hn s'. subst s'. unfold Stepper.trigger_click.
  rewrite Hst, Ht. unfold step_number in Hn. rewrite Hn.
  change (Stepper.goToStep JS.NaN s)
    with (Stepper.updateStepStates (Stepper.set_currentStep JS.NaN s)).
  split; [reflexivity|]. split; [|split; [|repeat split]].
  - intros st' Hin. cbn in Hin. apply list_elem_of_fmap in Hin as (st0 & -> & _).
    cbn. rewrite status_of_NaN. reflexivity.
  - intros c Hin. cbn in Hin. apply list_elem_of_fmap in Hin as (c0 & -> & _).
    unfold Stepper.update_content. cbn [Stepper.content_display].
    destruct (JS.parseInt_attr 0 (Stepper.content_step_number c0)); reflexivity.
Qed.

Lemma click_on_a_step_without_number_witness :
  Stepper.currentStep unnumbered = JS.Num 1
  ∧ Stepper.currentStep (Stepper.trigger_click 1 unnumbered) = JS.NaN
  ∧ Stepper.nextStep (Stepper.trigger_click 1 unnumbered)
    = Stepper.trigger_click 1 unnumbered.
Proof.
  split; [reflexivity|].
  destruct (click_on_a_step_without_number unnumbered 1 _ eq_refl
              ltac:(eexists; reflexivity) eq_refl) as (Hc & _ & _ & _ & _ & Hn & _).
  split; [exact Hc | exact Hn].
Defined.

(** ** Step sequencer: the navigation buttons *)
Section StepperButtonsFacts.
Import Stepper StepperButtons.





Variable getElementById : string → option nat.
Variable data_step_count : nat → nat.







End StepperButtonsFacts.



(** ** Date picker: the dates the parsers accept *)

Ltac cases_ltb :=
  repeat match goal with
         | |- context [?a <? ?b] => destruct (Z.ltb_spec a b); try lia
         end.

Section CalendarRange.
Import DatePicker.

Lemma DayWithinYear_range (t : Z) :
  0 ≤ DayWithinYear t < DaysInYear (YearFromTime t).
Proof.
  unfold DayWithinYear, YearFromTime.
  pose proof (YearFromDay_spec (Day t)) as Hs.
  rewrite DayFromYear_succ in Hs. lia.
Qed.

(** The getters return a date of the calendar, for every time value. *)
Lemma civil_calendar (t : Z) :
  1 ≤ MonthFromTime t + 1 ≤ 12
  ∧ 1 ≤ DateFromTime t ≤ days_in_month (YearFromTime t) (MonthFromTime t + 1).
Proof.
  pose proof (DayWithinYear_range t) as Hd.
  unfold DateFromTime, MonthFromTime, days_in_month, InLeapYear, DaysInYear in *.
  set (L := if is_leap (YearFromTime t) then 1 else 0) in *.
  assert (HL : L = 0 ∨ L = 1) by (unfold L; destruct (is_leap _); lia).
  assert (Hd' : 0 ≤ DayWithinYear t < 365 + L)
    by (unfold L in *; destruct (is_leap _); lia).
  clear Hd. set (d := DayWithinYear t) in *. clearbody d L.
  unfold month_of_day.
  destruct HL as [-> | ->]; cases_ltb; cbn;
    match goal with
    | |- context [month_length ?a ?b] =>
        let v := eval vm_compute in (month_length a b) in
        change (month_length a b) with v
    end; lia.
Qed.

(** [MakeDay] inverts the getters. *)
Lemma MakeDay_civil (t : Z) :
  MakeDay (YearFromTime t) (MonthFromTime t) (DateFromTime t) = Day t.
Proof.
  pose proof (civil_calendar t) as [Hm _].
  unfold MakeDay.
  replace (MonthFromTime t / 12) with 0 by (Z.div_mod_to_equations; lia).
  replace (MonthFromTime t mod 12) with (MonthFromTime t)
    by (Z.div_mod_to_equations; lia).
  replace (YearFromTime t + 0) with (YearFromTime t) by lia.
  unfold DateFromTime, InLeapYear, DayWithinYear. lia.
Qed.

Lemma YearFromDay_mono (d y : Z) : DayFromYear y ≤ d → y ≤ YearFromDay d.
Proof.
  intros H. pose proof (YearFromDay_spec d) as Hs.
  destruct (Z.le_gt_cases y (YearFromDay d)) as [|Hlt]; [assumption|].
  pose proof (DayFromYear_mono (YearFromDay d + 1) y). lia.
Qed.

Lemma Day_MakeDate_time (day time : Z) :
  Day (MakeDate day time) = day + time / msPerDay.
Proof. unfold Day, MakeDate, msPerDay. Z.div_mod_to_equations; lia. Qed.

(** An instant built from a year below 10000, a month and a day that reads
    back as that year, month and day is a date of the calendar, and its time
    of day is below a day. *)
Lemma reads_back_calendar (Y M D time : Z) :
  0 ≤ Y → 0 ≤ time →
  civil (MakeDate (MakeDay (full_year Y) (M - 1) D) time) = (Y, M, D) →
  calendar_date Y M D ∧ time < msPerDay.
Proof.
  intros HY Htime. set (t := MakeDate _ _). intros Hciv.
  unfold civil in Hciv. injection Hciv as Hy Hm Hd.
  pose proof (civil_calendar t) as [HM HD]. rewrite Hy, Hm, Hd in HD. rewrite Hm in HM.
  pose proof (MakeDay_civil t) as Hday. rewrite Hy, Hd in Hday.
  replace (MonthFromTime t) with (M - 1) in Hday by lia.
  assert (Htd : 0 ≤ time / msPerDay) by (unfold msPerDay; Z.div_mod_to_equations; lia).
  assert (Hlate : 100 ≤ Y).
  { destruct (Z.le_gt_cases 100 Y) as [|Hearly]; [assumption|exfalso].
    assert (Hfull : full_year Y = 1900 + Y).
    { unfold full_year. destruct (Z.leb_spec 0 Y), (Z.leb_spec Y 99); cbn; lia. }
    assert (Hge : DayFromYear 1900 ≤ Day t).
    { unfold t. rewrite Day_MakeDate_time, Hfull. unfold MakeDay.
      replace ((M - 1) / 12) with 0 by (Z.div_mod_to_equations; lia).
      replace ((M - 1) mod 12) with (M - 1) by (Z.div_mod_to_equations; lia).
      pose proof (month_start_bounds (if is_leap (1900 + Y + 0) then 1 else 0) (M - 1)
                    ltac:(case_match; lia)).
      pose proof (DayFromYear_mono 1900 (1900 + Y + 0) ltac:(lia)). lia. }
    apply YearFromDay_mono in Hge. unfold YearFromTime in Hy. lia. }
  split; [split; [exact Hlate | split; assumption]|].
  unfold t in Hday. rewrite Day_MakeDate_time, full_year_late in Hday by exact Hlate.
  assert (Hz : time / msPerDay = 0) by lia.
  unfold msPerDay in *. Z.div_mod_to_equations; lia.
Qed.

(** A date of the calendar at a time of day below a day reads back. *)
Lemma calendar_reads_back (Y M D time : Z) :
  calendar_date Y M D → 0 ≤ time < msPerDay →
  civil (MakeDate (MakeDay (full_year Y) (M - 1) D) time) = (Y, M, D).
Proof.
  intros (HY & HM & HD) Htime. rewrite full_year_late by exact HY.
  rewrite <- (civil_MakeDay Y M D HM HD). apply civil_same_day.
  rewrite !Day_MakeDate; [reflexivity | unfold msPerDay; lia | exact Htime].
Qed.

Lemma time_of_day_nonneg (s : string) (g : DateTimeGroups) (rest : string) :
  exec_datetime s = Some (g, rest) → 0 ≤ time_of_day g.
Proof.
  intros Hex.
  destruct (exec_datetime_inv _ _ _ Hex) as (_ & _ & _ & Gh & Gmi & Gsec & _).
  apply group_or_zero_optional in Gh as [_ Bh], Gmi as [_ Bmi], Gsec as [_ Bsec].
  unfold time_of_day, MakeTime, msPerHour, msPerMinute, msPerSecond. lia.
Qed.

End CalendarRange.

(** X7.  [parseISODate] accepts exactly the dates of the calendar from year
    100 on.  It returns a date for a string if and only if the string has
    the shape of four, two and two digits between hyphens and nothing else,
    the month is from 1 to 12 and the day from 1 to the length of that month
    in that year (leap years counted), and the year is at least 100; the date
    returned is midnight UTC of that day.  A year from 0000 to 0099 is never
    accepted: [Date.UTC] reads it as a year of the twentieth century. *)
Theorem parseISODate_accepts_exactly_the_calendar (s : string) (r : DatePicker.Date) :
  DatePicker.parseISODate s = Some r ↔
  ∃ y m d, DatePicker.exec_date s = Some (y, m, d)
           ∧ calendar_date (number y) (number m) (number d)
           ∧ r = Some (instant (number y) (number m) (number d) 0).
Proof.
  split.
  - intros Hp.
    destruct (DatePicker.exec_date s) as [[[y m] d]|] eqn:Hex.
    + exists y, m, d. split; [reflexivity|].
      destruct (parseISODate_shape s y m d Hex) as (t & Ht & Hs).
      rewrite Hs in Hp. destruct (decide _) as [Hciv|]; [|discriminate].
      injection Hp as <-. apply Date_UTC_Some in Ht. rewrite MakeTime_zero in Ht.
      subst t.
      destruct (match_date_inv _ _ _ _ _ (exec_date_inv _ _ _ _ Hex))
        as ((_ & By & _) & _).
      destruct (reads_back_calendar _ _ _ 0 (proj1 By) (Z.le_refl 0) Hciv) as [Hcal _].
      split; [exact Hcal|]. unfold instant.
      rewrite full_year_late by exact (proj1 Hcal). reflexivity.
    + unfold DatePicker.parseISODate in Hp. rewrite Hex in Hp.
      destruct (String.eqb s ""); discriminate.
  - intros (y & m & d & Hex & (HY & HM & HD) & ->).
    apply parseISODate_accepts_calendar_dates; assumption.
Qed.

(** A date of the calendar with a time of day below a day is accepted. *)
Lemma parseISODateTime_calendar (s : string) (g : DatePicker.DateTimeGroups)
    (rest : string) :
  DatePicker.exec_datetime s = Some (g, rest) →
  calendar_date (number (DatePicker.g_year g)) (number (DatePicker.g_month g))
    (number (DatePicker.g_day g)) →
  time_of_day g < DatePicker.msPerDay →
  DatePicker.parseISODateTime s
  = Some (Some (instant (number (DatePicker.g_year g)) (number (DatePicker.g_month g))
                  (number (DatePicker.g_day g)) (time_of_day g))).
Proof.
  intros Hex Hcal Hlt.
  destruct (parseISODateTime_shape s g rest Hex) as (t & Ht & Hs).
  rewrite Hs. apply Date_UTC_Some in Ht. fold (time_of_day g) in Ht. subst t.
  pose proof (time_of_day_nonneg _ _ _ Hex) as Hpos.
  rewrite decide_True by (apply calendar_reads_back; [exact Hcal | lia]).
  unfold instant. rewrite full_year_late by exact (proj1 Hcal). reflexivity.
Qed.

(** X8.  [parseISODateTime] accepts exactly the dates of the calendar from
    year 100 on with a time of day below 24 hours in total.  It returns a
    date for a string if and only if the string starts with a match of its
    pattern whose date groups are a date of the calendar and whose hours,
    minutes and seconds, none of them checked against its own range, add up
    to less than a day; the date returned is that day at that time, UTC. *)
Theorem parseISODateTime_accepts_exactly (s : string) (r : DatePicker.Date) :
  DatePicker.parseISODateTime s = Some r ↔
  ∃ g rest, DatePicker.exec_datetime s = Some (g, rest)
            ∧ calendar_date (number (DatePicker.g_year g))
                (number (DatePicker.g_month g)) (number (DatePicker.g_day g))
            ∧ time_of_day g < DatePicker.msPerDay
            ∧ r = Some (instant (number (DatePicker.g_year g))
                          (number (DatePicker.g_month g))
                          (number (DatePicker.g_day g)) (time_of_day g)).
Proof.
  split.
  - intros Hp.
    destruct (DatePicker.exec_datetime s) as [[g rest]|] eqn:Hex.
    + exists g, rest. split; [reflexivity|].
      destruct (parseISODateTime_shape s g rest Hex) as (t & Ht & Hs).
      rewrite Hs in Hp. destruct (decide _) as [Hciv|]; [|discriminate].
      injection Hp as <-. apply Date_UTC_Some in Ht.
      fold (time_of_day g) in Ht. subst t.
      destruct (exec_datetime_inv _ _ _ Hex) as ((_ & By & _) & _).
      pose proof (time_of_day_nonneg _ _ _ Hex) as Hpos.
      destruct (reads_back_calendar _ _ _ _ (proj1 By) Hpos Hciv) as [Hcal Hlt].
      split; [exact Hcal|]. split; [exact Hlt|]. unfold instant.
      rewrite full_year_late by exact (proj1 Hcal). reflexivity.
    + unfold DatePicker.parseISODateTime in Hp. rewrite Hex in Hp.
      destruct (String.eqb s ""); discriminate.
  - intros (g & rest & Hex & Hcal & Hlt & ->).
    exact (parseISODateTime_calendar s g rest Hex Hcal Hlt).
Qed.

(** X9.  On a string of the date shape the two parsers agree: whatever
    [parseISODate] returns for it, a date or the absent result,
    [parseISODateTime] returns the same. *)
Theorem parsers_agree_on_dates (s y m d : string) :
  DatePicker.exec_date s = Some (y, m, d) →
  DatePicker.parseISODateTime s = DatePicker.parseISODate s.
Proof.
  intros Hex. pose proof (exec_date_inv _ _ _ _ Hex) as Hm.
  assert (Hdt : DatePicker.exec_datetime s
                = Some ({| DatePicker.g_year := y; DatePicker.g_month := m;
                           DatePicker.g_day := d; DatePicker.g_hour := None;
                           DatePicker.g_minute := None;
                           DatePicker.g_second := None |}, "")).
  { unfold DatePicker.exec_datetime. rewrite Hm. reflexivity. }
  destruct (parseISODate_shape s y m d Hex) as (t & Ht & ->).
  destruct (parseISODateTime_shape s _ _ Hdt) as (t' & Ht' & ->).
  cbn [DatePicker.g_year DatePicker.g_month DatePicker.g_day DatePicker.g_hour
         DatePicker.g_minute DatePicker.g_second group_number] in *.
  rewrite Ht in Ht'. injection Ht' as <-. reflexivity.
Qed.

Lemma parsers_agree_on_dates_witness :
  DatePicker.exec_date "2024-02-29" = Some ("2024", "02", "29")
  ∧ DatePicker.parseISODateTime "2024-02-29" = DatePicker.parseISODate "2024-02-29"
  ∧ DatePicker.parseISODate "2024-02-29" = Some (Some 1709164800000).
Proof.
  split; [reflexivity|]. split; [|reflexivity].
  exact (parsers_agree_on_dates "2024-02-29" "2024" "02" "29" eq_refl).
Defined.

(** ** Date picker: groups of digits and the strings of numbers *)
Section DigitStrings.
Import DatePicker.

Lemma elem_of_integers (a x : Z) (n : nat) :
  a ≤ x < a + Z.of_nat n → In x (integers a n).
Proof.
  intros H. unfold integers. apply in_map_iff. exists (Z.to_nat (x - a)).
  split; [lia|]. apply in_seq. lia.
Qed.

(** The characters of a group are digits. *)
Lemma digits_chars (n : nat) :
  ∀ s d r, digits n s = Some (d, r) →
           String.length d = n
           ∧ Forall (fun c => In c digit_chars) (list_ascii_of_string d).
Proof.
  induction n as [|n IH]; intros s d r Hd.
  - cbn in Hd. injection Hd as <- <-. split; [reflexivity | constructor].
  - cbn [digits] in Hd. destruct s as [|c s]; [discriminate|].
    destruct (is_digit c) eqn:Hc; [|discriminate].
    destruct (digits n s) as [[d' r0]|] eqn:Hd'; [|discriminate].
    cbn in Hd. injection Hd as <- <-.
    destruct (IH s d' r0 Hd') as [Hlen Hall].
    split; [cbn; rewrite Hlen; reflexivity|].
    cbn. constructor; [|exact Hall].
    destruct (is_digit_inv c Hc) as (_ & _ & _ & _ & Hin).
    apply (proj1 (list_elem_of_In _ _)) in Hin. exact Hin.
Qed.

Lemma group_chars (n : nat) (p : string) :
  is_group n p →
  String.length p = n ∧ Forall (fun c => In c digit_chars) (list_ascii_of_string p).
Proof.
  intros (_ & _ & _ & Hd). specialize (Hd ""). rewrite string_app_nil_r in Hd.
  exact (digits_chars n _ _ _ Hd).
Qed.

(** A group of two digits is the padded string of its number. *)
Lemma two_number (p : string) : is_group 2 p → two (number p) = p.
Proof.
  intros G. destruct (group_chars 2 p G) as [Hlen Hall].
  destruct p as [|c1 [|c2 [|c3 p]]]; try discriminate Hlen.
  cbn in Hall. apply Forall_cons in Hall as [H1 Hall].
  apply Forall_cons in Hall as [H2 _].
  assert (Hcheck :
    forallb (fun c1 => forallb (fun c2 =>
      String.eqb (two (number (String c1 (String c2 "")))) (String c1 (String c2 "")))
      digit_chars) digit_chars = true) by (vm_compute; reflexivity).
  rewrite forallb_forall in Hcheck. specialize (Hcheck c1 H1).
  rewrite forallb_forall in Hcheck. specialize (Hcheck c2 H2).
  apply String.eqb_eq in Hcheck. exact Hcheck.
Qed.

(** A group of four digits that does not start with 0 is the string of
    its number. *)
Lemma year_number (p : string) :
  is_group 4 p → 1000 ≤ number p → JS.string_of_Z (number p) = p.
Proof.
  intros G Hy. destruct (group_chars 4 p G) as [Hlen Hall].
  destruct p as [|c1 [|c2 [|c3 [|c4 [|c5 p]]]]]; try discriminate Hlen.
  cbn in Hall. apply Forall_cons in Hall as [H1 Hall].
  apply Forall_cons in Hall as [H2 Hall]. apply Forall_cons in Hall as [H3 Hall].
  apply Forall_cons in Hall as [H4 _].
  assert (Hcheck :
    forallb (fun c1 => forallb (fun c2 => forallb (fun c3 => forallb (fun c4 =>
      let p := String c1 (String c2 (String c3 (String c4 ""))) in
      negb (1000 <=? number p) || String.eqb (JS.string_of_Z (number p)) p)
      digit_chars) digit_chars) digit_chars) digit_chars = true)
    by (vm_compute; reflexivity).
  rewrite forallb_forall in Hcheck. specialize (Hcheck c1 H1).
  rewrite forallb_forall in Hcheck. specialize (Hcheck c2 H2).
  rewrite forallb_forall in Hcheck. specialize (Hcheck c3 H3).
  rewrite forallb_forall in Hcheck. specialize (Hcheck c4 H4).
  cbv zeta in Hcheck. destruct (Z.leb_spec 1000 (number (String c1 (String c2 (String c3 (String c4 ""))))));
    [|lia].
  cbn [negb orb] in Hcheck. apply String.eqb_eq in Hcheck. exact Hcheck.
Qed.

(** The string of a number from 100 to 999 has three characters. *)
Lemma short_year (Y : Z) :
  100 ≤ Y ≤ 999 → ∃ a b c, JS.string_of_Z Y = String a (String b (String c "")).
Proof.
  intros HY.
  assert (Hcheck :
    forallb (fun Y => match JS.string_of_Z Y with
                      | String _ (String _ (String _ "")) => true
                      | _ => false
                      end) (integers 100 900) = true) by (vm_compute; reflexivity).
  rewrite forallb_forall in Hcheck.
  specialize (Hcheck Y (elem_of_integers 100 Y 900 ltac:(lia))).
  destruct (JS.string_of_Z Y) as [|a [|b [|c [|? ?]]]]; try discriminate Hcheck.
  eauto.
Qed.

(** What a date accepted by [parseISODate] reads as. *)
Lemma parseISODate_civil (s : string) (t : Z) :
  parseISODate s = Some (Some t) →
  ∃ y m d, is_group 4 y ∧ is_group 2 m ∧ is_group 2 d
           ∧ s = y ++ "-" ++ m ++ "-" ++ d
           ∧ civil t = (number y, number m, number d).
Proof.
  intros Hp.
  destruct (exec_date s) as [[[y m] d]|] eqn:Hex.
  - destruct (parseISODate_shape s y m d Hex) as (t' & Ht & Hs).
    rewrite Hs in Hp. destruct (decide _) as [Hciv|]; [|discriminate].
    injection Hp as ->.
    destruct (match_date_inv _ _ _ _ _ (exec_date_inv _ _ _ _ Hex))
      as (Gy & Gm & Gd & Hstr).
    rewrite string_app_nil_r in Hstr. exists y, m, d. done.
  - unfold parseISODate in Hp. rewrite Hex in Hp.
    destruct (String.eqb s ""); discriminate.
Qed.

End DigitStrings.

(** X10.  Parsing and the hand-composed fallback are inverse from year
    1000 on.  When [parseISODate] accepts a string of a year from 1000 on and
    the locale facility fails on every call, [formatDateWithIntl] on the
    parsed date tries the facility twice (the configuration asked for, then
    medium style), logs both failures, and returns the very string that was
    parsed. *)
Theorem manual_fallback_reproduces_the_input
    (Intl : string → DatePicker.IntlOptions → Z → JS.Res string)
    (s format localeTag : string) (t : Z) :
  DatePicker.parseISODate s = Some (Some t) →
  1000 ≤ DatePicker.YearFromTime t →
  fails_for Intl localeTag t →
  DatePicker.manual_ymd t = s
  ∧ snd (DatePicker.formatDateWithIntl Intl (DatePicker.parseISODate s) format localeTag)
    = inl s
  ∧ fst (DatePicker.formatDateWithIntl Intl (DatePicker.parseISODate s) format localeTag)
    = [DatePicker.intl_format localeTag (DatePicker.date_options format);
       DatePicker.console_error
         ("Error formatting date with Intl (locale: " ++ localeTag
          ++ ", format: " ++ format ++ ", timezone: UTC):");
       DatePicker.intl_format localeTag DatePicker.fallbackOptions;
       DatePicker.console_error
         ("Error formatting date with fallback Intl (locale: " ++ localeTag
          ++ ", timezone: UTC):")].
Proof.
  intros Hp Hy Hfail.
  destruct (parseISODate_civil s t Hp) as (y & m & d & Gy & Gm & Gd & Hs & Hciv).
  unfold civil in Hciv. injection Hciv as HY HM HD.
  assert (Hman : DatePicker.manual_ymd t = s).
  { unfold DatePicker.manual_ymd. rewrite HY, HM, HD.
    fold (DatePicker.two (number m)). fold (DatePicker.two (number d)).
    rewrite (two_number m Gm), (two_number d Gd).
    rewrite (year_number y Gy) by lia. symmetry. exact Hs. }
  split; [exact Hman|]. rewrite Hp.
  destruct (Hfail (DatePicker.date_options format)) as [e1 H1].
  destruct (Hfail DatePicker.fallbackOptions) as [e2 H2].
  unfold DatePicker.formatDateWithIntl, DatePicker.catch, DatePicker.intl.
  rewrite H1. cbn. rewrite H2. cbn. rewrite Hman. split; reflexivity.
Qed.

Lemma manual_fallback_reproduces_the_input_witness :
  DatePicker.parseISODate "2024-02-29" = Some (Some 1709164800000)
  ∧ 1000 ≤ DatePicker.YearFromTime 1709164800000
  ∧ snd (DatePicker.formatDateWithIntl unusable_Intl
           (DatePicker.parseISODate "2024-02-29") "locale-full" "xx")
    = inl "2024-02-29".
Proof.
  split; [reflexivity|]. split; [vm_compute; discriminate|].
  exact (proj1 (proj2 (manual_fallback_reproduces_the_input unusable_Intl
                         "2024-02-29" "locale-full" "xx" 1709164800000 eq_refl
                         ltac:(vm_compute; discriminate)
                         (fun _ => ex_intro _ JS.RangeError eq_refl)))).
Defined.

(** X11.  Before year 1000 the hand-composed fallback is not read back.
    The fallback writes the year without padding, so for a date of a year
    from 100 to 999 (as [parseISODate] returns for 0999-12-31) it gives a
    string with a year of three digits, and both parsers return the absent
    result for that string. *)
Theorem manual_fallback_of_an_early_year_is_rejected (t : Z) :
  100 ≤ DatePicker.YearFromTime t ≤ 999 →
  DatePicker.parseISODate (DatePicker.manual_ymd t) = None
  ∧ DatePicker.parseISODateTime (DatePicker.manual_ymd t) = None.
Proof.
  intros HY. destruct (short_year _ HY) as (a & b & c & Hstr).
  unfold DatePicker.manual_ymd. rewrite Hstr.
  rewrite !string_app_cons, !string_app_nil_l.
  match goal with
  | |- context [String c (String "-" ?r)] => set (rest := r)
  end.
  assert (Hm : DatePicker.match_date (String a (String b (String c (String "-" rest))))
               = None).
  { unfold DatePicker.match_date. cbn.
    destruct (DatePicker.is_digit a); [|reflexivity].
    destruct (DatePicker.is_digit b); [|reflexivity].
    destruct (DatePicker.is_digit c); reflexivity. }
  unfold DatePicker.parseISODate, DatePicker.parseISODateTime,
    DatePicker.exec_date, DatePicker.exec_datetime.
  rewrite Hm. split; reflexivity.
Qed.

Lemma manual_fallback_of_an_early_year_is_rejected_witness :
  DatePicker.parseISODate "0999-12-31" = Some (Some (-30610310400000))
  ∧ DatePicker.manual_ymd (-30610310400000) = "999-12-31"
  ∧ DatePicker.parseISODate (DatePicker.manual_ymd (-30610310400000)) = None.
Proof.
  split; [vm_compute; reflexivity|]. split; [vm_compute; reflexivity|].
  exact (proj1 (manual_fallback_of_an_early_year_is_rejected (-30610310400000)
                  ltac:(vm_compute; split; discriminate))).
Defined.

(** ** Date picker: the ISO form of an instant *)
Section IsoForm.
Import DatePicker.

(** The padded string of a number below 100 is a group of two digits
    with that number. *)
Lemma two_group (x : Z) : 0 ≤ x ≤ 99 → is_group 2 (two x) ∧ number (two x) = x.
Proof.
  intros Hx.
  assert (Hcheck :
    forallb (fun x => match digits 2 (two x) with
                      | Some (d, "") => String.eqb d (two x) && (number (two x) =? x)
                      | _ => false
                      end) (integers 0 100) = true) by (vm_compute; reflexivity).
  rewrite forallb_forall in Hcheck.
  specialize (Hcheck x (elem_of_integers 0 x 100 ltac:(lia))).
  destruct (digits 2 (two x)) as [[d [|? ?]]|] eqn:Hd; try discriminate Hcheck.
  apply andb_true_iff in Hcheck as [Hs Hn].
  apply String.eqb_eq in Hs. subst d. apply Z.eqb_eq in Hn.
  split; [exact (proj1 (digits_is_group 1 _ _ _ Hd)) | exact Hn].
Qed.

(** The ISO year of a year from 0 to 9999 is a group of four digits with
    that number. *)
Lemma iso_year_group (Y : Z) :
  0 ≤ Y ≤ 9999 → is_group 4 (iso_year Y) ∧ number (iso_year Y) = Y.
Proof.
  intros HY.
  assert (Hcheck :
    forallb (fun Y => match digits 4 (iso_year Y) with
                      | Some (d, "") => String.eqb d (iso_year Y)
                                        && (number (iso_year Y) =? Y)
                      | _ => false
                      end) (integers 0 (Z.to_nat 10000)) = true) by (vm_compute; reflexivity).
  rewrite forallb_forall in Hcheck.
  specialize (Hcheck Y (elem_of_integers 0 Y (Z.to_nat 10000) ltac:(lia))).
  destruct (digits 4 (iso_year Y)) as [[d [|? ?]]|] eqn:Hd; try discriminate Hcheck.
  apply andb_true_iff in Hcheck as [Hs Hn].
  apply String.eqb_eq in Hs. subst d. apply Z.eqb_eq in Hn.
  split; [exact (proj1 (digits_is_group 3 _ _ _ Hd)) | exact Hn].
Qed.

Lemma clock_ranges (t : Z) :
  0 ≤ HourFromTime t ≤ 23 ∧ 0 ≤ MinFromTime t ≤ 59 ∧ 0 ≤ SecFromTime t ≤ 59
  ∧ MakeTime (HourFromTime t) (MinFromTime t) (SecFromTime t) 0
    = TimeWithinDay t - msFromTime t.
Proof.
  unfold HourFromTime, MinFromTime, SecFromTime, MakeTime, TimeWithinDay, msFromTime,
    msPerDay, msPerHour, msPerMinute, msPerSecond.
  Z.div_mod_to_equations. lia.
Qed.

Lemma exec_datetime_iso (t : Z) (s : string) :
  0 ≤ YearFromTime t ≤ 9999 → toISOString (Some t) = inl s →
  ∃ rest, exec_datetime s = Some (iso_groups t, rest).
Proof.
  intros HY Hs. cbn in Hs. injection Hs as <-.
  pose proof (civil_calendar t) as [HM HD].
  assert (HD' : 0 ≤ DateFromTime t ≤ 99).
  { unfold days_in_month, month_length in HD. repeat case_match; lia. }
  destruct (clock_ranges t) as (Hh & Hmi & Hsec & _).
  destruct (iso_year_group _ HY) as [Gy _].
  destruct (two_group (MonthFromTime t + 1) ltac:(lia)) as [Gm _].
  destruct (two_group (DateFromTime t) HD') as [Gd _].
  destruct (two_group (HourFromTime t) ltac:(lia)) as [Gh _].
  destruct (two_group (MinFromTime t) ltac:(lia)) as [Gmi _].
  destruct (two_group (SecFromTime t) ltac:(lia)) as [Gsec _].
  eexists. unfold exec_datetime.
  rewrite (match_date_groups _ _ _ _ Gy Gm Gd). cbn [mbind option_bind].
  change ("T" ++ two (HourFromTime t) ++ ":" ++ two (MinFromTime t) ++ ":"
          ++ two (SecFromTime t) ++ "." ++ JS.padStart 3 (JS.string_of_Z (msFromTime t))
          ++ "Z")
    with (String "T" (two (HourFromTime t) ++ ":" ++ two (MinFromTime t) ++ ":"
                      ++ two (SecFromTime t) ++ "."
                      ++ JS.padStart 3 (JS.string_of_Z (msFromTime t)) ++ "Z")).
  rewrite (match_time_unfold "T" _ _ _ ltac:(left) Gh Gmi).
  rewrite (seconds_follow_group _ _ Gsec). reflexivity.
Qed.

Lemma parseISODateTime_iso (t : Z) (s : string) :
  100 ≤ YearFromTime t ≤ 9999 → toISOString (Some t) = inl s →
  parseISODateTime s = Some (Some (t - msFromTime t)).
Proof.
  intros HY Hs.
  destruct (exec_datetime_iso t s ltac:(lia) Hs) as [rest Hex].
  pose proof (civil_calendar t) as [HM HD].
  assert (HD' : 0 ≤ DateFromTime t ≤ 99).
  { unfold days_in_month, month_length in HD. repeat case_match; lia. }
  destruct (clock_ranges t) as (Hh & Hmi & Hsec & Hclock).
  destruct (iso_year_group (YearFromTime t) ltac:(lia)) as [_ Ny].
  destruct (two_group (MonthFromTime t + 1) ltac:(lia)) as [_ Nm].
  destruct (two_group (DateFromTime t) HD') as [_ Nd].
  destruct (two_group (HourFromTime t) ltac:(lia)) as [_ Nh].
  destruct (two_group (MinFromTime t) ltac:(lia)) as [_ Nmi].
  destruct (two_group (SecFromTime t) ltac:(lia)) as [_ Nsec].
  assert (Htime : time_of_day (iso_groups t) = TimeWithinDay t - msFromTime t).
  { unfold time_of_day, iso_groups. cbn [g_hour g_minute g_second group_number].
    rewrite Nh, Nmi, Nsec. exact Hclock. }
  assert (Hms : 0 ≤ msFromTime t < 1000 ∧ 0 ≤ TimeWithinDay t < msPerDay)
    by (unfold msFromTime, TimeWithinDay, msPerSecond, msPerDay;
        Z.div_mod_to_equations; lia).
  rewrite (parseISODateTime_calendar s _ rest Hex).
  - do 2 f_equal. unfold instant. cbn [iso_groups g_year g_month g_day].
    rewrite Ny, Nm, Nd, Htime.
    replace (MonthFromTime t + 1 - 1) with (MonthFromTime t) by lia.
    rewrite MakeDay_civil. unfold MakeDate, Day, TimeWithinDay, msFromTime, msPerDay in *.
    Z.div_mod_to_equations. lia.
  - cbn [iso_groups g_year g_month g_day]. rewrite Ny, Nm, Nd.
    split; [lia|]. split; [exact HM | exact HD].
  - rewrite Htime. lia.
Qed.

End IsoForm.

(** X12.  The ISO form of an instant reads back.  For every valid date of
    a year from 100 to 9999, [toISOString] returns a string that
    [parseISODateTime] accepts, and the date parsed is the same instant
    without its milliseconds (the pattern stops before the fraction).  So
    what [formatDateTimeWithIntl] returns when the locale facility fails is
    read back by [parseISODateTime] as the date that was formatted, to the
    second. *)
Theorem iso_fallback_reads_back
    (Intl : string → DatePicker.IntlOptions → Z → JS.Res string) (t : Z)
    (format localeTag : string) (withTime withSeconds with24Hours : bool) :
  100 ≤ DatePicker.YearFromTime t ≤ 9999 →
  fails_for Intl localeTag t →
  ∃ s, DatePicker.toISOString (Some t) = inl s
       ∧ snd (DatePicker.formatDateTimeWithIntl Intl (Some (Some t)) format localeTag
                withTime withSeconds with24Hours) = inl s
       ∧ DatePicker.parseISODateTime s = Some (Some (t - DatePicker.msFromTime t)).
Proof.
  intros HY Hfail. destruct (toISOString_valid t) as [s Hs]. exists s.
  split; [exact Hs|]. split; [|exact (parseISODateTime_iso t s HY Hs)].
  rewrite formatDateTimeWithIntl_result. cbn [snd].
  destruct (Hfail (DatePicker.datetime_options format withTime withSeconds with24Hours))
    as [e ->].
  exact Hs.
Qed.

Lemma iso_fallback_reads_back_witness :
  100 ≤ DatePicker.YearFromTime 1709213696789 ≤ 9999
  ∧ DatePicker.toISOString (Some 1709213696789) = inl "2024-02-29T13:34:56.789Z"
  ∧ ∃ s, snd (DatePicker.formatDateTimeWithIntl unusable_Intl (Some (Some 1709213696789))
                "locale-long" "en-US" true true false) = inl s
         ∧ DatePicker.parseISODateTime s = Some (Some 1709213696000).
Proof.
  assert (HY : 100 ≤ DatePicker.YearFromTime 1709213696789 ≤ 9999)
    by (vm_compute; split; discriminate).
  split; [exact HY|]. split; [vm_compute; reflexivity|].
  destruct (iso_fallback_reads_back unusable_Intl 1709213696789 "locale-long" "en-US"
              true true false HY (fun _ => ex_intro _ JS.RangeError eq_refl))
    as (s & _ & Hf & Hp).
  exists s. split; [exact Hf | exact Hp].
Defined.

(** ** Date picker: selecting a date *)
Section PickerFacts.
Import DatePicker DatePickerInit.

Lemma selected_hour_12 (f : TimeFields) (h : Z) (v : string) :
  read_field (hourInput f) (JS.Num 12) = JS.Num h → ampmSel f = Some v →
  1 ≤ h ≤ 12 → v = "AM" ∨ v = "PM" →
  selected_hour false f = JS.Num (hour_of_12 h (String.eqb v "PM")).
Proof.
  intros Hh Hv Hr Hap. unfold selected_hour. rewrite Hh, Hv. cbn [negb].
  unfold hour_of_12, JS.lt, JS.strict_eq.
  destruct Hap as [-> | ->]; cbn [String.eqb Ascii.eqb Bool.eqb andb JS.add].
  - destruct (Z.eqb_spec h 12) as [->|Hne]; [reflexivity|].
    f_equal. rewrite Z.mod_small by lia. lia.
  - destruct (Z.ltb_spec h 12) as [Hlt|Hge]; cbn [JS.add].
    + f_equal. rewrite Z.mod_small by lia. reflexivity.
    + assert (h = 12) as -> by lia. reflexivity.
Qed.

Lemma setUTCHours_in_day (t h m s : Z) :
  day_in_range t → 0 ≤ h ≤ 23 → 0 ≤ m ≤ 59 → 0 ≤ s ≤ 59 →
  ∃ t', setUTCHours (JS.Num h) (JS.Num m) (JS.Num s) (Some t) = Some t'
        ∧ t' = MakeDate (Day t) (MakeTime h m s (msFromTime t))
        ∧ Day t' = Day t
        ∧ HourFromTime t' = h ∧ MinFromTime t' = m ∧ SecFromTime t' = s
        ∧ msFromTime t' = msFromTime t.
Proof.
  intros Ht Hh Hm Hs. unfold day_in_range in Ht.
  eexists. cbn [setUTCHours]. unfold TimeClip.
  set (t' := MakeDate _ _).
  assert (Hms : 0 ≤ msFromTime t < 1000)
    by (unfold msFromTime, msPerSecond; Z.div_mod_to_equations; lia).
  assert (Htime : 0 ≤ MakeTime h m s (msFromTime t) < msPerDay)
    by (unfold MakeTime, msPerDay, msPerHour, msPerMinute, msPerSecond in *; lia).
  assert (Hb : Z.abs t' ≤ 8640000000000000).
  { unfold t', MakeDate, Day, msPerDay in *. Z.div_mod_to_equations. lia. }
  destruct (Z.ltb_spec 8640000000000000 (Z.abs t')); [lia|].
  split; [reflexivity|]. split; [reflexivity|].
  split; [apply Day_MakeDate; exact Htime|].
  unfold t', HourFromTime, MinFromTime, SecFromTime, msFromTime, MakeDate, MakeTime,
    msPerDay, msPerHour, msPerMinute, msPerSecond in *.
  repeat split; Z.div_mod_to_equations; lia.
Qed.

Lemma format_valid (Intl : string → IntlOptions → Z → JS.Res string) (p : Picker)
    (t : Z) :
  format Intl p (Some t)
  = ([intl_format (localeTag p)
        (datetime_options (displayFormat p) (withTime p) (withSeconds p)
           (with24Hours p))],
     inl (shown_for Intl p t)).
Proof.
  unfold format, shown_for. rewrite formatDateTimeWithIntl_result.
  destruct (Intl _ _ t); reflexivity.
Qed.

Lemma format_invalid (Intl : string → IntlOptions → Z → JS.Res string) (p : Picker) :
  format Intl p None = ([], inl "").
Proof. reflexivity. Qed.

End PickerFacts.

(** X13.  The time of a selection.  When a picker with a time of day
    handles the selection of a valid date, and the minute and second fields
    hold numbers from 0 to 59, the Date object of the event is set, in
    place, to the same day at the time of the fields, its milliseconds kept:
    on the 24-hour clock at the hour of the hour field (0 to 23); on the
    12-hour clock, for an hour from 1 to 12 and AM or PM, at hour modulo 12,
    plus 12 for PM, so that 12 AM is hour 0 and 12 PM is hour 12. *)
Theorem selection_sets_the_time_of_day
    (Intl : string → DatePicker.IntlOptions → Z → JS.Res string)
    (p : DatePickerInit.Picker) (t h m s : Z) (f : DatePickerInit.TimeFields)
    (trigger : bool) (st : DatePickerInit.State) :
  DatePickerInit.withTime p = true → day_in_range t →
  DatePickerInit.read_field (DatePickerInit.hourInput f)
    (if DatePickerInit.with24Hours p then JS.Num 0 else JS.Num 12) = JS.Num h →
  DatePickerInit.read_field (DatePickerInit.minInput f) (JS.Num 0) = JS.Num m →
  DatePickerInit.read_field (DatePickerInit.secInput f) (JS.Num 0) = JS.Num s →
  0 ≤ m ≤ 59 → 0 ≤ s ≤ 59 →
  (DatePickerInit.with24Hours p = true ∧ 0 ≤ h ≤ 23
   ∨ DatePickerInit.with24Hours p = false ∧ 1 ≤ h ≤ 12
     ∧ (DatePickerInit.ampmSel f = Some "AM" ∨ DatePickerInit.ampmSel f = Some "PM")) →
  let H := if DatePickerInit.with24Hours p then h
           else hour_of_12 h (bool_decide (DatePickerInit.ampmSel f = Some "PM")) in
  ∃ t', snd (fst (DatePickerInit.onCalendarSelect Intl p (Some (Some t)) f trigger st))
        = Some (Some t')
        ∧ 0 ≤ H ≤ 23
        ∧ t' = DatePicker.MakeDate (DatePicker.Day t)
                 (DatePicker.MakeTime H m s (DatePicker.msFromTime t))
        ∧ civil t' = civil t
        ∧ DatePicker.HourFromTime t' = H ∧ DatePicker.MinFromTime t' = m
        ∧ DatePicker.SecFromTime t' = s.
Proof.
  intros Hwt Ht Hh Hm Hs Hmr Hsr Hclock H.
  assert (HH : DatePickerInit.selected_hour (DatePickerInit.with24Hours p) f = JS.Num H
               ∧ 0 ≤ H ≤ 23).
  { subst H. destruct Hclock as [[H24 Hr] | (H12 & Hr & Hap)].
    - rewrite H24 in *. split; [|exact Hr].
      unfold DatePickerInit.selected_hour. cbn [negb]. exact Hh.
    - rewrite H12 in *.
      assert (Hv : ∃ v, DatePickerInit.ampmSel f = Some v ∧ (v = "AM" ∨ v = "PM")
                        ∧ bool_decide (DatePickerInit.ampmSel f = Some "PM")
                          = String.eqb v "PM").
      { destruct Hap as [Ha | Ha]; rewrite Ha; eexists; (split; [reflexivity|]);
          (split; [auto|]); reflexivity. }
      destruct Hv as (v & Hv & Hcases & ->).
      rewrite (selected_hour_12 f h v Hh Hv Hr Hcases).
      split; [reflexivity|]. unfold hour_of_12.
      destruct (String.eqb v "PM"); Z.div_mod_to_equations; lia. }
  destruct HH as [HH Hrange].
  destruct (setUTCHours_in_day t H m s Ht Hrange Hmr Hsr)
    as (t' & Hset & Ht' & Hday & Hhour & Hmin & Hsec & _).
  exists t'. unfold DatePickerInit.onCalendarSelect. rewrite Hwt, HH, Hm, Hs, Hset.
  rewrite format_valid.
  split; [destruct (DatePickerInit.displaySpan _); reflexivity|].
  split; [exact Hrange|]. split; [exact Ht'|].
  split; [apply civil_same_day; exact Hday|]. auto.
Qed.

Lemma selection_sets_the_time_of_day_witness :
  ∃ t', snd (fst (DatePickerInit.onCalendarSelect unusable_Intl clock_picker
                    (Some (Some 1709164800000)) (fields_of "12" "05" "09" "AM") true
                    (before_init (plain_button "" (Some "true") (Some "false")))))
        = Some (Some t')
        ∧ DatePicker.HourFromTime t' = 0 ∧ DatePicker.MinFromTime t' = 5
        ∧ civil t' = (2024, 2, 29).
Proof.
  assert (Ht : day_in_range 1709164800000) by (vm_compute; split; discriminate).
  assert (Hm : 0 ≤ 5 ≤ 59) by lia.
  assert (Hs : 0 ≤ 9 ≤ 59) by lia.
  assert (Hh : 1 ≤ 12 ≤ 12) by lia.
  destruct (selection_sets_the_time_of_day unusable_Intl clock_picker 1709164800000
              12 5 9 (fields_of "12" "05" "09" "AM") true
              (before_init (plain_button "" (Some "true") (Some "false")))
              eq_refl Ht eq_refl eq_refl eq_refl Hm Hs
              (or_intror (conj eq_refl (conj Hh (or_introl eq_refl)))))
    as (t' & Hd & _ & _ & Hciv & Hhour & Hmin & _).
  exists t'. split; [exact Hd|]. split; [exact Hhour|]. split; [exact Hmin|].
  rewrite Hciv. vm_compute. reflexivity.
Defined.

(** ** Date picker: the display element *)

Lemma elem_of_show_text (text : string) (span : DatePickerInit.DisplaySpan) (c : string) :
  c ∈ DatePickerInit.classList (DatePickerInit.show_text text span)
  ↔ c ∈ DatePickerInit.classList span ∧ c ≠ "text-muted-foreground".
Proof.
  cbn. rewrite elem_of_class_remove. unfold DatePickerInit.muted.
  rewrite list_elem_of_singleton. tauto.
Qed.

Section PickerDisplay.
Import DatePicker DatePickerInit.

Variable Intl : string → IntlOptions → Z → JS.Res string.

Lemma format_date (p : Picker) (d : Date) :
  ∃ effects, format Intl p d = (effects, inl (shown_date Intl p d)).
Proof.
  destruct d as [t|]; [rewrite format_valid | rewrite format_invalid]; eauto.
Qed.

Lemma picker_updateDisplay_returns (p : Picker) (v : string) (span : DisplaySpan)
    (st : State) :
  ∃ st', updateDisplay Intl p v span st = (inl tt, st')
    ∧ picker st' = picker st
    ∧ data_initialized (triggerButton st') = data_initialized (triggerButton st).
Proof.
  unfold updateDisplay. destruct (String.eqb v ""); [eexists; done|].
  destruct (parseISODateTime v) as [d|]; [|eexists; done].
  destruct (format_date p d) as [effects ->].
  destruct (negb _); eexists; done.
Qed.

End PickerDisplay.

(** X14.  The display after a selection.  When the listener of a picker
    handles the selection of a Date object, it returns, shows in the display
    element what the formatter gives for the date as the time fields left
    it, takes the muted class off the display and keeps its other classes,
    and ends with one click, on the popover trigger if there is one and on
    the button otherwise.  When the picker shows a time and the hour field
    holds no number, the Date object becomes invalid and the display becomes
    empty. *)
Theorem selection_updates_the_display
    (Intl : string → DatePicker.IntlOptions → Z → JS.Res string)
    (p : DatePickerInit.Picker) (d : DatePicker.Date) (f : DatePickerInit.TimeFields)
    (trigger : bool) (st : DatePickerInit.State) (span : DatePickerInit.DisplaySpan) :
  DatePickerInit.displaySpan (DatePickerInit.triggerButton st) = Some span →
  let d' := if DatePickerInit.withTime p
            then DatePickerInit.setUTCHours
                   (DatePickerInit.selected_hour (DatePickerInit.with24Hours p) f)
                   (DatePickerInit.read_field (DatePickerInit.minInput f) (JS.Num 0))
                   (DatePickerInit.read_field (DatePickerInit.secInput f) (JS.Num 0)) d
            else d in
  ∃ st', DatePickerInit.onCalendarSelect Intl p (Some d) f trigger st
         = (inl tt, Some d', st')
    ∧ display_text st' = Some (shown_date Intl p d')
    ∧ (∃ cl, display_classes st' = Some cl
             ∧ ∀ c, c ∈ cl ↔ c ∈ DatePickerInit.classList span
                              ∧ c ≠ "text-muted-foreground")
    ∧ DatePickerInit.out st'
      = (DatePickerInit.out st
         ++ (DatePickerInit.formatting <$> fst (DatePickerInit.format Intl p d'))
         ++ [if trigger then DatePickerInit.click_popoverTrigger
             else DatePickerInit.click_triggerButton])%list
    ∧ DatePickerInit.picker st' = DatePickerInit.picker st
    ∧ (DatePickerInit.withTime p = true →
       DatePickerInit.selected_hour (DatePickerInit.with24Hours p) f = JS.NaN →
       d' = None ∧ display_text st' = Some "").
Proof.
  intros Hspan d'. unfold DatePickerInit.onCalendarSelect. fold d'.
  destruct (format_date Intl p d') as [effects Hf]. rewrite Hf.
  cbn [DatePickerInit.log DatePickerInit.triggerButton]. rewrite Hspan.
  eexists. split; [reflexivity|].
  split; [reflexivity|]. split.
  { eexists. split; [reflexivity|]. intros c.
    apply (elem_of_show_text (shown_date Intl p d') span c). }
  split; [cbn; rewrite <- app_assoc; reflexivity|].
  split; [reflexivity|].
  intros Hwt Hnan. assert (Hd : d' = None).
  { subst d'. rewrite Hwt, Hnan. destruct d; reflexivity. }
  split; [exact Hd|]. cbn. rewrite Hd. reflexivity.
Qed.

Lemma selection_updates_the_display_witness :
  ∃ st', DatePickerInit.onCalendarSelect unusable_Intl clock_picker
           (Some (Some 1709164800000)) (fields_of "" "05" "09" "AM") true
           (before_init (plain_button "Select a date" (Some "true") (Some "false")))
         = (inl tt, Some None, st')
         ∧ display_text st' = Some "".
Proof.
  destruct (selection_updates_the_display unusable_Intl clock_picker
              (Some 1709164800000) (fields_of "" "05" "09" "AM") true
              (before_init (plain_button "Select a date" (Some "true") (Some "false")))
              _ eq_refl) as (st' & Hrun & Ht & _).
  exists st'. split; [exact Hrun | exact Ht].
Defined.

(** X15.  The display after [initDatePicker].  On a button that is not
    marked, has its display element, and for which a calendar and a hidden
    input are found (by id, or through the popover content), the call
    returns, marks the button, sets its two properties, and leaves a closure
    with the configuration of the dataset (medium style, en-US and "Select a
    date" by default).  When the hidden input is empty or holds no date that
    [parseISODateTime] accepts, the display shows the placeholder and gets the
    muted class.  When it holds an accepted date, the display shows what the
    formatter gives for it and loses the muted class, unless it already
    shows that text (surrounding white space apart), in which case text
    and classes stay as they are. *)
Theorem initDatePicker_shows_the_value
    (Intl : string → DatePicker.IntlOptions → Z → JS.Res string)
    (sur : DatePickerInit.Surroundings) (b : DatePickerInit.TriggerButton)
    (span : DatePickerInit.DisplaySpan) (node : DatePickerInit.CalendarNode)
    (v : string) :
  DatePickerInit.data_initialized b = false →
  DatePickerInit.displaySpan b = Some span →
  DatePickerInit.find_calendar sur b = (Some node, Some v) →
  ∃ st' p span',
    DatePickerInit.initDatePicker Intl sur (before_init b) = (inl tt, st')
    ∧ DatePickerInit.picker st' = Some p
    ∧ DatePickerInit.calendar p = node
    ∧ DatePickerInit.placeholder p
      = DatePickerInit.or_default (DatePickerInit.data_placeholder b) "Select a date"
    ∧ DatePickerInit.data_initialized (DatePickerInit.triggerButton st') = true
    ∧ DatePickerInit.datePickerInitialized (DatePickerInit.triggerButton st') = true
    ∧ DatePickerInit.displaySpan (DatePickerInit.triggerButton st') = Some span'
    ∧ match DatePicker.parseISODateTime v with
      | Some d =>
          if String.eqb (SelectBox.trim (DatePickerInit.textContent span))
               (shown_date Intl p d)
          then span' = span
          else span' = DatePickerInit.show_text (shown_date Intl p d) span
      | None =>
          DatePickerInit.textContent span' = DatePickerInit.placeholder p
          ∧ "text-muted-foreground" ∈ DatePickerInit.classList span'
      end.
Proof.
  intros Hb Hspan Hfind. unfold DatePickerInit.initDatePicker, before_init.
  cbn [DatePickerInit.triggerButton DatePickerInit.picker DatePickerInit.out].
  rewrite Hb, Hspan, Hfind.
  set (p := {| DatePickerInit.calendar := node |}).
  assert (Hmuted : ∀ cl, "text-muted-foreground" ∈ JS.class_add DatePickerInit.muted cl).
  { intros cl. apply elem_of_class_add. right. left. }
  unfold DatePickerInit.updateDisplay.
  destruct (String.eqb_spec v "") as [->|Hne].
  { eexists _, p, _. split; [reflexivity|]. do 6 (split; [reflexivity|]).
    change (DatePicker.parseISODateTime "") with (@None DatePicker.Date).
    split; [reflexivity | apply Hmuted]. }
  destruct (DatePicker.parseISODateTime v) as [d|].
  - destruct (format_date Intl p d) as [effects Hf]. subst p. rewrite Hf.
    destruct (String.eqb _ _) eqn:Heq; cbn [negb].
    + eexists _, _, span. split; [reflexivity|]. do 5 (split; [reflexivity|]).
      split; [exact Hspan|]. rewrite Heq. reflexivity.
    + eexists _, _, _. split; [reflexivity|]. do 6 (split; [reflexivity|]).
      rewrite Heq. reflexivity.
  - eexists _, p, _. split; [reflexivity|]. do 6 (split; [reflexivity|]).
    split; [reflexivity | apply Hmuted].
Qed.

Lemma initDatePicker_shows_the_value_witness :
  ∃ st', DatePickerInit.initDatePicker unusable_Intl (by_id "2024-02-30")
           (before_init (plain_button "29 Feb" None None)) = (inl tt, st')
         ∧ display_text st' = Some "Select a date"
         ∧ display_classes st' = Some ["text-muted-foreground"].
Proof.
  destruct (initDatePicker_shows_the_value unusable_Intl (by_id "2024-02-30")
              (plain_button "29 Feb" None None) _ _ _ eq_refl eq_refl eq_refl)
    as (st' & p & span' & Hrun & _).
  exists st'. split; [exact Hrun|].
  vm_compute in Hrun. injection Hrun as <-. split; reflexivity.
Defined.

(** X16.  [initDatePicker] runs once per button, whether it succeeds or
    not.  On an unmarked button that lacks its display element, or for which
    no calendar or no hidden input is found, it logs one error, attaches no
    listener, and still marks the button; a call on a marked button changes
    nothing; and every call leaves the button marked, so that a second call,
    whatever the page has become, changes nothing. *)
Theorem initDatePicker_runs_once
    (Intl : string → DatePicker.IntlOptions → Z → JS.Res string)
    (sur : DatePickerInit.Surroundings) (st : DatePickerInit.State) :
  (DatePickerInit.data_initialized (DatePickerInit.triggerButton st) = true →
   DatePickerInit.initDatePicker Intl sur st = (inl tt, st))
  ∧ (DatePickerInit.data_initialized (DatePickerInit.triggerButton st) = false →
     DatePickerInit.displaySpan (DatePickerInit.triggerButton st) = None
     ∨ fst (DatePickerInit.find_calendar sur (DatePickerInit.triggerButton st)) = None
     ∨ snd (DatePickerInit.find_calendar sur (DatePickerInit.triggerButton st)) = None →
     DatePickerInit.initDatePicker Intl sur st
     = (inl tt,
        {| DatePickerInit.triggerButton :=
             DatePickerInit.mark (DatePickerInit.triggerButton st);
           DatePickerInit.picker := DatePickerInit.picker st;
           DatePickerInit.out :=
             (DatePickerInit.out st ++ [DatePickerInit.init_error])%list |}))
  ∧ DatePickerInit.data_initialized
      (DatePickerInit.triggerButton (snd (DatePickerInit.initDatePicker Intl sur st)))
    = true
  ∧ ∀ sur', DatePickerInit.initDatePicker Intl sur'
              (snd (DatePickerInit.initDatePicker Intl sur st))
            = (inl tt, snd (DatePickerInit.initDatePicker Intl sur st)).
Proof.
  assert (Hmarked : ∀ sur0 st0,
            DatePickerInit.data_initialized (DatePickerInit.triggerButton st0) = true →
            DatePickerInit.initDatePicker Intl sur0 st0 = (inl tt, st0)).
  { intros sur0 st0 H. unfold DatePickerInit.initDatePicker. rewrite H. reflexivity. }
  assert (Hleaves : DatePickerInit.data_initialized
            (DatePickerInit.triggerButton
               (snd (DatePickerInit.initDatePicker Intl sur st))) = true).
  { unfold DatePickerInit.initDatePicker.
    destruct (DatePickerInit.data_initialized (DatePickerInit.triggerButton st)) eqn:Hb;
      [exact Hb|].
    destruct (DatePickerInit.displaySpan (DatePickerInit.triggerButton st)) as [span|];
      [|reflexivity].
    destruct (DatePickerInit.find_calendar sur (DatePickerInit.triggerButton st))
      as [[c|] [v|]]; try reflexivity.
    set (p := {| DatePickerInit.calendar := c |}).
    set (st1 := {| DatePickerInit.triggerButton := _; DatePickerInit.picker := Some p |}).
    destruct (picker_updateDisplay_returns Intl p v span st1) as (st' & Hrun & _ & Hbtn).
    rewrite Hrun. cbn. rewrite Hbtn. reflexivity. }
  split; [apply Hmarked|]. split; [|split; [exact Hleaves | intros sur'; apply Hmarked, Hleaves]].
  intros Hb Hmissing. unfold DatePickerInit.initDatePicker. rewrite Hb.
  destruct Hmissing as [-> | [Hc | Hv]]; [reflexivity|..];
    destruct (DatePickerInit.displaySpan _); try reflexivity;
    destruct (DatePickerInit.find_calendar sur _) as [[c|] [v|]];
    cbn in *; try discriminate; reflexivity.
Qed.

Lemma initDatePicker_runs_once_witness :
  DatePickerInit.out
    (snd (DatePickerInit.initDatePicker unusable_Intl
            {| DatePickerInit.calendarInstance := false;
               DatePickerInit.calendarHiddenInput := Some "2024-02-29";
               DatePickerInit.popoverContent := None |}
            (before_init (plain_button "" None None))))
  = [DatePickerInit.init_error].
Proof.
  rewrite (proj1 (proj2 (initDatePicker_runs_once unusable_Intl
                           {| DatePickerInit.calendarInstance := false;
                              DatePickerInit.calendarHiddenInput := Some "2024-02-29";
                              DatePickerInit.popoverContent := None |}
                           (before_init (plain_button "" None None))))
             eq_refl (or_intror (or_introl eq_refl))).
  reflexivity.
Defined.

(** ** Selection control: the summary *)

(** Unfolds the plumbing of method bodies. *)
Ltac exec :=
  unfold mbind, mret, SelectBox.L_bind, SelectBox.L_ret, SelectBox.bind, SelectBox.ret,
    SelectBox.get, SelectBox.throw, SelectBox.emit, SelectBox.write_valueEl,
    SelectBox.write_content, SelectBox.write_hiddenInput, SelectBox.write_item,
    SelectBox.modify_inst, SelectBox.modify_el, SelectBox.when;
  cbn -[SelectBox.pill_labels SelectBox.selected_items].

Section Summary.
Import SelectBox.

Lemma pill_labels_texts (its : list Item) (l : Local) :
  (∀ it, it ∈ its → is_Some (item_text it)) →
  ∃ labels, pill_labels its l = (inl labels, l) ∧ Some <$> labels = item_text <$> its.
Proof.
  induction its as [|it r IH]; intros Hall; [exists []; split; reflexivity|].
  destruct (Hall it ltac:(left)) as [t Ht].
  destruct IH as (labels & Hl & Htexts); [intros it' Hin; apply Hall; right; exact Hin|].
  exists (t :: labels). cbn [pill_labels]. rewrite Ht, L_bind_unfold, Hl.
  split; [reflexivity|]. cbn. rewrite Htexts, Ht. reflexivity.
Qed.

(** [updateDisplay] on an instance with its content and value element:
    it returns, writes the value element only, dispatches no change on
    the hidden input, and leaves the summary as [shows] says. *)
Lemma updateDisplay_shows (l : Local) (t : Trigger) (c : Content) (v : ValueEl) :
  bound_content (inst l) = true → bound_valueEl (inst l) = true →
  trigger (el l) = Some t → content (el l) = Some c → valueEl t = Some v →
  selected_labelled (inst l) c →
  ∃ v' o',
    updateDisplay l
    = (inl tt, {| inst := inst l; el := set_trigger (set_valueEl v' t) (el l);
                  has_closePopover := has_closePopover l;
                  out := (out l ++ o')%list |})
    ∧ Forall is_overflow_check o'
    ∧ shows (inst l) c v v'.
Proof.
  intros Hbc Hbv Ht Hc Hv Hlabels. destruct l as [i e cp o]. cbn in *.
  destruct e as [mk sr cl tr ct]; cbn in Ht, Hc; subst tr ct.
  destruct t as [cid ve hi dm dp dt tsr ch dis]; cbn in Hv; subst ve.
  assert (Hin : ∀ cls, "text-muted-foreground" ∈ JS.class_add muted cls).
  { intros cls. apply elem_of_class_add. right. left. }
  assert (Hout : ∀ cls, "text-muted-foreground" ∉ JS.class_remove muted cls).
  { intros cls [_ H]%elem_of_class_remove. apply H. left. }
  unfold updateDisplay, the_content, the_valueEl, shows. exec. rewrite Hbc. cbn.
  unfold selected_labelled in Hlabels.
  destruct (selected_items c) as [|first rest] eqn:Hsel; exec; rewrite Hbv; cbn.
  { eexists _, []. rewrite app_nil_r. split; [reflexivity|]. split; [constructor|].
    cbn. split; [reflexivity|]. split; [reflexivity | apply Hin]. }
  destruct (multiple i) eqn:Hm; [destruct (showPills i) eqn:Hp|]; exec.
  - unfold renderPills, the_valueEl. exec. rewrite Hbv. cbn -[pill_labels].
    match goal with
    | |- context [pill_labels ?its ?l] =>
        destruct (pill_labels_texts its l) as (labels & Hl & Htexts)
    end.
    { intros it Hit. apply Hlabels; [reflexivity | exact Hit]. }
    rewrite Hl. cbn. rewrite Hbv. cbn.
    eexists _, [_]. split; [reflexivity|].
    split; [repeat constructor; eexists; reflexivity|].
    cbn. split; [reflexivity|]. split; [apply Hout|]. eauto.
  - rewrite Hbv. cbn. eexists _, []. rewrite app_nil_r.
    split; [reflexivity|]. split; [constructor|]. cbn.
    split; [reflexivity|]. split; [apply Hout | reflexivity].
  - destruct (item_text first); exec; rewrite ?Hbv; cbn;
      eexists _, []; rewrite app_nil_r; (split; [reflexivity|]);
      (split; [constructor|]); cbn; (split; [reflexivity|]);
      (split; [apply Hout | reflexivity]).
Qed.

End Summary.

(** ** Selection control: selecting an option *)
Section Selecting.
Import SelectBox.

Lemma item_text_items_after (multi : bool) (v : option string) (prev : ValueSet)
    (n : nat) (its : list Item) :
  item_text <$> items_after multi v prev n its = item_text <$> its
  ∧ data_value <$> items_after multi v prev n its = data_value <$> its.
Proof.
  unfold items_after. destruct multi.
  - split; [apply item_text_alter | apply data_value_alter];
      intros it; destruct (set_has v prev); reflexivity.
  - rewrite item_text_alter, data_value_alter by reflexivity.
    rewrite <- !list_fmap_compose. split; apply list_fmap_ext; reflexivity.
Qed.

Lemma selected_labelled_items (i : Instance) (c : Content) (its : list Item) :
  (multiple i && showPills i = true → ∀ it, it ∈ items c → is_Some (item_text it)) →
  item_text <$> its = item_text <$> items c →
  selected_labelled i (set_items its c).
Proof.
  intros Hlab Htx Hmp it Hit. unfold selected_items in Hit.
  apply list_elem_of_filter in Hit as [_ Hit]. cbn in Hit.
  destruct (elem_of_fmap_eq item_text its (items c) it Htx Hit) as (it0 & Hit0 & Heq).
  rewrite <- Heq. exact (Hlab Hmp it0 Hit0).
Qed.

(** The part of [selectItem] that changes the set and marks the options. *)
Lemma selectItem_phase (i : Instance) (e : Element) (cp : bool) (o : list Effect)
    (c : Content) (n : nat) (value : option string) (prev : ValueSet) :
  bound_content i = true → content e = Some c →
  (if multiple i
   then if set_has value prev
        then modify_inst (set_selectedValues (set_delete value prev)) ;;
             write_item n mark_unselected
        else modify_inst (set_selectedValues (set_add value prev)) ;;
             write_item n mark_selected
   else c0 ← the_content;
        write_content (set_items (mark_unselected <$> items c0) c0) ;;
        modify_inst (set_selectedValues (set_add value [])) ;;
        write_item n mark_selected ;;
        when (closeOnSelect i && cp)
          (emit closePopover ;; emit (setTimeout focus_trigger 50)))
    {| inst := set_isSelecting true i; el := e; has_closePopover := cp; out := o |}
  = (inl tt,
     {| inst := set_state true (selection_after (multiple i) value prev) i;
        el := set_content
                (set_items (items_after (multiple i) value prev n (items c)) c) e;
        has_closePopover := cp;
        out := (o ++ closing (multiple i) i cp)%list |}).
Proof.
  intros Hbc Hc. unfold selection_after, items_after, closing.
  destruct (multiple i).
  - destruct (set_has value prev); exec; rewrite Hc, app_nil_r; reflexivity.
  - unfold the_content. exec. rewrite Hbc, Hc. cbn.
    destruct (closeOnSelect i && cp); exec; rewrite ?app_nil_r, <- ?app_assoc;
      reflexivity.
Qed.

(** [selectItem] on an option of a constructed instance that is not in the
    middle of a selection: the state it leaves. *)
Lemma selectItem_runs (l : Local) (n : nat) (t : Trigger) (c : Content) (v : ValueEl)
    (h : string) (it : Item) :
  bound_content (inst l) = true →
  bound_valueEl (inst l) = true → bound_hiddenInput (inst l) = true →
  trigger (el l) = Some t → content (el l) = Some c → valueEl t = Some v →
  hiddenInput t = Some h →
  labelled l → isSelecting (inst l) = false → items c !! n = Some it →
  let multi := multiple (inst l) in
  let prev := selectedValues (inst l) in
  let sel := selection_after multi (data_value it) prev in
  let c' := set_items (items_after multi (data_value it) prev n (items c)) c in
  ∃ l' v' o',
    selectItem n l = (inl tt, l')
    ∧ (inst l' = set_state true sel (inst l)
       ∨ ∃ d, inst l' = set_resetContainer d (set_state true sel (inst l)))
    ∧ el l' = set_trigger (set_hiddenInput (join_values sel) (set_valueEl v' t))
                (set_content c' (el l))
    ∧ has_closePopover l' = has_closePopover l
    ∧ shows (set_state true sel (inst l)) c' v v'
    ∧ out l'
      = (out l ++ closing multi (inst l) (has_closePopover l) ++ o'
         ++ (if String.eqb h (join_values sel) then [] else [hidden_change])
         ++ [selectbox_change (getValue_of (set_state true sel (inst l))) prev (Some n);
             setTimeout clear_isSelecting 100])%list
    ∧ Forall is_overflow_check o'.
Proof.
  intros Hbc Hbv Hbh Ht Hc Hv Hh Hlab Hsel Hit multi prev sel c'.
  destruct l as [i e cp o]. cbn [inst el has_closePopover out] in *.
  pose proof (item_text_items_after multi (data_value it) prev n (items c)) as [Htx _].
  assert (Hlab' : selected_labelled (set_state true sel i) c').
  { apply selected_labelled_items; [|exact Htx].
    intros Hmp it0 Hit0. exact (Hlab Hmp c it0 Hc Hit0). }
  pose (i2 := set_state true sel i).
  pose (e2 := set_content c' e).
  destruct (updateDisplay_shows
              {| inst := i2; el := e2; has_closePopover := cp;
                 out := (o ++ closing multi i cp)%list |}
              t c' v Hbc Hbv Ht eq_refl Hv Hlab') as (v' & o' & Hdisp & Ho' & Hshows).
  cbn [inst el has_closePopover out] in Hdisp, Hshows.
  pose (t3 := set_valueEl v' t).
  pose (e3 := set_trigger t3 e2).
  pose proof (updateHiddenInput_spec i2 e3 t3 h cp ((o ++ closing multi i cp) ++ o')%list
                Hbh eq_refl Hh) as Hhid.
  change (selectedValues i2) with sel in Hhid.
  pose (i4 := match resetContainer i2 with
              | Some _ =>
                  set_resetContainer (if (0 <? length sel)%nat then "" else "none") i2
              | None => i2
              end).
  assert (Hget : getValue_of i4 = getValue_of i2).
  { unfold i4. destruct (resetContainer i2); reflexivity. }
  exists {| inst := i4;
            el := set_trigger (set_hiddenInput (join_values sel) t3) e3;
            has_closePopover := cp;
            out := (((((o ++ closing multi i cp) ++ o')
                      ++ (if String.eqb h (join_values sel) then [] else [hidden_change]))
                     ++ [selectbox_change (getValue_of i4) prev (Some n)])
                    ++ [setTimeout clear_isSelecting 100])%list |}, v', o'.
  split.
  { unfold selectItem. rewrite L_bind_unfold. cbn [get inst]. rewrite Hsel.
    rewrite L_bind_unfold. cbn [modify_inst inst el has_closePopover out].
    rewrite L_bind_unfold. unfold the_item at 1. rewrite L_bind_unfold.
    cbn [get el]. rewrite Hc. cbn [mbind option_bind]. rewrite Hit. cbn [ret].
    cbv zeta.
    rewrite L_bind_unfold, (selectItem_phase i e cp o c n _ _ Hbc Hc).
    rewrite L_bind_unfold.
    match goal with
    | |- context [updateDisplay ?l0] =>
        change (updateDisplay l0)
          with (updateDisplay {| inst := i2; el := e2; has_closePopover := cp;
                                 out := (o ++ closing multi i cp)%list |})
    end.
    rewrite Hdisp, L_bind_unfold.
    match goal with
    | |- context [updateHiddenInput ?l0] =>
        change (updateHiddenInput l0)
          with (updateHiddenInput
                  {| inst := i2; el := e3; has_closePopover := cp;
                     out := ((o ++ closing multi i cp) ++ o')%list |})
    end.
    rewrite Hhid.
    rewrite L_bind_unfold. unfold updateResetButtonVisibility.
    rewrite L_bind_unfold. cbn [get inst]. change (selectedValues i2) with sel.
    unfold i4. destruct (resetContainer i2); exec; reflexivity. }
  cbn [inst el has_closePopover out].
  split; [unfold i4; destruct (resetContainer i2); [right; eauto | left; reflexivity]|].
  split; [reflexivity|]. split; [reflexivity|]. split; [exact Hshows|].
  split; [rewrite Hget, <- !app_assoc; reflexivity | exact Ho'].
Qed.


Lemma no_hidden_change (xs : list Effect) :
  Forall (fun x => is_hidden_change x = false) xs →
  filter (fun x => is_hidden_change x = true) xs = [].
Proof.
  induction 1 as [|x xs Hx _ IH]; [reflexivity|].
  rewrite filter_cons_False; [exact IH | congruence].
Qed.

Lemma overflow_checks_no_hidden_change (xs : list Effect) :
  Forall is_overflow_check xs → Forall (fun x => is_hidden_change x = false) xs.
Proof. intros H. eapply Forall_impl; [exact H|]. intros x [k ->]. reflexivity. Qed.

Lemma closing_no_hidden_change (multi : bool) (i : Instance) (cp : bool) :
  Forall (fun x => is_hidden_change x = false) (closing multi i cp).
Proof.
  unfold closing. destruct multi; [constructor|].
  destruct (closeOnSelect i && cp); repeat constructor.
Qed.

(** [selectItem] on an option of a constructed instance that is not in the
    middle of a selection: what it returns and leaves. *)
Lemma selectItem_effect (l : Local) (n : nat) (it : Item) :
  constructed l → labelled l → isSelecting (inst l) = false →
  options_of l !! n = Some it →
  let multi := multiple (inst l) in
  let prev := selectedValues (inst l) in
  let sel := selection_after multi (data_value it) prev in
  ∃ l' c' v v' o',
    selectItem n l = (inl tt, l')
    ∧ constructed l' ∧ labelled l'
    ∧ isSelecting (inst l') = true
    ∧ multiple (inst l') = multi ∧ showPills (inst l') = showPills (inst l)
    ∧ closeOnSelect (inst l') = closeOnSelect (inst l)
    ∧ placeholder (inst l') = placeholder (inst l)
    ∧ has_closePopover l' = has_closePopover l
    ∧ selectedValues (inst l') = sel
    ∧ options_of l' = items_after multi (data_value it) prev n (options_of l)
    ∧ content (el l') = Some c'
    ∧ hidden_value l' = Some (join_values sel)
    ∧ hidden_changes l'
      = (hidden_changes l
         + if bool_decide (hidden_value l = Some (join_values sel)) then 0 else 1)%nat
    ∧ (trigger (el l) ≫= valueEl) = Some v
    ∧ (trigger (el l') ≫= valueEl) = Some v'
    ∧ shows (inst l') c' v v'
    ∧ Forall is_overflow_check o'
    ∧ out l'
      = (out l ++ closing multi (inst l) (has_closePopover l) ++ o'
         ++ (if bool_decide (hidden_value l = Some (join_values sel))
             then [] else [hidden_change])
         ++ [selectbox_change (getValue_of (inst l')) prev (Some n);
             setTimeout clear_isSelecting 100])%list.
Proof.
  intros (Hbt & Hbc & Hbv & Hbh & t & c & v & h & Ht & Hc & Hv & Hh) Hlab Hsel Hit
    multi prev sel.
  unfold options_of in Hit. rewrite Hc in Hit.
  destruct (selectItem_runs l n t c v h it Hbc Hbv Hbh Ht Hc Hv Hh Hlab Hsel Hit)
    as (l' & v' & o' & Hrun & Hinst & Hel & Hcp & Hshows & Hout & Ho').
  fold multi prev sel in Hinst, Hel, Hshows, Hout.
  set (c' := set_items (items_after multi (data_value it) prev n (items c)) c) in *.
  set (i2 := set_state true sel (inst l)) in *.
  assert (Hfields : ∀ {A} (f : Instance → A),
            (∀ d, f (set_resetContainer d i2) = f i2) → f (inst l') = f i2).
  { intros A f Hf. destruct Hinst as [-> | [d ->]]; [reflexivity | apply Hf]. }
  assert (Heqb : (if String.eqb h (join_values sel) then @nil Effect else [hidden_change])
                 = if bool_decide (hidden_value l = Some (join_values sel))
                   then [] else [hidden_change]).
  { unfold hidden_value. rewrite Ht. cbn. rewrite Hh.
    destruct (String.eqb_spec h (join_values sel)) as [->|Hne].
    - rewrite bool_decide_eq_true_2; reflexivity.
    - rewrite bool_decide_eq_false_2; [reflexivity | congruence]. }
  exists l', c', v, v', o'. split; [exact Hrun|].
  split.
  { unfold constructed.
    rewrite (Hfields _ bound_triggerButton), (Hfields _ bound_content),
      (Hfields _ bound_valueEl), (Hfields _ bound_hiddenInput) by reflexivity.
    cbn. repeat (split; [assumption|]). rewrite Hel.
    eexists _, _, _, _. repeat split; reflexivity. }
  split.
  { intros Hmp c0 it0 Hc0 Hit0. rewrite Hel in Hc0. cbn in Hc0. injection Hc0 as <-.
    rewrite (Hfields _ multiple), (Hfields _ showPills) in Hmp by reflexivity.
    cbn in Hit0, Hmp.
    pose proof (item_text_items_after multi (data_value it) prev n (items c)) as [Htx _].
    destruct (elem_of_fmap_eq item_text _ (items c) it0 Htx Hit0) as (it1 & Hit1 & Heq).
    rewrite <- Heq. exact (Hlab Hmp c it1 Hc Hit1). }
  split; [apply (Hfields _ isSelecting); reflexivity|].
  split; [apply (Hfields _ multiple); reflexivity|].
  split; [apply (Hfields _ showPills); reflexivity|].
  split; [apply (Hfields _ closeOnSelect); reflexivity|].
  split; [apply (Hfields _ placeholder); reflexivity|].
  split; [exact Hcp|].
  split; [apply (Hfields _ selectedValues); reflexivity|].
  split; [unfold options_of; rewrite Hel, Hc; reflexivity|].
  split; [rewrite Hel; reflexivity|].
  split; [unfold hidden_value; rewrite Hel; reflexivity|].
  split.
  { unfold hidden_changes. rewrite Hout, Heqb, !filter_app, !length_app.
    rewrite (no_hidden_change _ (closing_no_hidden_change multi (inst l) _)).
    rewrite (no_hidden_change _ (overflow_checks_no_hidden_change _ Ho')).
    rewrite (no_hidden_change [_; _]) by (repeat constructor).
    destruct (bool_decide _); [rewrite filter_nil; cbn; lia|].
    rewrite filter_cons_True by reflexivity. rewrite filter_nil. cbn. lia. }
  split; [rewrite Ht; exact Hv|].
  split; [rewrite Hel; reflexivity|].
  split.
  { destruct Hinst as [-> | [d ->]]; [exact Hshows|].
    unfold shows in *. exact Hshows. }
  split; [exact Ho'|].
  rewrite Hout, Heqb. do 4 f_equal.
  destruct Hinst as [-> | [d ->]]; reflexivity.
Qed.

End Selecting.

(** ** Selection control: the options after a selection *)
Section OptionsAfter.
Import SelectBox.

Lemma set_add_empty (v : option string) : set_add v [] = [v].
Proof.
  unfold set_add, set_has. case_bool_decide as H; [inversion H | reflexivity].
Qed.

Lemma elem_of_set_delete (x v : option string) (s : ValueSet) :
  x ∈ set_delete v s ↔ x ∈ s ∧ x ≠ v.
Proof. unfold set_delete. rewrite list_elem_of_filter. tauto. Qed.

Lemma set_has_true (v : option string) (s : ValueSet) : set_has v s = true ↔ v ∈ s.
Proof. unfold set_has. apply bool_decide_eq_true. Qed.

Lemma set_delete_set_add (v : option string) (s : ValueSet) :
  v ∉ s → set_delete v (set_add v s) = s.
Proof.
  intros Hv. unfold set_add, set_has. case_bool_decide; [contradiction|].
  unfold set_delete, ValueSet in *. rewrite filter_app.
  rewrite (filter_cons_False _ v) by (intros H'; apply H'; reflexivity).
  rewrite filter_nil, app_nil_r.
  induction s as [|x s IH]; [reflexivity|].
  apply not_elem_of_cons in Hv as [Hne Hv].
  rewrite filter_cons_True by congruence. rewrite IH by exact Hv. reflexivity.
Qed.

(** In single mode exactly the option selected is marked. *)
Lemma single_items_lookup (its : list Item) (n j : nat) (it x : Item) :
  its !! n = Some it →
  alter mark_selected n (mark_unselected <$> its) !! j = Some x →
  data_selected x = Some (if bool_decide (j = n) then "true" else "false").
Proof.
  intros Hn Hj. destruct (decide (j = n)) as [->|Hne].
  - rewrite bool_decide_eq_true_2 by reflexivity.
    rewrite list_lookup_alter_eq, list_lookup_fmap, Hn in Hj.
    cbn in Hj. injection Hj as <-. reflexivity.
  - rewrite bool_decide_eq_false_2 by exact Hne.
    rewrite list_lookup_alter_ne, list_lookup_fmap in Hj by congruence.
    destruct (its !! j); [|discriminate]. cbn in Hj. injection Hj as <-. reflexivity.
Qed.

Lemma single_selected_items (its : list Item) :
  ∀ n it, its !! n = Some it →
    filter (fun x => data_selected x = Some "true")
      (alter mark_selected n (mark_unselected <$> its))
    = [mark_selected (mark_unselected it)].
Proof.
  assert (Hnone : ∀ l : list Item,
            filter (fun x => data_selected x = Some "true") (mark_unselected <$> l) = []).
  { induction l as [|x l IH]; [reflexivity|]. cbn [fmap list_fmap].
    rewrite filter_cons_False by discriminate. exact IH. }
  induction its as [|x its IH]; intros [|n] it Hn; try discriminate Hn.
  - cbn in Hn. injection Hn as ->. cbn [fmap list_fmap alter list_alter].
    rewrite filter_cons_True by reflexivity. fold (@fmap list _ _ _ mark_unselected its).
    rewrite Hnone. reflexivity.
  - cbn [fmap list_fmap alter list_alter].
    rewrite filter_cons_False by discriminate.
    exact (IH n it Hn).
Qed.

Lemma getValue_run (l : Local) : getValue l = (inl (getValue_of (inst l)), l).
Proof. reflexivity. Qed.

End OptionsAfter.

(** X17.  Selecting an option in single mode.  On a constructed
    single-selection instance that is not in the middle of a selection,
    [selectItem] on an option returns and leaves that option as the one
    selection: its value alone is in the set, [getValue()] returns it, the
    hidden input holds it, this option alone is marked as selected, the
    summary shows its label (when it has one) without the muted class, and
    [window.closePopover] is called exactly when the page defines it and
    [closeOnSelect] is set.  The call ends with one [selectbox:change] that
    carries the new and the previous value, and the timer that ends the
    selection. *)
Theorem single_selection_replaces (l : SelectBox.Local) (n : nat) (it : SelectBox.Item) :
  constructed l → SelectBox.multiple (SelectBox.inst l) = false →
  SelectBox.isSelecting (SelectBox.inst l) = false →
  options_of l !! n = Some it →
  ∃ l', SelectBox.selectItem n l = (inl tt, l')
    ∧ SelectBox.selectedValues (SelectBox.inst l') = [SelectBox.data_value it]
    ∧ fst (SelectBox.getValue l') = inl (SelectBox.Single (SelectBox.data_value it))
    ∧ hidden_value l' = Some (default "" (SelectBox.data_value it))
    ∧ (∀ j, marked_selected l' j ↔ j = n)
    ∧ (∀ t, SelectBox.item_text it = Some t → summary l' = Some (SelectBox.Text t))
    ∧ (∃ cl, summary_classes l' = Some cl ∧ "text-muted-foreground" ∉ cl)
    ∧ (∃ o', Forall is_overflow_check o'
             ∧ SelectBox.out l'
               = (SelectBox.out l
                  ++ (if SelectBox.closeOnSelect (SelectBox.inst l)
                         && SelectBox.has_closePopover l
                      then [SelectBox.closePopover;
                            SelectBox.setTimeout SelectBox.focus_trigger 50]
                      else [])
                  ++ o'
                  ++ (if bool_decide (hidden_value l
                                      = Some (default "" (SelectBox.data_value it)))
                      then [] else [SelectBox.hidden_change])
                  ++ [SelectBox.selectbox_change
                        (SelectBox.Single (SelectBox.data_value it))
                        (SelectBox.selectedValues (SelectBox.inst l)) (Some n);
                      SelectBox.setTimeout SelectBox.clear_isSelecting 100])%list).
Proof.
  intros Hcons Hm Hsel Hit.
  assert (Hlab : labelled l) by (intros Hmp; rewrite Hm in Hmp; discriminate).
  destruct (selectItem_effect l n it Hcons Hlab Hsel Hit)
    as (l' & c' & v & v' & o' & Hrun & _ & _ & _ & Hm' & _ & _ & _ & _ & Hs & Hopts
        & Hc' & Hhid & _ & _ & Hv' & Hshows & Ho' & Hout).
  rewrite Hm in *. unfold selection_after in *. rewrite set_add_empty in *.
  assert (Hjoin : SelectBox.join_values [SelectBox.data_value it]
                  = default "" (SelectBox.data_value it)) by reflexivity.
  rewrite Hjoin in *.
  assert (Hget : SelectBox.getValue_of (SelectBox.inst l')
                 = SelectBox.Single (SelectBox.data_value it)).
  { unfold SelectBox.getValue_of. rewrite Hm', Hs. reflexivity. }
  unfold items_after in Hopts.
  exists l'. split; [exact Hrun|]. split; [exact Hs|].
  split; [rewrite getValue_run, Hget; reflexivity|]. split; [exact Hhid|].
  assert (Hsi : SelectBox.selected_items c'
                = [SelectBox.mark_selected (SelectBox.mark_unselected it)]).
  { unfold SelectBox.selected_items.
    assert (Hitems : SelectBox.items c' = options_of l')
      by (unfold options_of; rewrite Hc'; reflexivity).
    rewrite Hitems, Hopts. apply single_selected_items. exact Hit. }
  destruct Hshows as [_ Hshows]. rewrite Hsi, Hm' in Hshows.
  destruct Hshows as [Hmuted Hshown].
  split.
  { intros j. unfold marked_selected. rewrite Hopts. split.
    - intros (x & Hx & Hsel'). rewrite (single_items_lookup _ n j it x Hit Hx) in Hsel'.
      case_bool_decide; [assumption | discriminate].
    - intros ->. exists (SelectBox.mark_selected (SelectBox.mark_unselected it)).
      rewrite list_lookup_alter_eq, list_lookup_fmap, Hit. split; reflexivity. }
  split.
  { intros t Ht. unfold summary. rewrite Hv'. cbn. rewrite Hshown. cbn.
    rewrite Ht. reflexivity. }
  split; [exists (SelectBox.value_classes v'); unfold summary_classes; rewrite Hv';
          split; [reflexivity | exact Hmuted]|].
  exists o'. split; [exact Ho'|]. rewrite Hout, Hget. reflexivity.
Qed.

Lemma single_selection_replaces_witness :
  ∃ l', SelectBox.selectItem 1 (abc_local false false) = (inl tt, l')
    ∧ fst (SelectBox.getValue l') = inl (SelectBox.Single (Some "b"))
    ∧ summary l' = Some (SelectBox.Text "Beta")
    ∧ hidden_value l' = Some "b".
Proof.
  assert (Hc : constructed (abc_local false false)).
  { unfold constructed. vm_compute. repeat (split; [reflexivity|]).
    eexists _, _, _, _. repeat split; reflexivity. }
  destruct (single_selection_replaces (abc_local false false) 1
              (SelectBox.updateItemVisual false
                 (SelectBox.set_data_selected "false" (option_item "b" "Beta")))
              Hc eq_refl eq_refl)
    as (l' & Hrun & _ & Hget & Hhid & _ & Hsum & _).
  { vm_compute. reflexivity. }
  exists l'. split; [exact Hrun|]. split; [exact Hget|].
  split; [apply Hsum; reflexivity | exact Hhid].
Defined.

(** ** Selection control: toggling in multiple mode *)
Section Toggling.
Import SelectBox.

Lemma multiple_items_lookup (its : list Item) (f : Item → Item) (n : nat) (it : Item) :
  its !! n = Some it →
  alter f n its !! n = Some (f it) ∧ ∀ j, j ≠ n → alter f n its !! j = its !! j.
Proof.
  intros Hn. split.
  - rewrite list_lookup_alter_eq, Hn. reflexivity.
  - intros j Hj. apply list_lookup_alter_ne. congruence.
Qed.

Lemma settled_unfold (l : Local) :
  settled l = {| inst := set_isSelecting false (inst l); el := el l;
                 has_closePopover := has_closePopover l; out := out l |}.
Proof. reflexivity. Qed.

Lemma settled_constructed (l : Local) : constructed l → constructed (settled l).
Proof. intros H. exact H. Qed.

Lemma settled_labelled (l : Local) : labelled l → labelled (settled l).
Proof. intros H. exact H. Qed.

End Toggling.

(** X18.  Selecting an option in multiple mode toggles it.  On a
    constructed multiple-selection instance (with a label on every option
    when pills are shown) that is not in the middle of a selection,
    [selectItem] on an option returns; when the value of the option is not in
    the set it is added at the end and the option is marked as selected;
    when it is in the set it is removed and the option is marked as not
    selected; no other option is touched.  Afterwards [getValue()] returns
    the set, the hidden input holds its values joined by commas, a change
    was dispatched on the hidden input exactly when that text differs from
    what the input held, and the call ends with one [selectbox:change] that
    carries the new and the previous values, and the timer that ends the
    selection. *)
Theorem multiple_selection_toggles (l : SelectBox.Local) (n : nat) (it : SelectBox.Item) :
  constructed l → labelled l → SelectBox.multiple (SelectBox.inst l) = true →
  SelectBox.isSelecting (SelectBox.inst l) = false →
  options_of l !! n = Some it →
  let v := SelectBox.data_value it in
  let prev := SelectBox.selectedValues (SelectBox.inst l) in
  ∃ l' it',
    SelectBox.selectItem n l = (inl tt, l')
    ∧ (v ∉ prev → SelectBox.selectedValues (SelectBox.inst l') = (prev ++ [v])%list
                  ∧ SelectBox.data_selected it' = Some "true")
    ∧ (v ∈ prev → (∀ x, x ∈ SelectBox.selectedValues (SelectBox.inst l')
                        ↔ x ∈ prev ∧ x ≠ v)
                  ∧ SelectBox.data_selected it' = Some "false")
    ∧ options_of l' !! n = Some it' ∧ SelectBox.data_value it' = v
    ∧ (∀ j, j ≠ n → options_of l' !! j = options_of l !! j)
    ∧ fst (SelectBox.getValue l')
      = inl (SelectBox.Values (SelectBox.selectedValues (SelectBox.inst l')))
    ∧ hidden_value l'
      = Some (SelectBox.join_values (SelectBox.selectedValues (SelectBox.inst l')))
    ∧ hidden_changes l'
      = (hidden_changes l
         + if bool_decide (hidden_value l = hidden_value l') then 0 else 1)%nat
    ∧ ∃ before,
        SelectBox.out l'
        = (SelectBox.out l ++ before
           ++ [SelectBox.selectbox_change
                 (SelectBox.Values (SelectBox.selectedValues (SelectBox.inst l')))
                 prev (Some n);
               SelectBox.setTimeout SelectBox.clear_isSelecting 100])%list.
Proof.
  intros Hcons Hlab Hm Hsel Hit v prev.
  destruct (selectItem_effect l n it Hcons Hlab Hsel Hit)
    as (l' & c' & ve & ve' & o' & Hrun & _ & _ & _ & Hm' & _ & _ & _ & _ & Hs & Hopts
        & _ & Hhid & Hcount & _ & _ & _ & _ & Hout).
  rewrite Hm in *. fold v prev in Hs, Hopts, Hhid, Hcount, Hout.
  rewrite <- Hs in Hhid, Hcount. rewrite <- Hhid in Hcount.
  unfold selection_after in Hs. unfold items_after in Hopts.
  assert (Hget : SelectBox.getValue_of (SelectBox.inst l')
                 = SelectBox.Values (SelectBox.selectedValues (SelectBox.inst l'))).
  { unfold SelectBox.getValue_of. rewrite Hm'. reflexivity. }
  set (f := if SelectBox.set_has v prev then SelectBox.mark_unselected
            else SelectBox.mark_selected) in *.
  destruct (multiple_items_lookup (options_of l) f n it Hit) as [Hn Hother].
  exists l', (f it). split; [exact Hrun|].
  split.
  { intros Hnot. subst f. unfold SelectBox.set_add in Hs.
    destruct (SelectBox.set_has v prev) eqn:Hhas;
      [apply set_has_true in Hhas; contradiction|].
    split; [exact Hs | reflexivity]. }
  split.
  { intros Hin. subst f. apply set_has_true in Hin. rewrite Hin in *.
    split; [|reflexivity]. intros x. rewrite Hs. apply elem_of_set_delete. }
  split; [rewrite Hopts; exact Hn|].
  split; [subst f; destruct (SelectBox.set_has v prev); reflexivity|].
  split; [intros j Hj; rewrite Hopts; apply Hother, Hj|].
  split; [rewrite getValue_run, Hget; reflexivity|].
  split; [exact Hhid|].
  split; [exact Hcount|].
  exists (closing true (SelectBox.inst l) (SelectBox.has_closePopover l) ++ o'
          ++ if bool_decide (hidden_value l
                             = Some (SelectBox.join_values (selection_after true v prev)))
             then [] else [SelectBox.hidden_change])%list.
  rewrite Hout, Hget, <- !app_assoc. reflexivity.
Qed.

Lemma multiple_selection_toggles_witness :
  ∃ l', SelectBox.selectItem 2 (abc_local true true) = (inl tt, l')
    ∧ SelectBox.selectedValues (SelectBox.inst l') = [Some "c"]
    ∧ hidden_value l' = Some "c"
    ∧ fst (SelectBox.getValue l') = inl (SelectBox.Values [Some "c"]).
Proof.
  assert (Hc : constructed (abc_local true true)).
  { unfold constructed. vm_compute. repeat (split; [reflexivity|]).
    eexists _, _, _, _. repeat split; reflexivity. }
  assert (Hl : labelled (abc_local true true)).
  { intros _ c it Hc' Hit. vm_compute in Hc'. injection Hc' as <-.
    repeat (apply elem_of_cons in Hit as [->|Hit]; [eexists; reflexivity|]).
    inversion Hit. }
  assert (Hopt : options_of (abc_local true true) !! 2%nat
                 = Some (SelectBox.updateItemVisual false
                           (SelectBox.set_data_selected "false" (option_item "c" "Gamma"))))
    by (vm_compute; reflexivity).
  destruct (multiple_selection_toggles (abc_local true true) 2 _ Hc Hl eq_refl eq_refl Hopt)
    as (l' & it' & Hrun & Hadd & _ & _ & _ & _ & Hget & Hhid & _).
  assert (Hnot : Some "c" ∉ SelectBox.selectedValues
                               (SelectBox.inst (abc_local true true)))
    by (vm_compute; intros H; inversion H).
  destruct (Hadd Hnot) as [Hs _].
  exists l'. split; [exact Hrun|]. split; [exact Hs|].
  rewrite Hs in Hhid, Hget. split; [exact Hhid | exact Hget].
Defined.

(** X19.  A selection is ignored until the timer of the one before
    fired.  After [selectItem] on an option of a constructed instance (in
    either mode), the instance is in the middle of a selection: every
    further [selectItem], on any option, returns at once and changes nothing,
    so two calls in a row have the effect of the first.  When the timer set
    by the call fires, the instance is out of the selection again, with its
    set, its element and its events as they were. *)
Theorem selection_is_ignored_until_its_timer_fires (l : SelectBox.Local) (n : nat)
    (it : SelectBox.Item) :
  constructed l → labelled l → SelectBox.isSelecting (SelectBox.inst l) = false →
  options_of l !! n = Some it →
  ∃ l', SelectBox.selectItem n l = (inl tt, l')
    ∧ SelectBox.isSelecting (SelectBox.inst l') = true
    ∧ (∀ m, SelectBox.selectItem m l' = (inl tt, l'))
    ∧ (∀ m, (SelectBox.selectItem n ;; SelectBox.selectItem m) l
            = SelectBox.selectItem n l)
    ∧ last (SelectBox.out l')
      = Some (SelectBox.setTimeout SelectBox.clear_isSelecting 100)
    ∧ SelectBox.fire false SelectBox.clear_isSelecting l' = (inl tt, settled l')
    ∧ SelectBox.isSelecting (SelectBox.inst (settled l')) = false
    ∧ SelectBox.selectedValues (SelectBox.inst (settled l'))
      = SelectBox.selectedValues (SelectBox.inst l')
    ∧ SelectBox.el (settled l') = SelectBox.el l'
    ∧ SelectBox.out (settled l') = SelectBox.out l'.
Proof.
  intros Hcons Hlab Hsel Hit.
  destruct (selectItem_effect l n it Hcons Hlab Hsel Hit)
    as (l' & c' & ve & ve' & o' & Hrun & _ & _ & Hsel' & _ & _ & _ & _ & _ & _ & _
        & _ & _ & _ & _ & _ & _ & _ & Hout).
  assert (Hignored : ∀ m, SelectBox.selectItem m l' = (inl tt, l')).
  { intros m. unfold SelectBox.selectItem. rewrite L_bind_unfold.
    cbn [SelectBox.get]. rewrite Hsel'. reflexivity. }
  exists l'. split; [exact Hrun|]. split; [exact Hsel'|]. split; [exact Hignored|].
  split; [intros m; rewrite L_bind_unfold, Hrun; apply Hignored|].
  split.
  { rewrite Hout, !app_assoc.
    change [SelectBox.selectbox_change (SelectBox.getValue_of (SelectBox.inst l'))
              (SelectBox.selectedValues (SelectBox.inst l)) (Some n);
            SelectBox.setTimeout SelectBox.clear_isSelecting 100]
      with ([SelectBox.selectbox_change (SelectBox.getValue_of (SelectBox.inst l'))
               (SelectBox.selectedValues (SelectBox.inst l)) (Some n)]
            ++ [SelectBox.setTimeout SelectBox.clear_isSelecting 100])%list.
    rewrite app_assoc. apply last_snoc. }
  repeat split; reflexivity.
Qed.

Lemma selection_is_ignored_until_its_timer_fires_witness :
  ∃ l', SelectBox.selectItem 0 (abc_local false false) = (inl tt, l')
    ∧ SelectBox.selectItem 1 l' = (inl tt, l')
    ∧ fst (SelectBox.getValue l') = inl (SelectBox.Single (Some "a")).
Proof.
  assert (Hc : constructed (abc_local false false)).
  { unfold constructed. vm_compute. repeat (split; [reflexivity|]).
    eexists _, _, _, _. repeat split; reflexivity. }
  assert (Hl : labelled (abc_local false false)) 
    by (intros H; vm_compute in H; discriminate H).
  assert (Hopt : options_of (abc_local false false) !! 0%nat
                 = Some (SelectBox.updateItemVisual false
                           (SelectBox.set_data_selected "false" (option_item "a" "Alpha"))))
    by (vm_compute; reflexivity).
  destruct (selection_is_ignored_until_its_timer_fires (abc_local false false) 0 _
              Hc Hl eq_refl Hopt) as (l' & Hrun & _ & Hign & _).
  exists l'. split; [exact Hrun|]. split; [apply Hign|].
  vm_compute in Hrun. injection Hrun as <-. reflexivity.
Defined.

(** X20.  Selecting an option twice in multiple mode restores the
    selection.  On a constructed multiple-selection instance, for an option
    whose value is not in the set: after [selectItem] on it, the timer of
    that selection, and [selectItem] on it again, the set is the one from
    before, [getValue()] and the hidden input agree with it, the option is
    marked as not selected, with its value and label as they were, and the
    other options are as before. *)
Theorem toggling_twice_restores_the_selection (l : SelectBox.Local) (n : nat)
    (it : SelectBox.Item) :
  constructed l → labelled l → SelectBox.multiple (SelectBox.inst l) = true →
  SelectBox.isSelecting (SelectBox.inst l) = false →
  options_of l !! n = Some it →
  SelectBox.data_value it ∉ SelectBox.selectedValues (SelectBox.inst l) →
  let prev := SelectBox.selectedValues (SelectBox.inst l) in
  ∃ l1 l2 it2,
    SelectBox.selectItem n l = (inl tt, l1)
    ∧ SelectBox.selectItem n (settled l1) = (inl tt, l2)
    ∧ SelectBox.selectedValues (SelectBox.inst l2) = prev
    ∧ fst (SelectBox.getValue l2) = inl (SelectBox.Values prev)
    ∧ hidden_value l2 = Some (SelectBox.join_values prev)
    ∧ options_of l2 !! n = Some it2
    ∧ SelectBox.data_value it2 = SelectBox.data_value it
    ∧ SelectBox.item_text it2 = SelectBox.item_text it
    ∧ SelectBox.data_selected it2 = Some "false"
    ∧ ∀ j, j ≠ n → options_of l2 !! j = options_of l !! j.
Proof.
  intros Hcons Hlab Hm Hsel Hit Hnot prev.
  destruct (selectItem_effect l n it Hcons Hlab Hsel Hit)
    as (l1 & c1 & va & va' & o1 & Hrun1 & Hcons1 & Hlab1 & _ & Hm1 & _ & _ & _ & _
        & Hs1 & Hopts1 & _).
  rewrite Hm in *. fold prev in Hs1, Hopts1, Hnot.
  unfold selection_after in Hs1. unfold items_after in Hopts1.
  assert (Hhas : SelectBox.set_has (SelectBox.data_value it) prev = false).
  { destruct (SelectBox.set_has _ prev) eqn:H; [|reflexivity].
    apply set_has_true in H. contradiction. }
  rewrite Hhas in Hs1, Hopts1.
  destruct (multiple_items_lookup (options_of l) SelectBox.mark_selected n it Hit)
    as [Hn1 Hother1].
  assert (Hit1 : options_of (settled l1) !! n = Some (SelectBox.mark_selected it)).
  { change (options_of (settled l1)) with (options_of l1). rewrite Hopts1. exact Hn1. }
  destruct (selectItem_effect (settled l1) n _ (settled_constructed l1 Hcons1)
              (settled_labelled l1 Hlab1) eq_refl Hit1)
    as (l2 & c2 & vb & vb' & o2 & Hrun2 & _ & _ & _ & Hm2 & _ & _ & _ & _
        & Hs2 & Hopts2 & _ & Hhid2 & _).
  change (SelectBox.multiple (SelectBox.inst (settled l1)))
    with (SelectBox.multiple (SelectBox.inst l1)) in Hm2, Hs2, Hopts2, Hhid2.
  change (SelectBox.selectedValues (SelectBox.inst (settled l1)))
    with (SelectBox.selectedValues (SelectBox.inst l1)) in Hs2, Hopts2, Hhid2.
  change (options_of (settled l1)) with (options_of l1) in Hopts2.
  change (SelectBox.data_value (SelectBox.mark_selected it))
    with (SelectBox.data_value it) in Hs2, Hopts2, Hhid2.
  rewrite Hm1, Hs1 in Hs2, Hopts2, Hhid2. rewrite Hm1 in Hm2.
  unfold selection_after in Hs2, Hhid2. unfold items_after in Hopts2.
  assert (Hhas' : SelectBox.set_has (SelectBox.data_value it)
                    (SelectBox.set_add (SelectBox.data_value it) prev) = true).
  { apply set_has_true. unfold SelectBox.set_add. rewrite Hhas.
    apply elem_of_app. right. apply list_elem_of_singleton. reflexivity. }
  rewrite Hhas' in Hs2, Hopts2, Hhid2.
  rewrite (set_delete_set_add _ _ Hnot) in Hs2, Hhid2.
  destruct (multiple_items_lookup (options_of l1) SelectBox.mark_unselected n _
              (eq_trans (f_equal (fun o => o !! n) Hopts1) Hn1)) as [Hn2 Hother2].
  exists l1, l2, (SelectBox.mark_unselected (SelectBox.mark_selected it)).
  split; [exact Hrun1|]. split; [exact Hrun2|]. split; [exact Hs2|].
  split.
  { rewrite getValue_run. unfold SelectBox.getValue_of. rewrite Hm2, Hs2. reflexivity. }
  split; [exact Hhid2|].
  split; [rewrite Hopts2; exact Hn2|].
  do 3 (split; [reflexivity|]).
  intros j Hj. rewrite Hopts2, (Hother2 j Hj), Hopts1. apply Hother1, Hj.
Qed.

Lemma toggling_twice_restores_the_selection_witness :
  ∃ l1 l2, SelectBox.selectItem 2 (abc_local true true) = (inl tt, l1)
    ∧ SelectBox.selectItem 2 (settled l1) = (inl tt, l2)
    ∧ SelectBox.selectedValues (SelectBox.inst l1) = [Some "c"]
    ∧ SelectBox.selectedValues (SelectBox.inst l2) = [].
Proof.
  assert (Hc : constructed (abc_local true true)).
  { unfold constructed. vm_compute. repeat (split; [reflexivity|]).
    eexists _, _, _, _. repeat split; reflexivity. }
  assert (Hl : labelled (abc_local true true)).
  { intros _ c it Hc' Hit. vm_compute in Hc'. injection Hc' as <-.
    repeat (apply elem_of_cons in Hit as [->|Hit]; [eexists; reflexivity|]).
    inversion Hit. }
  assert (Hopt : options_of (abc_local true true) !! 2%nat
                 = Some (SelectBox.updateItemVisual false
                           (SelectBox.set_data_selected "false" (option_item "c" "Gamma"))))
    by (vm_compute; reflexivity).
  assert (Hnot : Some "c" ∉ SelectBox.selectedValues
                               (SelectBox.inst (abc_local true true)))
    by (vm_compute; intros H; inversion H).
  destruct (toggling_twice_restores_the_selection (abc_local true true) 2 _ Hc Hl
              eq_refl eq_refl Hopt Hnot) as (l1 & l2 & it2 & Hrun1 & Hrun2 & Hs2 & _).
  exists l1, l2. split; [exact Hrun1|]. split; [exact Hrun2|].
  split; [|exact Hs2].
  vm_compute in Hrun1. injection Hrun1 as <-. reflexivity.
Defined.

(** ** Selection control: an option without a label *)
Section Unlabelled.
Import SelectBox.

Lemma pill_labels_throws (its : list Item) (l : Local) :
  (∃ it, it ∈ its ∧ item_text it = None) →
  pill_labels its l = (inr JS.TypeError, l).
Proof.
  induction its as [|it0 r IH]; intros (it & Hin & Hnone); [inversion Hin|].
  cbn [pill_labels]. destruct (item_text it0) eqn:Ht0; [|reflexivity].
  rewrite L_bind_unfold, IH; [reflexivity|].
  apply elem_of_cons in Hin as [-> | Hin]; [congruence|]. eauto.
Qed.

(** [updateDisplay] in pills mode, when an option marked as selected has no
    label: it throws after it emptied the summary. *)
Lemma updateDisplay_throws (l : Local) (t : Trigger) (c : Content) (v : ValueEl) :
  bound_content (inst l) = true → bound_valueEl (inst l) = true →
  trigger (el l) = Some t → content (el l) = Some c → valueEl t = Some v →
  multiple (inst l) = true → showPills (inst l) = true →
  (∃ it, it ∈ selected_items c ∧ item_text it = None) →
  updateDisplay l
  = (inr JS.TypeError,
     {| inst := inst l;
        el := set_trigger
                (set_valueEl
                   (set_shown (Text "")
                      (set_value_classes (JS.class_remove muted (value_classes v)) v)) t)
                (el l);
        has_closePopover := has_closePopover l; out := out l |}).
Proof.
  intros Hbc Hbv Ht Hc Hv Hm Hp Hbare. destruct l as [i e cp o]. cbn in *.
  destruct e as [mk sr cl tr ct]; cbn in Ht, Hc; subst tr ct.
  destruct t as [cid ve hi dm dp dt tsr ch dis]; cbn in Hv; subst ve.
  unfold updateDisplay, the_content, the_valueEl. exec. rewrite Hbc. cbn.
  destruct (selected_items c) as [|first rest] eqn:Hsel;
    [destruct Hbare as (it & Hin & _); inversion Hin|].
  exec. rewrite Hbv, Hm, Hp. cbn.
  unfold renderPills, the_valueEl. exec. rewrite Hbv. cbn -[pill_labels].
  rewrite pill_labels_throws by exact Hbare. reflexivity.
Qed.

End Unlabelled.

(** X21.  An option without a label locks a control that shows pills.
    On a constructed multiple-selection instance that renders pills and is
    not in the middle of a selection, [selectItem] on an option that has no
    [.select-item-text] child and whose value is not in the set throws a
    [TypeError].  The call leaves the value in the set and the option marked
    as selected, the summary empty, the hidden input as it was and no event
    or timer; the instance stays in the middle of the selection, so every
    later [selectItem] returns at once and changes nothing. *)
Theorem unlabelled_option_locks_the_pills (l : SelectBox.Local) (n : nat)
    (it : SelectBox.Item) :
  constructed l → SelectBox.multiple (SelectBox.inst l) = true →
  SelectBox.showPills (SelectBox.inst l) = true →
  SelectBox.isSelecting (SelectBox.inst l) = false →
  options_of l !! n = Some it → SelectBox.item_text it = None →
  SelectBox.data_value it ∉ SelectBox.selectedValues (SelectBox.inst l) →
  ∃ l', SelectBox.selectItem n l = (inr JS.TypeError, l')
    ∧ SelectBox.isSelecting (SelectBox.inst l') = true
    ∧ SelectBox.selectedValues (SelectBox.inst l')
      = (SelectBox.selectedValues (SelectBox.inst l) ++ [SelectBox.data_value it])%list
    ∧ marked_selected l' n
    ∧ summary l' = Some (SelectBox.Text "")
    ∧ hidden_value l' = hidden_value l
    ∧ SelectBox.out l' = SelectBox.out l
    ∧ ∀ m, SelectBox.selectItem m l' = (inl tt, l').
Proof.
  intros (Hbt & Hbc & Hbv & Hbh & t & c & v & h & Ht & Hc & Hv & Hh) Hm Hp Hsel Hit
    Hnone Hnot.
  unfold options_of in Hit. rewrite Hc in Hit.
  destruct l as [i e cp o]. cbn [SelectBox.inst SelectBox.el SelectBox.has_closePopover
                                   SelectBox.out] in *.
  set (value := SelectBox.data_value it) in *.
  set (prev := SelectBox.selectedValues i) in *.
  assert (Hhas : SelectBox.set_has value prev = false).
  { destruct (SelectBox.set_has value prev) eqn:H; [|reflexivity].
    apply set_has_true in H. contradiction. }
  pose (c' := SelectBox.set_items (alter SelectBox.mark_selected n (SelectBox.items c)) c).
  pose (i2 := SelectBox.set_state true (prev ++ [value])%list i).
  pose (e2 := SelectBox.set_content c' e).
  assert (Hn : SelectBox.items c' !! n = Some (SelectBox.mark_selected it)).
  { cbn. rewrite list_lookup_alter_eq, Hit. reflexivity. }
  assert (Hbare : ∃ it', it' ∈ SelectBox.selected_items c' ∧ SelectBox.item_text it' = None).
  { exists (SelectBox.mark_selected it). split; [|exact Hnone].
    unfold SelectBox.selected_items. apply list_elem_of_filter.
    split; [reflexivity|]. eapply list_elem_of_lookup_2. exact Hn. }
  pose proof (updateDisplay_throws
                {| SelectBox.inst := i2; SelectBox.el := e2;
                   SelectBox.has_closePopover := cp; SelectBox.out := (o ++ [])%list |}
                t c' v Hbc Hbv Ht eq_refl Hv Hm Hp Hbare) as Hdisp.
  cbn [SelectBox.inst SelectBox.el SelectBox.has_closePopover SelectBox.out] in Hdisp.
  eexists. split.
  { unfold SelectBox.selectItem. rewrite L_bind_unfold.
    cbn [SelectBox.get SelectBox.inst]. rewrite Hsel.
    rewrite L_bind_unfold.
    cbn [SelectBox.modify_inst SelectBox.inst SelectBox.el SelectBox.has_closePopover
           SelectBox.out].
    rewrite L_bind_unfold. unfold SelectBox.the_item at 1. rewrite L_bind_unfold.
    cbn [SelectBox.get SelectBox.el]. rewrite Hc. cbn [mbind option_bind].
    rewrite Hit. cbn [SelectBox.ret]. cbv zeta.
    rewrite L_bind_unfold, (selectItem_phase i e cp o c n _ _ Hbc Hc).
    unfold selection_after, items_after, closing. rewrite Hm. fold value prev.
    rewrite Hhas. unfold SelectBox.set_add. rewrite Hhas.
    rewrite L_bind_unfold.
    match goal with
    | |- context [SelectBox.updateDisplay ?l0] =>
        change (SelectBox.updateDisplay l0)
          with (SelectBox.updateDisplay
                  {| SelectBox.inst := i2; SelectBox.el := e2;
                     SelectBox.has_closePopover := cp;
                     SelectBox.out := (o ++ [])%list |})
    end.
    rewrite Hdisp. reflexivity. }
  cbn [SelectBox.inst SelectBox.el SelectBox.has_closePopover SelectBox.out].
  split; [reflexivity|]. split; [reflexivity|].
  split.
  { exists (SelectBox.mark_selected it). split; [|reflexivity].
    unfold options_of. cbn. rewrite list_lookup_alter_eq, Hit. reflexivity. }
  split; [reflexivity|].
  split; [unfold hidden_value; cbn; rewrite Ht; reflexivity|].
  split; [apply app_nil_r|].
  intros m. unfold SelectBox.selectItem. rewrite L_bind_unfold. reflexivity.
Qed.

Lemma unlabelled_option_locks_the_pills_witness :
  ∃ l', SelectBox.selectItem 1 icon_local = (inr JS.TypeError, l')
    ∧ SelectBox.selectedValues (SelectBox.inst l') = [Some "x"]
    ∧ hidden_value l' = Some ""
    ∧ SelectBox.selectItem 0 l' = (inl tt, l').
Proof.
  assert (Hc : constructed icon_local).
  { unfold constructed. vm_compute. repeat (split; [reflexivity|]).
    eexists _, _, _, _. repeat split; reflexivity. }
  assert (Hopt : options_of icon_local !! 1%nat = Some (icon_item "x"))
    by (vm_compute; reflexivity).
  assert (Hnot : SelectBox.data_value (icon_item "x")
                 ∉ SelectBox.selectedValues (SelectBox.inst icon_local))
    by (vm_compute; intros H; inversion H).
  assert (Hm : SelectBox.multiple (SelectBox.inst icon_local) = true)
    by (vm_compute; reflexivity).
  assert (Hp : SelectBox.showPills (SelectBox.inst icon_local) = true)
    by (vm_compute; reflexivity).
  assert (Hs : SelectBox.isSelecting (SelectBox.inst icon_local) = false)
    by (vm_compute; reflexivity).
  assert (Hv : SelectBox.selectedValues (SelectBox.inst icon_local) = [])
    by (vm_compute; reflexivity).
  assert (Hh : hidden_value icon_local = Some "") by (vm_compute; reflexivity).
  destruct (unlabelled_option_locks_the_pills icon_local 1 _ Hc Hm Hp Hs Hopt eq_refl Hnot)
    as (l' & Hrun & _ & Hsel & _ & _ & Hhid & _ & Hign).
  exists l'. split; [exact Hrun|]. rewrite Hv in Hsel. rewrite Hh in Hhid.
  split; [exact Hsel|]. split; [exact Hhid | apply Hign].
Defined.

(** ** Selection control: reset *)

(** X22.  [reset()] brings the control back to its blank state.  On a
    constructed instance [reset()] returns; afterwards [getValue()] is the
    empty array in multiple mode and [null] in single mode, the summary
    shows the placeholder with the muted class, the hidden input is empty,
    every option is marked as not selected and keeps its value, and the
    last event is one [selectbox:reset] with the values from before.  When
    the control has a search field with its listener attached, the field
    is empty and every option is visible again.  A selection in progress
    stays in progress. *)
Theorem reset_restores_the_blank_control (l : SelectBox.Local) :
  constructed l →
  ∃ l', SelectBox.reset l = (inl tt, l')
    ∧ fst (SelectBox.getValue l')
      = inl (if SelectBox.multiple (SelectBox.inst l) then SelectBox.Values []
             else SelectBox.Single None)
    ∧ summary l'
      = Some (SelectBox.Text (default "" (SelectBox.placeholder (SelectBox.inst l))))
    ∧ (∃ cls, summary_classes l' = Some cls ∧ "text-muted-foreground" ∈ cls)
    ∧ hidden_value l' = Some ""
    ∧ (∀ it, it ∈ options_of l' → SelectBox.data_selected it = Some "false")
    ∧ SelectBox.data_value <$> options_of l' = SelectBox.data_value <$> options_of l
    ∧ (is_Some (search_field l) →
       (SelectBox.on_search, "input") ∈ SelectBox.listeners (SelectBox.inst l) →
       search_field l' = Some ""
       ∧ ∀ it, it ∈ options_of l' → SelectBox.item_display it = "")
    ∧ SelectBox.isSelecting (SelectBox.inst l') = SelectBox.isSelecting (SelectBox.inst l)
    ∧ last (SelectBox.out l')
      = Some (SelectBox.selectbox_reset (SelectBox.selectedValues (SelectBox.inst l))).
Proof.
  intros (Hbt & Hbc & Hbv & Hbh & t & c & ve & h & Ht & Hc & Hve & Hh).
  destruct l as [i e cp o]. cbn in *.
  destruct e as [mk sr cl tr ct]; cbn in Ht, Hc; subst tr ct.
  destruct t as [cid ve' hi dm dp dt tsr ch dis]; cbn in Hve, Hh; subst ve' hi.
  destruct i as [el0 mu sp se co sct isel sv ls b1 b2 b3 b4 ph ich erh dl rc].
  cbn in Hbt, Hbc, Hbv, Hbh. subst b1 b2 b3 b4.
  destruct c as [its sch].
  assert (Hmuted : ∀ cls, "text-muted-foreground" ∈ JS.class_add SelectBox.muted cls).
  { intros cls. apply elem_of_class_add. right. left. }
  unfold SelectBox.reset, SelectBox.updateResetButtonVisibility, SelectBox.clear_search,
    SelectBox.on_search_input.
  unfold SelectBox.the_content, SelectBox.the_valueEl, SelectBox.the_hiddenInput.
  destruct rc as [d|], sch as [q|]; exec;
    try (destruct (bool_decide_reflect ((SelectBox.on_search, "input") ∈ ls)); exec);
    (eexists; split; [reflexivity|]);
    unfold summary, summary_classes, hidden_value, options_of, search_field; cbn;
    (split; [destruct mu; reflexivity|]); (split; [reflexivity|]);
    (split; [eexists; split; [reflexivity | apply Hmuted]|]); (split; [reflexivity|]);
    (split; [intros it Hit; repeat (apply list_elem_of_fmap in Hit as (? & -> & Hit));
             reflexivity|]);
    (split; [rewrite <- ?list_fmap_compose; apply list_fmap_ext; intros; reflexivity|]);
    (split; [|split; [reflexivity | rewrite ?app_assoc; apply last_snoc]]);
    intros Hsome Hls; try (destruct Hsome as [? Hsome]; discriminate Hsome);
    try contradiction;
    (split; [reflexivity|]);
    intros it Hit; repeat (apply list_elem_of_fmap in Hit as (? & -> & Hit));
    reflexivity.
Qed.

Lemma reset_restores_the_blank_control_witness :
  ∃ l', SelectBox.reset (abc_local true false) = (inl tt, l')
    ∧ summary l' = Some (SelectBox.Text "Choose")
    ∧ fst (SelectBox.getValue l') = inl (SelectBox.Values []).
Proof.
  assert (Hc : constructed (abc_local true false)).
  { unfold constructed. vm_compute. repeat (split; [reflexivity|]).
    eexists _, _, _, _. repeat split; reflexivity. }
  destruct (reset_restores_the_blank_control (abc_local true false) Hc)
    as (l' & Hrun & Hget & Hsum & _).
  exists l'. split; [exact Hrun|].
  assert (Hp : SelectBox.placeholder (SelectBox.inst (abc_local true false))
               = Some "Choose") by (vm_compute; reflexivity).
  assert (Hm : SelectBox.multiple (SelectBox.inst (abc_local true false)) = true)
    by (vm_compute; reflexivity).
  rewrite Hp in Hsum. rewrite Hm in Hget. split; [exact Hsum | exact Hget].
Defined.

(** ** Selection control: after destroy *)
Section Destroyed.
Import SelectBox.

(** A method call that returns the state it found leaves the page as it
    is. *)
Lemma invoke_idle {A} (this : nat) (m : L A) (w : World) (i : Instance) (e : Element)
    (a : A) :
  heap w !! this = Some i → page w !! element i = Some e →
  (∀ l, inst l = i → m l = (inl a, l)) →
  invoke this m w = (inl a, w).
Proof.
  intros Hh Hp Hm. rewrite (invoke_unfold _ _ _ _ _ Hh Hp). cbv zeta.
  rewrite Hm by reflexivity. cbn.
  rewrite (list_insert_id _ _ _ Hp), (list_insert_id _ _ _ Hh), app_nil_r.
  destruct w; reflexivity.
Qed.

(** No object of element [e] has its click handler on the document: a
    click on an item of [e] changes nothing. *)
Lemma click_objects_idle (e n : nat) (ee : Element) (objects : list nat) (w : World) :
  page w !! e = Some ee →
  (∀ that i', that ∈ objects → heap w !! that = Some i' → element i' = e →
              "itemClick" ∉ document_listeners i') →
  SelectKeys.click_objects e n objects w = (inl tt, w).
Proof.
  intros Hp. induction objects as [|this rest IH]; intros Hnone; [reflexivity|].
  cbn [SelectKeys.click_objects].
  assert (Hthis : SelectKeys.object_click e n this w = (inl tt, w)).
  { unfold SelectKeys.object_click. destruct (heap w !! this) as [i|] eqn:Hh; [|reflexivity].
    destruct (decide (element i = e)) as [He|]; [|reflexivity].
    rewrite (invoke_idle this (document_click_on_item n) w i ee tt Hh);
      [reflexivity | rewrite He; exact Hp|].
    intros l Hl. unfold document_click_on_item. rewrite L_bind_unfold.
    cbn [get]. rewrite Hl. rewrite bool_decide_eq_false_2; [reflexivity|].
    apply (Hnone this i); [left | exact Hh | exact He]. }
  rewrite Hthis. cbn [snd]. apply IH.
  intros that i' Hin. apply Hnone. right. exact Hin.
Qed.

End Destroyed.

(** X23.  A destroyed control no longer reacts.  For an object of the
    page whose document click handler is set, and when no other object of
    the same element has a click handler on the document, [destroy()]
    returns; after it, a click on any option of the element, as the
    document sees it, selects nothing and leaves the page as it is, and the
    convenience methods of [templUI.selectbox] called for the element return
    [undefined] and leave the page as it is. *)
Theorem destroyed_control_no_longer_reacts (this : nat) (w : SelectBox.World)
    (i : SelectBox.Instance) (e : SelectBox.Element) :
  SelectBox.heap w !! this = Some i →
  SelectBox.page w !! SelectBox.element i = Some e →
  SelectBox.itemClickHandler i = true →
  (∀ that i', that ≠ this → SelectBox.heap w !! that = Some i' →
              SelectBox.element i' = SelectBox.element i →
              "itemClick" ∉ SelectBox.document_listeners i') →
  ∃ w', SelectBox.destroy this w = (inl tt, w')
    ∧ (∀ n, SelectKeys.document_click (SelectBox.element i) n w' = (inl tt, w'))
    ∧ (∀ n, SelectBox.invoke this (SelectBox.document_click_on_item n) w' = (inl tt, w'))
    ∧ (∀ v engine,
         SelectBox.proxy (Some (SelectBox.element i)) (SelectBox.setValue engine v) w'
         = (inl None, w'))
    ∧ SelectBox.proxy (Some (SelectBox.element i)) SelectBox.getValue w' = (inl None, w')
    ∧ SelectBox.proxy (Some (SelectBox.element i)) SelectBox.reset w' = (inl None, w')
    ∧ SelectBox.proxy (Some (SelectBox.element i)) SelectBox.enable w' = (inl None, w')
    ∧ SelectBox.proxy (Some (SelectBox.element i)) SelectBox.disable w' = (inl None, w').
Proof.
  intros Hh Hp Hich Hothers. unfold SelectBox.destroy.
  unfold mbind at 1. unfold SelectBox.W_mbind, SelectBox.W_bind.
  rewrite (invoke_unfold _ _ _ _ _ Hh Hp). cbn.
  unfold SelectBox.read. cbn.
  rewrite list_lookup_insert_eq by (eapply lookup_lt_Some; eassumption).
  cbn. eexists. split; [reflexivity|].
  assert (Hproxy : ∀ A (m : SelectBox.L A) w0,
            SelectBox.instances w0 !! SelectBox.element i = None →
            SelectBox.proxy (Some (SelectBox.element i)) m w0 = (inl None, w0)).
  { intros A m w0 Hnone. unfold SelectBox.proxy. rewrite W_bind_unfold.
    unfold SelectBox.getInstance. cbn. rewrite Hnone. reflexivity. }
  assert (Hgone : "itemClick"
                  ∉ filter (fun name =>
                              ¬ (name = "itemClick" ∧ SelectBox.itemClickHandler i = true)
                              ∧ ¬ (name = "externalReset"
                                   ∧ SelectBox.externalResetHandler i = true))
                      (SelectBox.document_listeners i)).
  { intros Hin. apply list_elem_of_filter in Hin as [[Hno _] _].
    apply Hno. split; [reflexivity | exact Hich]. }
  split.
  { intros n. unfold SelectKeys.document_click.
    eapply click_objects_idle.
    - cbn. apply list_lookup_insert_eq. eapply lookup_lt_Some; eassumption.
    - intros that i' _. cbn [SelectBox.heap]. destruct (decide (that = this)) as [->|Hne].
      + rewrite list_lookup_insert_eq by (eapply lookup_lt_Some; eassumption).
        intros [= <-] _. exact Hgone.
      + rewrite list_lookup_insert_ne by congruence. apply Hothers. exact Hne. }
  split.
  { intros n. eapply invoke_idle.
    - cbn. apply list_lookup_insert_eq. eapply lookup_lt_Some; eassumption.
    - cbn. apply list_lookup_insert_eq. eapply lookup_lt_Some; eassumption.
    - intros l Hl. unfold SelectBox.document_click_on_item. rewrite L_bind_unfold.
      cbn [SelectBox.get]. rewrite Hl. cbn.
      rewrite bool_decide_eq_false_2; [reflexivity | exact Hgone]. }
  repeat split; intros; apply Hproxy; cbn; apply lookup_delete_eq.
Qed.

Lemma destroyed_control_no_longer_reacts_witness :
  ∃ w', SelectBox.destroy 0 (after SelectBox.init_page (page_of [abc_container false false]))
        = (inl tt, w')
    ∧ SelectKeys.document_click 0 1 w' = (inl tt, w')
    ∧ SelectBox.proxy (Some 0%nat) SelectBox.getValue w' = (inl None, w').
Proof.
  set (w := after SelectBox.init_page (page_of [abc_container false false])).
  assert (Hh : SelectBox.heap w !! 0%nat
               = Some (SelectBox.inst (abc_local false false)))
    by (vm_compute; reflexivity).
  assert (He : SelectBox.element (SelectBox.inst (abc_local false false)) = 0%nat)
    by (vm_compute; reflexivity).
  assert (Hp : SelectBox.page w
                 !! SelectBox.element (SelectBox.inst (abc_local false false))
               = Some (SelectBox.el (abc_local false false)))
    by (vm_compute; reflexivity).
  assert (Hich : SelectBox.itemClickHandler (SelectBox.inst (abc_local false false))
                 = true) by (vm_compute; reflexivity).
  assert (Hone : length (SelectBox.heap w) = 1%nat) by (vm_compute; reflexivity).
  destruct (destroyed_control_no_longer_reacts 0 w _ _ Hh Hp Hich)
    as (w' & Hrun & Hclick & _ & _ & Hget & _).
  { intros that i' Hne Hthat. apply lookup_lt_Some in Hthat. lia. }
  rewrite He in Hget, Hclick.
  exists w'. split; [exact Hrun|]. split; [apply Hclick | exact Hget].
Defined.

(** ** Selection control: hover *)
Section Hover.
Import SelectBox SelectKeys.

Lemma elem_of_accent (c : string) :
  c ∈ accent ↔ c = "bg-accent" ∨ c = "text-accent-foreground".
Proof.
  unfold accent. rewrite !elem_of_cons, elem_of_nil. tauto.
Qed.

Lemma highlight_other_plain (cl : list string) :
  ∀ c, c ∈ hover_classes → c ∉ JS.class_remove hover_classes cl.
Proof. intros c Hc [_ H]%elem_of_class_remove. contradiction. Qed.

End Hover.

(** X24.  Hovering an option and leaving the list.  On an instance with
    its content, a pointer over an option that is not disabled returns and
    leaves every other option without the accent classes and without
    [bg-muted], also the options marked as selected; the hovered option
    has the accent classes unless it is marked as selected, in which case its
    classes are kept.  When the pointer then leaves the content, every
    option has the accent classes exactly when it is marked as selected, and
    none has [bg-muted].  Neither step changes the instance, the marks and
    values of the options, or dispatches anything. *)
Theorem hover_then_leave (l : SelectBox.Local) (i : nat) (it : SelectBox.Item) :
  SelectBox.bound_content (SelectBox.inst l) = true →
  options_of l !! i = Some it →
  SelectBox.data_disabled it ≠ Some "true" →
  ∃ l1 l2,
    SelectKeys.content_mouseover (Some i) l = (inl tt, l1)
    ∧ SelectKeys.content_mouseleave l1 = (inl tt, l2)
    ∧ (∀ k it1, k ≠ i → options_of l1 !! k = Some it1 → plain_look it1)
    ∧ (∃ it1, options_of l1 !! i = Some it1
              ∧ if bool_decide (SelectBox.data_selected it = Some "true")
                then SelectBox.item_classes it1 = SelectBox.item_classes it
                else accented it1)
    ∧ (∀ it2, it2 ∈ options_of l2 →
         (accented it2 ↔ SelectBox.data_selected it2 = Some "true")
         ∧ "bg-muted" ∉ SelectBox.item_classes it2)
    ∧ SelectBox.data_selected <$> options_of l2 = SelectBox.data_selected <$> options_of l
    ∧ SelectBox.data_value <$> options_of l2 = SelectBox.data_value <$> options_of l
    ∧ SelectBox.inst l2 = SelectBox.inst l ∧ SelectBox.out l2 = SelectBox.out l.
Proof.
  intros Hbc Hit Hdis. destruct l as [ins e cp o]. unfold options_of in *.
  cbn [SelectBox.inst SelectBox.el SelectBox.out] in *.
  destruct e as [mk sr cl tr [c|]]; cbn in Hit; [|discriminate].
  destruct c as [its sch]. cbn in Hit.
  set (others := imap (fun k el =>
                         if decide (k = i) then el
                         else SelectKeys.set_item_classes
                                (JS.class_remove SelectKeys.hover_classes
                                   (SelectBox.item_classes el)) el) its).
  assert (Hi : others !! i = Some it).
  { unfold others. rewrite list_lookup_imap, Hit. cbn. rewrite decide_True by reflexivity.
    reflexivity. }
  set (hovered := if bool_decide (SelectBox.data_selected it = Some "true") then others
                  else alter (fun x => SelectKeys.set_item_classes
                                         (JS.class_add SelectBox.accent
                                            (SelectBox.item_classes x)) x) i others).
  set (rule := fun item =>
                 if bool_decide (SelectBox.data_selected item = Some "true")
                 then SelectKeys.set_item_classes
                        (JS.class_remove ["bg-muted"]
                           (JS.class_add SelectBox.accent (SelectBox.item_classes item)))
                        item
                 else SelectKeys.set_item_classes
                        (JS.class_remove SelectKeys.hover_classes
                           (SelectBox.item_classes item)) item).
  exists {| SelectBox.inst := ins;
            SelectBox.el := {| SelectBox.data_initialized := mk;
                               SelectBox.el_show_reset := sr; SelectBox.el_classes := cl;
                               SelectBox.trigger := tr;
                               SelectBox.content :=
                                 Some {| SelectBox.items := hovered;
                                         SelectBox.search := sch |} |};
            SelectBox.has_closePopover := cp; SelectBox.out := o |},
         {| SelectBox.inst := ins;
            SelectBox.el := {| SelectBox.data_initialized := mk;
                               SelectBox.el_show_reset := sr; SelectBox.el_classes := cl;
                               SelectBox.trigger := tr;
                               SelectBox.content :=
                                 Some {| SelectBox.items := rule <$> hovered;
                                         SelectBox.search := sch |} |};
            SelectBox.has_closePopover := cp; SelectBox.out := o |}.
  split.
  { unfold SelectKeys.content_mouseover, SelectBox.the_item. exec. rewrite Hit. cbn.
    rewrite bool_decide_eq_false_2 by exact Hdis. cbn.
    unfold SelectKeys.highlightItem, SelectBox.the_content, SelectBox.the_item. exec.
    rewrite Hbc. cbn. fold others. rewrite Hi. cbn. unfold hovered.
    destruct (bool_decide (SelectBox.data_selected it = Some "true")); reflexivity. }
  split.
  { unfold SelectKeys.content_mouseleave, SelectKeys.resetItemStyles,
      SelectBox.the_content. exec. rewrite Hbc. reflexivity. }
  cbn [SelectBox.el SelectBox.content SelectBox.items SelectBox.inst SelectBox.out].
  assert (Hother : ∀ k it1, k ≠ i → hovered !! k = Some it1 →
            ∃ it0, its !! k = Some it0
                   ∧ it1 = SelectKeys.set_item_classes
                             (JS.class_remove SelectKeys.hover_classes
                                (SelectBox.item_classes it0)) it0).
  { intros k it1 Hk Hl1.
    assert (Hl0 : others !! k = Some it1).
    { unfold hovered in Hl1. destruct (bool_decide _); [exact Hl1|].
      rewrite list_lookup_alter_ne in Hl1 by congruence. exact Hl1. }
    unfold others in Hl0. rewrite list_lookup_imap in Hl0.
    destruct (its !! k) as [it0|]; [|discriminate]. cbn in Hl0.
    rewrite decide_False in Hl0 by exact Hk. injection Hl0 as <-. eauto. }
  assert (Hmarks : SelectBox.data_selected <$> hovered = SelectBox.data_selected <$> its
                   ∧ SelectBox.data_value <$> hovered = SelectBox.data_value <$> its).
  { assert (Ho : SelectBox.data_selected <$> others = SelectBox.data_selected <$> its
                 ∧ SelectBox.data_value <$> others = SelectBox.data_value <$> its).
    { split; apply list_eq; intros k; unfold others;
        rewrite !list_lookup_fmap, list_lookup_imap;
        (destruct (its !! k); cbn; [destruct (decide (k = i))|]; reflexivity). }
    destruct Ho as [Ho1 Ho2]. unfold hovered. destruct (bool_decide _); [done|].
    split; [rewrite <- Ho1 | rewrite <- Ho2];
      apply list_eq; intros k; rewrite !list_lookup_fmap;
      (destruct (decide (k = i)) as [->|Hk];
       [rewrite list_lookup_alter_eq; destruct (others !! i); reflexivity
       |rewrite list_lookup_alter_ne by congruence; reflexivity]). }
  split.
  { intros k it1 Hk Hl1. destruct (Hother k it1 Hk Hl1) as (it0 & _ & ->).
    intros c Hc. apply highlight_other_plain. exact Hc. }
  split.
  { unfold hovered. destruct (bool_decide _).
    - exists it. split; [exact Hi | reflexivity].
    - eexists. rewrite list_lookup_alter_eq, Hi. split; [reflexivity|].
      split; cbn [SelectKeys.set_item_classes SelectBox.set_item_look SelectBox.item_classes];
        apply elem_of_class_add; right; apply elem_of_accent; tauto. }
  split.
  { intros it2 Hin. apply list_elem_of_fmap in Hin as (it1 & -> & _). unfold rule.
    unfold accented.
    case_bool_decide as Hs;
      cbn [SelectKeys.set_item_classes SelectBox.set_item_look SelectBox.item_classes
             SelectBox.data_selected].
    - split.
      + split; [intros _; exact Hs|]. intros _.
        split; apply elem_of_class_remove;
          (split; [apply elem_of_class_add; right; apply elem_of_accent; tauto|]);
          intros H%list_elem_of_singleton; discriminate H.
      + intros [_ H]%elem_of_class_remove. apply H. left.
    - split.
      + split; [|intros H; contradiction].
        intros [[_ H]%elem_of_class_remove _]. exfalso. apply H. left.
      + intros [_ H]%elem_of_class_remove. apply H. right. right. left. }
  destruct Hmarks as [Hm1 Hm2].
  split; [rewrite <- Hm1, <- list_fmap_compose; apply list_fmap_ext; intros k x _;
          unfold rule, compose;
          destruct (bool_decide (SelectBox.data_selected x = Some "true"));
          reflexivity|].
  split; [rewrite <- Hm2, <- list_fmap_compose; apply list_fmap_ext; intros k x _;
          unfold rule, compose;
          destruct (bool_decide (SelectBox.data_selected x = Some "true"));
          reflexivity|].
  split; reflexivity.
Qed.

Lemma hover_then_leave_witness :
  ∃ l1 l2,
    SelectKeys.content_mouseover (Some 1%nat) (abc_local false false) = (inl tt, l1)
    ∧ SelectKeys.content_mouseleave l1 = (inl tt, l2)
    ∧ options_of l2 = options_of (abc_local false false).
Proof.
  assert (Hopt : options_of (abc_local false false) !! 1%nat
                 = Some (SelectBox.updateItemVisual false
                           (SelectBox.set_data_selected "false" (option_item "b" "Beta"))))
    by (vm_compute; reflexivity).
  assert (Hb : SelectBox.bound_content (SelectBox.inst (abc_local false false)) = true)
    by (vm_compute; reflexivity).
  destruct (hover_then_leave (abc_local false false) 1 _ Hb Hopt)
    as (l1 & l2 & Hover & Hleave & _); [discriminate|].
  exists l1, l2. split; [exact Hover|]. split; [exact Hleave|].
  vm_compute in Hover. injection Hover as <-.
  vm_compute in Hleave. injection Hleave as <-. vm_compute. reflexivity.
Defined.

(** ** Selection control: the arrow keys *)
Section Arrows.
Import SelectBox SelectKeys.

Lemma elem_of_visible_from (its : list Item) :
  ∀ k j, j ∈ visible_from k its
         ↔ (k ≤ j)%nat ∧ ∃ it, its !! (j - k)%nat = Some it ∧ item_display it ≠ "none".
Proof.
  induction its as [|it r IH]; intros k j; cbn [visible_from].
  - split; [intros H; inversion H|]. intros (_ & it & H & _). discriminate H.
  - assert (Hstep : (S k ≤ j)%nat → (j - k = S (j - S k))%nat) by lia.
    assert (Hrest : j ∈ visible_from (S k) r
                    ↔ (k < j)%nat
                      ∧ ∃ it0, (it :: r) !! (j - k)%nat = Some it0
                               ∧ item_display it0 ≠ "none").
    { rewrite IH. split; intros (Hle & it0 & Hl & Hd); (split; [lia|]); exists it0;
        (split; [|exact Hd]); rewrite (Hstep ltac:(lia)) in *; exact Hl. }
    destruct (String.eqb_spec (item_display it) "none") as [Hnone|Hshown].
    + rewrite Hrest. split; [intros (Hlt & H); split; [lia | exact H]|].
      intros (Hle & it0 & Hl & Hd). split; [|eauto].
      destruct (decide (j = k)) as [->|]; [|lia].
      rewrite Nat.sub_diag in Hl. injection Hl as <-. contradiction.
    + rewrite elem_of_cons, Hrest. split.
      * intros [->|(Hlt & H)]; [|split; [lia | exact H]].
        split; [lia|]. exists it. rewrite Nat.sub_diag. split; [reflexivity | exact Hshown].
      * intros (Hle & H). destruct (decide (j = k)) as [->|]; [left; reflexivity|].
        right. split; [lia | exact H].
Qed.

Lemma NoDup_visible_from (its : list Item) : ∀ k, NoDup (visible_from k its).
Proof.
  induction its as [|it r IH]; intros k; cbn [visible_from]; [constructor|].
  destruct (String.eqb (item_display it) "none"); [apply IH|].
  apply NoDup_cons. split; [|apply IH].
  intros [Hle _]%elem_of_visible_from. lia.
Qed.

Lemma visible_from_increasing (its : list Item) :
  ∀ k p q i j, (p < q)%nat → visible_from k its !! p = Some i →
               visible_from k its !! q = Some j → (i < j)%nat.
Proof.
  induction its as [|it r IH]; intros k p q i j Hpq Hp Hq; cbn [visible_from] in *;
    [discriminate Hp|].
  destruct (String.eqb (item_display it) "none"); [exact (IH _ _ _ _ _ Hpq Hp Hq)|].
  destruct q as [|q]; [lia|]. cbn in Hq. destruct p as [|p].
  - injection Hp as <-. apply list_elem_of_lookup_2 in Hq.
    apply elem_of_visible_from in Hq as [Hle _]. lia.
  - cbn in Hp. apply (IH (S k) p q); [lia | exact Hp | exact Hq].
Qed.

Lemma indexOf_bounds (x : nat) (xs : list nat) : -1 ≤ indexOf x xs < Z.of_nat (length xs).
Proof.
  induction xs as [|y r IH]; cbn [indexOf length]; [lia|].
  destruct (decide (y = x)); [lia|]. destruct (indexOf x r <? 0) eqn:H; lia.
Qed.

Lemma indexOf_lookup (xs : list nat) :
  NoDup xs → ∀ p x, xs !! p = Some x → indexOf x xs = Z.of_nat p.
Proof.
  induction 1 as [|y r Hy _ IH]; intros p x Hp; [discriminate Hp|].
  cbn [indexOf]. destruct p as [|p]; cbn in Hp.
  - injection Hp as ->. rewrite decide_True by reflexivity. reflexivity.
  - rewrite decide_False.
    + rewrite (IH p x Hp). destruct (Z.of_nat p <? 0) eqn:H; lia.
    + intros ->. apply Hy. eapply list_elem_of_lookup_2. exact Hp.
Qed.

Lemma visible_listed (l : Local) (c : Content) (i : nat) :
  content (el l) = Some c → visible l i ↔ i ∈ visibleItems c.
Proof.
  intros Hc. unfold visible, options_of, visibleItems. rewrite Hc.
  rewrite elem_of_visible_from, Nat.sub_0_r. split; [intros H; split; [lia | exact H]|].
  intros [_ H]. exact H.
Qed.

Lemma focused_visible (c : Content) (i : nat) :
  i ∈ visibleItems c → focused_item c (focus_item i) = Some i.
Proof.
  intros [_ (it & Hit & _)]%elem_of_visible_from. rewrite Nat.sub_0_r in Hit.
  cbn. rewrite decide_True; [reflexivity|]. eapply lookup_lt_Some. exact Hit.
Qed.

(** The index an arrow key computes is a position of the list of the
    displayed options. *)
Lemma next_index_bounds (key : string) (c : Content) (focus : Focus) :
  visibleItems c ≠ [] →
  0 ≤ next_index key c focus < Z.of_nat (length (visibleItems c)).
Proof.
  intros Hne. unfold next_index.
  assert (Hn : 0 < Z.of_nat (length (visibleItems c))).
  { destruct (visibleItems c); [contradiction | cbn [length]; lia]. }
  destruct (focused_item c focus) as [i|]; [|lia].
  pose proof (indexOf_bounds i (visibleItems c)) as Hb. cbv zeta.
  set (n := Z.of_nat (length (visibleItems c))) in *.
  set (k := indexOf i (visibleItems c)) in *.
  destruct (String.eqb key "ArrowDown").
  - apply Z.rem_bound_pos; lia.
  - destruct (decide (0 ≤ k - 1 + n)) as [Hpos|Hneg]; [apply Z.rem_bound_pos; lia|].
    assert (k = -1 ∧ n = 1) as [Hk Hn1] by lia. rewrite Hk, Hn1.
    change (Z.rem (-1 - 1 + 1) 1) with 0. lia.
Qed.

Lemma arrow_key_runs (l : Local) (c : Content) (key : string) (focus : Focus) (j : nat) :
  bound_content (inst l) = true → content (el l) = Some c → arrow_key key →
  visibleItems c !! Z.to_nat (next_index key c focus) = Some j →
  handleContentKeydown key focus l = (inl (focus_item j), l).
Proof.
  intros Hbc Hc Hkey Hj.
  assert (Hne : visibleItems c ≠ []) by (intros H; rewrite H in Hj; discriminate Hj).
  pose proof (next_index_bounds key c focus Hne) as Hb.
  unfold handleContentKeydown.
  assert (Harrow : String.eqb key "ArrowDown" || String.eqb key "ArrowUp" = true)
    by (destruct Hkey as [-> | ->]; reflexivity).
  rewrite Harrow. unfold the_content. rewrite !L_bind_unfold. cbn [get ret].
  rewrite Hbc, Hc. cbn [ret].
  destruct (length (visibleItems c) =? 0)%nat eqn:Hlen.
  { apply Nat.eqb_eq in Hlen. destruct (visibleItems c); [contradiction | discriminate]. }
  cbv zeta. fold (next_index key c focus).
  destruct (next_index key c focus <? 0) eqn:Hneg; [lia|]. rewrite Hj. reflexivity.
Qed.

End Arrows.

(** X25.  An arrow key moves the focus to a displayed option.  On an
    instance with its content, [ArrowDown] and [ArrowUp] return and change
    nothing in the instance or its element.  With no option displayed the
    focus stays where it is.  Otherwise the focus goes to a displayed
    option, wherever it was; when no option had the focus, it goes to the
    first displayed option. *)
Theorem arrow_keys_focus_a_displayed_option (l : SelectBox.Local) (c : SelectBox.Content)
    (key : string) (focus : SelectKeys.Focus) :
  SelectBox.bound_content (SelectBox.inst l) = true →
  SelectBox.content (SelectBox.el l) = Some c → arrow_key key →
  ((∀ i, ¬ visible l i) → SelectKeys.handleContentKeydown key focus l = (inl focus, l))
  ∧ ((∃ i, visible l i) →
     ∃ j, SelectKeys.handleContentKeydown key focus l = (inl (SelectKeys.focus_item j), l)
       ∧ visible l j
       ∧ ((∀ i, focus ≠ SelectKeys.focus_item i) → ∀ k, visible l k → (j ≤ k)%nat)).
Proof.
  intros Hbc Hc Hkey. split.
  - intros Hnone.
    assert (Hnil : SelectKeys.visibleItems c = []).
    { destruct (SelectKeys.visibleItems c) as [|i r] eqn:Hv; [reflexivity|].
      exfalso. apply (Hnone i). apply (visible_listed l c i Hc). rewrite Hv. left. }
    unfold SelectKeys.handleContentKeydown.
    assert (Harrow : String.eqb key "ArrowDown" || String.eqb key "ArrowUp" = true)
      by (destruct Hkey as [-> | ->]; reflexivity).
    rewrite Harrow. unfold SelectBox.the_content. rewrite !L_bind_unfold.
    cbn [SelectBox.get SelectBox.ret]. rewrite Hbc, Hc. cbn [SelectBox.ret].
    rewrite Hnil. reflexivity.
  - intros [i Hi]. apply (visible_listed l c i Hc) in Hi.
    assert (Hne : SelectKeys.visibleItems c ≠ []) by (intros H; rewrite H in Hi; inversion Hi).
    pose proof (next_index_bounds key c focus Hne) as Hb.
    destruct (lookup_lt_is_Some_2 (SelectKeys.visibleItems c)
                (Z.to_nat (next_index key c focus)) ltac:(lia)) as [j Hj].
    exists j. split; [exact (arrow_key_runs l c key focus j Hbc Hc Hkey Hj)|].
    split; [apply (visible_listed l c j Hc); eapply list_elem_of_lookup_2; exact Hj|].
    intros Hfocus k Hk. apply (visible_listed l c k Hc) in Hk.
    apply list_elem_of_lookup_1 in Hk as [q Hq].
    assert (Hzero : next_index key c focus = 0).
    { unfold next_index. destruct focus as [i0| |]; [destruct (Hfocus i0 eq_refl)| |];
        reflexivity. }
    rewrite Hzero in Hj. change (Z.to_nat 0) with 0%nat in Hj.
    destruct q as [|q]; [rewrite Hj in Hq; injection Hq; lia|].
    pose proof (visible_from_increasing _ 0 0 (S q) j k ltac:(lia) Hj Hq). lia.
Qed.

Lemma arrow_keys_focus_a_displayed_option_witness :
  SelectKeys.handleContentKeydown "ArrowDown" (SelectKeys.focus_item 0) filtered_local
  = (inl (SelectKeys.focus_item 2), filtered_local).
Proof.
  assert (Hb : SelectBox.bound_content (SelectBox.inst filtered_local) = true)
    by (vm_compute; reflexivity).
  destruct (SelectBox.content (SelectBox.el filtered_local)) as [c|] eqn:Hc;
    [|vm_compute in Hc; discriminate Hc].
  destruct (arrow_keys_focus_a_displayed_option filtered_local c "ArrowDown"
              (SelectKeys.focus_item 0) Hb Hc (or_introl eq_refl)) as [_ Hsome].
  destruct Hsome as (j & Hrun & _).
  { exists 0%nat. eexists. split; [vm_compute; reflexivity|]. vm_compute. discriminate. }
  rewrite Hrun. vm_compute in Hrun. injection Hrun as <-. reflexivity.
Defined.

(** X26.  [ArrowUp] undoes [ArrowDown].  On an instance with its
    content and the focus on a displayed option, [ArrowDown] moves the
    focus to a displayed option from which [ArrowUp] moves it back.  The
    option [ArrowDown] reaches is the next displayed option below; from the
    last displayed option it is the first one. *)
Theorem arrow_up_undoes_arrow_down (l : SelectBox.Local) (i : nat) :
  SelectBox.bound_content (SelectBox.inst l) = true → visible l i →
  ∃ j, SelectKeys.handleContentKeydown "ArrowDown" (SelectKeys.focus_item i) l
       = (inl (SelectKeys.focus_item j), l)
    ∧ SelectKeys.handleContentKeydown "ArrowUp" (SelectKeys.focus_item j) l
      = (inl (SelectKeys.focus_item i), l)
    ∧ visible l j
    ∧ ((∃ k, visible l k ∧ (i < k)%nat) →
       (i < j)%nat ∧ ∀ k, visible l k → (i < k)%nat → (j ≤ k)%nat)
    ∧ ((∀ k, visible l k → (k ≤ i)%nat) → ∀ k, visible l k → (j ≤ k)%nat).
Proof.
  intros Hbc Hi.
  destruct (SelectBox.content (SelectBox.el l)) as [c|] eqn:Hc;
    [|destruct Hi as (it & Hit & _); unfold options_of in Hit; rewrite Hc in Hit;
      discriminate Hit].
  set (vis := SelectKeys.visibleItems c).
  assert (Hlisted : ∀ k, visible l k ↔ k ∈ vis) by (intros k; apply visible_listed, Hc).
  pose proof (NoDup_visible_from (SelectBox.items c) 0) as Hnd. fold vis in Hnd.
  assert (Hinc : ∀ p q a b, (p < q)%nat → vis !! p = Some a → vis !! q = Some b →
                            (a < b)%nat) by apply visible_from_increasing.
  assert (Hmono : ∀ p q a b, vis !! p = Some a → vis !! q = Some b → (a < b)%nat →
                             (p < q)%nat).
  { intros p q a b Hp Hq Hab. destruct (decide (p < q)%nat) as [|Hge]; [assumption|].
    destruct (decide (p = q)) as [->|Hne]; [rewrite Hp in Hq; injection Hq; lia|].
    pose proof (Hinc q p b a ltac:(lia) Hq Hp). lia. }
  apply Hlisted in Hi. pose proof Hi as Hp. apply list_elem_of_lookup_1 in Hp as [p Hp].
  pose proof (lookup_lt_Some _ _ _ Hp) as Hlt.
  set (n := length vis) in *.
  set (q := if decide (S p < n)%nat then S p else 0%nat).
  assert (Hq : (q < n)%nat) by (unfold q; destruct (decide _); lia).
  destruct (lookup_lt_is_Some_2 vis q Hq) as [j Hj].
  assert (Hjin : j ∈ vis) by (eapply list_elem_of_lookup_2; exact Hj).
  assert (Hdown : next_index "ArrowDown" c (SelectKeys.focus_item i) = Z.of_nat q).
  { unfold next_index. rewrite (focused_visible c i Hi). cbv zeta. fold vis.
    rewrite (indexOf_lookup vis Hnd p i Hp). cbn [String.eqb Ascii.eqb Bool.eqb]. fold n.
    unfold q. destruct (decide (S p < n)%nat).
    - rewrite Z.rem_small by lia. lia.
    - replace (Z.of_nat p + 1) with (Z.of_nat n) by lia. rewrite Z.rem_same by lia. lia. }
  assert (Hup : next_index "ArrowUp" c (SelectKeys.focus_item j) = Z.of_nat p).
  { unfold next_index. rewrite (focused_visible c j Hjin). cbv zeta. fold vis.
    rewrite (indexOf_lookup vis Hnd q j Hj). cbn [String.eqb Ascii.eqb Bool.eqb]. fold n.
    unfold q. destruct (decide (S p < n)%nat).
    - replace (Z.of_nat (S p) - 1 + Z.of_nat n) with (Z.of_nat p + 1 * Z.of_nat n) by lia.
      rewrite Z.rem_add by nia. apply Z.rem_small. lia.
    - rewrite Z.rem_small by lia. lia. }
  exists j. split.
  { apply (arrow_key_runs l c "ArrowDown" _ j Hbc Hc (or_introl eq_refl)).
    rewrite Hdown, Nat2Z.id. exact Hj. }
  split.
  { apply (arrow_key_runs l c "ArrowUp" _ i Hbc Hc (or_intror eq_refl)).
    rewrite Hup, Nat2Z.id. exact Hp. }
  split; [apply Hlisted, Hjin|].
  split.
  - intros (k & Hk & Hik). apply Hlisted in Hk.
    apply list_elem_of_lookup_1 in Hk as [r Hr].
    pose proof (Hmono p r i k Hp Hr Hik) as Hpr.
    pose proof (lookup_lt_Some _ _ _ Hr) as Hrn. fold n in Hrn.
    assert (Hqs : q = S p) by (unfold q; rewrite decide_True by lia; reflexivity).
    rewrite Hqs in Hj. split; [apply (Hinc p (S p) i j); [lia | exact Hp | exact Hj]|].
    intros k' Hk' Hik'. apply Hlisted in Hk'.
    apply list_elem_of_lookup_1 in Hk' as [r' Hr'].
    pose proof (Hmono p r' i k' Hp Hr' Hik') as Hpr'.
    destruct (decide (r' = S p)) as [->|Hne]; [rewrite Hj in Hr'; injection Hr'; lia|].
    pose proof (Hinc (S p) r' j k' ltac:(lia) Hj Hr'). lia.
  - intros Hlast k Hk. apply Hlisted in Hk. apply list_elem_of_lookup_1 in Hk as [r Hr].
    assert (Hq0 : q = 0%nat).
    { unfold q. destruct (decide (S p < n)%nat) as [Hs|]; [|reflexivity]. exfalso.
      destruct (lookup_lt_is_Some_2 vis (S p) Hs) as [b Hb].
      pose proof (Hinc p (S p) i b ltac:(lia) Hp Hb).
      pose proof (Hlast b ltac:(apply Hlisted; eapply list_elem_of_lookup_2; exact Hb)).
      lia. }
    rewrite Hq0 in Hj. destruct r as [|r]; [rewrite Hj in Hr; injection Hr; lia|].
    pose proof (Hinc 0%nat (S r) j k ltac:(lia) Hj Hr). lia.
Qed.

Lemma arrow_up_undoes_arrow_down_witness :
  ∃ j, SelectKeys.handleContentKeydown "ArrowDown" (SelectKeys.focus_item 2) filtered_local
       = (inl (SelectKeys.focus_item j), filtered_local)
    ∧ SelectKeys.handleContentKeydown "ArrowUp" (SelectKeys.focus_item j) filtered_local
      = (inl (SelectKeys.focus_item 2), filtered_local).
Proof.
  assert (Hb : SelectBox.bound_content (SelectBox.inst filtered_local) = true)
    by (vm_compute; reflexivity).
  assert (Hv : visible filtered_local 2).
  { eexists. split; [vm_compute; reflexivity|]. vm_compute. discriminate. }
  destruct (arrow_up_undoes_arrow_down filtered_local 2 Hb Hv) as (j & Hd & Hu & _).
  exists j. split; [exact Hd | exact Hu].
Defined.

(** ** Selection control: the Escape key *)

(** X27.  [Escape] in the list.  On an instance with its content: when
    the content has a search field, [Escape] with the focus on an option
    moves the focus to the search field and does nothing else, and [Escape]
    with the focus on the search field closes the popover and sets the timer
    that focuses the trigger, when the page defines [window.closePopover],
    and does nothing otherwise; when the content has no search field,
    [Escape] does nothing, wherever the focus is. *)
Theorem escape_in_the_list (l : SelectBox.Local) (c : SelectBox.Content) :
  SelectBox.bound_content (SelectBox.inst l) = true →
  SelectBox.content (SelectBox.el l) = Some c →
  (is_Some (SelectBox.search c) →
   (∀ i, (i < length (SelectBox.items c))%nat →
         SelectKeys.handleContentKeydown "Escape" (SelectKeys.focus_item i) l
         = (inl SelectKeys.focus_search, l))
   ∧ ∃ l', SelectKeys.handleContentKeydown "Escape" SelectKeys.focus_search l
           = (inl SelectKeys.focus_search, l')
       ∧ SelectBox.inst l' = SelectBox.inst l ∧ SelectBox.el l' = SelectBox.el l
       ∧ SelectBox.out l'
         = (SelectBox.out l
            ++ if SelectBox.has_closePopover l
               then [SelectBox.closePopover;
                     SelectBox.setTimeout SelectBox.focus_trigger 50]
               else [])%list)
  ∧ (SelectBox.search c = None →
     ∀ focus, SelectKeys.handleContentKeydown "Escape" focus l = (inl focus, l)).
Proof.
  intros Hbc Hc. destruct l as [ins e cp o].
  cbn [SelectBox.inst SelectBox.el SelectBox.out SelectBox.has_closePopover] in *.
  unfold SelectKeys.handleContentKeydown, SelectBox.the_content.
  change (String.eqb "Escape" "ArrowDown" || String.eqb "Escape" "ArrowUp") with false.
  change (String.eqb "Escape" "Enter") with false.
  change (String.eqb "Escape" "Escape") with true. cbv iota.
  split.
  - intros [s Hs]. split.
    + intros i Hi. exec. rewrite Hbc, Hc. cbn. rewrite Hs.
      rewrite decide_True by exact Hi. reflexivity.
    + exec. rewrite Hbc, Hc. cbn. rewrite Hs. destruct cp; cbn.
      * eexists. split; [reflexivity|]. cbn. rewrite <- app_assoc. done.
      * eexists. split; [reflexivity|]. cbn. rewrite app_nil_r. done.
  - intros Hnone focus. exec. rewrite Hbc, Hc. cbn. rewrite Hnone.
    destruct focus as [i| |]; cbn; [destruct (decide _)| |]; reflexivity.
Qed.

Lemma escape_in_the_list_witness :
  SelectKeys.handleContentKeydown "Escape" (SelectKeys.focus_item 1) (abc_local false false)
  = (inl SelectKeys.focus_search, abc_local false false).
Proof.
  assert (Hb : SelectBox.bound_content (SelectBox.inst (abc_local false false)) = true)
    by (vm_compute; reflexivity).
  destruct (SelectBox.content (SelectBox.el (abc_local false false))) as [c|] eqn:Hc;
    [|vm_compute in Hc; discriminate Hc].
  destruct (escape_in_the_list (abc_local false false) c Hb Hc) as [Hsearch _].
  assert (Hitems : SelectBox.search c = Some "" ∧ length (SelectBox.items c) = 3%nat).
  { vm_compute in Hc. injection Hc as <-. split; reflexivity. }
  destruct Hitems as [Hs Hlen].
  destruct (Hsearch (ex_intro _ _ Hs)) as [Hitem _].
  apply Hitem. rewrite Hlen. lia.
Defined.

(** ** Selection control: construction of a complete element *)
Section Constructing.
Import SelectBox.




End Constructing.



(** ** Selection control: the search field *)
Section Searching.
Import SelectBox.

Lemma prefix_spec (t : string) :
  ∀ s, String.prefix t s = true ↔ ∃ b, s = String.append t b.
Proof.
  induction t as [|c t IH]; intros s.
  - split; [intros _; exists s; reflexivity | intros _; destruct s; reflexivity].
  - destruct s as [|d s]; cbn [String.prefix].
    + split; [discriminate | intros [b Hb]; discriminate Hb].
    + destruct (Ascii.ascii_dec c d) as [->|Hne].
      * rewrite IH. split; intros [b Hb]; exists b.
        -- rewrite Hb. reflexivity.
        -- injection Hb as ->. reflexivity.
      * split; [discriminate|]. intros [b Hb]. injection Hb as -> _. contradiction.
Qed.

Lemma includes_spec (t : string) :
  ∀ s, includes t s = true ↔ ∃ a b, s = String.append a (String.append t b).
Proof.
  induction s as [|c r IH]; cbn [includes].
  - rewrite orb_false_r, prefix_spec. split.
    + intros [b Hb]. exists "", b. exact Hb.
    + intros (a & b & Hab). destruct a as [|x a]; [exists b; exact Hab | discriminate Hab].
  - rewrite orb_true_iff, prefix_spec, IH. split.
    + intros [[b Hb] | (a & b & Hab)].
      * exists "", b. exact Hb.
      * exists (String c a), b. rewrite Hab. reflexivity.
    + intros (a & b & Hab). destruct a as [|x a].
      * left. exists b. exact Hab.
      * right. injection Hab as -> ->. eauto.
Qed.

End Searching.

(** X29.  What the search shows.  On an instance with its content and a
    search field, the listener of the field returns and changes nothing but
    the display of the options: an option is displayed exactly when the text
    of the field, in lower case and without the white space around it, occurs
    in the label or in the value of the option taken in lower case, and is
    hidden otherwise, whatever its display was.  Lower case and white space
    are those of [toLowerCase] and [trim] on text of code units below 256,
    the accented capitals and the no-break space included.  The selection,
    the marks of the options, the field and the trigger stay as they are, and
    nothing is dispatched. *)
Theorem search_shows_the_matching_options (l : SelectBox.Local) (c : SelectBox.Content)
    (q : string) :
  SelectBox.bound_content (SelectBox.inst l) = true →
  SelectBox.content (SelectBox.el l) = Some c → SelectBox.search c = Some q →
  let term := SelectBox.trim (SelectBox.toLowerCase q) in
  ∃ l', SelectBox.on_search_input l = (inl tt, l')
    ∧ SelectBox.inst l' = SelectBox.inst l ∧ SelectBox.out l' = SelectBox.out l
    ∧ search_field l' = Some q
    ∧ SelectBox.trigger (SelectBox.el l') = SelectBox.trigger (SelectBox.el l)
    ∧ length (options_of l') = length (SelectBox.items c)
    ∧ ∀ k it, SelectBox.items c !! k = Some it →
        ∃ it', options_of l' !! k = Some it'
          ∧ it' = SelectBox.set_item_display (SelectBox.item_display it') it
          ∧ (SelectBox.item_display it' = "" ∨ SelectBox.item_display it' = "none")
          ∧ (SelectBox.item_display it' = ""
             ↔ ∃ a b,
                 SelectBox.toLowerCase (default "" (SelectBox.item_text it))
                 = String.append a (String.append term b)
                 ∨ SelectBox.toLowerCase (default "" (SelectBox.data_value it))
                   = String.append a (String.append term b)).
Proof.
  intros Hbc Hc Hq term. destruct l as [i e cp o].
  cbn [SelectBox.inst SelectBox.el SelectBox.out] in *.
  destruct e as [mk sr cl tr ct]. cbn in Hc. subst ct.
  destruct c as [its sch]. cbn in Hq. subst sch.
  eexists. split.
  { unfold SelectBox.on_search_input, SelectBox.the_content. exec. rewrite Hbc.
    reflexivity. }
  unfold search_field, options_of. cbn.
  do 4 (split; [reflexivity|]). split; [apply length_fmap|].
  intros k it Hk. rewrite list_lookup_fmap, Hk. cbn. eexists. split; [reflexivity|].
  fold term. unfold SelectBox.search_visible.
  set (label := SelectBox.toLowerCase (default "" (SelectBox.item_text it))).
  set (value := SelectBox.toLowerCase (default "" (SelectBox.data_value it))).
  assert (Hshown : String.eqb term "" || SelectBox.includes term label
                   || SelectBox.includes term value = true
                   ↔ ∃ a b, label = String.append a (String.append term b)
                            ∨ value = String.append a (String.append term b)).
  { rewrite !orb_true_iff, !includes_spec. split.
    - intros [[Hempty | (a & b & H)] | (a & b & H)]; [|eauto..].
      apply String.eqb_eq in Hempty. rewrite Hempty. exists "", label. left. reflexivity.
    - intros (a & b & [H|H]); eauto. }
  destruct (String.eqb term "" || SelectBox.includes term label
            || SelectBox.includes term value) eqn:Hv; cbn.
  - split; [reflexivity|]. split; [left; reflexivity|].
    split; [intros _; apply Hshown; reflexivity | reflexivity].
  - split; [reflexivity|]. split; [right; reflexivity|].
    split; [discriminate|]. intros H. apply Hshown in H. discriminate H.
Qed.

Lemma search_shows_the_matching_options_witness :
  ∃ l', SelectBox.on_search_input ecole_local = (inl tt, l')
    ∧ SelectBox.item_display <$> options_of l' = [""; "none"].
Proof.
  assert (Hb : SelectBox.bound_content (SelectBox.inst ecole_local) = true)
    by (vm_compute; reflexivity).
  destruct (SelectBox.content (SelectBox.el ecole_local)) as [c|] eqn:Hc;
    [|vm_compute in Hc; discriminate Hc].
  assert (Hs : SelectBox.search c = Some (String " "%char (String "201"%char ""))).
  { vm_compute in Hc. injection Hc as <-. reflexivity. }
  destruct (search_shows_the_matching_options ecole_local c _ Hb Hc Hs)
    as (l' & Hrun & _).
  exists l'. split; [exact Hrun|].
  vm_compute in Hrun. injection Hrun as <-. reflexivity.
Defined.
